(* ===== verification/_CoqProject ===== *)
-Q . S2P
Prelude.v
Effects.v
Interleaving.v
Uuid.v
Domain.v
Json.v
Orm.v
OrmFacts.v
Constraints.v
Redis.v
InventoryModels.v
ApiModels.v
Migrations.v
MigrationsCorrectness.v
MigrationEnv.v
MigrationEnvCorrectness.v
Platform.v
SessionRuns.v
Kafka.v
InventoryRepository.v
Locking.v
InventoryService.v
InventoryServicer.v
GrpcStubs.v
InventorySpec.v
InventoryInvariant.v
LockingFacts.v
InventoryRefinement.v
InventoryCorrectness.v
CallBounds.v
RpcCorrectness.v
StubCorrectness.v
InventoryConcurrency.v
InventoryThreads.v
InventoryInterleavings.v
Pagination.v
ApiRepositories.v
Security.v
AuthService.v
EventService.v
BookingService.v
Workers.v
Processes.v
Logging.v
Configuration.v
ConfigurationCorrectness.v
Http.v
Routing.v
ApiRuns.v
ApiConcurrency.v
RateLimitCorrectness.v
SystemSpec.v
SystemRuns.v
BookingCorrectness.v
WorkerCorrectness.v
BusCorrectness.v
EventCorrectness.v
Checkout.v
Listings.v
AuthCorrectness.v
SystemHistory.v
HttpCorrectness.v
AppCorrectness.v
Visits.v
RateLimitConcurrency.v
SystemCalls.v
ProcessCorrectness.v
Messages.v
SystemBus.v
SystemInterleavings.v
SystemConstraints.v
