(* ===== verification/Prelude.v ===== *)
(** * EventSphere: a verification development

    EventSphere sells tickets.  Two services share one PostgreSQL server: the
    API service (FastAPI; schema [api]: users, events, orders) and the
    Inventory service (gRPC; schema [inventory]: the counters of each event and
    its reservations).  The API calls the Inventory service over gRPC to
    reserve, confirm and release seats; both publish and consume Kafka
    messages; Redis holds the locks of events, the refresh tokens of users and
    the counters of the rate limiter.

    ** How the program is modelled

    A Python function that touches the outside world is a program of
    [Effects.prog]: a finite tree of environment operations ([Platform.sys_op]:
    the two databases, Redis, Kafka, the network, the clock, the random sources,
    e-mail) that returns a value or raises an exception ([Domain.exn]).
    [Effects.run] executes a program under a handler of the operations.  The
    documented behaviour of the environment is the handler [Platform.sys_exec]
    on a [Platform.world]; a theorem is stated for every environment [impl] that
    shows that behaviour through an observation ([Effects.Platform]), and for
    every [Platform.oracle], which decides what the documentation leaves open:
    the order of query results, random draws, the texts of the gRPC runtime.
    Failures are part of the world: [kafka_up], [redis_up], the [fault] of the
    next gRPC call (lost request, lost reply).

    SQLAlchemy's session is a library the source uses on every line, so its
    documented behaviour is written out in [Orm]: identity map, changes kept in
    memory until a flush, version check of the [version_id_col], row locks
    between open transactions, constraints, commit and rollback, for any
    [Schema] of tables.

    Integers are [Z]; those that enter an [INTEGER] column or an [int32] field
    are checked against 32 bits where PostgreSQL and protobuf check them.
    Instants are microseconds.  UUIDs are 128-bit numbers, converted to and
    from text as Python's [uuid] module does ([Uuid]).

    ** Files, and the source they model (paths under src/services/)

    Foundations:
    - [Prelude]: tactics, arithmetic, lists; [Effects]: programs, runs,
      platforms, and what is said of each operation of a program ([ops]);
      [Interleaving]: programs run concurrently, with a rely/guarantee
      logic; [Uuid]; [Json];
    - [Domain]: shared/enums.py, shared/errors.py;
    - [Orm], [OrmFacts], [SessionRuns]: the session and its lemmas;
      [Constraints]: the constraints of any schema hold however sessions
      interleave; [Redis]; [Platform].

    Data:
    - [InventoryModels]: inventory/app/models.py; [ApiModels]: api/app/models/;
      each gives its mapped classes as a [Schema] (columns, unique indexes,
      checks, foreign keys);
    - [Migrations], [MigrationsCorrectness]: src/migrations/versions/, its
      operations on a catalog of tables and indexes, against the metadata of
      the mapped classes and against the constraints of the sessions;
      [MigrationEnv], [MigrationEnvCorrectness]: src/migrations/env.py, from the
      database's URL through the configuration's parser to the calls it makes
      of Alembic.

    Inventory service (inventory/app/):
    - [InventoryRepository]: repositories/inventory_repository.py;
      [Locking]: services/locking.py; [InventoryService]:
      services/inventory_service.py, core/database.py, core/config.py;
      [InventoryServicer]: grpc_handlers/inventory_servicer.py and, on the other
      side of the network, api/app/grpc_client/inventory_client.py;
      [GrpcStubs], [StubCorrectness]: shared/generated/inventory_pb2_grpc.py
      between the two, and the messages of src/proto/inventory.proto;
    - [InventorySpec]: the atomic specification of each operation on the
      committed tables; [InventoryInvariant]: the invariant it keeps;
      [InventoryRefinement]: the programs implement it; [InventoryCorrectness],
      [LockingFacts], [RpcCorrectness]: the properties of the service, its lock
      and its remote interface; [CallBounds]: how many operations a call takes,
      among any others;
    - [InventoryConcurrency], [InventoryThreads], [InventoryInterleavings]:
      calls interleaved operation by operation.

    API service (api/app/):
    - [Pagination]: shared/pagination.py; [ApiRepositories]:
      shared/db/repository.py, repositories/, db/session.py; [Security]:
      core/security.py, core/config.py; [AuthService]: services/auth_service.py;
      [EventService]: services/event_service.py, schemas/event.py;
      [BookingService]: services/booking_service.py, schemas/order.py; [Http]:
      core/rate_limit.py, core/logging.py, api/deps.py, api/v1/ (health.py
      included), schemas/, the error statuses and the middleware stack of
      main.py; [Routing]: the paths of api/v1/ and router.py;
    - [ApiRuns]: what each repository call does in a request's session;
      [RateLimitCorrectness], [AuthCorrectness]: the rate limiter, accounts and
      tokens; [Listings]: the paged listings; [ApiConcurrency]: what a
      session does to the orders while others run; [HttpCorrectness]: every route
      that touches the tables, from the token to the response;
      [AppCorrectness]: a route behind the middleware; [Visits]: the requests
      that leave the tables alone (login, refresh, logout, the listings, the
      probes) through the whole application; [RateLimitConcurrency]: a client's
      requests interleaved at the limiter.

    Messages:
    - [Kafka]: shared/kafka/ (topics, envelope, payloads, producer, consumer
      loop); [Workers]: api/app/workers/ and inventory/app/workers/.

    Processes:
    - [Configuration], [ConfigurationCorrectness]: core/config.py of both
      services, the arguments with which each process builds its clients, the
      state of the application and the getters of api/deps.py;
    - [Logging]: the calls of shared/logging.py, and what a request binds;
    - [Processes]: start and stop of the clients, the run functions of the
      workers, the lifespan of api/app/main.py, inventory/app/main.py and
      inventory/app/workers/main.py around their tasks, as programs over the
      operations of the platform and the opening and closing of connections;
      [ProcessCorrectness]: what they open, use and close.

    The whole system:
    - [SystemSpec]: the atomic effect ([effect]: answer, both databases,
      messages) of each operation that spans the services, and the relation
      [joint] that ties the databases; [SystemRuns]: the contract a program has
      towards an effect; [BookingCorrectness], [WorkerCorrectness],
      [BusCorrectness], [EventCorrectness]: the programs meet their contracts;
      [Checkout]: what the payment, order status and notification workers make
      of a booked order, one after the other;
    - [SystemHistory]: a transition system over both databases whose steps are
      those effects; [SystemCalls]: the programs, every route through the whole
      application included, make only its steps;
    - [Messages]: what a message says of the databases word by word when it is
      announced ([declares]), that every effect announces only what its tables
      then hold, and the part of it no step makes false ([tells]); [SystemBus]:
      the system closed under its bus, the workers fed from the broker's log,
      and an announced order settled by it;
    - [SystemInterleavings]: the whole system under concurrency, requests,
      deliveries and sweeps interleaved operation by operation on both
      databases; [SystemConstraints]: no interleaving breaks a unique index, a
      check or a foreign key.

    ** What the theorems show

    - Seats.  Each call of the Inventory service implements its atomic
      specification on every branch, errors included (refinement); any calls,
      one after the other, keep the counters equal to the seats of the
      reservations, and within capacity unless one cuts it; so does any interleaving of concurrent calls in which no
      two move the same reservation, and any interleaving of requests, deliveries
      and sweeps of the whole system under the same proviso; every call
      terminates, and within a number of operations fixed by the settings however
      calls interleave.  Two calls that move one reservation at once (two releases, a
      cancellation and a payment) and a capacity cut below the seats in use are
      the two ways the program oversells, both shown by computed runs.  An
      interleaving may stop any activity at any operation, its sessions dropped:
      what holds of it holds when a process crashes.
    - Lock and network.  The lock is taken within its attempts or given up, and
      deleted only by its owner; a remote call gives the specification's
      outcome, or an error with the work done or not done; a call through the
      generated stub, the wire and the server's table is the direct call of the
      handler of its name.
    - Orders.  A booking, a cancellation, a payment and an expiry each have
      their effect on both databases and the bus and no other; a booked order is
      backed by a reservation; a replay under an idempotency key books nothing;
      a redelivered payment changes nothing; the messages of a booked order
      bring it to its ticket or its refusal.
    - Bus.  The consumer sees the messages of each partition in order until it
      is stopped, survives failures of handlers and commits, and a restart
      resumes every partition where the last commit left it; a turn of the
      reaper expires what is overdue and announces it; each message has one
      worker.
    - System.  Every run of the programs, from any databases in order, is a
      history of the transition system; in every history orders and
      reservations correspond, no event is oversold unless its capacity is cut,
      and an order only moves forward.  Closed under its own messages, delivered
      in any order and any number of times, the system always goes on, and its
      messages said what was so when they were published, its e-mails what became
      of the order.
    - Requests.  Each path leads to its route alone.  Each route has the effect
      of its service and no other, for the callers it is meant for; a refusal
      changes nothing; the middleware counts, signs and turns what nobody
      handles into a 500.  Pages of a listing are
      windows of one sorted list as long as its order has no ties.
    - Accounts.  A login authenticates its user; refresh tokens rotate and are
      revoked at logout; the rate limiter lets exactly its quota through in a
      window, and no more when the requests interleave.
    - Processes.  A worker, the reaper and the API use a connection only while
      it is open and close what their cleanup guards; what a connection refused
      before that leaves open is said.  Every Kafka client is built from the
      settings of its service; both services read one database out of one
      environment, and the migrations the same if the environment itself names
      it, in capitals.
    - Schema.  The migration builds the tables of the mapped classes, its
      downgrade removes them, the version table says which of the two came
      last, a percent-encoded URL is refused; the sessions of the model enforce
      exactly the constraints of those tables.  They hold in every committed state of any
      interleaving: two bookings sent at once under one key make one order.

    ** Bounds and fuel

    The loops of the source are bounded by settings and are structural here:
    the optimistic retries of [InventoryRepository.reserve] by
    [optimistic_retry_attempts], the lock's by its [retry_attempts].  The
    consumer's and the reaper's endless loops take the number of messages or
    turns; theorems hold for every number.  A page is asked for with its first
    row within PostgreSQL's bigints; beyond it the query fails ([bind_bigint]).  Termination theorems say that
    [run] gives a result, never only that a result is right.

    ** Parameters

    The wire format of protobuf ([GrpcStubs.Protobuf], with the round trip of
    [ProtobufOk]), pydantic's choice of a field's variable and reading of numbers
    ([Configuration.Pydantic], with [PydanticOk]: names match up to case), what
    aiokafka accepts of a producer's options, Alembic's selection and run of the
    revisions and its version table ([MigrationEnv.Alembic], with [AlembicOk]),
    bcrypt and PyJWT ([Security.Crypto], with the laws of [CryptoOk]: a hash
    verifies its own password, a signed token decodes to its claims until it
    expires), PostgreSQL's [ILIKE] ([ApiRepositories.Collation]), the headers
    Starlette's CORS middleware adds, Python's text of a library's exception.
    They are instantiated where a witness needs them.

    ** Not modelled

    - asyncio's TaskGroup, signals and cancellation, the gRPC health service and
      reflection, in the entry points;
    - structlog, and the log calls of the services: no state depends on them, and
      they are taken to return, as they do under a configuration whose
      processors suit its loggers;
    - shared/generated/inventory_pb2.py: a serialized descriptor, whose messages
      are records with their integer fields checked;
    - of src/migrations/env.py, the logging section of alembic.ini;
    - the parsing of requests by FastAPI: the routes of [Http] take the values
      the declared schemas let through, and [Routing] has the paths that match,
      not what the framework answers to those that do not. *)
From Stdlib Require Export Ascii ZArith Lia.
From stdpp Require Export base countable fin_maps gmap strings pretty.
From stdpp Require Export sorting list.

#[global] Open Scope Z_scope.

(** ** Tactics of the development *)

(** Split a hypothesis that equates two results or two options. *)
Ltac invert H := inversion H; subst; clear H.

(** Case analysis on every [match] whose scrutinee is stuck in the goal. *)
Ltac case_goal :=
  match goal with
  | |- context [match ?x with _ => _ end] => destruct x eqn:?
  end.

(** Case analysis on a stuck [match] of a hypothesis. *)
Ltac case_hyp H :=
  match type of H with
  | context [match ?x with _ => _ end] => destruct x eqn:?
  end.

(** Boolean comparisons on [Z] to propositions. *)
Ltac zify_bools :=
  repeat match goal with
  | H : (_ <? _) = true |- _ => apply Z.ltb_lt in H
  | H : (_ <? _) = false |- _ => apply Z.ltb_ge in H
  | H : (_ <=? _) = true |- _ => apply Z.leb_le in H
  | H : (_ <=? _) = false |- _ => apply Z.leb_gt in H
  | H : (_ =? _) = true |- _ => apply Z.eqb_eq in H
  | H : (_ =? _) = false |- _ => apply Z.eqb_neq in H
  | H : (_ && _)%bool = true |- _ => apply andb_true_iff in H as [? ?]
  end.

(** The 32-bit signed range of a PostgreSQL [INTEGER] column and of a
    protobuf [int32] field. *)
Definition int32_min : Z := - 2 ^ 31.
Definition int32_max : Z := 2 ^ 31 - 1.
Definition int32_ok (z : Z) : bool := (int32_min <=? z) && (z <=? int32_max).

Lemma int32_ok_spec z : int32_ok z = true ↔ int32_min ≤ z ≤ int32_max.
Proof.
  unfold int32_ok. rewrite andb_true_iff, !Z.leb_le. reflexivity.
Qed.

(** The 64-bit signed range of a PostgreSQL [BIGINT]. *)
Definition int64_ok (z : Z) : bool := (- 2 ^ 63 <=? z) && (z <=? 2 ^ 63 - 1).

#[global] Instance from_option_dec {A} (P : A → Prop) (Q : Prop) o :
  (∀ x, Decision (P x)) → Decision Q → Decision (from_option P Q o).
Proof. destruct o; apply _. Defined.

(** ** Sums over finite maps *)
Section total.
Context {K V : Type} `{Countable K}.
Implicit Types (w : V → Z) (m : gmap K V).

(** The sum of [w] over the rows of a table. *)
Definition total w m : Z := map_fold (λ _ v acc, w v + acc) 0 m.

(** The weight of a row that may be absent. *)
Definition oweight w (o : option V) : Z := from_option w 0 o.

Lemma total_empty w : total w ∅ = 0.
Proof. unfold total. apply map_fold_empty. Qed.

Lemma total_insert_fresh w m k v :
  m !! k = None → total w (<[k:=v]> m) = w v + total w m.
Proof.
  intros Hk. unfold total. rewrite map_fold_insert_L; [done | | done].
  intros. lia.
Qed.

Lemma total_delete w m k : total w (delete k m) = total w m - oweight w (m !! k).
Proof.
  destruct (m !! k) as [v|] eqn:Hk; simpl.
  - rewrite <- (insert_delete_id m k v) at 2 by done.
    rewrite total_insert_fresh by apply lookup_delete_eq. lia.
  - rewrite delete_id by done. lia.
Qed.

Lemma total_insert w m k v :
  total w (<[k:=v]> m) = total w m - oweight w (m !! k) + w v.
Proof.
  rewrite <- insert_delete_eq, total_insert_fresh by apply lookup_delete_eq.
  rewrite total_delete. lia.
Qed.

Lemma total_nonneg w m :
  (∀ k v, m !! k = Some v → 0 ≤ w v) → 0 ≤ total w m.
Proof.
  induction m as [|k v m Hk IH] using map_ind; intros Hw.
  - rewrite total_empty. lia.
  - rewrite total_insert_fresh by done.
    assert (0 ≤ w v) by (apply (Hw k); apply lookup_insert_eq).
    assert (0 ≤ total w m); [|lia].
    apply IH. intros k' v' Hk'. apply (Hw k').
    rewrite lookup_insert_ne; congruence.
Qed.

Lemma total_ext w1 w2 m :
  (∀ k v, m !! k = Some v → w1 v = w2 v) → total w1 m = total w2 m.
Proof.
  induction m as [|k v m Hk IH] using map_ind; intros Hw.
  - by rewrite !total_empty.
  - rewrite !total_insert_fresh by done.
    rewrite (Hw k v) by apply lookup_insert_eq. f_equal.
    apply IH. intros k' v' Hk'. apply (Hw k').
    rewrite lookup_insert_ne; congruence.
Qed.

Lemma total_plus w1 w2 m :
  total (λ v, w1 v + w2 v) m = total w1 m + total w2 m.
Proof.
  induction m as [|k v m Hk IH] using map_ind.
  - by rewrite !total_empty.
  - rewrite !total_insert_fresh by done. lia.
Qed.

(** A row's weight is at most the sum when every weight is non-negative. *)
Lemma total_lookup_le w m k v :
  (∀ k v, m !! k = Some v → 0 ≤ w v) → m !! k = Some v → w v ≤ total w m.
Proof.
  intros Hw Hk. rewrite <- (insert_delete_id m k v) by done.
  rewrite total_insert_fresh by apply lookup_delete_eq.
  assert (0 ≤ total w (delete k m)); [|lia].
  apply total_nonneg. intros k' v' Hk'.
  apply lookup_delete_Some in Hk' as [_ Hk']. eauto.
Qed.

(** When only the row at [k] can weigh, the sum is its weight. *)
Lemma total_single w m k :
  (∀ k' v, m !! k' = Some v → k' ≠ k → w v = 0) → total w m = oweight w (m !! k).
Proof.
  intros Hw. assert (Hz : total w (delete k m) = 0).
  { rewrite (total_ext w (λ _, 0)).
    - generalize (delete k m) as m'. induction m' using map_ind.
      + apply total_empty.
      + rewrite total_insert_fresh; done.
    - intros k' v Hk'. apply lookup_delete_Some in Hk' as [? ?]. eauto. }
  rewrite total_delete in Hz. lia.
Qed.
End total.

(** ** Hints of the development *)
Create HintDb eventsphere.
#[export] Hint Resolve lookup_insert_eq lookup_delete_eq lookup_empty : eventsphere.
Create Rewrite HintDb totals.
#[export] Hint Rewrite @total_empty @total_insert @total_delete : totals.

(** ** Strings *)
Notation "s1 +s s2" := (String.append s1 s2) (at level 60, right associativity).
