(* ===== verification/Effects.v ===== *)
(** * Effectful programs

    Python calls return or raise: [result].  Code that talks to the outside
    world is a program, a finite tree of environment operations; [try],
    [finally] and loops over lists are combinators on programs.  A handler gives
    the operations a meaning in a state, [run] executes a program, and a
    [Platform] is any environment that shows a documented behaviour. *)
From S2P Require Import Prelude.

(** The outcome of a Python call: a value or a raised exception. *)
Inductive result (X A : Type) : Type :=
| Ok (a : A)
| Err (e : X).
Arguments Ok {X A} a.
Arguments Err {X A} e.

#[global] Instance result_eq_dec {X A} `{EqDecision X, EqDecision A} : EqDecision (result X A).
Proof. solve_decision. Defined.

Definition is_ok {X A} (r : result X A) : bool := match r with Ok _ => true | Err _ => false end.

(** A program over a signature [E] of environment operations that may raise
    an exception of type [X].  Programs are finite trees: every loop of the
    modelled code is bounded by a retry count or by the list it traverses. *)
Inductive prog (E : Type → Type) (X A : Type) : Type :=
| Ret (a : A)
| Raise (e : X)
| Vis {B : Type} (op : E B) (k : B → prog E X A).
Arguments Ret {E X A} a.
Arguments Raise {E X A} e.
Arguments Vis {E X A B} op k.

Section combinators.
Context {E : Type → Type} {X : Type}.

Fixpoint bind {A C} (p : prog E X A) (f : A → prog E X C) : prog E X C :=
  match p with
  | Ret a => f a
  | Raise e => Raise e
  | Vis op k => Vis op (λ b, bind (k b) f)
  end.

Definition trigger {B} (op : E B) : prog E X B := Vis op Ret.

(** Runs a program to its outcome, turning an exception into a value: what
    [try] does before choosing an [except] clause. *)
Fixpoint attempt {A} (p : prog E X A) : prog E X (result X A) :=
  match p with
  | Ret a => Ret (Ok a)
  | Raise e => Ret (Err e)
  | Vis op k => Vis op (λ b, attempt (k b))
  end.

Definition of_result {A} (r : result X A) : prog E X A :=
  match r with Ok a => Ret a | Err e => Raise e end.

(** [try: p  except: handler] *)
Definition try_except {A} (p : prog E X A) (handler : X → prog E X A) : prog E X A :=
  bind (attempt p) (λ r, match r with Ok a => Ret a | Err e => handler e end).

(** [try: p  finally: cleanup] *)
Definition try_finally {A} (p : prog E X A) (cleanup : prog E X unit) : prog E X A :=
  bind (attempt p) (λ r, bind cleanup (λ _, of_result r)).

(** [for x in xs: acc.append(f(x))] *)
Fixpoint for_each {A C} (f : A → prog E X C) (xs : list A) : prog E X (list C) :=
  match xs with
  | [] => Ret []
  | x :: xs => bind (f x) (λ y, bind (for_each f xs) (λ ys, Ret (y :: ys)))
  end.
End combinators.

Declare Scope prog_scope.
Delimit Scope prog_scope with prog.
Notation "x <- c ;; k" := (bind c (λ x, k))
  (at level 100, c at next level, right associativity) : prog_scope.
Notation "c ;; k" := (bind c (λ _, k)) (at level 100, right associativity) : prog_scope.
#[global] Open Scope prog_scope.

(** ** Handlers and sequential execution *)

(** A handler answers each operation in a state; [None] means that the
    operation has to wait (a row lock is held by another transaction). *)
Definition handler (E : Type → Type) (S : Type) : Type :=
  ∀ B : Type, E B → S → option (B * S).

Section run.
Context {E : Type → Type} {X S : Type} (h : handler E S).

Fixpoint run {A} (p : prog E X A) (s : S) : option (result X A * S) :=
  match p with
  | Ret a => Some (Ok a, s)
  | Raise e => Some (Err e, s)
  | Vis op k =>
      match h _ op s with
      | Some (b, s') => run (k b) s'
      | None => None
      end
  end.

Lemma run_bind {A C} (p : prog E X A) (f : A → prog E X C) s :
  run (bind p f) s =
    match run p s with
    | Some (Ok a, s') => run (f a) s'
    | Some (Err e, s') => Some (Err e, s')
    | None => None
    end.
Proof.
  revert s. induction p as [a|e|B op k IH]; intros s; simpl; try done.
  destruct (h B op s) as [[b s']|]; auto.
Qed.

Lemma run_bind_assoc {A C D} (p : prog E X A) (f : A → prog E X C) (g : C → prog E X D) s :
  run (bind (bind p f) g) s = run (bind p (λ a, bind (f a) g)) s.
Proof. rewrite !run_bind. destruct (run p s) as [[[a|e] s']|]; [by rewrite run_bind|done..]. Qed.

Lemma run_bind_unit (p : prog E X unit) s : run (bind p (λ _, Ret tt)) s = run p s.
Proof. rewrite run_bind. by destruct (run p s) as [[[[]|e] s']|]. Qed.

Lemma run_bind_ext {A C} (p : prog E X A) (f g : A → prog E X C) s :
  (∀ a s', run (f a) s' = run (g a) s') → run (bind p f) s = run (bind p g) s.
Proof. intros H. rewrite !run_bind. by destruct (run p s) as [[[a|e] s']|]. Qed.

Lemma run_attempt {A} (p : prog E X A) s :
  run (attempt p) s =
    match run p s with
    | Some (r, s') => Some (Ok r, s')
    | None => None
    end.
Proof.
  revert s. induction p as [a|e|B op k IH]; intros s; simpl; try done.
  destruct (h B op s) as [[b s']|]; auto.
Qed.

Lemma run_trigger {B} (op : E B) s :
  run (trigger op) s =
    match h _ op s with Some (b, s') => Some (Ok b, s') | None => None end.
Proof. done. Qed.

Lemma run_of_result {A} (r : result X A) s : run (of_result r) s = Some (r, s).
Proof. by destruct r. Qed.

Lemma run_try_except {A} (p : prog E X A) hd s :
  run (try_except p hd) s =
    match run p s with
    | Some (Ok a, s') => Some (Ok a, s')
    | Some (Err e, s') => run (hd e) s'
    | None => None
    end.
Proof.
  unfold try_except. rewrite run_bind, run_attempt.
  by destruct (run p s) as [[[a|e] s']|].
Qed.

Lemma run_try_finally {A} (p : prog E X A) cleanup s :
  run (try_finally p cleanup) s =
    match run p s with
    | Some (r, s') =>
        match run cleanup s' with
        | Some (Ok _, s'') => Some (r, s'')
        | Some (Err e, s'') => Some (Err e, s'')
        | None => None
        end
    | None => None
    end.
Proof.
  unfold try_finally. rewrite run_bind, run_attempt.
  destruct (run p s) as [[r s']|]; [|done]. rewrite run_bind.
  destruct (run cleanup s') as [[[u|e] s'']|]; try done.
  apply run_of_result.
Qed.
End run.

(** Monad laws, up to extensional equality of runs. *)
Lemma bind_ret_l {E X A C} (a : A) (f : A → prog E X C) : bind (Ret a) f = f a.
Proof. done. Qed.

Lemma bind_of_result_Ok {E X A C} (r : result X A) a (f : A → prog E X C) :
  r = Ok a → bind (of_result r) f = f a.
Proof. by intros ->. Qed.

Lemma bind_of_result_Err {E X A C} (r : result X A) e (f : A → prog E X C) :
  r = Err e → bind (of_result r) f = Raise e.
Proof. by intros ->. Qed.

Create Rewrite HintDb effects.
#[export] Hint Rewrite @run_bind @run_attempt @run_trigger @run_of_result
  @run_try_except @run_try_finally : effects.

(** ** The operations of a program

    [ops Φ p]: whatever the environment answers, [p] only performs operations
    that satisfy [Φ]. *)
Section ops.
Context {E : Type → Type} {X : Type} (Φ : ∀ B : Type, E B → Prop).

Inductive ops {A} : prog E X A → Prop :=
| ops_ret a : ops (Ret a)
| ops_raise e : ops (Raise e)
| ops_vis {B} (op : E B) k : Φ B op → (∀ b, ops (k b)) → ops (Vis op k).

Lemma ops_bind {A C} (p : prog E X A) (f : A → prog E X C) :
  ops p → (∀ a, ops (f a)) → ops (bind p f).
Proof using. intros Hp Hf. induction Hp; simpl; [apply Hf | constructor | by constructor]. Qed.

Lemma ops_trigger {B} (op : E B) : Φ B op → ops (trigger op).
Proof using. intros Ha. constructor; [done|]. intros. constructor. Qed.

Lemma ops_of_result {A} (r : result X A) : ops (of_result r).
Proof using. destruct r; constructor. Qed.

Lemma ops_attempt {A} (p : prog E X A) : ops p → ops (attempt p).
Proof using. intros Hp. induction Hp; simpl; by constructor. Qed.

Lemma ops_try_except {A} (p : prog E X A) hd :
  ops p → (∀ e, ops (hd e)) → ops (try_except p hd).
Proof using.
  intros Hp Hh. apply ops_bind; [by apply ops_attempt|]. intros [a|e]; [constructor | apply Hh].
Qed.

Lemma ops_try_finally {A} (p : prog E X A) c : ops p → ops c → ops (try_finally p c).
Proof using.
  intros Hp Hc. apply ops_bind; [by apply ops_attempt|]. intros r.
  apply ops_bind; [done|]. intros _. apply ops_of_result.
Qed.

Lemma ops_for_each {A C} (f : A → prog E X C) xs : (∀ x, ops (f x)) → ops (for_each f xs).
Proof using.
  intros Hf. induction xs as [|x xs IH]; [constructor|]. simpl.
  apply ops_bind; [apply Hf|]. intros y. apply ops_bind; [done|]. intros. constructor.
Qed.
End ops.

Lemma ops_mono {E X A} (Φ Ψ : ∀ B : Type, E B → Prop) (p : prog E X A) :
  (∀ B op, Φ B op → Ψ B op) → ops Φ p → ops Ψ p.
Proof. intros HΦ. induction 1; constructor; auto. Qed.

(** Inversion on a program that has an operation to perform. *)
Lemma ops_vis_inv {E X A} (Φ : ∀ B : Type, E B → Prop) {B} (op : E B) (k : B → prog E X A) :
  ops Φ (Vis op k) → Φ B op ∧ ∀ b, ops Φ (k b).
Proof.
  intros H.
  change (match Vis op k return Prop with
          | Vis op k => Φ _ op ∧ ∀ b, ops Φ (k b) | _ => True end).
  by destruct H.
Qed.

Create HintDb ops.
#[export] Hint Resolve ops_ret ops_raise ops_of_result : ops.

(** Descends into a program, unfolding what the source defines. *)
Ltac ops_step :=
  match goal with
  | |- ops _ (match ?x with _ => _ end) => destruct x
  | |- ops _ (bind _ _) => apply ops_bind; [|intros]
  | |- ops _ (attempt _) => apply ops_attempt
  | |- ops _ (try_except _ _) => apply ops_try_except; [|intros]
  | |- ops _ (try_finally _ _) => apply ops_try_finally
  | |- ops _ (for_each _ _) => apply ops_for_each; intros
  | |- ops _ (trigger _) => apply ops_trigger
  | |- ops _ ?p => let f := get_head p in progress unfold f
  end.
Ltac solve_ops := repeat (first [assumption | solve [eauto with ops] | ops_step]); try done.

(** ** Platforms

    The database driver, the cache, the broker and the clock are not code of
    this repository.  What the code relies on is their documented behaviour, a
    handler [doc] over an abstract state; a platform is any handler [impl] over
    any state [W] that shows exactly that behaviour through an observation
    [obs].  Theorems are stated for every platform. *)
Class Platform {E : Type → Type} {S W : Type} (doc : handler E S)
    (impl : handler E W) (obs : W → S) : Prop :=
  platform_step : ∀ (B : Type) (op : E B) (w : W),
    (match impl B op w with Some (b, w') => Some (b, obs w') | None => None end)
    = doc B op (obs w).

(** The documented behaviour is itself a platform. *)
#[global] Instance platform_id {E S} (doc : handler E S) : Platform doc doc id.
Proof. intros B op w. unfold id. by destruct (doc B op w) as [[b w']|]. Qed.

Section platform.
Context {E : Type → Type} {S W X : Type} {doc : handler E S}
  {impl : handler E W} {obs : W → S} `{P : !Platform doc impl obs}.

Lemma platform_run {A} (p : prog E X A) w :
  (match run impl p w with Some (r, w') => Some (r, obs w') | None => None end)
  = run doc p (obs w).
Proof using P.
  revert w. induction p as [a|e|B op k IH]; intros w; simpl; try done.
  rewrite <- (platform_step B op w).
  destruct (impl B op w) as [[b w']|]; [apply IH | done].
Qed.

(** [p] started in [w] terminates with outcome [r] in a state observed as [s]. *)
Definition runs_to {A} (p : prog E X A) (w : W) (r : result X A) (s : S) : Prop :=
  ∃ w', run impl p w = Some (r, w') ∧ obs w' = s.

Lemma runs_to_doc {A} (p : prog E X A) w r s :
  run doc p (obs w) = Some (r, s) → runs_to p w r s.
Proof using P.
  rewrite <- platform_run. unfold runs_to.
  destruct (run impl p w) as [[r' w']|]; [|done].
  intros [= -> <-]. eauto.
Qed.
Lemma runs_to_inv {A} (p : prog E X A) w r s :
  runs_to p w r s → run doc p (obs w) = Some (r, s).
Proof using P. intros (w' & Hrun & <-). by rewrite <- platform_run, Hrun. Qed.
End platform.
Arguments runs_to {E S W X} impl obs {A} p w r s.
