(* ===== verification/Interleaving.v ===== *)
(** * Interleaving

    Several programs over one shared state, scheduled one operation at a time
    in any order, and a rely/guarantee logic for them: a thread is verified
    alone, against any change the other threads may make between two of its
    operations. *)
From S2P Require Import Prelude Effects.

(** A pool of threads. *)
Abbreviation pool E X A := (list (prog E X A)).

Section pool.
Context {E : Type → Type} {X A S : Type}.
Variables (h : handler E S) (env : S → S → Prop).

(** One operation of one thread, or a change made by the environment (time
    passes, the server drops a session). *)
Inductive pool_step : pool E X A * S → pool E X A * S → Prop :=
| pool_step_thread ts i B (op : E B) k b s s' :
    ts !! i = Some (Vis op k) →
    h B op s = Some (b, s') →
    pool_step (ts, s) (<[i := k b]> ts, s')
| pool_step_env ts s s' :
    env s s' →
    pool_step (ts, s) (ts, s').

Inductive pool_steps : pool E X A * S → pool E X A * S → Prop :=
| pool_steps_refl c : pool_steps c c
| pool_steps_step c1 c2 c3 :
    pool_step c1 c2 → pool_steps c2 c3 → pool_steps c1 c3.

Lemma pool_steps_trans c1 c2 c3 :
  pool_steps c1 c2 → pool_steps c2 c3 → pool_steps c1 c3.
Proof. induction 1; eauto using pool_steps_step. Qed.

(** A schedule run by computation: the indices of the threads that move. *)
Fixpoint run_schedule (is_ : list nat) (c : pool E X A * S) : option (pool E X A * S) :=
  match is_ with
  | [] => Some c
  | i :: is_ =>
      match c.1 !! i with
      | Some (Vis op k) =>
          match h _ op c.2 with
          | Some (b, s') => run_schedule is_ (<[i := k b]> c.1, s')
          | None => None
          end
      | _ => None
      end
  end.

Lemma run_schedule_sound is_ c c' : run_schedule is_ c = Some c' → pool_steps c c'.
Proof.
  revert c. induction is_ as [|i is_ IH]; intros [ts s] H; simpl in H.
  - injection H as <-. constructor.
  - destruct (ts !! i) as [[a|e|B op k]|] eqn:Hi; try done.
    destruct (h B op s) as [[b s']|] eqn:Hh; [|done].
    eapply pool_steps_step; [|eauto]. by eapply pool_step_thread.
Qed.

(** Turn by turn: each thread that is neither finished nor waiting moves once in
    a round. *)
Definition move (c : pool E X A * S) (i : nat) : pool E X A * S :=
  match c.1 !! i with
  | Some (Vis op k) =>
      match h _ op c.2 with
      | Some (b, s') => (<[i := k b]> c.1, s')
      | None => c
      end
  | _ => c
  end.

Fixpoint run_rounds (n : nat) (c : pool E X A * S) : pool E X A * S :=
  match n with
  | O => c
  | Datatypes.S n => run_rounds n (foldl move c (seq 0 (length c.1)))
  end.

Lemma moves_sound is_ c : pool_steps c (foldl move c is_).
Proof.
  revert c. induction is_ as [|i is_ IH]; intros [ts s]; simpl; [constructor|].
  eapply pool_steps_trans; [|apply IH]. unfold move. simpl.
  destruct (ts !! i) as [[a|e|B op k]|] eqn:Hi; try constructor.
  destruct (h B op s) as [[b s']|] eqn:Hh; [|constructor].
  eapply pool_steps_step; [by eapply pool_step_thread | constructor].
Qed.

Lemma run_rounds_sound n c : pool_steps c (run_rounds n c).
Proof.
  revert c. induction n as [|n IH]; intros c; simpl; [constructor|].
  eapply pool_steps_trans; [apply moves_sound | apply IH].
Qed.
End pool.
Arguments pool_steps {E X A S} h env c1 c2.
Arguments move {E X A S} h c i.
Arguments run_rounds {E X A S} h n c.

(** ** Transfer to platforms *)
Section transfer.
Context {E : Type → Type} {S W X A : Type} {doc : handler E S}
  {impl : handler E W} {obs : W → S} `{P : !Platform doc impl obs}.
Variable env : S → S → Prop.

Lemma platform_steps (ts ts' : pool E X A) w w' :
  pool_steps impl (λ v v', env (obs v) (obs v')) (ts, w) (ts', w') →
  pool_steps doc env (ts, obs w) (ts', obs w').
Proof using P.
  set (c := (ts, w)). set (c' := (ts', w')). intros H.
  change (pool_steps doc env (c.1, obs c.2) (c'.1, obs c'.2)).
  clearbody c c'. induction H as [c0|c1 c2 c3 Hs _ IH]; [constructor|].
  eapply pool_steps_step; [|exact IH].
  destruct Hs as [us i B op k b s s' Hi Hh | us s s' He]; simpl.
  - eapply pool_step_thread; [done|].
    rewrite <- (platform_step B op s). by rewrite Hh.
  - by apply pool_step_env.
Qed.
End transfer.

(** ** Invariants of single operations

    An invariant that every operation satisfying [Φ] keeps holds throughout any
    interleaving of programs made of such operations. *)
Section invariant.
Context {E : Type → Type} {X A S : Type}.
Variables (h : handler E S) (env : S → S → Prop) (Φ : ∀ B : Type, E B → Prop) (I : S → Prop).
Hypothesis I_op : ∀ B op s b s', Φ B op → I s → h B op s = Some (b, s') → I s'.
Hypothesis I_env : ∀ s s', env s s' → I s → I s'.

Lemma pool_invariant (ts ts' : pool E X A) s s' :
  Forall (ops Φ) ts → I s → pool_steps h env (ts, s) (ts', s') → Forall (ops Φ) ts' ∧ I s'.
Proof using I_op I_env.
  intros Hts Hs Hsteps.
  assert (Hgen : ∀ (c c' : pool E X A * S), pool_steps h env c c' →
    Forall (ops Φ) c.1 ∧ I c.2 → Forall (ops Φ) c'.1 ∧ I c'.2); [|exact (Hgen _ _ Hsteps (conj Hts Hs))].
  clear Hts Hs Hsteps. induction 1 as [|c1 c2 c3 Hstep _ IH]; [done|]. intros [H1 H2]. apply IH.
  destruct Hstep as [us i B op k b w w' Hi Hh | us w w' He]; simpl in *; [|by eauto].
  pose proof (Forall_lookup_1 _ _ _ _ H1 Hi) as Hp. apply ops_vis_inv in Hp as [Hop Hk].
  split; [by apply Forall_insert | eauto].
Qed.
End invariant.

(** ** Thread-modular reasoning *)
Section logic.
Context {E : Type → Type} {X S L : Type}.
Variables (h : handler E S) (env : S → S → Prop).
(** The global invariant; what a thread in local state [l] knows of the
    shared state; when two threads' local states are compatible. *)
Variables (J : S → Prop) (own : L → S → Prop) (disj : L → L → Prop).

(** The step from [s] to [s'] takes one thread from [l] to [l'] and leaves
    intact what any compatible thread knows. *)
Definition guarantee (l l' : L) (s s' : S) : Prop :=
  ∀ lo, disj l lo → own lo s → disj l' lo ∧ own lo s'.

(** [wp p l Q]: run from local state [l], every operation of [p] keeps the
    invariant and the other threads' knowledge, and the outcome satisfies
    [Q], whatever the others do in between. *)
Fixpoint wp {A} (p : prog E X A) (l : L) (Q : result X A → L → Prop) : Prop :=
  match p with
  | Ret a => Q (Ok a) l
  | Raise e => Q (Err e) l
  | Vis op k =>
      ∀ s b s', J s → own l s → h _ op s = Some (b, s') →
        ∃ l', J s' ∧ own l' s' ∧ guarantee l l' s s' ∧ wp (k b) l' Q
  end.

Lemma wp_mono {A} (p : prog E X A) l (Q Q' : result X A → L → Prop) :
  (∀ r l, Q r l → Q' r l) → wp p l Q → wp p l Q'.
Proof.
  intros HQ. revert l. induction p as [a|e|B op k IH]; intros l; simpl; auto.
  intros Hwp s b s' HJ Ho Hh.
  destruct (Hwp s b s' HJ Ho Hh) as (l' & ? & ? & ? & ?). eauto 10.
Qed.

Lemma wp_bind {A C} (p : prog E X A) (f : A → prog E X C) l Q :
  wp p l (λ r l', match r with Ok a => wp (f a) l' Q | Err e => Q (Err e) l' end) →
  wp (bind p f) l Q.
Proof.
  revert l. induction p as [a|e|B op k IH]; intros l; simpl; auto.
  intros Hwp s b s' HJ Ho Hh.
  destruct (Hwp s b s' HJ Ho Hh) as (l' & ? & ? & ? & ?). eauto 10.
Qed.

Lemma wp_attempt {A} (p : prog E X A) l (Q : result X (result X A) → L → Prop) :
  wp p l (λ r l', Q (Ok r) l') → wp (attempt p) l Q.
Proof.
  revert l. induction p as [a|e|B op k IH]; intros l; simpl; auto.
  intros Hwp s b s' HJ Ho Hh.
  destruct (Hwp s b s' HJ Ho Hh) as (l' & ? & ? & ? & ?). eauto 10.
Qed.

(** An operation, from a lemma that covers every state. *)
Lemma wp_trigger {B} (op : E B) l (Q : result X B → L → Prop) :
  (∀ s b s', J s → own l s → h _ op s = Some (b, s') →
     ∃ l', J s' ∧ own l' s' ∧ guarantee l l' s s' ∧ Q (Ok b) l') →
  wp (trigger op) l Q.
Proof. done. Qed.

(** A thread started in one local state and ending in it, with a value of which
    [Φ] holds. *)
Definition yields {A} (l : L) (p : prog E X A) (Φ : A → Prop) : Prop :=
  wp p l (λ r l', l' = l ∧ ∀ a, r = Ok a → Φ a).

Lemma yields_bind {A C} l (p : prog E X A) Φ (f : A → prog E X C) Ψ :
  yields l p Φ → (∀ a, Φ a → yields l (f a) Ψ) → yields l (bind p f) Ψ.
Proof.
  intros Hp Hf. apply wp_bind. eapply wp_mono; [|exact Hp].
  intros [a|e] l' [-> Ha]; [by apply Hf, Ha | done].
Qed.

Lemma yields_attempt {A} l (p : prog E X A) (Φ : A → Prop) :
  yields l p Φ → yields l (attempt p) (λ r, ∀ a, r = Ok a → Φ a).
Proof.
  intros Hp. apply wp_attempt. eapply wp_mono; [|exact Hp].
  intros r l' [-> Ha]. split; [done|]. by intros ? [= <-].
Qed.

Lemma yields_mono {A} l (p : prog E X A) (Φ Ψ : A → Prop) :
  (∀ a, Φ a → Ψ a) → yields l p Φ → yields l p Ψ.
Proof. intros HΦ. apply wp_mono. intros r l' [-> Ha]. eauto. Qed.

Hypothesis env_J : ∀ s s', env s s' → J s → J s'.
Hypothesis env_own : ∀ s s' l, env s s' → own l s → own l s'.
Hypothesis disj_sym : ∀ l1 l2, disj l1 l2 → disj l2 l1.

(** The state of a pool in which every thread is verified. *)
Definition pool_ok {A} (Q : result X A → L → Prop) (c : pool E X A * S) : Prop :=
  J c.2 ∧ ∃ ls : list L, length ls = length c.1 ∧
    (∀ i p l, c.1 !! i = Some p → ls !! i = Some l → own l c.2 ∧ wp p l Q) ∧
    (∀ i j li lj, i ≠ j → ls !! i = Some li → ls !! j = Some lj → disj li lj).

Lemma pool_ok_step {A} (Q : result X A → L → Prop) c c' :
  pool_step h env c c' → pool_ok Q c → pool_ok Q c'.
Proof using env_J env_own disj_sym.
  intros Hs (HJ & ls & Hlen & Hthr & Hdisj).
  destruct Hs as [ts i B op k b s s' Hi Hh | ts s s' He]; simpl in *.
  - destruct (lookup_lt_is_Some_2 ls i) as [l Hl].
    { rewrite Hlen. by eapply lookup_lt_Some. }
    destruct (Hthr i _ l Hi Hl) as [Ho Hwp]. simpl in Hwp.
    destruct (Hwp s b s' HJ Ho Hh) as (l' & HJ' & Ho' & Hg & Hwp').
    assert (Hothers : ∀ j lj, i ≠ j → ls !! j = Some lj → disj l' lj ∧ own lj s').
    { intros j lj Hij Hlj. destruct (lookup_lt_is_Some_2 ts j) as [pj Hpj].
      { rewrite <- Hlen. by eapply lookup_lt_Some. }
      destruct (Hthr j pj lj Hpj Hlj) as [Hoj _].
      apply Hg; [eapply (Hdisj i j); eauto | done]. }
    split; [done|]. exists (<[i := l']> ls). split.
    { simpl. rewrite !length_insert. exact Hlen. }
    split.
    + intros j p lj Hp Hlj. simpl in Hp. destruct (decide (i = j)) as [<-|Hij].
      * rewrite list_lookup_insert_eq in Hp by (by eapply lookup_lt_Some).
        rewrite list_lookup_insert_eq in Hlj by (by eapply lookup_lt_Some).
        by simplify_eq.
      * rewrite list_lookup_insert_ne in Hp by done.
        rewrite list_lookup_insert_ne in Hlj by done.
        destruct (Hthr j p lj Hp Hlj) as [_ ?].
        split; [by eapply Hothers | done].
    + intros j1 j2 l1 l2 Hne H1 H2.
      destruct (decide (i = j1)) as [<-|Hi1].
      * rewrite list_lookup_insert_eq in H1 by (by eapply lookup_lt_Some).
        rewrite list_lookup_insert_ne in H2 by done.
        simplify_eq. by eapply Hothers.
      * rewrite list_lookup_insert_ne in H1 by done.
        destruct (decide (i = j2)) as [<-|Hi2].
        -- rewrite list_lookup_insert_eq in H2 by (by eapply lookup_lt_Some).
           simplify_eq. apply disj_sym. by eapply Hothers.
        -- rewrite list_lookup_insert_ne in H2 by done. exact (Hdisj j1 j2 l1 l2 Hne H1 H2).
  - split; [by eapply env_J|]. exists ls. split; [done|]. split; [|done].
    intros i p l Hp Hl. destruct (Hthr i p l Hp Hl) as [? ?]. eauto.
Qed.

(** Adequacy: the invariant holds in every reachable state, and a thread
    that has finished satisfies its postcondition. *)
Lemma pool_ok_steps {A} (Q : result X A → L → Prop) c c' :
  pool_steps h env c c' → pool_ok Q c → pool_ok Q c'.
Proof using env_J env_own disj_sym. induction 1; eauto using pool_ok_step. Qed.
End logic.

(** Operations that keep [K] may rely on it too. *)
Lemma wp_frame {E S X L A} (h : handler E S) (J K : S → Prop) (own : L → S → Prop) disj
    (p : prog E X A) l Q :
  ops (λ B op, ∀ s b s', K s → h B op s = Some (b, s') → K s') p →
  wp h J own disj p l Q → wp h (λ s, J s ∧ K s) own disj p l Q.
Proof.
  intros Hp. revert l. induction Hp as [a|e|B op k HK _ IH]; intros l; simpl; [done..|].
  intros Hwp s b s' [HJ Hs] Ho Hh. destruct (Hwp s b s' HJ Ho Hh) as (l' & ? & ? & ? & ?).
  exists l'. split_and!; eauto.
Qed.
