(* ===== verification/Uuid.v ===== *)
(** * UUIDs

    Identifiers cross every boundary of the system as text: gRPC fields, Kafka
    payloads, the [sub] claim of a token, the stored [reservation_id].  The
    sender writes [str(uuid)], the receiver reads [uuid.UUID(text)] (Python's
    [uuid] module).  This file models both directions. *)
From S2P Require Import Prelude Effects.

Local Open Scope N_scope.

(** A [uuid.UUID] is its 128-bit integer. *)
Definition uuid_limit : N := 2 ^ 128.

Record uuid : Type := mk_uuid {
  uuid_int : N;
  uuid_bound : Is_true (uuid_int <? uuid_limit);
}.

Lemma uuid_eq (u v : uuid) : uuid_int u = uuid_int v → u = v.
Proof.
  destruct u as [n Hn], v as [m Hm]; simpl. intros ->. f_equal. apply Is_true_pi.
Qed.

Lemma uuid_of_N_bound (n : N) : Is_true (n mod uuid_limit <? uuid_limit).
Proof. apply Is_true_true, N.ltb_lt, N.mod_lt. discriminate. Qed.

Definition uuid_of_N (n : N) : uuid := mk_uuid (n mod uuid_limit) (uuid_of_N_bound n).

Lemma uuid_int_of_N n : n < uuid_limit → uuid_int (uuid_of_N n) = n.
Proof. intros. simpl. by apply N.mod_small. Qed.

Lemma uuid_of_N_int u : uuid_of_N (uuid_int u) = u.
Proof.
  apply uuid_eq, uuid_int_of_N. apply N.ltb_lt, Is_true_true, (uuid_bound u).
Qed.

Lemma uuid_int_bound u : uuid_int u < uuid_limit.
Proof. apply N.ltb_lt, Is_true_true, (uuid_bound u). Qed.

#[global] Instance uuid_eq_dec : EqDecision uuid.
Proof.
  intros u v. destruct (decide (uuid_int u = uuid_int v)) as [H|H].
  - left. by apply uuid_eq.
  - right. congruence.
Defined.

#[global] Program Instance uuid_countable : Countable uuid :=
  inj_countable uuid_int (λ n, Some (uuid_of_N n)) _.
Next Obligation. intros u. simpl. by rewrite uuid_of_N_int. Qed.

(** ** Printing: [str(u)] *)

Definition hex_digit (n : N) : ascii :=
  ascii_of_N (if n <? 10 then 48 + n else 87 + n).

(** ['%0kx' % n] for [n < 16^k]. *)
Fixpoint to_hex (k : nat) (n : N) : list ascii :=
  match k with
  | O => []
  | S k => to_hex k (n / 16) ++ [hex_digit (n mod 16)]
  end.

(** [f'{hex[:8]}-{hex[8:12]}-{hex[12:16]}-{hex[16:20]}-{hex[20:]}'] *)
Definition dashed (hex : list ascii) : list ascii :=
  take 8 hex ++ ["-"%char] ++ take 4 (drop 8 hex) ++ ["-"%char] ++
  take 4 (drop 12 hex) ++ ["-"%char] ++ take 4 (drop 16 hex) ++ ["-"%char] ++
  drop 20 hex.

Definition uuid_str (u : uuid) : string :=
  String.string_of_list_ascii (dashed (to_hex 32 (uuid_int u))).

(** ** Parsing: [uuid.UUID(text)] *)

(** [s.replace(pat, '')] for a non-empty [pat]; [skip] counts the characters
    of a match that are still to be dropped. *)
Fixpoint erase (pat : list ascii) (s : list ascii) (skip : nat) : list ascii :=
  match s with
  | [] => []
  | c :: s' =>
      match skip with
      | S k => erase pat s' k
      | O => if bool_decide (pat `prefix_of` s)
             then erase pat s' (length pat - 1)
             else c :: erase pat s' 0
      end
  end.

Fixpoint drop_while (f : ascii → bool) (s : list ascii) : list ascii :=
  match s with
  | [] => []
  | c :: s' => if f c then drop_while f s' else s
  end.

(** [s.strip(chars)] *)
Definition strip (f : ascii → bool) (s : list ascii) : list ascii :=
  rev (drop_while f (rev (drop_while f s))).

Definition is_brace (c : ascii) : bool := (c =? "{")%char || (c =? "}")%char.
Definition is_space (c : ascii) : bool :=
  let n := N_of_ascii c in (n =? 32) || ((9 <=? n) && (n <=? 13)).

Definition hex_value (c : ascii) : option N :=
  let n := N_of_ascii c in
  if (48 <=? n) && (n <=? 57) then Some (n - 48)
  else if (97 <=? n) && (n <=? 102) then Some (n - 87)
  else if (65 <=? n) && (n <=? 70) then Some (n - 55)
  else None.

(** The digits of [int(s, 16)]: single underscores may separate digits. *)
Fixpoint hex_digits (s : list ascii) (acc : N) : option N :=
  match s with
  | [] => Some acc
  | c :: s' =>
      match hex_value c with
      | Some d => hex_digits s' (16 * acc + d)
      | None =>
          if (c =? "_")%char then
            match s' with
            | c' :: s'' =>
                match hex_value c' with
                | Some d => hex_digits s'' (16 * acc + d)
                | None => None
                end
            | [] => None
            end
          else None
      end
  end.

Definition hex_literal (s : list ascii) : option N :=
  match s with
  | c :: s' =>
      match hex_value c with
      | Some d => hex_digits s' d
      | None => None
      end
  | [] => None
  end.

Definition unprefixed (s : list ascii) : list ascii :=
  match s with
  | "0"%char :: x :: s' =>
      if (x =? "x")%char || (x =? "X")%char then
        match s' with "_"%char :: s'' => s'' | _ => s' end
      else s
  | _ => s
  end.

(** [int(s, 16)] on ASCII text: surrounding blanks, a sign, a [0x] prefix and
    underscores are accepted.  The result is [(negative, magnitude)]. *)
Definition int_base16 (s : list ascii) : option (bool * N) :=
  match strip is_space s with
  | c :: s' =>
      if (c =? "-")%char then pair true <$> hex_literal (unprefixed s')
      else if (c =? "+")%char then pair false <$> hex_literal (unprefixed s')
      else pair false <$> hex_literal (unprefixed (c :: s'))
  | [] => None
  end.

(** [None] is a [ValueError]. *)
Definition uuid_parse (text : string) : option uuid :=
  let s := String.list_ascii_of_string text in
  let s := erase (String.list_ascii_of_string "urn:") s 0 in
  let s := erase (String.list_ascii_of_string "uuid:") s 0 in
  let s := filter (λ c, c ≠ "-"%char) (strip is_brace s) in
  if decide (length s = 32%nat) then
    match int_base16 s with
    | Some (neg, n) =>
        if (negb neg || (n =? 0)) && (n <? uuid_limit) then Some (uuid_of_N n) else None
    | None => None
    end
  else None.

(** ** The round trip *)

Definition below16 : list N := map N.of_nat (seq 0 16).

Lemma below16_forall (f : N → bool) :
  forallb f below16 = true → ∀ d, d < 16 → f d = true.
Proof.
  intros Hf d Hd. rewrite forallb_forall in Hf. apply Hf.
  apply in_map_iff. exists (N.to_nat d). rewrite in_seq. lia.
Qed.

Lemma hex_digit_value d : d < 16 → hex_value (hex_digit d) = Some d.
Proof.
  intros Hd.
  apply (bool_decide_unpack (hex_value (hex_digit d) = Some d)), Is_true_true.
  revert d Hd. by apply below16_forall.
Qed.

Definition is_hex (c : ascii) : Prop := ∃ d, d < 16 ∧ c = hex_digit d.

Lemma is_hex_not (f : ascii → bool) :
  forallb (λ d, negb (f (hex_digit d))) below16 = true →
  ∀ c, is_hex c → f c = false.
Proof.
  intros Hall c (d & Hd & ->).
  apply negb_true_iff. revert d Hd. by apply below16_forall.
Qed.

Lemma to_hex_is_hex k n : Forall is_hex (to_hex k n).
Proof.
  revert n. induction k as [|k IH]; intros n; simpl; [constructor|].
  apply Forall_app. split; [apply IH|]. constructor; [|constructor].
  exists (n mod 16). split; [apply N.mod_lt; lia | done].
Qed.

Lemma length_to_hex k n : length (to_hex k n) = k.
Proof.
  revert n. induction k as [|k IH]; intros n; simpl; [done|].
  rewrite length_app, IH. simpl. lia.
Qed.

Lemma hex_digits_app s1 s2 acc :
  Forall is_hex s1 →
  hex_digits (s1 ++ s2) acc = hex_digits s1 acc ≫= hex_digits s2.
Proof.
  intros H. revert acc. induction H as [|c s1 (d & Hd & ->) _ IH]; intros acc; [done|].
  simpl. by rewrite hex_digit_value, IH.
Qed.

Lemma hex_digits_to_hex k n acc :
  hex_digits (to_hex k n) acc = Some (16 ^ N.of_nat k * acc + n mod 16 ^ N.of_nat k).
Proof.
  revert n acc. induction k as [|k IH]; intros n acc.
  - simpl. f_equal. rewrite N.mod_1_r. lia.
  - cbn [to_hex]. rewrite hex_digits_app by apply to_hex_is_hex.
    rewrite IH. cbn [mbind option_bind hex_digits].
    rewrite hex_digit_value by (apply N.mod_lt; lia). f_equal.
    rewrite Nat2N.inj_succ, N.pow_succ_r', N.Div0.mod_mul_r. lia.
Qed.

Lemma drop_while_none f s : Forall (λ c, f c = false) s → drop_while f s = s.
Proof. destruct 1 as [|c s Hc _]; simpl; [done|]. by rewrite Hc. Qed.

Lemma strip_none f s : Forall (λ c, f c = false) s → strip f s = s.
Proof.
  intros H. unfold strip. rewrite (drop_while_none f s) by done.
  rewrite drop_while_none; [apply rev_involutive|].
  by apply Forall_rev.
Qed.

Lemma erase_none c pat s : c ∉ s → erase (c :: pat) s 0 = s.
Proof.
  induction s as [|c' s IH]; intros Hc; [done|]. cbn [erase].
  rewrite bool_decide_eq_false_2.
  - f_equal. apply IH. set_solver.
  - intros Hp. apply prefix_cons_inv_1 in Hp. set_solver.
Qed.

Lemma is_hex_not_in c s :
  forallb (λ d, negb (c =? hex_digit d)%char) below16 = true →
  Forall is_hex s → c ∉ s.
Proof.
  intros Hc Hs Hin. rewrite Forall_forall in Hs.
  pose proof (is_hex_not (λ x, (c =? x)%char) Hc c (Hs c Hin)) as H.
  simpl in H. by rewrite Ascii.eqb_refl in H.
Qed.

(** The characters of a printed UUID are hexadecimal digits and dashes. *)
Definition is_uuid_char (c : ascii) : Prop := is_hex c ∨ c = "-"%char.

Lemma dashed_chars hex : Forall is_hex hex → Forall is_uuid_char (dashed hex).
Proof.
  intros H. assert (Hx : Forall is_uuid_char hex).
  { eapply Forall_impl; [exact H|]. by left. }
  assert (Hd : Forall is_uuid_char ["-"%char]) by (constructor; [by right | constructor]).
  unfold dashed.
  repeat (apply Forall_app; split); auto using Forall_take, Forall_drop.
Qed.

Lemma uuid_char_not_in c s :
  forallb (λ d, negb (c =? hex_digit d)%char) below16 = true → c ≠ "-"%char →
  Forall is_uuid_char s → c ∉ s.
Proof.
  intros Hc Hd Hs Hin. rewrite Forall_forall in Hs.
  destruct (Hs c Hin) as [Hx| ->]; [|done].
  apply (is_hex_not_in c [c] Hc); [by constructor | set_solver].
Qed.

Lemma filter_undash s : Forall is_hex s → filter (λ c, c ≠ "-"%char) s = s.
Proof.
  induction 1 as [|c s Hc _ IH]; [done|].
  rewrite filter_cons_True; [by rewrite IH|].
  intros ->. apply (is_hex_not_in "-"%char ["-"%char]); [done | by constructor | set_solver].
Qed.

Lemma chunk n m (l : list ascii) : drop n l = take m (drop n l) ++ drop (n + m) l.
Proof. by rewrite <- drop_drop, take_drop. Qed.

Lemma undash_dashed hex :
  Forall is_hex hex → filter (λ c, c ≠ "-"%char) (dashed hex) = hex.
Proof.
  intros H. unfold dashed. rewrite !filter_app.
  rewrite !(filter_undash (take _ _)), !(filter_undash (drop _ _))
    by auto using Forall_take, Forall_drop.
  change (filter (λ c, c ≠ "-"%char) ["-"%char]) with (@nil ascii). simpl.
  rewrite <- (chunk 16 4 hex : _ = _ ++ drop 20 hex).
  rewrite <- (chunk 12 4 hex : _ = _ ++ drop 16 hex).
  rewrite <- (chunk 8 4 hex : _ = _ ++ drop 12 hex).
  apply take_drop.
Qed.

Lemma int_base16_hex c s :
  Forall is_hex (c :: s) →
  int_base16 (c :: s) = pair false <$> hex_digits (c :: s) 0.
Proof.
  intros H. unfold int_base16.
  rewrite strip_none.
  2: { eapply Forall_impl; [exact H|]. by apply is_hex_not. }
  inversion H as [|? ? Hc Hs]; subst.
  rewrite (is_hex_not (λ x, (x =? "-")%char)) by done.
  rewrite (is_hex_not (λ x, (x =? "+")%char)) by done.
  assert (Hp : unprefixed (c :: s) = c :: s).
  { unfold unprefixed. destruct s as [|x s]; [by repeat case_goal|].
    inversion Hs as [|? ? Hx ?]; subst.
    rewrite (is_hex_not (λ x, (x =? "x")%char || (x =? "X")%char)) by done.
    by repeat case_goal. }
  rewrite Hp. destruct Hc as (d & Hd & ->). simpl.
  by rewrite hex_digit_value by done.
Qed.

Lemma uuid_parse_str u : uuid_parse (uuid_str u) = Some u.
Proof.
  unfold uuid_parse, uuid_str. rewrite String.list_ascii_of_string_of_list_ascii.
  set (hex := to_hex 32 (uuid_int u)).
  assert (Hx : Forall is_hex hex) by apply to_hex_is_hex.
  assert (Hl : length hex = 32%nat) by apply length_to_hex.
  pose proof (dashed_chars hex Hx) as Hc.
  change (String.list_ascii_of_string "urn:")
    with ("u"%char :: String.list_ascii_of_string "rn:").
  change (String.list_ascii_of_string "uuid:")
    with ("u"%char :: String.list_ascii_of_string "uid:").
  assert (Hu : "u"%char ∉ dashed hex).
  { apply uuid_char_not_in; [reflexivity | discriminate | exact Hc]. }
  rewrite !(erase_none _ _ (dashed hex) Hu).
  rewrite strip_none.
  2: { eapply Forall_impl; [exact Hc|]. intros c [Hh| ->]; [|done]. by apply is_hex_not. }
  rewrite undash_dashed by done. rewrite (decide_True _ _ Hl).
  destruct hex as [|c s] eqn:Hhex; [done|].
  rewrite int_base16_hex by done. rewrite <- Hhex. unfold hex.
  rewrite hex_digits_to_hex. cbn [fmap option_fmap option_map negb orb].
  change (16 ^ N.of_nat 32) with uuid_limit.
  rewrite N.mul_0_r, N.add_0_l, N.mod_small by apply uuid_int_bound.
  rewrite (proj2 (N.ltb_lt _ _) (uuid_int_bound u)). cbn [andb].
  by rewrite uuid_of_N_int.
Qed.

#[global] Instance uuid_str_inj : Inj (=) (=) uuid_str.
Proof.
  intros u v H. apply (f_equal uuid_parse) in H.
  rewrite !uuid_parse_str in H. by injection H.
Qed.
