(* ===== verification/Domain.v ===== *)
(** * Domain vocabulary shared by both services

    The string enumerations of [services/shared/enums.py] and the exceptions of
    [services/shared/errors.py], together with the exceptions of Python and of
    the libraries that can reach a handler. *)
From S2P Require Import Prelude Effects.

(** ** Enumerations ([StrEnum] with [auto()]: the value is the lower-case name) *)

Inductive UserRole := ATTENDEE | ORGANIZER | ADMIN.

Module OrderStatus.
Inductive t := PENDING | CONFIRMED | CANCELLED | EXPIRED.
End OrderStatus.

Module ReservationStatus.
Inductive t := PENDING | CONFIRMED | RELEASED | EXPIRED.
End ReservationStatus.

#[global] Instance UserRole_eq_dec : EqDecision UserRole.
Proof. solve_decision. Defined.
#[global] Instance OrderStatus_eq_dec : EqDecision OrderStatus.t.
Proof. solve_decision. Defined.
#[global] Instance ReservationStatus_eq_dec : EqDecision ReservationStatus.t.
Proof. solve_decision. Defined.

Definition UserRole_value (r : UserRole) : string :=
  match r with ATTENDEE => "attendee" | ORGANIZER => "organizer" | ADMIN => "admin" end.

Definition OrderStatus_value (s : OrderStatus.t) : string :=
  match s with
  | OrderStatus.PENDING => "pending"
  | OrderStatus.CONFIRMED => "confirmed"
  | OrderStatus.CANCELLED => "cancelled"
  | OrderStatus.EXPIRED => "expired"
  end.

Definition ReservationStatus_value (s : ReservationStatus.t) : string :=
  match s with
  | ReservationStatus.PENDING => "pending"
  | ReservationStatus.CONFIRMED => "confirmed"
  | ReservationStatus.RELEASED => "released"
  | ReservationStatus.EXPIRED => "expired"
  end.

(** ** Exceptions *)

(** The canonical gRPC status codes the services use. *)
Inductive StatusCode :=
| NOT_FOUND | FAILED_PRECONDITION | ABORTED | RESOURCE_EXHAUSTED
| UNKNOWN | UNAVAILABLE | DEADLINE_EXCEEDED | UNIMPLEMENTED.

#[global] Instance StatusCode_eq_dec : EqDecision StatusCode.
Proof. solve_decision. Defined.

Inductive exn :=
(* services/shared/errors.py *)
| NotFoundError (msg : string)
| ConflictError (msg : string)
| CapacityExceededError (msg : string)
| ValidationError (msg : string)
| AuthenticationError (msg : string)
| AuthorizationError (msg : string)
| DomainError (msg : string)
(* services/inventory/app/services/locking.py *)
| LockAcquisitionError (msg : string)
(* Python *)
| ValueError (msg : string)
| KeyError (msg : string)
| TypeError (msg : string)
| AttributeError (msg : string)
| RuntimeError (msg : string)
(* SQLAlchemy *)
| StaleDataError
| IntegrityError
| DataError
| OperationalError
| MultipleResultsFound
(* pydantic, outside the validation of a request *)
| PydanticError
(* gRPC: [context.abort] on the server, [AioRpcError] on the client *)
| RpcError (code : StatusCode) (details : string)
(* redis-py, aiokafka *)
| RedisError
| KafkaError.

#[global] Instance exn_eq_dec : EqDecision exn.
Proof. solve_decision. Defined.

(** [isinstance(e, DomainError)] *)
Definition is_domain_error (e : exn) : bool :=
  match e with
  | NotFoundError _ | ConflictError _ | CapacityExceededError _ | ValidationError _
  | AuthenticationError _ | AuthorizationError _ | DomainError _ => true
  | _ => false
  end.

(** [str(e)] for the exceptions that carry a message. *)
Definition exn_message (e : exn) : string :=
  match e with
  | NotFoundError m | ConflictError m | CapacityExceededError m | ValidationError m
  | AuthenticationError m | AuthorizationError m | DomainError m
  | LockAcquisitionError m | ValueError m | KeyError m | TypeError m | AttributeError m
  | RuntimeError m => m
  | _ => ""
  end.
