(* ===== verification/Json.v ===== *)
(** * JSON documents

    The documents that cross Kafka, and the Python operations the consumers
    apply to them. *)
From S2P Require Import Prelude Effects Uuid Domain.

(** [JTime] is an instant in the text pydantic renders it as; no consumer reads
    one.  No message of the system holds an array or a fraction. *)
Inductive json : Type :=
| JNull
| JBool (b : bool)
| JInt (z : Z)
| JStr (s : string)
| JTime (t : Z)
| JObj (fields : list (string * json)).

(** The value of the first field named [k]. *)
Fixpoint assoc (k : string) (fields : list (string * json)) : option json :=
  match fields with
  | [] => None
  | (k', v) :: fields => if decide (k' = k) then Some v else assoc k fields
  end.

(** [d.get(k, default)] *)
Definition dict_get (d : json) (k : string) (default : json) : result exn json :=
  match d with
  | JObj fields => Ok (from_option id default (assoc k fields))
  | _ => Err (AttributeError "get")
  end.

(** [d[k]] *)
Definition dict_item (d : json) (k : string) : result exn json :=
  match d with
  | JObj fields =>
      match assoc k fields with
      | Some v => Ok v
      | None => Err (KeyError k)
      end
  | _ => Err (TypeError "not subscriptable by a name")
  end.

(** [uuid.UUID(text)] *)
Definition UUID (text : string) : result exn uuid :=
  match uuid_parse text with
  | Some u => Ok u
  | None => Err (ValueError "badly formed hexadecimal UUID string")
  end.

(** [uuid.UUID(v)] of a JSON value. *)
Definition json_uuid (v : json) : result exn uuid :=
  match v with
  | JStr text => UUID text
  | JNull => Err (TypeError "one of the hex, bytes, bytes_le, fields, or int arguments must be given")
  | _ => Err (AttributeError "replace")
  end.

(** The integer and string values the consumers hand on; the types are those
    their callees declare. *)
Definition json_int (v : json) : result exn Z :=
  match v with JInt z => Ok z | _ => Err (TypeError "int expected") end.
Definition json_str (v : json) : result exn string :=
  match v with JStr s => Ok s | _ => Err (TypeError "str expected") end.

(** [if v:] *)
Definition truthy (v : json) : bool :=
  match v with
  | JNull => false
  | JBool b => b
  | JInt z => negb (z =? 0)
  | JStr s => negb (bool_decide (s = ""))
  | JTime _ => true
  | JObj fields => negb (bool_decide (length fields = 0%nat))
  end.

Lemma UUID_str u : UUID (uuid_str u) = Ok u.
Proof. unfold UUID. by rewrite uuid_parse_str. Qed.
