(* ===== verification/Orm.v ===== *)
(** * The database session

    SQLAlchemy's unit of work over PostgreSQL at READ COMMITTED, as both
    services use it: the identity map, the flush with its version check and
    constraints, row locks between open transactions, commit and rollback.  The
    mapped classes enter as a [Schema]. *)
From S2P Require Import Prelude Effects Domain.

(** ** Schema: what the mapped classes declare *)
Class Schema (key row : Type) `{Countable key} `{EqDecision row} : Type := {
  key_of : row → key;
  (** [version_id_col], for the classes that have one *)
  version_of : row → option Z;
  with_version : Z → row → row;
  (** [UPDATE] sets the columns that changed since the row was loaded *)
  merge_columns : row → row → row → row;
  (** server defaults at [INSERT] and [onupdate] at [UPDATE] *)
  stamp_insert : Z → row → row;
  stamp_update : Z → row → row;
  (** column constraints (NOT NULL, lengths, ranges, CHECK) *)
  check_row : row → option exn;
  (** unique indexes: two rows that cannot coexist, beyond the primary key *)
  conflicts : row → row → bool;
  (** foreign keys *)
  references : row → list key;
}.

#[global] Hint Mode Schema - ! - - - : typeclass_instances.

Section orm.
Context {key row : Type} `{!EqDecision key, !Countable key, !EqDecision row} `{Sch : !Schema key row}.

(** [SELECT]: a filter, an optional sort key, a window. *)
Record query : Type := Query {
  q_where : row → bool;
  q_order : option (row → Z);
  q_limit : option nat;
  q_offset : nat;
}.

(** ** Session operations

    The calls the repositories make on an [AsyncSession], and the attribute
    writes on mapped instances that the session tracks. *)
Inductive orm_op : Type → Type :=
| OpenSession : orm_op nat
| CloseSession (s : nat) : orm_op unit
| Get (s : nat) (k : key) : orm_op (result exn (option row))
| Select (s : nat) (q : query) : orm_op (result exn (list row))
| Count (s : nat) (p : row → bool) : orm_op (result exn Z)
| SetAttrs (s : nat) (k : key) (f : row → row) : orm_op unit
| Attrs (s : nat) (k : key) : orm_op (option row)
| Add (s : nat) (r : row) : orm_op unit
| Delete (s : nat) (k : key) : orm_op unit
| Flush (s : nat) : orm_op (result exn unit)
| Commit (s : nat) : orm_op (result exn unit)
| Rollback (s : nat) : orm_op unit
| Execute (s : nat) : orm_op (result exn unit).

(** [Execute] is [session.execute] of a statement that reads no table. *)

(** ** State

    A session holds its identity map (each instance as loaded and as it is
    now), the instances added and deleted since the last flush, and the rows
    its open transaction has written: [Some r] for a row, [None] for a
    deletion.  The database holds the committed rows. *)
Abbreviation overlay_map := (gmap key (option row)).

Record session : Type := Session {
  objs : gmap key (row * row);
  news : list row;
  dels : list key;
  overlay : overlay_map;
}.

Definition empty_session : session := Session ∅ [] [] ∅.

Record database : Type := Database {
  tbl : gmap key row;
  sessions : gmap nat session;
  next_sid : nat;
  n_queries : nat;
}.

Definition with_sessions (db : database) (ss : gmap nat session) : database :=
  Database (tbl db) ss (next_sid db) (n_queries db).

Definition put_session (s : nat) (ss : session) (db : database) : database :=
  with_sessions db (<[s := ss]> (sessions db)).

Definition with_objs (ss : session) (o : gmap key (row * row)) : session :=
  Session o (news ss) (dels ss) (overlay ss).

(** What a transaction sees: its own writes over the committed rows. *)
Definition apply_overlay (ov : overlay_map) (t : gmap key row) : gmap key row :=
  merge (λ o x, match o with Some y => y | None => x end) ov t.

(** ** Flush

    [UPDATE ... WHERE pk = ? AND version = ?] for every instance with a net
    change, then [INSERT], then [DELETE].  An [UPDATE] that matches no row
    is a [StaleDataError]. *)
Definition bump (r : row) : row :=
  match version_of r with Some v => with_version (v + 1) r | None => r end.

Definition initial_version (r : row) : row :=
  match version_of r with Some _ => with_version 1 r | None => r end.

Definition flush_acc : Type := overlay_map * gmap key (row * row).

Definition update_one (now : Z) (t : gmap key row) (acc : flush_acc)
    (d : key * (row * row)) : result exn flush_acc :=
  let '(k, (l, c)) := d in
  match apply_overlay acc.1 t !! k with
  | None => Err StaleDataError
  | Some stored =>
      if bool_decide (version_of stored = version_of l) then
        let new := stamp_update now (bump (merge_columns l c stored)) in
        let obj := stamp_update now (bump c) in
        match check_row new with
        | Some e => Err e
        | None => Ok (<[k := Some new]> acc.1, <[k := (obj, obj)]> acc.2)
        end
      else Err StaleDataError
  end.

Definition insert_one (now : Z) (t : gmap key row) (acc : flush_acc)
    (r : row) : result exn flush_acc :=
  let new := stamp_insert now (initial_version r) in
  let k := key_of r in
  let vis := apply_overlay acc.1 t in
  match check_row new with
  | Some e => Err e
  | None =>
      if bool_decide (vis !! k = None
                      ∧ map_Forall (λ _ r', conflicts new r' = false) vis
                      ∧ Forall (λ k', is_Some (vis !! k')) (references new))
      then Ok (<[k := Some new]> acc.1, <[k := (new, new)]> acc.2)
      else Err IntegrityError
  end.

Definition delete_one (t : gmap key row) (acc : flush_acc) (k : key)
    : result exn flush_acc :=
  let vis := apply_overlay acc.1 t in
  if bool_decide (map_Forall (λ _ r', k ∉ references r') vis)
  then Ok (<[k := None]> acc.1, delete k acc.2)
  else Err IntegrityError.

Fixpoint fold_result {A B} (f : B → A → result exn B) (acc : B) (l : list A)
    : result exn B :=
  match l with
  | [] => Ok acc
  | x :: l => match f acc x with Ok acc => fold_result f acc l | Err e => Err e end
  end.

Definition dirty_objs (o : gmap key (row * row)) : gmap key (row * row) :=
  filter (λ d, d.2.1 ≠ d.2.2) o.

Definition dirty (ss : session) : list (key * (row * row)) :=
  map_to_list (dirty_objs (objs ss)).

Definition written_keys (ss : session) : list key :=
  (dirty ss).*1 ++ (key_of <$> news ss) ++ dels ss.

(** A write waits for the row lock of another open transaction; an insertion,
    for an uncommitted row with the same unique value and for the uncommitted
    deletion of a row it refers to; a deletion, for an uncommitted reference to
    its row. *)
Definition unblocked (s : nat) (db : database) (ss : session) : Prop :=
  map_Forall (λ s' ss', s' ≠ s →
    Forall (λ k, overlay ss' !! k = None) (written_keys ss)
    ∧ Forall (λ r, map_Forall (λ _ o, from_option (λ r', conflicts r r' = false) True o)
                     (overlay ss')
                   ∧ Forall (λ k, overlay ss' !! k ≠ Some None) (references r)) (news ss)
    ∧ Forall (λ k, map_Forall (λ k' o, from_option (λ r', k ∈ references r' →
                                  from_option (λ r0, k ∈ references r0) False (tbl db !! k')) True o)
                     (overlay ss')) (dels ss)) (sessions db).

#[global] Instance unblocked_dec s db ss : Decision (unblocked s db ss).
Proof. apply map_Forall_dec. apply _. Defined.

Definition flush_statements (now : Z) (t : gmap key row) (ss : session)
    : result exn flush_acc :=
  match fold_result (update_one now t) (overlay ss, objs ss) (dirty ss) with
  | Err e => Err e
  | Ok acc =>
      match fold_result (insert_one now t) acc (news ss) with
      | Err e => Err e
      | Ok acc => fold_result (delete_one t) acc (dels ss)
      end
  end.

(** A failed flush rolls the transaction back. *)
Definition do_flush (now : Z) (s : nat) (db : database) (ss : session)
    : option (result exn session) :=
  if decide (unblocked s db ss) then
    Some match flush_statements now (tbl db) ss with
         | Ok (ov, o) => Ok (Session o [] [] ov)
         | Err e => Err e
         end
  else None.

(** ** Queries *)
Section exec.
(** The order in which the server returns the rows of a table: unspecified
    without [ORDER BY], and possibly different at each query. *)
Variable scan : nat → gmap key row → list row.
Variable now : Z.

Definition sorted_by (f : row → Z) (r1 r2 : row) : Prop := f r1 ≤ f r2.
#[global] Instance sorted_by_dec f : RelDecision (sorted_by f).
Proof. intros r1 r2. unfold sorted_by. apply _. Defined.

Definition run_query (n : nat) (t : gmap key row) (q : query) : list row :=
  let rows := filter (λ r, q_where q r = true) (scan n t) in
  let rows := match q_order q with
              | Some f => merge_sort (sorted_by f) rows
              | None => rows
              end in
  let rows := drop (q_offset q) rows in
  match q_limit q with Some l => take l rows | None => rows end.

(** A row read by a query: the instance already in the identity map wins. *)
Definition load (ss : session) (r : row) : session :=
  match objs ss !! key_of r with
  | Some _ => ss
  | None => with_objs ss (<[key_of r := (r, r)]> (objs ss))
  end.

Definition instance_of (ss : session) (r : row) : row :=
  match objs ss !! key_of r with Some (_, c) => c | None => r end.

Definition bump_queries (db : database) : database :=
  Database (tbl db) (sessions db) (next_sid db) (S (n_queries db)).

(** The documented behaviour of the driver.  [None]: the call waits. *)
Definition orm_exec (B : Type) (op : orm_op B) (db : database)
    : option (B * database) :=
  match op in orm_op B return option (B * database) with
  | OpenSession =>
      let s := next_sid db in
      Some (s, Database (tbl db) (<[s := empty_session]> (sessions db)) (S s)
                 (n_queries db))
  | CloseSession s => Some (tt, with_sessions db (delete s (sessions db)))
  | Get s k =>
      Some match sessions db !! s with
      | None => (Err OperationalError, db)
      | Some ss =>
          match objs ss !! k with
          | Some (_, c) => (Ok (Some c), db)
          | None =>
              match apply_overlay (overlay ss) (tbl db) !! k with
              | Some r => (Ok (Some r),
                           put_session s (with_objs ss (<[k := (r, r)]> (objs ss))) db)
              | None => (Ok None, db)
              end
          end
      end
  | Select s q =>
      Some match sessions db !! s with
      | None => (Err OperationalError, db)
      | Some ss =>
          let rows := run_query (n_queries db)
                        (apply_overlay (overlay ss) (tbl db)) q in
          (Ok (map (instance_of ss) rows),
           bump_queries (put_session s (foldl load ss rows) db))
      end
  | Count s p =>
      Some match sessions db !! s with
      | None => (Err OperationalError, db)
      | Some ss =>
          (Ok (Z.of_nat (length (filter (λ r, p r = true)
                 (scan (n_queries db) (apply_overlay (overlay ss) (tbl db)))))),
           bump_queries db)
      end
  | SetAttrs s k f =>
      Some match sessions db !! s with
      | None => (tt, db)
      | Some ss =>
          match objs ss !! k with
          | Some (l, c) => (tt, put_session s (with_objs ss (<[k := (l, f c)]> (objs ss))) db)
          | None => (tt, db)
          end
      end
  | Attrs s k =>
      Some (match sessions db !! s with
            | Some ss => snd <$> objs ss !! k
            | None => None
            end, db)
  | Add s r =>
      Some match sessions db !! s with
      | None => (tt, db)
      | Some ss =>
          (tt, put_session s (Session (objs ss) (news ss ++ [r]) (dels ss) (overlay ss)) db)
      end
  | Delete s k =>
      Some match sessions db !! s with
      | None => (tt, db)
      | Some ss =>
          (tt, put_session s (Session (objs ss) (news ss) (dels ss ++ [k]) (overlay ss)) db)
      end
  | Flush s =>
      match sessions db !! s with
      | None => Some (Err OperationalError, db)
      | Some ss =>
          match do_flush now s db ss with
          | None => None
          | Some (Ok ss') => Some (Ok tt, put_session s ss' db)
          | Some (Err e) => Some (Err e, put_session s empty_session db)
          end
      end
  | Commit s =>
      match sessions db !! s with
      | None => Some (Err OperationalError, db)
      | Some ss =>
          match do_flush now s db ss with
          | None => None
          | Some (Ok ss') =>
              Some (Ok tt,
                Database (apply_overlay (overlay ss') (tbl db))
                  (<[s := Session (objs ss') [] [] ∅]> (sessions db))
                  (next_sid db) (n_queries db))
          | Some (Err e) => Some (Err e, put_session s empty_session db)
          end
      end
  | Rollback s =>
      Some (tt, match sessions db !! s with
                | Some _ => put_session s empty_session db
                | None => db
                end)
  | Execute s =>
      Some (match sessions db !! s with Some _ => Ok tt | None => Err OperationalError end, db)
  end.
End exec.
End orm.
Arguments query row : clear implicits.
Arguments orm_op key row : clear implicits.
Arguments session key row {_ _}.
Arguments database key row {_ _}.

