(* ===== verification/OrmFacts.v ===== *)
(** * Facts about the session

    Overlays, flushes and identity maps: the lemmas that the proofs about the
    repositories share. *)
From S2P Require Import Prelude Effects Domain Orm.

Section facts.
Context {key row : Type} `{!EqDecision key, !Countable key, !EqDecision row} `{Sch : !Schema key row}.
Implicit Types (t : gmap key row) (ov : gmap key (option row)) (k : key)
  (r l c : row) (ss : session key row).

(** ** Overlays *)
Lemma lookup_apply_overlay ov t k :
  apply_overlay ov t !! k = match ov !! k with Some o => o | None => t !! k end.
Proof.
  unfold apply_overlay. rewrite lookup_merge. unfold diag_None.
  destruct (ov !! k) as [[r|]|] eqn:?, (t !! k) eqn:?; simpl; congruence.
Qed.

Lemma apply_overlay_empty t : apply_overlay ∅ t = t.
Proof. apply map_eq. intros k. by rewrite lookup_apply_overlay, lookup_empty. Qed.

Lemma apply_overlay_insert ov t k r :
  apply_overlay (<[k := Some r]> ov) t = <[k := r]> (apply_overlay ov t).
Proof.
  apply map_eq. intros k'. rewrite lookup_apply_overlay, !lookup_insert.
  case_decide; [done|]. by rewrite lookup_apply_overlay.
Qed.

Lemma apply_overlay_delete ov t k :
  apply_overlay (<[k := None]> ov) t = delete k (apply_overlay ov t).
Proof.
  apply map_eq. intros k'. rewrite lookup_apply_overlay, lookup_insert, lookup_delete.
  case_decide; [done|]. by rewrite lookup_apply_overlay.
Qed.

Lemma apply_overlay_union (m : gmap key row) ov t :
  apply_overlay ((Some <$> m) ∪ ov) t = m ∪ apply_overlay ov t.
Proof.
  apply map_eq. intros k. rewrite lookup_apply_overlay, !lookup_union, lookup_fmap.
  rewrite lookup_apply_overlay. destruct (m !! k), (ov !! k) as [[]|], (t !! k); done.
Qed.

(** ** Dirty instances *)
Definition all_clean (o : gmap key (row * row)) : Prop :=
  ∀ k l c, o !! k = Some (l, c) → l = c.

Lemma dirty_objs_clean o : all_clean o → dirty_objs o = ∅.
Proof.
  intros H. apply map_empty_filter. intros k [l c] Hk Hne.
  apply Hne. by eapply H.
Qed.

(** ** Updates of rows that are stored as they were loaded *)
Definition new_row (now : Z) (c : row) : row := stamp_update now (bump c).

Definition new_rows (now : Z) (d : list (key * (row * row))) : list (key * row) :=
  prod_map id (λ x, new_row now x.2) <$> d.

Lemma new_rows_fst now d : (new_rows now d).*1 = d.*1.
Proof.
  unfold new_rows. rewrite <- list_fmap_compose. apply list_fmap_ext.
  by intros i [k [l c]] _.
Qed.

(** The rows that the updates of a flush write. *)
Definition updates (now : Z) (o : gmap key (row * row)) : gmap key row :=
  (λ x, new_row now x.2) <$> dirty_objs o.

Lemma updates_list now ss :
  list_to_map (new_rows now (dirty ss)) = updates now (objs ss).
Proof. unfold new_rows, updates, dirty. by rewrite list_to_map_fmap, list_to_map_to_list. Qed.

(** A dirty instance whose stored row is the one that was loaded. *)
Definition fresh_update t ov (d : key * (row * row)) : Prop :=
  apply_overlay ov t !! d.1 = Some d.2.1 ∧ merge_columns d.2.1 d.2.2 d.2.1 = d.2.2.

Definition updated (now : Z) (acc : gmap key (option row) * gmap key (row * row))
    (d : list (key * (row * row)))
    (acc' : gmap key (option row) * gmap key (row * row)) : Prop :=
  acc'.1 = (Some <$> list_to_map (new_rows now d)) ∪ acc.1
  ∧ acc'.2 = ((λ r, (r, r)) <$> list_to_map (new_rows now d)) ∪ acc.2.

Lemma fold_updates now t d acc :
  NoDup d.*1 → Forall (fresh_update t acc.1) d →
  Forall (λ x, check_row (new_row now x.2.2) = None) d →
  ∃ acc', fold_result (update_one now t) acc d = Ok acc' ∧ updated now acc d acc'.
Proof.
  revert acc. induction d as [|[k [l c]] d IH]; intros [ov o] Hnd Hf Hck.
  - eexists. split; [done|]. split; simpl; by rewrite ?fmap_empty, map_empty_union.
  - inversion Hnd as [|? ? Hk Hnd']; subst. inversion Hf as [|? ? [Hs Hm] Hf']; subst.
    inversion Hck as [|? ? Hc Hck']; subst. simpl in *.
    rewrite Hs, bool_decide_eq_true_2, Hm by done. fold (new_row now c). rewrite Hc.
    destruct (IH (<[k := Some (new_row now c)]> ov, <[k := (new_row now c, new_row now c)]> o))
      as (acc' & Hfold & Hov & Ho); simpl; auto.
    { rewrite Forall_forall in Hf' |- *.
      intros [k' [l' c']] Hin. destruct (Hf' _ Hin) as [Hs' Hm'].
      split; [|done]. simpl in *.
      rewrite apply_overlay_insert, lookup_insert_ne; [done|].
      intros <-. apply Hk. by apply (list_elem_of_fmap_2 fst _ (k, (l', c'))). }
    exists acc'. split; [done|]. split; simpl in *.
    + rewrite Hov, fmap_insert, <- insert_union_r, insert_union_l; [done|].
      rewrite lookup_fmap, not_elem_of_list_to_map_1; [done|]. by rewrite new_rows_fst.
    + rewrite Ho, fmap_insert, <- insert_union_r, insert_union_l; [done|].
      rewrite lookup_fmap, not_elem_of_list_to_map_1; [done|]. by rewrite new_rows_fst.
Qed.

Lemma fold_updates_err now t d acc :
  NoDup d.*1 → Forall (fresh_update t acc.1) d →
  Exists (λ x, check_row (new_row now x.2.2) ≠ None) d →
  ∃ e x, x ∈ d ∧ check_row (new_row now x.2.2) = Some e
         ∧ fold_result (update_one now t) acc d = Err e.
Proof.
  revert acc. induction d as [|[k [l c]] d IH]; intros [ov o] Hnd Hf Hex.
  - inversion Hex.
  - inversion Hnd as [|? ? Hk Hnd']; subst. inversion Hf as [|? ? [Hs Hm] Hf']; subst.
    simpl in *. rewrite Hs, bool_decide_eq_true_2, Hm by done. fold (new_row now c).
    destruct (check_row (new_row now c)) as [e|] eqn:Hc.
    { exists e, (k, (l, c)). split; [left|]. done. }
    inversion Hex as [? ? Hbad|? ? Hex']; subst; [simpl in Hbad; congruence|].
    destruct (IH (<[k := Some (new_row now c)]> ov, <[k := (new_row now c, new_row now c)]> o))
      as (e & x & Hin & Hx & Hfold); simpl; auto.
    { rewrite Forall_forall in Hf' |- *.
      intros [k' [l' c']] Hin. destruct (Hf' _ Hin) as [Hs' Hm'].
      split; [|done]. simpl in *.
      rewrite apply_overlay_insert, lookup_insert_ne; [done|].
      intros <-. apply Hk. by apply (list_elem_of_fmap_2 fst _ (k, (l', c'))). }
    exists e, x. split; [by right|]. done.
Qed.

(** ** Coherence: the session knows exactly what the database shows it *)

(** What the open transaction of [ss] sees. *)
Definition visible t ss : gmap key row := apply_overlay (overlay ss) t.

Record coherent t ss : Prop := {
  coh_news : news ss = [];
  coh_dels : dels ss = [];
  coh_objs : ∀ k l c, objs ss !! k = Some (l, c) → l = c ∧ visible t ss !! k = Some c;
}.

(** Loaded instances are current in the database; their attributes may have
    been changed since. *)
Definition tracked t ss : Prop :=
  ∀ k l c, objs ss !! k = Some (l, c) →
    visible t ss !! k = Some l ∧ merge_columns l c l = c.

Lemma coherent_clean t ss : coherent t ss → all_clean (objs ss).
Proof. intros Hc k l c Hk. by apply (coh_objs _ _ Hc) in Hk as [-> _]. Qed.

Lemma coherent_empty t : coherent t empty_session.
Proof. split; [done..|]. intros k l c. simpl. by rewrite lookup_empty. Qed.

Lemma dirty_tracked t ss :
  tracked t ss → Forall (fresh_update t (overlay ss)) (dirty ss).
Proof.
  intros Ht. apply Forall_forall. intros [k [l c]] Hin.
  apply elem_of_map_to_list in Hin. apply map_lookup_filter_Some in Hin as [Hin _].
  by apply Ht in Hin.
Qed.

Lemma dirty_checks now ss :
  (∀ k l c, dirty_objs (objs ss) !! k = Some (l, c) → check_row (new_row now c) = None) →
  Forall (λ x, check_row (new_row now x.2.2) = None) (dirty ss).
Proof.
  intros H. apply Forall_forall. intros [k [l c]] Hin.
  apply elem_of_map_to_list in Hin. by eapply H.
Qed.

Lemma tracked_updated now t ss acc :
  tracked t ss → updated now (overlay ss, objs ss) (dirty ss) acc →
  ∀ k l c, acc.2 !! k = Some (l, c) → l = c ∧ apply_overlay acc.1 t !! k = Some c.
Proof.
  intros Ht [Hov Ho] k l c Hk. rewrite updates_list in Hov, Ho. simpl in *.
  rewrite Ho in Hk. rewrite Hov, apply_overlay_union. apply lookup_union_Some_raw in Hk as [Hk|[Hn Hk]].
  - rewrite lookup_fmap in Hk. destruct (updates now (objs ss) !! k) as [r|] eqn:Hu; [|done].
    simpl in Hk. injection Hk as <- <-. split; [done|]. by apply lookup_union_Some_l.
  - rewrite lookup_fmap, fmap_None in Hn.
    destruct (Ht _ _ _ Hk) as [Hv _].
    assert (l = c) as <-.
    { unfold updates in Hn. rewrite lookup_fmap, fmap_None in Hn.
      destruct (decide (l = c)) as [|Hne]; [done|].
      unfold dirty_objs in Hn. rewrite map_lookup_filter_None in Hn.
      destruct Hn as [Hn|Hn]; [congruence|]. by apply Hn in Hk. }
    split; [done|]. by rewrite lookup_union_r.
Qed.

Section flush.
Variables (now : Z) (s : nat) (db : database key row) (ss : session key row).
Hypothesis Hfree : unblocked s db ss.
Hypothesis Htracked : tracked (tbl db) ss.
Hypothesis Hdels : dels ss = [].

Let checks_pass : Prop :=
  ∀ k l c, dirty_objs (objs ss) !! k = Some (l, c) → check_row (new_row now c) = None.

Lemma flush_updates :
  news ss = [] → checks_pass →
  ∃ ss', do_flush now s db ss = Some (Ok ss') ∧ coherent (tbl db) ss'
    ∧ visible (tbl db) ss' = updates now (objs ss) ∪ visible (tbl db) ss
    ∧ objs ss' = ((λ r, (r, r)) <$> updates now (objs ss)) ∪ objs ss
    ∧ overlay ss' = (Some <$> updates now (objs ss)) ∪ overlay ss.
Proof using Hfree Htracked Hdels.
  intros Hnews Hck. unfold do_flush. rewrite decide_True by done.
  unfold flush_statements.
  destruct (fold_updates now (tbl db) (dirty ss) (overlay ss, objs ss))
    as ([ov o] & -> & Hu); simpl.
  { apply NoDup_fst_map_to_list. }
  { by apply dirty_tracked. }
  { by apply dirty_checks. }
  rewrite Hnews, Hdels. simpl. eexists. split; [done|].
  pose proof (tracked_updated _ _ _ _ Htracked Hu) as Hcoh.
  destruct Hu as [Hov Ho]. rewrite updates_list in Hov, Ho.
  split; [by split|]. split; [|done]. simpl in Hov.
  unfold visible at 1. cbn [overlay]. by rewrite Hov, apply_overlay_union.
Qed.

Lemma flush_updates_insert r :
  news ss = [r] → checks_pass →
  let new := stamp_insert now (initial_version r) in
  let vis := updates now (objs ss) ∪ visible (tbl db) ss in
  key_of new = key_of r →
  check_row new = None → vis !! key_of r = None →
  map_Forall (λ _ r', conflicts new r' = false) vis →
  Forall (λ k', is_Some (vis !! k')) (references new) →
  ∃ ss', do_flush now s db ss = Some (Ok ss') ∧ coherent (tbl db) ss'
    ∧ visible (tbl db) ss' = <[key_of r := new]> vis
    ∧ objs ss' = <[key_of r := (new, new)]>
                   (((λ r, (r, r)) <$> updates now (objs ss)) ∪ objs ss)
    ∧ overlay ss' = <[key_of r := Some new]> ((Some <$> updates now (objs ss)) ∪ overlay ss).
Proof using Hfree Htracked Hdels.
  intros Hnews Hck new vis Hkey Hnew Hfresh Hconf Href.
  unfold do_flush. rewrite decide_True by done. unfold flush_statements.
  destruct (fold_updates now (tbl db) (dirty ss) (overlay ss, objs ss))
    as ([ov o] & -> & Hu); simpl.
  { apply NoDup_fst_map_to_list. }
  { by apply dirty_tracked. }
  { by apply dirty_checks. }
  pose proof (tracked_updated _ _ _ _ Htracked Hu) as Hcoh.
  destruct Hu as [Hov Ho]. rewrite updates_list in Hov, Ho. simpl in *.
  assert (Hins : insert_one now (tbl db) (ov, o) r
                 = Ok (<[key_of r := Some new]> ov, <[key_of r := (new, new)]> o)).
  { unfold insert_one. simpl. fold new. rewrite Hnew.
    rewrite bool_decide_eq_true_2; [done|]. by rewrite Hov, apply_overlay_union. }
  rewrite Hnews, Hdels. cbn [fold_result]. rewrite Hins. eexists. split; [done|].
  split; [|unfold visible at 1; cbn [overlay objs];
           by rewrite apply_overlay_insert, Hov, apply_overlay_union, Ho].
  split; [done..|]. intros k l c. unfold visible; cbn [overlay objs].
  rewrite apply_overlay_insert, !lookup_insert.
  case_decide; [|apply Hcoh]. by intros [= <- <-].
Qed.

(** The insertion violates a constraint once the updates are made. *)
Lemma flush_insert_error r :
  news ss = [r] → checks_pass →
  let new := stamp_insert now (initial_version r) in
  let vis := updates now (objs ss) ∪ visible (tbl db) ss in
  ∀ e, (check_row new = Some e ∨
        (check_row new = None ∧ is_Some (vis !! key_of r) ∧ e = IntegrityError)) →
  do_flush now s db ss = Some (Err e).
Proof using Hfree Htracked.
  intros Hnews Hck new vis e He.
  unfold do_flush. rewrite decide_True by done. unfold flush_statements.
  destruct (fold_updates now (tbl db) (dirty ss) (overlay ss, objs ss))
    as ([ov o] & -> & [Hov Ho]); simpl.
  { apply NoDup_fst_map_to_list. }
  { by apply dirty_tracked. }
  { by apply dirty_checks. }
  rewrite updates_list in Hov. simpl in Hov.
  rewrite Hnews. cbn [fold_result].
  unfold insert_one. cbn [fst]. fold new. rewrite Hov, apply_overlay_union.
  destruct He as [->|(-> & [r' Hr'] & ->)]; [done|].
  rewrite bool_decide_eq_false_2; [done|]. intros (Hn & _). unfold vis in Hr'. unfold visible in Hr'. congruence.
Qed.

Lemma flush_check_error :
  ¬ checks_pass →
  ∃ e k l c, dirty_objs (objs ss) !! k = Some (l, c)
    ∧ check_row (new_row now c) = Some e
    ∧ do_flush now s db ss = Some (Err e).
Proof using Hfree Htracked.
  intros Hbad. unfold do_flush. rewrite decide_True by done. unfold flush_statements.
  destruct (fold_updates_err now (tbl db) (dirty ss) (overlay ss, objs ss))
    as (e & [k [l c]] & Hin & Hck & ->).
  { apply NoDup_fst_map_to_list. }
  { by apply dirty_tracked. }
  { apply not_Forall_Exists; [intros ?; apply _|]. intros Hall. apply Hbad.
    intros k l c Hk. rewrite Forall_forall in Hall.
    by apply (Hall (k, (l, c))), elem_of_map_to_list. }
  exists e, k, l, c. split; [by apply elem_of_map_to_list | done].
Qed.

(** What a successful flush has done. *)
Lemma flush_Ok_checks out :
  do_flush now s db ss = Some (Ok out) → checks_pass.
Proof using Hfree Htracked.
  intros Hf.
  destruct (decide (map_Forall (λ _ x, check_row (new_row now x.2) = None)
                      (dirty_objs (objs ss)))) as [Hall|Hbad].
  { intros k l c Hk. by apply Hall in Hk. }
  destruct flush_check_error as (e & k & l & c & _ & _ & He); [|congruence].
  intros Hck. apply Hbad. intros k [l c] Hk. by eapply Hck.
Qed.

Lemma flush_Ok_updates out :
  news ss = [] → do_flush now s db ss = Some (Ok out) →
  checks_pass ∧ coherent (tbl db) out
  ∧ overlay out = (Some <$> updates now (objs ss)) ∪ overlay ss
  ∧ objs out = ((λ r, (r, r)) <$> updates now (objs ss)) ∪ objs ss.
Proof using Hfree Htracked Hdels.
  intros Hn Hf. pose proof (flush_Ok_checks out Hf) as Hck.
  destruct flush_updates as (ss' & Hf' & Hc & _ & Ho & Hov); [done..|].
  rewrite Hf in Hf'. injection Hf' as <-. done.
Qed.

Lemma flush_Ok_insert r out :
  news ss = [r] → do_flush now s db ss = Some (Ok out) →
  let new := stamp_insert now (initial_version r) in
  key_of new = key_of r →
  checks_pass ∧ coherent (tbl db) out ∧ check_row new = None
  ∧ (updates now (objs ss) ∪ visible (tbl db) ss) !! key_of r = None
  ∧ overlay out = <[key_of r := Some new]> ((Some <$> updates now (objs ss)) ∪ overlay ss)
  ∧ objs out = <[key_of r := (new, new)]>
                 (((λ r, (r, r)) <$> updates now (objs ss)) ∪ objs ss).
Proof using Hfree Htracked Hdels.
  intros Hn Hf new Hkey. pose proof (flush_Ok_checks out Hf) as Hck.
  assert (Hins : check_row new = None ∧
    let vis := updates now (objs ss) ∪ visible (tbl db) ss in
    vis !! key_of r = None ∧ map_Forall (λ _ r', conflicts new r' = false) vis
    ∧ Forall (λ k', is_Some (vis !! k')) (references new)).
  { unfold do_flush in Hf. rewrite decide_True in Hf by done. unfold flush_statements in Hf.
    destruct (fold_updates now (tbl db) (dirty ss) (overlay ss, objs ss))
      as ([ov o] & Hu & [Hov Ho]); simpl in *.
    { apply NoDup_fst_map_to_list. }
    { by apply dirty_tracked. }
    { by apply dirty_checks. }
    rewrite Hu, Hn in Hf. cbn [fold_result] in Hf. unfold insert_one in Hf. fold new in Hf.
    destruct (check_row new); [done|]. split; [done|].
    case_bool_decide as Hb; [|done]. simpl in Hb.
    by rewrite Hov, updates_list, apply_overlay_union in Hb. }
  destruct Hins as (Hnew & Hfresh & Hconf & Href).
  destruct (flush_updates_insert r) as (ss' & Hf' & Hc & _ & Ho & Hov); [done..|].
  rewrite Hf in Hf'. injection Hf' as <-. done.
Qed.
End flush.

(** ** Flushes of stale instances

    A flush that succeeds has found every dirty instance's stored row at the
    version it was loaded at. *)
Lemma fold_versions now t d acc acc' :
  NoDup d.*1 → fold_result (update_one now t) acc d = Ok acc' →
  Forall (λ x, ∃ stored, apply_overlay acc.1 t !! x.1 = Some stored
                         ∧ version_of stored = version_of x.2.1) d.
Proof.
  revert acc. induction d as [|[k [l c]] d IH]; intros [ov o] Hnd Hf; [constructor|].
  inversion Hnd as [|? ? Hk Hnd']; subst. simpl in Hf.
  destruct (apply_overlay ov t !! k) as [stored|] eqn:Hs; [|done].
  case_bool_decide as Hv; [|done]. destruct (check_row _); [done|].
  constructor; [by exists stored|].
  apply IH in Hf; [|done]. rewrite Forall_forall in Hf |- *.
  intros [k' [l' c']] Hin. destruct (Hf _ Hin) as (st' & Hst' & Hv').
  exists st'. split; [|done]. simpl in *.
  rewrite apply_overlay_insert, lookup_insert_ne in Hst'; [done|].
  intros <-. apply Hk. by apply (list_elem_of_fmap_2 fst _ (k, (l', c'))).
Qed.

(** If equal versions mean equal rows, and the unchanged instances are current, it
    is a flush of current instances. *)
Lemma flush_Ok_tracked now s db ss ss' :
  (∀ k l, objs ss !! k = Some (l, l) →
     visible (tbl db) ss !! k = Some l ∧ merge_columns l l l = l) →
  (∀ k l c stored, objs ss !! k = Some (l, c) → l ≠ c → visible (tbl db) ss !! k = Some stored →
     version_of stored = version_of l → stored = l ∧ merge_columns l c l = c) →
  do_flush now s db ss = Some (Ok ss') → tracked (tbl db) ss.
Proof.
  intros Hclean Hcur Hf. unfold do_flush in Hf. case_decide; [|done].
  unfold flush_statements in Hf.
  destruct (fold_result _ _ _) as [acc|e] eqn:Hu; [|done].
  apply fold_versions in Hu; [|apply NoDup_fst_map_to_list].
  rewrite Forall_forall in Hu. intros k l c Hk.
  destruct (decide (l = c)) as [<-|Hne]; [by apply Hclean|].
  destruct (Hu (k, (l, c))) as (stored & Hs & Hv).
  { by apply elem_of_map_to_list, map_lookup_filter_Some. }
  by destruct (Hcur k l c stored Hk Hne Hs Hv) as [-> Hm].
Qed.

Lemma do_flush_unblocked now s db ss out : do_flush now s db ss = Some out → unblocked s db ss.
Proof. unfold do_flush. by case_decide. Qed.

(** ** Flushing attribute changes *)

(** [ch] are the instances of [ss] whose attributes changed: as loaded, as
    they are now. *)
Definition with_changes ss (ch : gmap key (row * row)) : session key row :=
  with_objs ss (ch ∪ objs ss).

Definition changes_ok ss (ch : gmap key (row * row)) : Prop :=
  ∀ k l c, ch !! k = Some (l, c) →
    objs ss !! k = Some (l, l) ∧ l ≠ c ∧ merge_columns l c l = c.

Lemma changes_ok_empty ss : changes_ok ss ∅.
Proof. intros k l c. by rewrite lookup_empty. Qed.

Lemma dirty_with_changes t ss ch :
  coherent t ss → changes_ok ss ch → dirty_objs (objs (with_changes ss ch)) = ch.
Proof.
  intros Hc Hch. apply map_eq. intros k. apply option_eq. intros [l c].
  unfold dirty_objs. rewrite map_lookup_filter_Some. simpl.
  rewrite lookup_union_Some_raw. split.
  - intros [[Hk|[_ Hk]] Hne]; [done|]. apply (coherent_clean _ _ Hc) in Hk. congruence.
  - intros Hk. destruct (Hch _ _ _ Hk) as (_ & Hne & _). eauto.
Qed.

Lemma tracked_with_changes t ss ch :
  coherent t ss → changes_ok ss ch →
  (∀ k l, objs ss !! k = Some (l, l) → merge_columns l l l = l) →
  tracked t (with_changes ss ch).
Proof.
  intros Hc Hch Hid k l c. simpl. rewrite lookup_union_Some_raw.
  intros [Hk|[_ Hk]].
  - destruct (Hch _ _ _ Hk) as (Hl & _ & Hm). split; [|done].
    by apply (coh_objs _ _ Hc) in Hl as [_ ?].
  - destruct (coh_objs _ _ Hc _ _ _ Hk) as [-> Hv]. eauto.
Qed.

(** The rows that flushing [ch] writes. *)
Definition rows_of (now : Z) (ch : gmap key (row * row)) : gmap key row :=
  (λ x, new_row now x.2) <$> ch.

(** The rows of a query satisfy it and come from the table. *)
Lemma run_query_rows (scan : nat → gmap key row → list row) n t q x :
  x ∈ run_query scan n t q → q_where q x = true ∧ x ∈ scan n t.
Proof.
  unfold run_query. intros Hx.
  cut (x ∈ filter (λ r, q_where q r = true) (scan n t)); [by intros ?%list_elem_of_filter|].
  assert (Hx' : x ∈ match q_order q with
                    | Some f => merge_sort (sorted_by f) (filter (λ r, q_where q r = true) (scan n t))
                    | None => filter (λ r, q_where q r = true) (scan n t) end).
  { revert Hx. generalize (match q_order q with
                    | Some f => merge_sort (sorted_by f) (filter (λ r, q_where q r = true) (scan n t))
                    | None => filter (λ r, q_where q r = true) (scan n t) end). intros l Hx.
    eapply elem_of_submseteq, sublist_submseteq, (sublist_drop l (q_offset q)).
    destruct (q_limit q); [|done]. by eapply elem_of_submseteq, sublist_submseteq, sublist_take. }
  destruct (q_order q); [|done]. by rewrite merge_sort_Permutation in Hx'.
Qed.

(** A session that is alone never waits. *)
Lemma unblocked_alone s t ss n q ss' : unblocked s (Database t {[s := ss]} n q) ss'.
Proof.
  intros s' ss'' Hs Hne. simpl in Hs. apply lookup_singleton_Some in Hs as [? _]. congruence.
Qed.
End facts.
