(* ===== verification/Constraints.v ===== *)
(** * Constraints under concurrency

    Whatever sessions are open on a database and however their operations
    interleave, the committed rows satisfy the constraints of the schema: keys,
    checks, unique indexes and foreign keys.  For any schema, as long as no
    attribute that a unique index or a foreign key reads is written. *)
From S2P Require Import Prelude Effects Domain Orm OrmFacts.

Section constraints.
Context {key row : Type} `{!EqDecision key, !Countable key, !EqDecision row} `{Sch : !Schema key row}.
Implicit Types (t : gmap key row) (ov : gmap key (option row)) (k : key) (r : row).
Implicit Types ss : session key row.

(** The constraints of the schema, on the rows of its tables. *)
Record constraints_hold t : Prop := {
  cs_key k r : t !! k = Some r → key_of r = k;
  cs_check k r : t !! k = Some r → check_row r = None;
  cs_unique k k' r r' : t !! k = Some r → t !! k' = Some r' → k ≠ k' → conflicts r r' = false;
  cs_refs k r k' : t !! k = Some r → k' ∈ references r → is_Some (t !! k');
}.

(** The columns of [r] that keys, unique indexes and foreign keys read are
    those of [r']. *)
Record frozen (r r' : row) : Prop := {
  fz_key : key_of r' = key_of r;
  fz_refs : references r' = references r;
  fz_unique x : conflicts r' x = conflicts r x;
}.

(** What the flush does to a row besides its changed columns. *)
Class SchemaLaws : Prop := {
  conflicts_comm r r' : conflicts r r' = conflicts r' r;
  version_frozen v r : frozen r (with_version v r);
  insert_stamp_frozen now r : frozen r (stamp_insert now r);
  update_stamp_frozen now r : frozen r (stamp_update now r);
  merge_frozen l c r : frozen l c → frozen r (merge_columns l c r);
}.
Context {Laws : SchemaLaws}.

#[local] Instance frozen_preorder : PreOrder frozen.
Proof using.
  split; [done|]. intros x y z [] []. split; [congruence..|]. intros. congruence.
Qed.

Lemma bump_frozen r : frozen r (bump r).
Proof using Laws. unfold bump. destruct (version_of r); [apply version_frozen | done]. Qed.

Lemma initial_frozen r : frozen r (initial_version r).
Proof using Laws. unfold initial_version. destruct (version_of r); [apply version_frozen | done]. Qed.

(** ** Rows written one at a time *)
Lemma constrained_update t k r new :
  constraints_hold t → t !! k = Some r → frozen r new → check_row new = None →
  constraints_hold (<[k := new]> t).
Proof using Laws.
  intros [Hkey Hck Hun Href] Hk [Hfk Hfr Hfu] Hnew. split.
  - intros k1 r1 [[<- <-]|[_ H1]]%lookup_insert_Some; [rewrite Hfk|]; eauto.
  - intros k1 r1 [[<- <-]|[_ H1]]%lookup_insert_Some; eauto.
  - intros k1 k2 r1 r2 [[<- <-]|[? H1]]%lookup_insert_Some [[<- <-]|[? H2]]%lookup_insert_Some Hne;
      [done|rewrite Hfu; eauto|rewrite conflicts_comm, Hfu; eauto|eauto].
  - intros k1 r1 k' H1 Hk'. destruct (decide (k = k')) as [<-|Hne]; [by rewrite lookup_insert_eq|].
    rewrite lookup_insert_ne by done. apply lookup_insert_Some in H1 as [[<- <-]|[_ H1]]; [|eauto].
    rewrite Hfr in Hk'. eauto.
Qed.

Lemma constrained_insert t new :
  constraints_hold t → check_row new = None → t !! key_of new = None →
  map_Forall (λ _ r', conflicts new r' = false) t →
  Forall (λ k', is_Some (t !! k')) (references new) →
  constraints_hold (<[key_of new := new]> t).
Proof using Laws.
  intros [Hkey Hck Hun Href] Hnew Hnone Hconf Hrefs. rewrite Forall_forall in Hrefs. split.
  - intros k1 r1 [[<- <-]|[_ H1]]%lookup_insert_Some; eauto.
  - intros k1 r1 [[<- <-]|[_ H1]]%lookup_insert_Some; eauto.
  - intros k1 k2 r1 r2 [[<- <-]|[? H1]]%lookup_insert_Some [[<- <-]|[? H2]]%lookup_insert_Some Hne;
      [done|by eapply Hconf|rewrite conflicts_comm; by eapply Hconf|eauto].
  - intros k1 r1 k' H1 Hk'. destruct (decide (key_of new = k')) as [<-|Hne]; [by rewrite lookup_insert_eq|].
    rewrite lookup_insert_ne by done. apply lookup_insert_Some in H1 as [[<- <-]|[_ H1]]; eauto.
Qed.

Lemma constrained_delete t k :
  constraints_hold t → map_Forall (λ _ r', k ∉ references r') t → constraints_hold (delete k t).
Proof using.
  intros [Hkey Hck Hun Href] Hno. split.
  - intros k1 r1 [_ H1]%lookup_delete_Some; eauto.
  - intros k1 r1 [_ H1]%lookup_delete_Some; eauto.
  - intros k1 k2 r1 r2 [? H1]%lookup_delete_Some [? H2]%lookup_delete_Some; eauto.
  - intros k1 r1 k' [_ H1]%lookup_delete_Some Hk'. rewrite lookup_delete_ne; [eauto|].
    intros ->. by apply (Hno _ _ H1).
Qed.

(** ** Two open transactions *)

(** [ov] writes no row that [ov'] has written, none that conflicts with one of
    them and none that refers to a row [ov'] has deleted. *)
Record side (ov ov' : gmap key (option row)) : Prop := {
  sd_keys k x : ov !! k = Some x → ov' !! k = None;
  sd_unique k k' r r' : ov !! k = Some (Some r) → ov' !! k' = Some (Some r') → conflicts r r' = false;
  sd_refs k r k' : ov !! k = Some (Some r) → k' ∈ references r → ov' !! k' ≠ Some None;
}.

Definition apart ov ov' : Prop := side ov ov' ∧ side ov' ov.

Lemma apart_empty ov : apart ∅ ov ∧ apart ov ∅.
Proof using.
  assert (side ∅ ov ∧ side ov ∅) as [? ?] by (split; split; intros *; rewrite ?lookup_empty; done).
  by repeat split.
Qed.

(** A row that could stand beside what [ov'] has written. *)
Definition fits_beside r ov' : Prop :=
  (∀ k' r', ov' !! k' = Some (Some r') → conflicts r r' = false)
  ∧ (∀ k', k' ∈ references r → ov' !! k' ≠ Some None).

Lemma frozen_beside r new ov' : frozen r new → fits_beside r ov' → fits_beside new ov'.
Proof using. intros [_ Hr Hu] [H1 H2]. split; [intros; rewrite Hu; eauto | by rewrite Hr]. Qed.

Lemma apart_write ov ov' k new :
  apart ov ov' → ov' !! k = None → fits_beside new ov' → apart (<[k := Some new]> ov) ov'.
Proof using Laws.
  intros [[H1 H2 H3] [G1 G2 G3]] Hk [Hu Hr]. split; split.
  - intros k1 x [[<- <-]|[_ ?]]%lookup_insert_Some; eauto.
  - intros k1 k2 r1 r2 [[<- [= <-]]|[_ ?]]%lookup_insert_Some; eauto.
  - intros k1 r1 k2 [[<- [= <-]]|[_ ?]]%lookup_insert_Some; eauto.
  - intros k1 x Hx. rewrite lookup_insert_ne by congruence. eauto.
  - intros k1 k2 r1 r2 Hr1 [[<- [= <-]]|[_ ?]]%lookup_insert_Some; [rewrite conflicts_comm|]; eauto.
  - intros k1 r1 k2 Hr1 Hk2 [[<- ?]|[_ ?]]%lookup_insert_Some; [done|]. by eapply G3.
Qed.

Lemma apart_erase ov ov' k :
  apart ov ov' → ov' !! k = None → (∀ k' r', ov' !! k' = Some (Some r') → k ∉ references r') →
  apart (<[k := None]> ov) ov'.
Proof using.
  intros [[H1 H2 H3] [G1 G2 G3]] Hk Hr. split; split.
  - intros k1 x [[<- <-]|[_ ?]]%lookup_insert_Some; eauto.
  - intros k1 k2 r1 r2 [[<- ?]|[_ ?]]%lookup_insert_Some; [done|eauto].
  - intros k1 r1 k2 [[<- ?]|[_ ?]]%lookup_insert_Some; [done|eauto].
  - intros k1 x Hx. rewrite lookup_insert_ne by congruence. eauto.
  - intros k1 k2 r1 r2 Hr1 [[<- ?]|[_ ?]]%lookup_insert_Some; [done|eauto].
  - intros k1 r1 k2 Hr1 Hk2 [[<- _]|[_ ?]]%lookup_insert_Some; [by eapply Hr | by eapply G3].
Qed.

(** A row that [ov] sees and [ov'] has not written fits beside [ov']. *)
Lemma visible_beside t ov ov' k r :
  apart ov ov' → constraints_hold (apply_overlay ov' t) → apply_overlay ov t !! k = Some r →
  ov' !! k = None → fits_beside r ov'.
Proof using.
  intros [[H1 H2 H3] _] Hc Hk Hk'. rewrite lookup_apply_overlay in Hk.
  destruct (ov !! k) as [x|] eqn:Hov; [subst x; split; eauto|].
  assert (Hv : apply_overlay ov' t !! k = Some r) by by rewrite lookup_apply_overlay, Hk'.
  split.
  - intros k1 r1 Hr1. eapply (cs_unique _ Hc k k1); [done| |congruence].
    by rewrite lookup_apply_overlay, Hr1.
  - intros k1 Hk1 Hn. destruct (cs_refs _ Hc k r k1 Hv Hk1) as [x Hx].
    rewrite lookup_apply_overlay, Hn in Hx. done.
Qed.

(** ** A flush *)
Definition tracked_pair k (x : row * row) : Prop := key_of x.1 = k ∧ frozen x.1 x.2.

Section flush.
Variables (now : Z) (t : gmap key row) (others : gmap key (option row) → Prop).
Hypothesis Hothers : ∀ ov', others ov' → constraints_hold (apply_overlay ov' t).

Definition acc_ok (acc : flush_acc (key := key) (row := row)) : Prop :=
  constraints_hold (apply_overlay acc.1 t) ∧ map_Forall tracked_pair acc.2
  ∧ ∀ ov', others ov' → apart acc.1 ov'.

(** The other transactions have not written [k]. *)
Definition free k : Prop := ∀ ov', others ov' → ov' !! k = None.

Lemma update_ok acc d acc' :
  free d.1 → tracked_pair d.1 d.2 → acc_ok acc → update_one now t acc d = Ok acc' → acc_ok acc'.
Proof using Hothers Laws.
  destruct d as [k [l c]]. intros Hfree [Hl Hlc] (Hc & Ho & Hap). unfold update_one. simpl in *.
  destruct (apply_overlay acc.1 t !! k) as [stored|] eqn:Hs; [|done].
  case_bool_decide; [|done]. destruct (check_row _) eqn:Hck; [done|]. intros [= <-].
  assert (Hnew : frozen stored (stamp_update now (bump (merge_columns l c stored)))).
  { by rewrite <- update_stamp_frozen, <- bump_frozen, <- merge_frozen. }
  split_and!; simpl.
  - rewrite apply_overlay_insert. by eapply constrained_update.
  - apply map_Forall_insert_2; [|done].
    assert (frozen l (stamp_update now (bump c))) as [Hk _ _].
    { by rewrite <- update_stamp_frozen, <- bump_frozen. }
    split; [by rewrite <- Hl | done].
  - intros ov' Hov'. apply apart_write; [eauto..|].
    eapply frozen_beside; [exact Hnew|]. eapply visible_beside; eauto.
Qed.

Lemma insert_ok acc r acc' :
  free (key_of r) → (∀ ov', others ov' → fits_beside r ov') →
  acc_ok acc → insert_one now t acc r = Ok acc' → acc_ok acc'.
Proof using Laws.
  intros Hfree Hfits (Hc & Ho & Hap). unfold insert_one.
  destruct (check_row _) eqn:Hck; [done|]. case_bool_decide as Hb; [|done].
  set (new := stamp_insert now (initial_version r)) in *.
  assert (Hnew : frozen r new) by (unfold new; by rewrite <- insert_stamp_frozen, <- initial_frozen).
  destruct Hb as (Hnone & Hconf & Hrefs). rewrite <- (fz_key _ _ Hnew) in *.
  intros [= <-]. split_and!; simpl.
  - rewrite apply_overlay_insert. by apply constrained_insert.
  - by apply map_Forall_insert_2.
  - intros ov' Hov'. apply apart_write; [eauto..|]. eapply frozen_beside; eauto.
Qed.

(** A row that an uncommitted one refers to is not deleted. *)
Lemma delete_ok acc k acc' :
  free k →
  (∀ ov', others ov' → ∀ k' r', ov' !! k' = Some (Some r') → k ∈ references r' →
     ∃ r0, t !! k' = Some r0 ∧ k ∈ references r0) →
  acc_ok acc → delete_one t acc k = Ok acc' → acc_ok acc'.
Proof using.
  intros Hfree Hwait (Hc & Ho & Hap). unfold delete_one. case_bool_decide as Hno; [|done].
  intros [= <-]. split_and!; simpl.
  - rewrite apply_overlay_delete. by apply constrained_delete.
  - by apply map_Forall_delete.
  - intros ov' Hov'. apply apart_erase; [eauto..|]. intros k' r' Hr' Hk.
    destruct (Hwait ov' Hov' k' r' Hr' Hk) as (r0 & H0 & Hk0).
    apply (Hno k' r0); [|done]. rewrite lookup_apply_overlay.
    destruct (acc.1 !! k') eqn:Hk'; [|done].
    destruct (Hap ov' Hov') as [Hs _]. pose proof (sd_keys _ _ Hs _ _ Hk'). congruence.
Qed.

Lemma fold_ok {X} (f : flush_acc → X → result exn flush_acc) (P : X → Prop) xs acc acc' :
  (∀ acc x acc', P x → acc_ok acc → f acc x = Ok acc' → acc_ok acc') →
  Forall P xs → acc_ok acc → fold_result f acc xs = Ok acc' → acc_ok acc'.
Proof using.
  intros Hf Hxs. revert acc. induction Hxs as [|x xs Hx _ IH]; intros acc Hacc; simpl.
  - by intros [= <-].
  - destruct (f acc x) as [acc1|] eqn:Hfx; [|done]. apply IH. by eapply Hf.
Qed.
End flush.

(** ** The database *)
Record transaction_ok t (ss : session key row) : Prop := {
  so_visible : constraints_hold (apply_overlay (overlay ss) t);
  so_tracked : map_Forall tracked_pair (objs ss);
}.

Record database_ok (db : database key row) : Prop := {
  dk_rows : constraints_hold (tbl db);
  dk_sessions s ss : sessions db !! s = Some ss → transaction_ok (tbl db) ss;
  dk_apart s s' ss ss' : s ≠ s' → sessions db !! s = Some ss → sessions db !! s' = Some ss' →
    apart (overlay ss) (overlay ss');
}.

(** What the transactions beside [s] have written. *)
Definition beside s (db : database key row) ov : Prop :=
  ∃ s' ss', s' ≠ s ∧ sessions db !! s' = Some ss' ∧ overlay ss' = ov.

(** What waiting for the other transactions ensures. *)
Lemma unblocked_free s db ss k :
  unblocked s db ss → k ∈ written_keys ss → free (beside s db) k.
Proof using.
  intros Hfree Hk ? (s2 & ss2 & Hne & Hs2 & <-). destruct (Hfree s2 ss2 Hs2 Hne) as [Hkeys _].
  rewrite Forall_forall in Hkeys. by apply Hkeys.
Qed.

Lemma unblocked_insert s db ss r ov :
  unblocked s db ss → r ∈ news ss → beside s db ov → fits_beside r ov.
Proof using.
  intros Hfree Hr (s2 & ss2 & Hne & Hs2 & <-). destruct (Hfree s2 ss2 Hs2 Hne) as (_ & Hnews & _).
  rewrite Forall_forall in Hnews. destruct (Hnews r Hr) as [Hconf Hrefs]. split.
  - intros k' r' Hr'. exact (Hconf _ _ Hr').
  - by rewrite Forall_forall in Hrefs.
Qed.

Lemma unblocked_delete s db ss k ov k' r' :
  unblocked s db ss → k ∈ dels ss → beside s db ov → ov !! k' = Some (Some r') → k ∈ references r' →
  ∃ r0, tbl db !! k' = Some r0 ∧ k ∈ references r0.
Proof using.
  intros Hfree Hk (s2 & ss2 & Hne & Hs2 & <-) Hr' Href.
  destruct (Hfree s2 ss2 Hs2 Hne) as (_ & _ & Hdels). rewrite Forall_forall in Hdels.
  pose proof (Hdels k Hk _ _ Hr' Href) as Hx. simpl in Hx.
  destruct (tbl db !! k') as [r0|]; [by exists r0 | done].
Qed.

Lemma in_written ss k :
  k ∈ (dirty ss).*1 ∨ k ∈ key_of <$> news ss ∨ k ∈ dels ss → k ∈ written_keys ss.
Proof using. unfold written_keys. rewrite !elem_of_app. tauto. Qed.

Lemma flush_ok now s db ss ss' :
  database_ok db → sessions db !! s = Some ss → do_flush now s db ss = Some (Ok ss') →
  transaction_ok (tbl db) ss' ∧ ∀ ov, beside s db ov → apart (overlay ss') ov.
Proof using Laws.
  intros Hdb Hs Hf. pose proof (do_flush_unblocked _ _ _ _ _ Hf) as Hfree.
  unfold do_flush in Hf. case_decide; [|done]. unfold flush_statements in Hf.
  destruct (fold_result (update_one now (tbl db)) _ _) as [acc1|] eqn:H1; [|done].
  destruct (fold_result (insert_one now (tbl db)) _ _) as [acc2|] eqn:H2; [|done].
  destruct (fold_result (delete_one (tbl db)) _ _) as [[ov o]|] eqn:H3; [|done]. injection Hf as <-.
  pose proof (dk_sessions _ Hdb s ss Hs) as [Hvis Htr].
  assert (Hoth : ∀ ov', beside s db ov' → constraints_hold (apply_overlay ov' (tbl db))).
  { intros ? (s2 & ss2 & _ & Hs2 & <-). by apply (dk_sessions _ Hdb s2 ss2). }
  apply (fold_ok (tbl db) (beside s db) _ (λ d, free (beside s db) d.1 ∧ tracked_pair d.1 d.2)) in H1.
  2: { intros acc x acc' []. by apply update_ok. }
  2: { apply Forall_forall. intros [k x] Hin. split.
       - eapply unblocked_free, in_written; [done|]. left. by apply (list_elem_of_fmap_2 fst) in Hin.
       - apply elem_of_map_to_list, map_lookup_filter_Some in Hin as [Hin _]. by apply Htr. }
  2: { split_and!; [done..|]. intros ? (s2 & ss2 & Hne & Hs2 & <-). by eapply (dk_apart _ Hdb s s2). }
  apply (fold_ok (tbl db) (beside s db) _ (λ r, r ∈ news ss)) in H2; [|..|done].
  2: { intros acc r acc' Hr. apply insert_ok; [|eauto using unblocked_insert].
       eapply unblocked_free, in_written; [done|]. right. left. by apply list_elem_of_fmap_2. }
  2: { by apply Forall_forall. }
  apply (fold_ok (tbl db) (beside s db) _ (λ k, k ∈ dels ss)) in H3; [|..|done].
  2: { intros acc k acc' Hk. apply delete_ok; [|eauto using unblocked_delete].
       eapply unblocked_free, in_written; eauto. }
  2: { by apply Forall_forall. }
  destruct H3 as (Hc & Ho & Hap). by split.
Qed.

(** ** Commit *)
Lemma constrained_commit t ov ov' :
  constraints_hold (apply_overlay ov t) → constraints_hold (apply_overlay ov' t) → apart ov ov' →
  constraints_hold (apply_overlay ov' (apply_overlay ov t)).
Proof using Laws.
  intros Hc Hc' [[Hk Hu Hr] [Hk' Hu' Hr']].
  (** a row is one [ov'] wrote, one [ov] wrote, or an old one *)
  assert (Hrow : ∀ k r, apply_overlay ov' (apply_overlay ov t) !! k = Some r →
    (ov' !! k = Some (Some r) ∧ apply_overlay ov' t !! k = Some r)
    ∨ (ov !! k = Some (Some r) ∧ apply_overlay ov t !! k = Some r)
    ∨ (apply_overlay ov t !! k = Some r ∧ apply_overlay ov' t !! k = Some r)).
  { intros k r. rewrite !lookup_apply_overlay.
    destruct (ov' !! k) as [x|]; [intros ->; auto|]. destruct (ov !! k) as [y|]; [intros ->|]; auto. }
  split.
  - intros k r [[_ ?]|[[_ ?]|[_ ?]]]%Hrow; eauto using cs_key.
  - intros k r [[_ ?]|[[_ ?]|[_ ?]]]%Hrow; eauto using cs_check.
  - intros k k' r r' [[]|[[]|[]]]%Hrow [[]|[[]|[]]]%Hrow Hne;
      first [by apply (cs_unique _ Hc k k') | by apply (cs_unique _ Hc' k k')
            | by apply (Hu k k') | by apply (Hu' k k')].
  - intros k r k' [[Ho H]|[[Ho H]|[H H']]]%Hrow Hin.
    + destruct (cs_refs _ Hc' _ _ _ H Hin) as [x Hx]. pose proof (Hr' _ _ _ Ho Hin) as Hn.
      rewrite !lookup_apply_overlay in *. destruct (ov' !! k'); [eauto|].
      destruct (ov !! k') as [[y|]|]; eauto; congruence.
    + destruct (cs_refs _ Hc _ _ _ H Hin) as [x Hx]. pose proof (Hr _ _ _ Ho Hin) as Hn.
      rewrite (lookup_apply_overlay ov'). destruct (ov' !! k') as [[y|]|]; eauto; congruence.
    + destruct (cs_refs _ Hc _ _ _ H Hin) as [x Hx], (cs_refs _ Hc' _ _ _ H' Hin) as [x' Hx'].
      rewrite (lookup_apply_overlay ov') in *. destruct (ov' !! k'); eauto.
Qed.

(** ** The operations *)
Lemma put_session_ok s ss db :
  database_ok db → transaction_ok (tbl db) ss → (∀ ov, beside s db ov → apart (overlay ss) ov) →
  database_ok (put_session s ss db).
Proof using.
  intros [Hc Hs Hap] Hss Hov. split; simpl; [done| |].
  - intros s1 ss1 [[<- <-]|[_ H]]%lookup_insert_Some; eauto.
  - intros s1 s2 ss1 ss2 Hne [[<- <-]|[? H1]]%lookup_insert_Some [[<- <-]|[? H2]]%lookup_insert_Some;
      [done| | |eauto].
    + apply Hov. by exists s2, ss2.
    + destruct (Hov (overlay ss1)); [by exists s1, ss1 | by split].
Qed.

Lemma beside_apart s ss db ov :
  database_ok db → sessions db !! s = Some ss → beside s db ov → apart (overlay ss) ov.
Proof using. intros Hdb Hs (s2 & ss2 & Hne & H2 & <-). by eapply (dk_apart _ Hdb s s2). Qed.

(** Only what the session remembers changes. *)
Lemma put_objs_ok s ss ss' db :
  database_ok db → sessions db !! s = Some ss → overlay ss' = overlay ss →
  map_Forall tracked_pair (objs ss') → database_ok (put_session s ss' db).
Proof using.
  intros Hdb Hs Hov Ho. destruct (dk_sessions _ Hdb s ss Hs). apply put_session_ok; [done| |].
  - split; [by rewrite Hov | done].
  - intros ov. rewrite Hov. by eapply beside_apart.
Qed.

Lemma new_session_ok t : constraints_hold t → transaction_ok t empty_session.
Proof using. split; [simpl; by rewrite apply_overlay_empty | apply map_Forall_empty]. Qed.

Lemma put_empty_ok s db : database_ok db → database_ok (put_session s empty_session db).
Proof using.
  intros Hdb. apply put_session_ok; [done | apply new_session_ok, Hdb|]. intros ov _. apply apart_empty.
Qed.

Lemma load_ok (rs : list row) ss :
  map_Forall tracked_pair (objs ss) →
  map_Forall tracked_pair (objs (foldl load ss rs)) ∧ overlay (foldl load ss rs) = overlay ss.
Proof using.
  revert ss. induction rs as [|r rs IH]; intros ss Hss; [done|]. simpl.
  assert (map_Forall tracked_pair (objs (load ss r)) ∧ overlay (load ss r) = overlay ss) as [Ho Hov].
  { unfold load. destruct (objs ss !! key_of r); [done|]. split; [|done]. by apply map_Forall_insert_2. }
  rewrite <- Hov. by apply IH.
Qed.

(** Attributes written are not those of keys, unique indexes or foreign keys. *)
Definition keeps_columns {B} (op : orm_op key row B) : Prop :=
  match op with SetAttrs _ _ f => ∀ r, frozen r (f r) | _ => True end.

Lemma commit_ok s ss ss' db n q :
  database_ok db → sessions db !! s = Some ss → transaction_ok (tbl db) ss' →
  (∀ ov, beside s db ov → apart (overlay ss') ov) →
  database_ok (Database (apply_overlay (overlay ss') (tbl db))
                 (<[s := Session (objs ss') [] [] ∅]> (sessions db)) n q).
Proof using Laws.
  intros Hdb Hs [Hvis Htr] Hov. split; simpl; [done| |].
  - intros s1 ss1 [[<- <-]|[Hne H]]%lookup_insert_Some.
    + split; [simpl; by rewrite apply_overlay_empty | done].
    + destruct (dk_sessions _ Hdb s1 ss1 H). split; [|done]. apply constrained_commit; [done..|].
      apply Hov. by exists s1, ss1.
  - intros s1 s2 ss1 ss2 Hne [[<- <-]|[? H1]]%lookup_insert_Some [[<- <-]|[? H2]]%lookup_insert_Some;
      [done|apply apart_empty..|by eapply (dk_apart _ Hdb s1 s2)].
Qed.

(** Every operation of every session keeps the constraints. *)
Theorem orm_constrained scan now {B} (op : orm_op key row B) db b db' :
  keeps_columns op → database_ok db → orm_exec scan now B op db = Some (b, db') → database_ok db'.
Proof using Laws.
  intros Hop Hdb. pose proof Hdb as [Hc Hss Hap].
  destruct op as [|s|s k|s q|s p|s k f|s k|s r|s k|s|s|s|s]; cbn [orm_exec].
  - intros [= <- <-]. apply (put_empty_ok (next_sid db)) in Hdb as []. by split.
  - intros [= <- <-]. split; simpl; [done| |].
    + intros s1 ss1 [_ H]%lookup_delete_Some. eauto.
    + intros s1 s2 ss1 ss2 Hne [_ H1]%lookup_delete_Some [_ H2]%lookup_delete_Some. eauto.
  - destruct (sessions db !! s) as [ss|] eqn:Hs; [|by intros [= <- <-]].
    destruct (objs ss !! k) as [[l c]|]; [by intros [= <- <-]|].
    destruct (apply_overlay (overlay ss) (tbl db) !! k) as [r|] eqn:Hr; intros [= <- <-]; [|done].
    destruct (Hss _ _ Hs) as [Hvis Htr]. eapply put_objs_ok; [done..|].
    apply map_Forall_insert_2; [|done]. split; [by eapply cs_key | done].
  - destruct (sessions db !! s) as [ss|] eqn:Hs; [|by intros [= <- <-]].
    destruct (load_ok (run_query scan (n_queries db) (apply_overlay (overlay ss) (tbl db)) q) ss) as [Ho Hov];
      [by apply (Hss _ _ Hs)|]. intros [= <- <-]. by destruct (put_objs_ok s ss _ db Hdb Hs Hov Ho).
  - destruct (sessions db !! s); intros [= <- <-]; by split.
  - destruct (sessions db !! s) as [ss|] eqn:Hs; [|by intros [= <- <-]].
    destruct (objs ss !! k) as [[l c]|] eqn:Ho; intros [= <- <-]; [|done].
    destruct (Hss _ _ Hs) as [Hvis Htr]. eapply put_objs_ok; [done..|].
    apply map_Forall_insert_2; [|done]. destruct (Htr _ _ Ho) as [Hl Hlc]. split; [done|].
    simpl in *. by rewrite <- (Hop c).
  - by intros [= <- <-].
  - destruct (sessions db !! s) as [ss|] eqn:Hs; intros [= <- <-]; [|done].
    eapply put_objs_ok; [done..|]. by apply (Hss _ _ Hs).
  - destruct (sessions db !! s) as [ss|] eqn:Hs; intros [= <- <-]; [|done].
    eapply put_objs_ok; [done..|]. by apply (Hss _ _ Hs).
  - destruct (sessions db !! s) as [ss|] eqn:Hs; [|by intros [= <- <-]].
    destruct (do_flush now s db ss) as [[ss'|e]|] eqn:Hf; intros [= <- <-]; [|by apply put_empty_ok].
    apply flush_ok in Hf as []; [by apply put_session_ok | done..].
  - destruct (sessions db !! s) as [ss|] eqn:Hs; [|by intros [= <- <-]].
    destruct (do_flush now s db ss) as [[ss'|e]|] eqn:Hf; intros [= <- <-]; [|by apply put_empty_ok].
    apply flush_ok in Hf as []; [by eapply commit_ok | done..].
  - destruct (sessions db !! s) as [ss|] eqn:Hs; intros [= <- <-]; [by apply put_empty_ok | done].
  - destruct (sessions db !! s); by intros [= <- <-].
Qed.
End constraints.
Arguments SchemaLaws key row {_ _ _ _}.
