(* ===== verification/Redis.v ===== *)
(** * Redis

    The commands the code sends and their documented behaviour: string values
    with an optional expiry instant.  A key is visible strictly before its
    expiry.  A script given to [EVAL] runs atomically. *)
From S2P Require Import Prelude Effects Domain.

(** Instants and durations are microseconds. *)
Definition ms : Z := 1000.
Definition second : Z := 1000000.

Inductive redis_value := RStr (s : string) | RInt (n : Z).

#[global] Instance redis_value_eq_dec : EqDecision redis_value.
Proof. solve_decision. Defined.

Abbreviation redis_db := (gmap string (redis_value * option Z)).

Definition live (now : Z) (expiry : option Z) : bool :=
  match expiry with Some e => now <? e | None => true end.

(** The value a command sees at [now]. *)
Definition redis_get (now : Z) (db : redis_db) (k : string) : option redis_value :=
  match db !! k with
  | Some (v, expiry) => if live now expiry then Some v else None
  | None => None
  end.

Inductive redis_op : Type → Type :=
| SetNxPx (k v : string) (px : Z) : redis_op (result exn bool)
| SetEx (k v : string) (ex : Z) : redis_op (result exn unit)
| RGet (k : string) : redis_op (result exn (option redis_value))
| Del (k : string) : redis_op (result exn Z)
| Incr (k : string) : redis_op (result exn Z)
| Expire (k : string) (seconds : Z) : redis_op (result exn bool)
| Ping : redis_op (result exn bool)
| EvalScript (script : Z → redis_db → Z * redis_db) : redis_op (result exn Z).

Definition redis_exec (now : Z) (up : bool) (B : Type) (op : redis_op B) (db : redis_db)
    : B * redis_db :=
  match op in redis_op B return B * redis_db with
  | SetNxPx k v px =>
      if up then
        match redis_get now db k with
        | Some _ => (Ok false, db)
        | None => (Ok true, <[k := (RStr v, Some (now + px * ms))]> db)
        end
      else (Err RedisError, db)
  | SetEx k v ex =>
      if up then (Ok tt, <[k := (RStr v, Some (now + ex * second))]> db)
      else (Err RedisError, db)
  | RGet k => (if up then Ok (redis_get now db k) else Err RedisError, db)
  | Del k =>
      if up then
        match redis_get now db k with
        | Some _ => (Ok 1, delete k db)
        | None => (Ok 0, delete k db)
        end
      else (Err RedisError, db)
  | Incr k =>
      if up then
        match redis_get now db k with
        | Some (RInt n) =>
            (Ok (n + 1), <[k := (RInt (n + 1), from_option snd None (db !! k))]> db)
        | Some (RStr _) => (Err RedisError, db)
        | None => (Ok 1, <[k := (RInt 1, None)]> db)
        end
      else (Err RedisError, db)
  | Expire k s =>
      if up then
        match redis_get now db k with
        | Some v => (Ok true, <[k := (v, Some (now + s * second))]> db)
        | None => (Ok false, db)
        end
      else (Err RedisError, db)
  | Ping => (if up then Ok true else Err RedisError, db)
  | EvalScript script =>
      if up then let '(n, db') := script now db in (Ok n, db') else (Err RedisError, db)
  end.
