(* ===== verification/InventoryModels.v ===== *)
(** * Tables of the Inventory service

    [services/inventory/app/models.py]: the mapped classes [EventInventory] and
    [Reservation], their columns and constraints as a schema of the session. *)
From S2P Require Import Prelude Effects Uuid Domain Orm.

Record EventInventory : Type := mkEventInventory {
  inv_event_id : uuid;
  total_capacity : Z;
  reserved_count : Z;
  confirmed_count : Z;
  version : Z;
}.

(** [EventInventory.available] *)
Definition available (i : EventInventory) : Z :=
  total_capacity i - reserved_count i - confirmed_count i.

Record Reservation : Type := mkReservation {
  res_id : uuid;
  res_event_id : uuid;
  res_order_id : uuid;
  quantity : Z;
  status : ReservationStatus.t;
  expires_at : Z;
  res_created_at : option Z;
  res_updated_at : option Z;
}.

#[global] Instance EventInventory_eq_dec : EqDecision EventInventory.
Proof. solve_decision. Defined.
#[global] Instance Reservation_eq_dec : EqDecision Reservation.
Proof. solve_decision. Defined.

(** Attribute writes. *)
Definition set_total_capacity (z : Z) (i : EventInventory) : EventInventory :=
  mkEventInventory (inv_event_id i) z (reserved_count i) (confirmed_count i) (version i).
Definition add_reserved (z : Z) (i : EventInventory) : EventInventory :=
  mkEventInventory (inv_event_id i) (total_capacity i) (reserved_count i + z)
    (confirmed_count i) (version i).
Definition add_confirmed (z : Z) (i : EventInventory) : EventInventory :=
  mkEventInventory (inv_event_id i) (total_capacity i) (reserved_count i)
    (confirmed_count i + z) (version i).
Definition set_version (z : Z) (i : EventInventory) : EventInventory :=
  mkEventInventory (inv_event_id i) (total_capacity i) (reserved_count i)
    (confirmed_count i) z.
Definition set_status (s : ReservationStatus.t) (r : Reservation) : Reservation :=
  mkReservation (res_id r) (res_event_id r) (res_order_id r) (quantity r) s
    (expires_at r) (res_created_at r) (res_updated_at r).

Inductive inv_key := KInv (event_id : uuid) | KRes (id : uuid).
Inductive inv_row := RInv (i : EventInventory) | RRes (r : Reservation).

#[global] Instance inv_key_eq_dec : EqDecision inv_key.
Proof. solve_decision. Defined.
#[global] Instance inv_row_eq_dec : EqDecision inv_row.
Proof. solve_decision. Defined.
#[global] Program Instance inv_key_countable : Countable inv_key :=
  inj_countable' (λ k, match k with KInv u => inl u | KRes u => inr u end)
    (λ x, match x with inl u => KInv u | inr u => KRes u end) _.
Next Obligation. by intros []. Qed.

(** A column keeps the stored value unless the instance changed it. *)
Definition col {A} `{EqDecision A} (loaded current stored : A) : A :=
  if decide (loaded = current) then stored else current.

Definition merge_inventory (l c s : EventInventory) : EventInventory :=
  mkEventInventory (inv_event_id s)
    (col (total_capacity l) (total_capacity c) (total_capacity s))
    (col (reserved_count l) (reserved_count c) (reserved_count s))
    (col (confirmed_count l) (confirmed_count c) (confirmed_count s))
    (version s).

Definition merge_reservation (l c s : Reservation) : Reservation :=
  mkReservation (res_id s)
    (col (res_event_id l) (res_event_id c) (res_event_id s))
    (col (res_order_id l) (res_order_id c) (res_order_id s))
    (col (quantity l) (quantity c) (quantity s))
    (col (status l) (status c) (status s))
    (col (expires_at l) (expires_at c) (expires_at s))
    (res_created_at s) (res_updated_at s).

(** A changed column overwrites what was loaded. *)
Lemma col_loaded {A} `{EqDecision A} (l c : A) : col l c l = c.
Proof. unfold col. by case_decide. Qed.

Lemma merge_inventory_loaded l c :
  inv_event_id c = inv_event_id l → version c = version l → merge_inventory l c l = c.
Proof. unfold merge_inventory. rewrite !col_loaded. destruct c; simpl; congruence. Qed.

Lemma merge_reservation_loaded l c :
  res_id c = res_id l → res_created_at c = res_created_at l →
  res_updated_at c = res_updated_at l → merge_reservation l c l = c.
Proof. unfold merge_reservation. rewrite !col_loaded. destruct c; simpl; congruence. Qed.

(** TimestampMixin: [server_default=func.now()], [onupdate=func.now()]. *)
Definition stamp_created (now : Z) (r : Reservation) : Reservation :=
  mkReservation (res_id r) (res_event_id r) (res_order_id r) (quantity r) (status r)
    (expires_at r) (Some now) (Some now).
Definition stamp_updated (now : Z) (r : Reservation) : Reservation :=
  mkReservation (res_id r) (res_event_id r) (res_order_id r) (quantity r) (status r)
    (expires_at r) (res_created_at r) (Some now).

Definition inv_key_of (r : inv_row) : inv_key :=
  match r with RInv i => KInv (inv_event_id i) | RRes r => KRes (res_id r) end.
Definition inv_version_of (r : inv_row) : option Z :=
  match r with RInv i => Some (version i) | RRes _ => None end.
Definition inv_with_version (v : Z) (r : inv_row) : inv_row :=
  match r with RInv i => RInv (set_version v i) | RRes r => RRes r end.
Definition inv_merge (l c s : inv_row) : inv_row :=
  match l, c, s with
  | RInv l, RInv c, RInv s => RInv (merge_inventory l c s)
  | RRes l, RRes c, RRes s => RRes (merge_reservation l c s)
  | _, _, _ => s
  end.
Definition inv_stamp_insert (now : Z) (r : inv_row) : inv_row :=
  match r with RInv i => RInv i | RRes r => RRes (stamp_created now r) end.
Definition inv_stamp_update (now : Z) (r : inv_row) : inv_row :=
  match r with RInv i => RInv i | RRes r => RRes (stamp_updated now r) end.
(** [Integer] columns hold 32-bit values. *)
Definition inv_check_row (r : inv_row) : option exn :=
  let ok := match r with
            | RInv i => int32_ok (total_capacity i) && int32_ok (reserved_count i)
                        && int32_ok (confirmed_count i) && int32_ok (version i)
            | RRes r => int32_ok (quantity r)
            end in
  if ok then None else Some DataError.
(** [ForeignKey("inventory.event_inventory.event_id")] *)
Definition inv_references (r : inv_row) : list inv_key :=
  match r with RInv _ => [] | RRes r => [KInv (res_event_id r)] end.

#[global] Instance inventory_schema : Schema inv_key inv_row := {
  key_of := inv_key_of;
  version_of := inv_version_of;
  with_version := inv_with_version;
  merge_columns := inv_merge;
  stamp_insert := inv_stamp_insert;
  stamp_update := inv_stamp_update;
  check_row := inv_check_row;
  conflicts _ _ := false;
  references := inv_references;
}.

