(* ===== verification/ApiModels.v ===== *)
(** * Tables of the API service

    [services/api/app/models/]: the mapped classes [User], [Event] and [Order],
    their columns, unique indexes, checks and foreign keys as a schema of the
    session. *)
From S2P Require Import Prelude Effects Uuid Domain Orm InventoryModels.

Record User : Type := mkUser {
  user_id : uuid;
  email : string;
  hashed_password : string;
  full_name : string;
  role : UserRole;
  is_active : bool;
  user_created_at : option Z;
  user_updated_at : option Z;
}.

(** The attributes of an [Event] that a partial update may set to [None] are
    optional here; the columns are [NOT NULL], except [description]. *)
Record Event : Type := mkEvent {
  event_id : uuid;
  title : option string;
  description : option string;
  venue : option string;
  starts_at : option Z;
  total_seats : option Z;
  price_cents : option Z;
  organizer_id : uuid;
  event_created_at : option Z;
  event_updated_at : option Z;
}.

Record Order : Type := mkOrder {
  order_id : uuid;
  order_user_id : uuid;
  order_event_id : uuid;
  reservation_id : string;
  order_quantity : Z;
  unit_price_cents : Z;
  total_price_cents : Z;
  order_status : OrderStatus.t;
  idempotency_key : option string;
  order_created_at : option Z;
  order_updated_at : option Z;
}.

#[global] Instance User_eq_dec : EqDecision User.
Proof. solve_decision. Defined.
#[global] Instance Event_eq_dec : EqDecision Event.
Proof. solve_decision. Defined.
#[global] Instance Order_eq_dec : EqDecision Order.
Proof. solve_decision. Defined.

(** [order.status = s] *)
Definition set_order_status (s : OrderStatus.t) (o : Order) : Order :=
  mkOrder (order_id o) (order_user_id o) (order_event_id o) (reservation_id o)
    (order_quantity o) (unit_price_cents o) (total_price_cents o) s
    (idempotency_key o) (order_created_at o) (order_updated_at o).

Inductive api_key := KUser (u : uuid) | KEvent (u : uuid) | KOrder (u : uuid).
Inductive api_row := RUser (u : User) | REvent (e : Event) | ROrder (o : Order).

#[global] Instance api_key_eq_dec : EqDecision api_key.
Proof. solve_decision. Defined.
#[global] Instance api_row_eq_dec : EqDecision api_row.
Proof. solve_decision. Defined.
#[global] Program Instance api_key_countable : Countable api_key :=
  inj_countable'
    (λ k, match k with KUser u => inl u | KEvent u => inr (inl u) | KOrder u => inr (inr u) end)
    (λ x, match x with inl u => KUser u | inr (inl u) => KEvent u | inr (inr u) => KOrder u end) _.
Next Obligation. by intros []. Qed.

Definition merge_user (l c s : User) : User :=
  mkUser (user_id s)
    (col (email l) (email c) (email s))
    (col (hashed_password l) (hashed_password c) (hashed_password s))
    (col (full_name l) (full_name c) (full_name s))
    (col (role l) (role c) (role s))
    (col (is_active l) (is_active c) (is_active s))
    (user_created_at s) (user_updated_at s).

Definition merge_event (l c s : Event) : Event :=
  mkEvent (event_id s)
    (col (title l) (title c) (title s))
    (col (description l) (description c) (description s))
    (col (venue l) (venue c) (venue s))
    (col (starts_at l) (starts_at c) (starts_at s))
    (col (total_seats l) (total_seats c) (total_seats s))
    (col (price_cents l) (price_cents c) (price_cents s))
    (col (organizer_id l) (organizer_id c) (organizer_id s))
    (event_created_at s) (event_updated_at s).

Definition merge_order (l c s : Order) : Order :=
  mkOrder (order_id s)
    (col (order_user_id l) (order_user_id c) (order_user_id s))
    (col (order_event_id l) (order_event_id c) (order_event_id s))
    (col (reservation_id l) (reservation_id c) (reservation_id s))
    (col (order_quantity l) (order_quantity c) (order_quantity s))
    (col (unit_price_cents l) (unit_price_cents c) (unit_price_cents s))
    (col (total_price_cents l) (total_price_cents c) (total_price_cents s))
    (col (order_status l) (order_status c) (order_status s))
    (col (idempotency_key l) (idempotency_key c) (idempotency_key s))
    (order_created_at s) (order_updated_at s).

Definition api_key_of (r : api_row) : api_key :=
  match r with
  | RUser u => KUser (user_id u)
  | REvent e => KEvent (event_id e)
  | ROrder o => KOrder (order_id o)
  end.

Definition api_merge (l c s : api_row) : api_row :=
  match l, c, s with
  | RUser l, RUser c, RUser s => RUser (merge_user l c s)
  | REvent l, REvent c, REvent s => REvent (merge_event l c s)
  | ROrder l, ROrder c, ROrder s => ROrder (merge_order l c s)
  | _, _, _ => s
  end.

Definition api_stamp (created : option Z → option Z) (now : Z) (r : api_row) : api_row :=
  match r with
  | RUser u => RUser (mkUser (user_id u) (email u) (hashed_password u) (full_name u)
                        (role u) (is_active u) (created (user_created_at u)) (Some now))
  | REvent e => REvent (mkEvent (event_id e) (title e) (description e) (venue e)
                          (starts_at e) (total_seats e) (price_cents e) (organizer_id e)
                          (created (event_created_at e)) (Some now))
  | ROrder o => ROrder (mkOrder (order_id o) (order_user_id o) (order_event_id o)
                          (reservation_id o) (order_quantity o) (unit_price_cents o)
                          (total_price_cents o) (order_status o) (idempotency_key o)
                          (created (order_created_at o)) (Some now))
  end.

(** [String(n)] *)
Definition fits (n : nat) (s : string) : bool := (String.length s <=? n)%nat.

(** Column constraints: a missing value in a [NOT NULL] column and a failed
    [CHECK] are integrity errors, a value out of range a data error. *)
Definition api_check_row (r : api_row) : option exn :=
  match r with
  | RUser u =>
      if fits 255 (email u) && fits 255 (hashed_password u) && fits 255 (full_name u)
      then None else Some DataError
  | REvent e =>
      match title e, venue e, starts_at e, total_seats e, price_cents e with
      | Some t, Some v, Some _, Some n, Some p =>
          if fits 255 t && fits 255 v && int32_ok n && int32_ok p
          then None else Some DataError
      | _, _, _, _, _ => Some IntegrityError
      end
  | ROrder o =>
      if fits 64 (reservation_id o) && int32_ok (order_quantity o)
         && int32_ok (unit_price_cents o) && int32_ok (total_price_cents o)
         && from_option (fits 128) true (idempotency_key o)
      then if 0 <? order_quantity o then None else Some IntegrityError
      else Some DataError
  end.

(** The unique index on [users.email] and the partial unique index on
    [orders (user_id, idempotency_key) WHERE idempotency_key IS NOT NULL]. *)
Definition api_conflicts (r1 r2 : api_row) : bool :=
  match r1, r2 with
  | RUser u1, RUser u2 => bool_decide (email u1 = email u2)
  | ROrder o1, ROrder o2 =>
      match idempotency_key o1, idempotency_key o2 with
      | Some k1, Some k2 =>
          bool_decide (order_user_id o1 = order_user_id o2) && bool_decide (k1 = k2)
      | _, _ => false
      end
  | _, _ => false
  end.

Definition api_references (r : api_row) : list api_key :=
  match r with
  | RUser _ => []
  | REvent e => [KUser (organizer_id e)]
  | ROrder o => [KUser (order_user_id o); KEvent (order_event_id o)]
  end.

#[global] Instance api_schema : Schema api_key api_row := {|
  key_of := api_key_of;
  version_of _ := None;
  with_version _ r := r;
  merge_columns := api_merge;
  stamp_insert now := api_stamp (λ _, Some now) now;
  stamp_update now := api_stamp id now;
  check_row := api_check_row;
  conflicts := api_conflicts;
  references := api_references;
|}.
