(* ===== verification/Migrations.v ===== *)
(** * The database schema

    The tables the mapped classes declare ([services/api/app/models/],
    [services/inventory/app/models.py], [services/shared/db/base.py]) and the
    ones [migrations/versions/563d0c19ca00_initial_schema.py] creates, as
    catalogs of tables and indexes; the migration's operations and the errors
    the server answers them with. *)
From S2P Require Import Prelude Effects.

(** ** Catalogs *)
Inductive sql_type : Type :=
| SqlUuid
| SqlInteger
| SqlString (length : nat)
| SqlText
| SqlBoolean
| SqlTimestampTz.

(** [sa.Enum(..., native_enum=False, length=n)] is a [VARCHAR(n)] column. *)
Definition SqlEnum (values : list string) (length : nat) : sql_type := SqlString length.

Record column : Type := Column {
  col_type : sql_type;
  col_nullable : bool;
  server_default : option string;
}.

(** The conditions of the schema's checks and partial indexes. *)
Inductive condition : Type :=
| Always
| IsNotNull (c : string)
| Positive (c : string).

(** A table by its schema and its name. *)
Definition table_name : Type := string * string.

Record foreign_key : Type := ForeignKey {
  fk_column : string;
  fk_table : table_name;
  fk_target : string;
}.

Record table_def : Type := TableDef {
  columns : gmap string column;
  primary_key : list string;
  foreign_keys : gmap string (table_name * string);
  checks : gmap string condition;
}.

Record index : Type := Index {
  ix_table : table_name;
  ix_columns : list string;
  ix_unique : bool;
  ix_where : condition;
}.

(** Indexes share the name space of their schema. *)
Record catalog : Type := Catalog {
  schemas : gset string;
  tables : gmap table_name table_def;
  indexes : gmap (string * string) index;
}.

Definition empty_catalog : catalog := Catalog ∅ ∅ ∅.

#[global] Instance sql_type_eq_dec : EqDecision sql_type.
Proof. solve_decision. Defined.
#[global] Instance column_eq_dec : EqDecision column.
Proof. solve_decision. Defined.
#[global] Instance condition_eq_dec : EqDecision condition.
Proof. solve_decision. Defined.
#[global] Instance table_def_eq_dec : EqDecision table_def.
Proof. solve_decision. Defined.
#[global] Instance index_eq_dec : EqDecision index.
Proof. solve_decision. Defined.
#[global] Instance catalog_eq_dec : EqDecision catalog.
Proof. solve_decision. Defined.

(** ** Operations *)
Inductive ddl : Type :=
| create_schema (name : string)
| create_table (schema name : string) (cols : list (string * column)) (pk : list string)
    (fks : list foreign_key) (cks : list (string * condition))
| create_index (name table : string) (cols : list string) (unique : bool) (schema : string)
    (where_ : condition)
| drop_index (name table schema : string)
| drop_table (name schema : string).

Inductive ddl_error : Type :=
| InvalidSchemaName
| DuplicateTable
| UndefinedTable
| UndefinedColumn
| UndefinedObject
| DependentObjectsStillExist.

#[global] Instance ddl_error_eq_dec : EqDecision ddl_error.
Proof. solve_decision. Defined.

Definition with_tables (f : gmap table_name table_def → gmap table_name table_def) (c : catalog)
    : catalog := Catalog (schemas c) (f (tables c)) (indexes c).
Definition with_indexes (f : gmap (string * string) index → gmap (string * string) index)
    (c : catalog) : catalog := Catalog (schemas c) (tables c) (f (indexes c)).

Definition new_table (cols : list (string * column)) (pk : list string) (fks : list foreign_key)
    (cks : list (string * condition)) : table_def :=
  TableDef (list_to_map cols) pk
    (list_to_map ((λ f, (fk_column f, (fk_table f, fk_target f))) <$> fks)) (list_to_map cks).

(** A foreign key names a column of a table that is there. *)
Definition fk_defined (c : catalog) (f : foreign_key) : bool :=
  match tables c !! fk_table f with
  | Some d => bool_decide (is_Some (columns d !! fk_target f))
  | None => false
  end.

(** Another table's foreign key refers to [t]. *)
Definition referenced (c : catalog) (t : table_name) : bool :=
  negb (bool_decide (map_Forall (λ t' d,
    t' = t ∨ map_Forall (λ _ '(t'', _), t'' ≠ t) (foreign_keys d)) (tables c))).

Definition exec (d : ddl) (c : catalog) : result ddl_error catalog :=
  match d with
  | create_schema n => Ok (Catalog ({[n]} ∪ schemas c) (tables c) (indexes c))
  | create_table s n cols pk fks cks =>
      if negb (bool_decide (s ∈ schemas c)) then Err InvalidSchemaName
      else if bool_decide (is_Some (tables c !! (s, n))) then Err DuplicateTable
      else if negb (forallb (fk_defined c) fks) then Err UndefinedTable
      else Ok (with_tables (<[(s, n) := new_table cols pk fks cks]>) c)
  | create_index n t cols u s w =>
      match tables c !! (s, t) with
      | None => Err UndefinedTable
      | Some d =>
          if bool_decide (is_Some (indexes c !! (s, n))) then Err DuplicateTable
          else if negb (forallb (λ k, bool_decide (is_Some (columns d !! k))) cols)
          then Err UndefinedColumn
          else Ok (with_indexes (<[(s, n) := Index (s, t) cols u w]>) c)
      end
  | drop_index n t s =>
      if bool_decide (is_Some (indexes c !! (s, n)))
      then Ok (with_indexes (delete (s, n)) c) else Err UndefinedObject
  | drop_table n s =>
      if negb (bool_decide (is_Some (tables c !! (s, n)))) then Err UndefinedTable
      else if referenced c (s, n) then Err DependentObjectsStillExist
      else Ok (Catalog (schemas c) (delete (s, n) (tables c))
                 (filter (λ '(_, i), ix_table i ≠ (s, n)) (indexes c)))
  end.

(** The operations of a revision run in one transaction. *)
Fixpoint run_ddl (ds : list ddl) (c : catalog) : result ddl_error catalog :=
  match ds with
  | [] => Ok c
  | d :: ds => match exec d c with Ok c' => run_ddl ds c' | Err e => Err e end
  end.

(** ** The initial revision *)
Definition required (n : string) (t : sql_type) : string * column := (n, Column t false None).
Definition optional (n : string) (t : sql_type) : string * column := (n, Column t true None).
Definition stamped (n : string) : string * column := (n, Column SqlTimestampTz false (Some "now()")).

Definition upgrade : list ddl :=
  [ create_schema "api";
    create_schema "inventory";
    create_table "api" "users"
      [ required "email" (SqlString 255);
        required "hashed_password" (SqlString 255);
        required "full_name" (SqlString 255);
        required "role" (SqlEnum ["attendee"; "organizer"; "admin"] 20);
        required "is_active" SqlBoolean;
        required "id" SqlUuid;
        stamped "created_at"; stamped "updated_at" ] ["id"] [] [];
    create_index "ix_api_users_email" "users" ["email"] true "api" Always;
    create_table "inventory" "event_inventory"
      [ required "event_id" SqlUuid;
        required "total_capacity" SqlInteger;
        required "reserved_count" SqlInteger;
        required "confirmed_count" SqlInteger;
        required "version" SqlInteger ] ["event_id"] [] [];
    create_table "api" "events"
      [ required "title" (SqlString 255);
        optional "description" SqlText;
        required "venue" (SqlString 255);
        required "starts_at" SqlTimestampTz;
        required "total_seats" SqlInteger;
        required "price_cents" SqlInteger;
        required "organizer_id" SqlUuid;
        required "id" SqlUuid;
        stamped "created_at"; stamped "updated_at" ] ["id"]
      [ForeignKey "organizer_id" ("api", "users") "id"] [];
    create_index "ix_api_events_organizer_id" "events" ["organizer_id"] false "api" Always;
    create_index "ix_api_events_starts_at" "events" ["starts_at"] false "api" Always;
    create_index "ix_api_events_title" "events" ["title"] false "api" Always;
    create_table "inventory" "reservations"
      [ required "event_id" SqlUuid;
        required "order_id" SqlUuid;
        required "quantity" SqlInteger;
        required "status" (SqlEnum ["pending"; "confirmed"; "released"; "expired"] 20);
        required "expires_at" SqlTimestampTz;
        required "id" SqlUuid;
        stamped "created_at"; stamped "updated_at" ] ["id"]
      [ForeignKey "event_id" ("inventory", "event_inventory") "event_id"] [];
    create_index "ix_inventory_reservations_event_id" "reservations" ["event_id"] false "inventory" Always;
    create_index "ix_inventory_reservations_order_id" "reservations" ["order_id"] false "inventory" Always;
    create_table "api" "orders"
      [ required "user_id" SqlUuid;
        required "event_id" SqlUuid;
        required "reservation_id" (SqlString 64);
        required "quantity" SqlInteger;
        required "unit_price_cents" SqlInteger;
        required "total_price_cents" SqlInteger;
        required "status" (SqlEnum ["pending"; "confirmed"; "cancelled"; "expired"] 20);
        optional "idempotency_key" (SqlString 128);
        required "id" SqlUuid;
        stamped "created_at"; stamped "updated_at" ] ["id"]
      [ ForeignKey "event_id" ("api", "events") "id"; ForeignKey "user_id" ("api", "users") "id" ]
      [("ck_orders_quantity_positive", Positive "quantity")];
    create_index "ix_api_orders_event_id" "orders" ["event_id"] false "api" Always;
    create_index "ix_api_orders_user_id" "orders" ["user_id"] false "api" Always;
    create_index "ix_orders_user_idempotency_key" "orders" ["user_id"; "idempotency_key"] true "api"
      (IsNotNull "idempotency_key") ].

Definition downgrade : list ddl :=
  [ drop_index "ix_orders_user_idempotency_key" "orders" "api";
    drop_index "ix_api_orders_user_id" "orders" "api";
    drop_index "ix_api_orders_event_id" "orders" "api";
    drop_table "orders" "api";
    drop_index "ix_inventory_reservations_order_id" "reservations" "inventory";
    drop_index "ix_inventory_reservations_event_id" "reservations" "inventory";
    drop_table "reservations" "inventory";
    drop_index "ix_api_events_title" "events" "api";
    drop_index "ix_api_events_starts_at" "events" "api";
    drop_index "ix_api_events_organizer_id" "events" "api";
    drop_table "events" "api";
    drop_table "event_inventory" "inventory";
    drop_index "ix_api_users_email" "users" "api";
    drop_table "users" "api" ].

(** ** The mapped classes *)

(** [mapped_column(type, nullable=..., index=..., unique=..., ForeignKey(...))] *)
Record mapped_column : Type := MappedColumn {
  mc_name : string;
  mc_type : sql_type;
  mc_nullable : bool;
  mc_default : option string;
  mc_index : bool;
  mc_unique : bool;
  mc_foreign_key : option (table_name * string);
}.

Definition attribute (n : string) (t : sql_type) : mapped_column :=
  MappedColumn n t false None false false None.
Definition nullable (c : mapped_column) : mapped_column :=
  MappedColumn (mc_name c) (mc_type c) true (mc_default c) (mc_index c) (mc_unique c) (mc_foreign_key c).
Definition indexed (c : mapped_column) : mapped_column :=
  MappedColumn (mc_name c) (mc_type c) (mc_nullable c) (mc_default c) true (mc_unique c) (mc_foreign_key c).
Definition unique (c : mapped_column) : mapped_column :=
  MappedColumn (mc_name c) (mc_type c) (mc_nullable c) (mc_default c) (mc_index c) true (mc_foreign_key c).
Definition refers_to (t : table_name) (k : string) (c : mapped_column) : mapped_column :=
  MappedColumn (mc_name c) (mc_type c) (mc_nullable c) (mc_default c) (mc_index c) (mc_unique c)
    (Some (t, k)).
Definition now_by_default (c : mapped_column) : mapped_column :=
  MappedColumn (mc_name c) (mc_type c) (mc_nullable c) (Some "now()") (mc_index c) (mc_unique c)
    (mc_foreign_key c).

Record mapped_class : Type := MappedClass {
  cls_table : table_name;
  cls_columns : list mapped_column;
  cls_primary_key : string;
  cls_checks : list (string * condition);
  cls_indexes : list (string * index);
}.

Definition UUIDPrimaryKeyMixin : list mapped_column := [attribute "id" SqlUuid].
Definition TimestampMixin : list mapped_column :=
  [ now_by_default (attribute "created_at" SqlTimestampTz);
    now_by_default (attribute "updated_at" SqlTimestampTz) ].

Definition User_class : mapped_class :=
  MappedClass ("api", "users")
    (UUIDPrimaryKeyMixin ++ TimestampMixin ++
     [ indexed (unique (attribute "email" (SqlString 255)));
       attribute "hashed_password" (SqlString 255);
       attribute "full_name" (SqlString 255);
       attribute "role" (SqlEnum ["attendee"; "organizer"; "admin"] 20);
       attribute "is_active" SqlBoolean ]) "id" [] [].

Definition Event_class : mapped_class :=
  MappedClass ("api", "events")
    (UUIDPrimaryKeyMixin ++ TimestampMixin ++
     [ indexed (attribute "title" (SqlString 255));
       nullable (attribute "description" SqlText);
       attribute "venue" (SqlString 255);
       indexed (attribute "starts_at" SqlTimestampTz);
       attribute "total_seats" SqlInteger;
       attribute "price_cents" SqlInteger;
       indexed (refers_to ("api", "users") "id" (attribute "organizer_id" SqlUuid)) ]) "id" [] [].

Definition Order_class : mapped_class :=
  MappedClass ("api", "orders")
    (UUIDPrimaryKeyMixin ++ TimestampMixin ++
     [ indexed (refers_to ("api", "users") "id" (attribute "user_id" SqlUuid));
       indexed (refers_to ("api", "events") "id" (attribute "event_id" SqlUuid));
       attribute "reservation_id" (SqlString 64);
       attribute "quantity" SqlInteger;
       attribute "unit_price_cents" SqlInteger;
       attribute "total_price_cents" SqlInteger;
       attribute "status" (SqlEnum ["pending"; "confirmed"; "cancelled"; "expired"] 20);
       nullable (attribute "idempotency_key" (SqlString 128)) ]) "id"
    [("ck_orders_quantity_positive", Positive "quantity")]
    [("ix_orders_user_idempotency_key",
      Index ("api", "orders") ["user_id"; "idempotency_key"] true (IsNotNull "idempotency_key"))].

Definition EventInventory_class : mapped_class :=
  MappedClass ("inventory", "event_inventory")
    [ attribute "event_id" SqlUuid;
      attribute "total_capacity" SqlInteger;
      attribute "reserved_count" SqlInteger;
      attribute "confirmed_count" SqlInteger;
      attribute "version" SqlInteger ] "event_id" [] [].

Definition Reservation_class : mapped_class :=
  MappedClass ("inventory", "reservations")
    (UUIDPrimaryKeyMixin ++ TimestampMixin ++
     [ indexed (refers_to ("inventory", "event_inventory") "event_id" (attribute "event_id" SqlUuid));
       indexed (attribute "order_id" SqlUuid);
       attribute "quantity" SqlInteger;
       attribute "status" (SqlEnum ["pending"; "confirmed"; "released"; "expired"] 20);
       attribute "expires_at" SqlTimestampTz ]) "id" [] [].

Definition class_table (k : mapped_class) : table_def :=
  TableDef
    (list_to_map ((λ c, (mc_name c, Column (mc_type c) (mc_nullable c) (mc_default c))) <$> cls_columns k))
    [cls_primary_key k]
    (list_to_map (omap (λ c, pair (mc_name c) <$> mc_foreign_key c) (cls_columns k)))
    (list_to_map (cls_checks k)).

(** A column's own index is named [ix_<schema>_<table>_<column>]. *)
Definition class_indexes (k : mapped_class) : list ((string * string) * index) :=
  let '(s, t) := cls_table k in
  omap (λ c, if mc_index c
             then Some ((s, "ix_" +s s +s "_" +s t +s "_" +s mc_name c),
                        Index (s, t) [mc_name c] (mc_unique c) Always)
             else None) (cls_columns k)
  ++ ((λ '(n, i), ((s, n), i)) <$> cls_indexes k).

(** [Base.metadata] *)
Definition mapped_classes : list mapped_class :=
  [User_class; Event_class; Order_class; EventInventory_class; Reservation_class].

Definition metadata : catalog :=
  Catalog (list_to_set (fst ∘ cls_table <$> mapped_classes))
    (list_to_map ((λ k, (cls_table k, class_table k)) <$> mapped_classes))
    (list_to_map (mapped_classes ≫= class_indexes)).
