(* ===== verification/MigrationsCorrectness.v ===== *)
(** * Correctness of the schema

    The initial revision builds the tables the mapped classes declare and its
    downgrade removes them, on any server that keeps nothing of its own in the
    two schemas; and the constraints the model's sessions enforce are those of
    the tables. *)
From S2P Require Import Prelude Effects Uuid Domain Orm InventoryModels ApiModels.
From S2P Require Import Migrations.

(** ** A catalog beside what another application keeps *)
Definition beside (f c : catalog) : catalog :=
  Catalog (schemas c ∪ schemas f) (tables c ∪ tables f) (indexes c ∪ indexes f).

Record apart (f c : catalog) : Prop := {
  ap_tables : tables c ##ₘ tables f;
  ap_indexes : indexes c ##ₘ indexes f;
}.

(** [f] has nothing an operation creates or drops, nor depends on it. *)
Definition avoids (f : catalog) (d : ddl) : Prop :=
  match d with
  | create_schema _ => True
  | create_table s n _ _ _ _ => tables f !! (s, n) = None
  | create_index n _ _ _ s _ | drop_index n _ s => indexes f !! (s, n) = None
  | drop_table n s =>
      tables f !! (s, n) = None ∧ referenced f (s, n) = false
      ∧ map_Forall (λ _ i, ix_table i ≠ (s, n)) (indexes f)
  end.

Section frame.
Variable f : catalog.

Lemma fk_defined_beside c k : fk_defined c k = true → fk_defined (beside f c) k = true.
Proof using.
  unfold fk_defined. simpl. destruct (tables c !! fk_table k) as [d|] eqn:Hd; [|done].
  by rewrite (lookup_union_Some_l _ _ _ _ Hd).
Qed.

Lemma referenced_false c t :
  referenced c t = false ↔
  map_Forall (λ t' d, t' = t ∨ map_Forall (λ _ '(t'', _), t'' ≠ t) (foreign_keys d)) (tables c).
Proof using. unfold referenced. rewrite negb_false_iff. apply bool_decide_eq_true. Qed.

Lemma referenced_beside c t :
  referenced c t = false → referenced f t = false → referenced (beside f c) t = false.
Proof using. rewrite !referenced_false. intros Hc Hf. by apply map_Forall_union_2. Qed.

Lemma exec_beside d c c' :
  apart f c → avoids f d → exec d c = Ok c' →
  exec d (beside f c) = Ok (beside f c') ∧ apart f c'.
Proof using.
  intros [Ht Hi] Ha He. destruct d as [n|s n cols pk fks cks|n t cols u s w|n t s|n s]; simpl in *.
  - injection He as <-. split; [|by split]. unfold beside. simpl. by rewrite (assoc_L (∪)).
  - case_bool_decide as Hs; [|done]. case_bool_decide as Hn; [done|].
    destruct (forallb (fk_defined c) fks) eqn:Hfk; [|done]. injection He as <-. cbn [negb].
    apply eq_None_not_Some in Hn.
    rewrite bool_decide_eq_true_2 by set_solver.
    rewrite bool_decide_eq_false_2 by (rewrite (proj2 (lookup_union_None _ _ _)) by done; by apply is_Some_None).
    assert (Hfk' : forallb (fk_defined (beside f c)) fks = true).
    { apply forallb_forall. rewrite forallb_forall in Hfk. auto using fk_defined_beside. }
    rewrite Hfk'. cbn [negb]. split.
    + unfold beside, with_tables. simpl. by rewrite insert_union_l.
    + split; simpl; [by apply map_disjoint_insert_l_2 | done].
  - destruct (tables c !! (s, t)) as [d|] eqn:Hd; [|done]. case_bool_decide as Hn; [done|].
    destruct (forallb _ cols) eqn:Hcols; [|done]. injection He as <-. apply eq_None_not_Some in Hn.
    rewrite (lookup_union_Some_l _ _ _ _ Hd).
    rewrite bool_decide_eq_false_2 by (rewrite (proj2 (lookup_union_None _ _ _)) by done; by apply is_Some_None).
    rewrite Hcols. cbn [negb]. split.
    + unfold beside, with_indexes. simpl. by rewrite insert_union_l.
    + split; simpl; [done | by apply map_disjoint_insert_l_2].
  - case_bool_decide as Hn; [|done]. injection He as <-. destruct Hn as [i Hn].
    rewrite bool_decide_eq_true_2 by (rewrite (lookup_union_Some_l _ _ _ _ Hn); by eexists). split.
    + unfold beside, with_indexes. simpl. by rewrite delete_union, (delete_id (indexes f)).
    + split; simpl; [done | by apply map_disjoint_delete_l].
  - case_bool_decide as Hn; [|done]. destruct (referenced c (s, n)) eqn:Hr; [done|].
    injection He as <-. destruct Ha as (Hf & Hfr & Hfi). destruct Hn as [d Hn].
    rewrite bool_decide_eq_true_2 by (rewrite (lookup_union_Some_l _ _ _ _ Hn); by eexists).
    cbn [negb]. rewrite referenced_beside by done. split.
    + unfold beside. simpl. rewrite delete_union, (delete_id (tables f)) by done.
      rewrite map_filter_union by done. f_equal. f_equal. f_equal.
      by apply map_filter_id.
    + split; simpl; [by apply map_disjoint_delete_l|].
      eapply map_disjoint_weaken_l; [exact Hi | apply map_filter_subseteq].
Qed.

Lemma run_beside ds c c' :
  apart f c → Forall (avoids f) ds → run_ddl ds c = Ok c' →
  run_ddl ds (beside f c) = Ok (beside f c') ∧ apart f c'.
Proof using.
  intros Hap Hds. revert c Hap. induction Hds as [|d ds Hd _ IH]; intros c Hap Hrun; simpl in *.
  - by injection Hrun as <-.
  - destruct (exec d c) as [c1|err] eqn:He; [|done].
    destruct (exec_beside d c c1 Hap Hd He) as [-> Hap1]. by apply IH.
Qed.
End frame.

(** A server that keeps nothing in the two schemas: its tables and indexes are
    elsewhere, and refer to each other. *)
Record elsewhere (f : catalog) : Prop := {
  el_table s n d : tables f !! (s, n) = Some d → s ≠ "api" ∧ s ≠ "inventory";
  el_index s n i : indexes f !! (s, n) = Some i → s ≠ "api" ∧ s ≠ "inventory";
  el_fk t d k t' c : tables f !! t = Some d → foreign_keys d !! k = Some (t', c) → is_Some (tables f !! t');
  el_on k i : indexes f !! k = Some i → is_Some (tables f !! ix_table i);
}.

Definition ours (s : string) : Prop := s = "api" ∨ s = "inventory".

(** The schema an operation works in. *)
Definition ddl_schema (d : ddl) : string :=
  match d with
  | create_schema s | create_table s _ _ _ _ _ | create_index _ _ _ _ s _ | drop_index _ _ s
  | drop_table _ s => s
  end.

Lemma elsewhere_avoids f d : elsewhere f → ours (ddl_schema d) → avoids f d.
Proof.
  intros Hf Hs.
  assert (Ht : ∀ n, tables f !! (ddl_schema d, n) = None).
  { intros n. destruct (tables f !! _) eqn:He; [|done].
    destruct (el_table f Hf _ _ _ He). by destruct Hs. }
  assert (Hi : ∀ n, indexes f !! (ddl_schema d, n) = None).
  { intros n. destruct (indexes f !! _) eqn:He; [|done].
    destruct (el_index f Hf _ _ _ He). by destruct Hs. }
  destruct d; simpl in *; auto. split; [done|]. split.
  - apply referenced_false. intros t d Hd. right. intros k [t' c'] Hk ->.
    destruct (el_fk f Hf _ _ _ _ _ Hd Hk) as [x Hx]. by rewrite Ht in Hx.
  - intros k i Hk Heq. destruct (el_on f Hf _ _ Hk) as [x Hx]. by rewrite Heq, Ht in Hx.
Qed.

#[local] Instance ours_dec s : Decision (ours s).
Proof. unfold ours. apply _. Defined.

(** The revision works in the two schemas only. *)
Lemma revision_ours : Forall (λ d, ours (ddl_schema d)) (upgrade ++ downgrade).
Proof. apply (bool_decide_unpack _). vm_compute. exact I. Qed.

Lemma revision_avoids f : elsewhere f → Forall (avoids f) (upgrade ++ downgrade).
Proof.
  intros Hf. eapply Forall_impl; [apply revision_ours|]. intros d. by apply elsewhere_avoids.
Qed.

(** The two schemas, with nothing in them. *)
Definition bare_schemas : catalog := Catalog {["api"; "inventory"]} ∅ ∅.

Lemma upgrade_metadata : run_ddl upgrade empty_catalog = Ok metadata.
Proof. apply (bool_decide_unpack _). vm_compute. exact I. Qed.

Lemma downgrade_metadata : run_ddl downgrade metadata = Ok bare_schemas.
Proof. vm_compute. reflexivity. Qed.

Lemma beside_empty f : beside f empty_catalog = f.
Proof. unfold beside, empty_catalog. destruct f. simpl. by rewrite !(left_id_L ∅ (∪)). Qed.

(** C28. On a server that keeps nothing of its own in the schemas [api] and
    [inventory], the initial revision succeeds and adds exactly the tables,
    columns, keys, checks and indexes the mapped classes declare. *)
Theorem upgrade_builds_mapped_classes f :
  elsewhere f → run_ddl upgrade f = Ok (beside f metadata).
Proof.
  intros Hf.
  destruct (run_beside f upgrade empty_catalog metadata) as [Hrun _]; [| |apply upgrade_metadata|].
  - split; apply map_disjoint_empty_l.
  - by apply (Forall_app (avoids f) upgrade downgrade), revision_avoids.
  - by rewrite beside_empty in Hrun.
Qed.

(** Going up and down again gives back the server as it was, but for the
    two schemas, which stay and are empty. *)
Theorem downgrade_undoes_upgrade f :
  elsewhere f → run_ddl (upgrade ++ downgrade) f = Ok (beside f bare_schemas).
Proof.
  intros Hf.
  destruct (run_beside f (upgrade ++ downgrade) empty_catalog bare_schemas) as [Hrun _].
  - split; apply map_disjoint_empty_l.
  - by apply revision_avoids.
  - vm_compute. reflexivity.
  - by rewrite beside_empty in Hrun.
Qed.

(** ** The constraints of the sessions are those of the tables *)

(** What a statement writes to a column; [VDefault] leaves it to the server. *)
Inductive sql_value : Type :=
| VNull
| VDefault
| VUuid (u : uuid)
| VInt (z : Z)
| VString (s : string)
| VBool (b : bool)
| VTime (t : Z).

#[global] Instance sql_value_eq_dec : EqDecision sql_value.
Proof. solve_decision. Defined.

(** The server accepts [v] in the column. *)
Definition accepts (c : column) (v : sql_value) : bool :=
  match v, col_type c with
  | VNull, _ => col_nullable c
  | VDefault, _ => bool_decide (is_Some (server_default c))
  | VUuid _, SqlUuid | VBool _, SqlBoolean | VTime _, SqlTimestampTz => true
  | VInt z, SqlInteger => int32_ok z
  | VString s, SqlString n => fits n s
  | VString _, SqlText => true
  | _, _ => false
  end.

Definition values : Type := list (string * sql_value).

Definition value_of (vs : values) (c : string) : option sql_value :=
  snd <$> find (λ p, String.eqb (fst p) c) vs.

Definition holds (k : condition) (vs : values) : bool :=
  match k with
  | Always => true
  | IsNotNull c => match value_of vs c with Some VNull => false | _ => true end
  | Positive c => match value_of vs c with Some (VInt z) => 0 <? z | _ => true end
  end.

(** Every column of the table gets a value it accepts, and the checks hold. *)
Definition row_accepted (d : table_def) (vs : values) : bool :=
  forallb (λ '(n, c), from_option (accepts c) false (value_of vs n)) (map_to_list (columns d))
  && forallb (λ '(_, k), holds k vs) (map_to_list (checks d)).

Definition nullable_value {A} (f : A → sql_value) (v : option A) : sql_value := from_option f VNull v.
Definition default_value (t : option Z) : sql_value := from_option VTime VDefault t.

(** The rows of the mapped classes, as the INSERT and UPDATE statements see
    them. *)
Definition api_values (r : api_row) : values :=
  match r with
  | RUser u =>
      [ ("id", VUuid (user_id u)); ("email", VString (email u));
        ("hashed_password", VString (hashed_password u)); ("full_name", VString (full_name u));
        ("role", VString (UserRole_value (role u))); ("is_active", VBool (is_active u));
        ("created_at", default_value (user_created_at u));
        ("updated_at", default_value (user_updated_at u)) ]
  | REvent e =>
      [ ("id", VUuid (event_id e)); ("title", nullable_value VString (title e));
        ("description", nullable_value VString (description e));
        ("venue", nullable_value VString (venue e)); ("starts_at", nullable_value VTime (starts_at e));
        ("total_seats", nullable_value VInt (total_seats e));
        ("price_cents", nullable_value VInt (price_cents e));
        ("organizer_id", VUuid (organizer_id e));
        ("created_at", default_value (event_created_at e));
        ("updated_at", default_value (event_updated_at e)) ]
  | ROrder x =>
      [ ("id", VUuid (order_id x)); ("user_id", VUuid (order_user_id x));
        ("event_id", VUuid (order_event_id x)); ("reservation_id", VString (reservation_id x));
        ("quantity", VInt (order_quantity x)); ("unit_price_cents", VInt (unit_price_cents x));
        ("total_price_cents", VInt (total_price_cents x));
        ("status", VString (OrderStatus_value (order_status x)));
        ("idempotency_key", nullable_value VString (idempotency_key x));
        ("created_at", default_value (order_created_at x));
        ("updated_at", default_value (order_updated_at x)) ]
  end.

Definition api_class (r : api_row) : mapped_class :=
  match r with RUser _ => User_class | REvent _ => Event_class | ROrder _ => Order_class end.

Definition inv_values (r : inv_row) : values :=
  match r with
  | RInv i =>
      [ ("event_id", VUuid (inv_event_id i)); ("total_capacity", VInt (total_capacity i));
        ("reserved_count", VInt (reserved_count i)); ("confirmed_count", VInt (confirmed_count i));
        ("version", VInt (version i)) ]
  | RRes x =>
      [ ("id", VUuid (res_id x)); ("event_id", VUuid (res_event_id x));
        ("order_id", VUuid (res_order_id x)); ("quantity", VInt (quantity x));
        ("status", VString (ReservationStatus_value (status x)));
        ("expires_at", VTime (expires_at x));
        ("created_at", default_value (res_created_at x));
        ("updated_at", default_value (res_updated_at x)) ]
  end.

Definition inv_class (r : inv_row) : mapped_class :=
  match r with RInv _ => EventInventory_class | RRes _ => Reservation_class end.

(** The rows of a class's columns and checks, computed. *)
Ltac list_columns k :=
  let cols := eval vm_compute in (map_to_list (columns (class_table k))) in
  let cks := eval vm_compute in (map_to_list (checks (class_table k))) in
  replace (map_to_list (columns (class_table k))) with cols by (vm_compute; reflexivity);
  replace (map_to_list (checks (class_table k))) with cks by (vm_compute; reflexivity).

(** What is accepted of every row. *)
Lemma stamps_accepted t :
  accepts (Column SqlTimestampTz false (Some "now()")) (default_value t) = true.
Proof. by destruct t. Qed.

Lemma enum_values_fit :
  (∀ r, fits 20 (UserRole_value r) = true) ∧ (∀ s, fits 20 (OrderStatus_value s) = true)
  ∧ (∀ s, fits 20 (ReservationStatus_value s) = true).
Proof. split_and!; by intros []. Qed.

Lemma refused_unless (b : bool) (e : exn) : (if b then None else Some e) = None ↔ b = true.
Proof. by destruct b. Qed.

Lemma refused_always (b : bool) (e e' : exn) : (if b then Some e else Some e') = None ↔ False.
Proof. by destruct b. Qed.

(** The columns' conditions against the ones the model checks. *)
Ltac compare_columns :=
  rewrite ?stamps_accepted, ?(proj1 enum_values_fit), ?(proj1 (proj2 enum_values_fit)),
    ?(proj2 (proj2 enum_values_fit));
  rewrite ?refused_unless, ?refused_always, ?andb_true_iff; first [tauto | intuition discriminate].

Lemma api_row_accepted r :
  row_accepted (class_table (api_class r)) (api_values r) = true ↔ api_check_row r = None.
Proof.
  destruct r as [u|e|x]; unfold row_accepted; cbn [api_class api_values].
  - list_columns User_class. cbn. compare_columns.
  - list_columns Event_class. cbn.
    destruct (title e), (description e), (venue e), (starts_at e), (total_seats e), (price_cents e);
      cbn; compare_columns.
  - list_columns Order_class. cbn. destruct (idempotency_key x); cbn; destruct (0 <? order_quantity x);
      destruct (fits 64 (reservation_id x)); cbn; compare_columns.
Qed.

Lemma inv_row_accepted r :
  row_accepted (class_table (inv_class r)) (inv_values r) = true ↔ inv_check_row r = None.
Proof.
  destruct r as [i|x]; unfold row_accepted, inv_check_row; cbn [inv_class inv_values].
  - list_columns EventInventory_class. cbn. compare_columns.
  - list_columns Reservation_class. cbn. compare_columns.
Qed.

(** Two rows of a table that a unique index keeps apart: they agree, without
    nulls, on its columns, and both meet its condition. *)
Definition same_value (vs1 vs2 : values) (c : string) : bool :=
  match value_of vs1 c, value_of vs2 c with
  | Some VNull, _ | _, Some VNull => false
  | v1, v2 => bool_decide (v1 = v2)
  end.

Definition index_clash (i : index) (vs1 vs2 : values) : bool :=
  ix_unique i && holds (ix_where i) vs1 && holds (ix_where i) vs2
  && forallb (same_value vs1 vs2) (ix_columns i).

(** The indexes on the table of a class. *)
Definition class_clash (k : mapped_class) (vs1 vs2 : values) : bool :=
  existsb (λ '(_, i), index_clash i vs1 vs2) (class_indexes k).

Definition same_class (r1 r2 : api_row) : bool :=
  bool_decide (cls_table (api_class r1) = cls_table (api_class r2)).

Lemma same_uuid u u' : bool_decide (Some (VUuid u) = Some (VUuid u')) = bool_decide (u = u').
Proof. apply bool_decide_ext. split; [by intros [= ->] | by intros ->]. Qed.

Lemma same_string s s' : bool_decide (Some (VString s) = Some (VString s')) = bool_decide (s = s').
Proof. apply bool_decide_ext. split; [by intros [= ->] | by intros ->]. Qed.

Lemma api_rows_clash r1 r2 :
  same_class r1 r2 && class_clash (api_class r1) (api_values r1) (api_values r2)
  = api_conflicts r1 r2.
Proof.
  destruct r1 as [u1|e1|x1], r2 as [u2|e2|x2]; cbn; try done;
    unfold index_clash, same_value; cbn.
  - by rewrite same_string, ?orb_false_r, ?andb_true_r.
  - destruct (idempotency_key x1), (idempotency_key x2); cbn; rewrite ?andb_false_r; try done.
    by rewrite same_uuid, same_string, ?orb_false_r, ?andb_true_r.
Qed.

(** The rows a row refers to, by the foreign keys of its class. *)
Definition api_key_in (t : table_name) (id : uuid) : option api_key :=
  if decide (t = cls_table User_class) then Some (KUser id)
  else if decide (t = cls_table Event_class) then Some (KEvent id)
  else if decide (t = cls_table Order_class) then Some (KOrder id)
  else None.

Definition inv_key_in (t : table_name) (id : uuid) : option inv_key :=
  if decide (t = cls_table EventInventory_class) then Some (KInv id)
  else if decide (t = cls_table Reservation_class) then Some (KRes id)
  else None.

Definition class_references {K} (key_in : table_name → uuid → option K) (k : mapped_class)
    (vs : values) : list K :=
  omap (λ c, '(t, _) ← mc_foreign_key c;
             v ← value_of vs (mc_name c);
             match v with VUuid u => key_in t u | _ => None end) (cls_columns k).

(** C30. The model's sessions enforce exactly the constraints of the tables the
    migration creates: a row is written if and only if every column accepts its
    value (its type, its width, its nullability) and the checks hold; two rows
    clash if and only if a unique index keeps them apart; and a row refers to
    the rows its foreign keys name. *)
Theorem sessions_enforce_schema :
  (∀ r : api_row, api_check_row r = None ↔
     row_accepted (class_table (api_class r)) (api_values r) = true)
  ∧ (∀ r1 r2 : api_row, api_conflicts r1 r2
     = same_class r1 r2 && class_clash (api_class r1) (api_values r1) (api_values r2))
  ∧ (∀ r : api_row, api_references r = class_references api_key_in (api_class r) (api_values r))
  ∧ (∀ r : inv_row, inv_check_row r = None ↔
     row_accepted (class_table (inv_class r)) (inv_values r) = true)
  ∧ (∀ r : inv_row, inv_references r = class_references inv_key_in (inv_class r) (inv_values r)).
Proof.
  split_and!.
  - intros r. symmetry. apply api_row_accepted.
  - intros r1 r2. symmetry. apply api_rows_clash.
  - by intros [].
  - intros r. symmetry. apply inv_row_accepted.
  - by intros [].
Qed.

(** ** A server with a table of its own *)
Definition public_server : catalog :=
  Catalog {["public"]}
    {[("public", "alembic_version") :=
        new_table [required "version_num" (SqlString 32)] ["version_num"] [] []]}
    ∅.

Lemma public_elsewhere : elsewhere public_server.
Proof.
  split; unfold public_server; simpl.
  - intros s n d Hd. apply lookup_singleton_Some in Hd as [[= <- <-] _]. by split.
  - intros s n i Hi. by rewrite lookup_empty in Hi.
  - intros t d k t' c Hd. apply lookup_singleton_Some in Hd as [_ <-]. simpl. by rewrite lookup_empty.
  - intros k i Hi. by rewrite lookup_empty in Hi.
Qed.

Lemma upgrade_builds_mapped_classes_witness :
  run_ddl upgrade public_server = Ok (beside public_server metadata).
Proof. apply (upgrade_builds_mapped_classes public_server). apply public_elsewhere. Defined.

Lemma downgrade_undoes_upgrade_witness :
  run_ddl (upgrade ++ downgrade) public_server = Ok (beside public_server bare_schemas).
Proof. apply (downgrade_undoes_upgrade public_server). apply public_elsewhere. Defined.
