(* ===== verification/MigrationEnvCorrectness.v ===== *)
(** * Correctness of the migration environment

    What the configuration's parser makes of a database URL, and what any
    sequence of Alembic commands leaves in the database that URL names. *)
From S2P Require Import Prelude Effects.
From S2P Require Import Migrations MigrationsCorrectness MigrationEnv.

(** ** Texts and percent signs *)

(** Every percent sign doubled, as the parser asks for. *)
Fixpoint escape (s : string) : string :=
  match s with
  | "" => ""
  | String c s => if is_percent c then String c (String c (escape s)) else String c (escape s)
  end.

(** No percent sign is followed by another or by a parenthesis: those of a
    percent-encoded text. *)
Fixpoint encoded (s : string) : bool :=
  match s with
  | "" => true
  | String c s =>
      (if is_percent c
       then match s with String c' _ => negb (is_percent c') && negb (bool_decide (c' = "("%char)) | "" => true end
       else true) && encoded s
  end.

Lemma drop_doubled_escape s : has_percent (drop_doubled (escape s)) = false.
Proof.
  induction s as [|c s IH]; [done|]. cbn [escape]. destruct (is_percent c) eqn:Hc.
  - cbn [drop_doubled]. by rewrite Hc.
  - cbn [drop_doubled]. rewrite Hc. cbn [has_percent]. by rewrite Hc.
Qed.

Lemma drop_doubled_encoded s : encoded s = true → drop_doubled s = s.
Proof.
  induction s as [|c s IH]; [done|]. cbn [encoded drop_doubled]. intros [Hs1 Hs]%andb_true_iff.
  rewrite (IH Hs). destruct (is_percent c) eqn:Hc; [|done]. destruct s as [|c' s]; [done|].
  apply andb_true_iff in Hs1 as [Hp _]. apply negb_true_iff in Hp. by rewrite Hp.
Qed.

(** A text with no reference in it. *)
Lemma drop_refs_encoded n s : encoded s = true → (String.length s ≤ n)%nat → drop_refs n s = s.
Proof.
  revert s. induction n as [|n IH]; intros [|c s] Hs Hn; simpl in Hn; try done; [lia|].
  cbn [encoded] in Hs. apply andb_true_iff in Hs as [Hs1 Hs]. cbn [drop_refs].
  rewrite (IH s) by (done || lia). destruct (is_percent c) eqn:Hc; [|done].
  assert (Hr : match_ref s = None); [|by rewrite Hr].
  destruct s as [|c' s]; [done|]. apply andb_true_iff in Hs1 as [_ Hp%negb_true_iff%bool_decide_eq_false].
  destruct c' as [[] [] [] [] [] [] [] []]; done.
Qed.

Lemma plain_encoded s : has_percent s = false → encoded s = true.
Proof.
  induction s as [|c s IH]; [done|]. cbn [has_percent encoded].
  intros [-> Hs]%orb_false_iff. simpl. auto.
Qed.

Lemma plain_escape s : has_percent s = false → escape s = s.
Proof.
  induction s as [|c s IH]; [done|]. cbn [has_percent escape].
  intros [-> Hs]%orb_false_iff. by rewrite IH.
Qed.

Lemma before_set_escape s : before_set (escape s) = Ok (escape s).
Proof.
  unfold before_set. pose proof (drop_doubled_escape s) as Hp.
  rewrite drop_refs_encoded by (done || by apply plain_encoded). by rewrite Hp.
Qed.

Lemma before_set_encoded s :
  has_percent s = true → encoded s = true → before_set s = Err (InvalidSyntax s).
Proof.
  intros Hp Hs. unfold before_set. rewrite drop_doubled_encoded by done.
  rewrite drop_refs_encoded by done. by rewrite Hp.
Qed.

Lemma scan_escape value n s :
  (String.length (escape s) ≤ n)%nat → scan value n (escape s) = Ok s.
Proof.
  revert n. induction s as [|c s IH]; intros n Hn; cbn [escape] in *; [by destruct n|].
  destruct (is_percent c) eqn:Hc; simpl in Hn; (destruct n as [|n]; [lia|]); cbn [scan]; rewrite !Hc.
  - rewrite IH by lia. unfold is_percent in Hc. apply bool_decide_eq_true in Hc. by subst c.
  - by rewrite IH by lia.
Qed.

Lemma before_get_escape section s : before_get section (escape s) = Ok s.
Proof. by apply scan_escape. Qed.

Lemma before_get_plain section s : has_percent s = false → before_get section s = Ok s.
Proof. intros Hs. rewrite <- (plain_escape s Hs) at 1. apply before_get_escape. Qed.

(** ** The section *)

(** What an option that can be read is read as. *)
Definition option_text (section : gmap string string) (v : string) : string :=
  match before_get section v with Ok s => s | Err _ => v end.

Lemma get_section_ok section :
  map_Forall (λ _ v, is_ok (before_get section v) = true) section →
  get_section section = Ok (option_text section <$> section).
Proof.
  intros Hs. unfold get_section.
  assert (Hl : ∀ l : list (string * string),
    Forall (λ kv, is_ok (before_get section kv.2) = true) l →
    get_items section l = Ok (prod_map id (option_text section) <$> l)).
  { induction 1 as [|[k v] l Hv _ IH]; [done|]. simpl in *. rewrite IH.
    unfold option_text. by destruct (before_get section v). }
  rewrite Hl.
  - by rewrite list_to_map_fmap, list_to_map_to_list.
  - apply Forall_forall. intros [k v] Hin%elem_of_map_to_list. by apply (Hs k).
Qed.

Lemma read_escaped here x :
  has_percent here = false → engine_url here (escape x) = Ok (Some x).
Proof.
  intros Hh. unfold engine_url, set_main_option. rewrite before_set_escape.
  rewrite get_section_ok.
  - rewrite lookup_fmap, lookup_insert_eq. simpl. unfold option_text. by rewrite before_get_escape.
  - apply map_Forall_insert_2; [by rewrite before_get_escape|].
    unfold alembic_ini. intros k v Hk%elem_of_list_to_map_2.
    rewrite !elem_of_cons, elem_of_nil in Hk.
    destruct Hk as [[= _ ->]|[[= _ ->]|[[= _ ->]|[[= _ ->]|[[= _ ->]|[]]]]]];
      by rewrite before_get_plain.
Qed.

(** C34. On its way through the configuration file's parser a database URL comes
    out as it went in when it has no percent sign, or when each of them was
    doubled; [env.py] doubles none, so a URL with a percent-encoded character
    (in a password, say) is refused before anything is migrated. *)
Theorem url_through_config here x :
  has_percent here = false →
  engine_url here (escape x) = Ok (Some x)
  ∧ (has_percent x = false → engine_url here x = Ok (Some x))
  ∧ (has_percent x = true → encoded x = true → engine_url here x = Err (InvalidSyntax x)).
Proof.
  intros Hh. split_and!.
  - by apply read_escaped.
  - intros Hx. rewrite <- (plain_escape x Hx) at 1. by apply read_escaped.
  - intros Hp He. unfold engine_url, set_main_option. by rewrite before_set_encoded.
Qed.

(** ** Commands *)
Section commands.
Context `{A : Alembic}.

Fixpoint run_commands (here : string) (env : environ) (cs : list command) (s : servers)
    : servers * list (result migration_error unit) :=
  match cs with
  | [] => (s, [])
  | c :: cs =>
      let '(s, r) := run_migrations_online here env c s in
      let '(s, rs) := run_commands here env cs s in (s, r :: rs)
  end.
End commands.

Lemma upgrade_bare : run_ddl upgrade bare_schemas = Ok metadata.
Proof. apply (bool_decide_unpack _). vm_compute. exact I. Qed.

Section history.
Context `{A : Alembic} `{Aok : !AlembicOk A}.
Variable f : catalog.
Hypothesis f_elsewhere : elsewhere f.

Lemma avoided : Forall (avoids f) upgrade ∧ Forall (avoids f) downgrade.
Proof using f_elsewhere. by apply Forall_app, revision_avoids. Qed.

Lemma apart_bare s : apart f (Catalog s ∅ ∅).
Proof using. split; apply map_disjoint_empty_l. Qed.

Lemma upgrade_fresh : run_ddl upgrade f = Ok (beside f metadata) ∧ apart f metadata.
Proof using f_elsewhere.
  rewrite <- (beside_empty f) at 1.
  apply run_beside; [apply apart_bare|apply avoided|apply upgrade_metadata].
Qed.

Lemma upgrade_again : run_ddl upgrade (beside f bare_schemas) = Ok (beside f metadata).
Proof using f_elsewhere.
  by apply run_beside; [apply apart_bare|apply avoided|apply upgrade_bare].
Qed.

Lemma downgrade_head : run_ddl downgrade (beside f metadata) = Ok (beside f bare_schemas).
Proof using f_elsewhere.
  by apply run_beside; [apply upgrade_fresh|apply avoided|apply downgrade_metadata].
Qed.

(** What a sequence of commands may leave of a database that had [f]. *)
Inductive stage : migrated_db → Prop :=
| never_migrated : stage (MigratedDb f None)
| nothing_to_undo : stage (MigratedDb f (Some []))
| at_head : stage (MigratedDb (beside f metadata) (Some ["563d0c19ca00"]))
| undone : stage (MigratedDb (beside f bare_schemas) (Some [])).

(** The head comes of an upgrade, and of nothing else. *)
Definition headed (c : command) (d : migrated_db) : Prop :=
  match c with
  | upgrade_head => d = MigratedDb (beside f metadata) (Some ["563d0c19ca00"])
  | downgrade_base => alembic_version d = Some []
  end.

Lemma command_stage c d :
  stage d → ∃ d', do_run_migrations c d = (d', Ok tt) ∧ stage d' ∧ headed c d'.
Proof using f_elsewhere Aok.
  pose proof (proj1 upgrade_fresh) as Hf. pose proof upgrade_again as Ha. pose proof downgrade_head as Hd.
  assert (H : stage d → ∃ d', run_migrations versions c d = Ok d' ∧ stage d' ∧ headed c d').
  { unfold versions. intros []; destruct c;
      [rewrite upgrade_from_base by done | rewrite downgrade_at_base by done
      |rewrite upgrade_from_base by done | rewrite downgrade_at_base by done
      |rewrite upgrade_at_head by done | rewrite downgrade_from_head by done
      |rewrite upgrade_from_base by done | rewrite downgrade_at_base by done];
      cbn [db_catalog rev_upgrade rev_downgrade rev_id initial_schema]; rewrite ?Hf, ?Ha, ?Hd;
      eexists; (split; [reflexivity|]); by (split; [constructor|]). }
  intros (d' & Hrun & Hd')%H. exists d'. split; [by apply transaction_commits | done].
Qed.
End history.

(** C29. The version table tells the truth.  Take a database that has no version
    table and keeps nothing in the two schemas, and an environment whose URL
    names it and can be read.  Whatever sequence of upgrades and downgrades is
    run, every command succeeds, touches no other database, and leaves either
    the tables of the mapped classes under the head's revision, which is how an
    upgrade ends however often it is repeated, or no table of theirs under no
    revision. *)
Theorem version_table_tells `{A : Alembic} `{Aok : !AlembicOk A} f here env url cs s :
  elsewhere f →
  engine_url here (database_url env) = Ok (Some url) →
  s !! url = Some (MigratedDb f None) →
  let '(s', rs) := run_commands here env cs s in
  Forall (λ r, r = Ok tt) rs
  ∧ ∃ d, s' = <[url := d]> s
    ∧ (alembic_version d = Some ["563d0c19ca00"] ∧ db_catalog d = beside f metadata
       ∨ alembic_version d ∈ [None; Some []]
         ∧ tables (db_catalog d) = tables f ∧ indexes (db_catalog d) = indexes f)
    ∧ (last cs = Some upgrade_head → alembic_version d = Some ["563d0c19ca00"]).
Proof.
  intros Hf Hurl. revert s.
  assert (H : ∀ s d, s !! url = Some d → stage f d →
    let '(s', rs) := run_commands here env cs s in
    Forall (λ r, r = Ok tt) rs
    ∧ ∃ d', s' = <[url := d']> s ∧ stage f d' ∧ (cs = [] → d' = d)
      ∧ (∀ c, last cs = Some c → headed f c d')).
  { induction cs as [|c cs IH]; intros s d Hs Hd.
    - simpl. split; [done|]. exists d. split_and!; [|done..].
      symmetry. by apply insert_id.
    - cbn [run_commands]. unfold run_migrations_online. rewrite Hurl, Hs.
      destruct (command_stage f Hf c d Hd) as (d1 & -> & Hd1 & Hc1).
      specialize (IH (<[url := d1]> s) d1 (lookup_insert_eq _ _ _) Hd1).
      destruct (run_commands _ _ _ _) as [s' rs]. destruct IH as (Hrs & d' & -> & Hd' & Hn & Hl).
      split; [by constructor|]. exists d'. rewrite insert_insert_eq. split_and!; [done..|].
      intros c'. destruct cs as [|c2 cs]; [|apply Hl]. intros [= <-]. by rewrite Hn. }
  intros s Hs. specialize (H s _ Hs (never_migrated f)).
  destruct (run_commands _ _ _ _) as [s' rs]. destruct H as (Hrs & d & -> & Hd & _ & Hl).
  split; [done|]. exists d. split_and!; [done| |].
  - destruct Hd; simpl; rewrite ?(left_id_L ∅ (∪)); [right|right|left|right]; set_solver.
  - intros Hc. by rewrite (Hl _ Hc).
Qed.

(** A URL the configuration refuses stops both modes. *)
Lemma refused_url `{A : Alembic} here env c s e :
  set_main_option (database_url env) (alembic_ini here) = Err e →
  run_migrations_online here env c s = (s, Err (ConfigError e))
  ∧ run_migrations_offline here env c = Err e.
Proof. intros H. unfold run_migrations_online, engine_url, run_migrations_offline. by rewrite H. Qed.

(** ** Witnesses *)
Definition sample_env : environ := {["DATABASE_URL" := "postgresql+asyncpg://a:p%40ss@db/shop"]}.
Definition plain_env : environ :=
  {["ALEMBIC_DATABASE_URL" := ""; "DATABASE_URL" := "postgresql+asyncpg://a:pass@db/shop"]}.

Lemma url_through_config_witness :
  engine_url "/app" "postgresql+asyncpg://a:pass@db/shop"
  = Ok (Some "postgresql+asyncpg://a:pass@db/shop")
  ∧ engine_url "/app" (database_url sample_env)
    = Err (InvalidSyntax "postgresql+asyncpg://a:p%40ss@db/shop").
Proof.
  split; [by apply (url_through_config "/app" "postgresql+asyncpg://a:pass@db/shop")|].
  by apply (url_through_config "/app" "postgresql+asyncpg://a:p%40ss@db/shop").
Defined.

(** An Alembic over one revision. *)
Definition plain_alembic : Alembic := {|
  run_migrations vs c d :=
    match vs, c, default [] (alembic_version d) with
    | [v], upgrade_head, [] =>
        match run_ddl (rev_upgrade v) (db_catalog d) with
        | Ok k => Ok (MigratedDb k (Some [rev_id v]))
        | Err e => Err (DdlError e)
        end
    | [v], downgrade_base, _ :: _ =>
        match run_ddl (rev_downgrade v) (db_catalog d) with
        | Ok k => Ok (MigratedDb k (Some []))
        | Err e => Err (DdlError e)
        end
    | [_], upgrade_head, _ :: _ => Ok d
    | [_], downgrade_base, [] => Ok (MigratedDb (db_catalog d) (Some []))
    | _, _, _ => Err (AlembicError "one revision")
    end;
  begin_transaction body d := match body d with Ok d' => (d', Ok tt) | Err e => (d, Err e) end;
  offline_script _ _ url := url;
|}.

Lemma plain_alembic_ok : AlembicOk plain_alembic.
Proof.
  split; simpl; unfold unversioned.
  - intros v d _ Hd. by rewrite Hd.
  - intros v d Hd. by rewrite Hd.
  - intros v d Hd. by rewrite Hd.
  - intros v d _ Hd. by rewrite Hd.
  - by intros body d d' ->.
  - by intros body d e ->.
Qed.

Lemma version_table_tells_witness :
  let s : servers := {["postgresql+asyncpg://a:pass@db/shop" := MigratedDb public_server None]} in
  let '(s', rs) := run_commands (A := plain_alembic) "/app" plain_env
                     [upgrade_head; downgrade_base; upgrade_head] s in
  Forall (λ r, r = Ok tt) rs
  ∧ ∃ d, s' = <["postgresql+asyncpg://a:pass@db/shop" := d]> s
    ∧ (alembic_version d = Some ["563d0c19ca00"] ∧ db_catalog d = beside public_server metadata
       ∨ alembic_version d ∈ [None; Some []]
         ∧ tables (db_catalog d) = tables public_server
         ∧ indexes (db_catalog d) = indexes public_server)
    ∧ (Some upgrade_head = Some upgrade_head → alembic_version d = Some ["563d0c19ca00"]).
Proof.
  intros s.
  apply (version_table_tells (A := plain_alembic) (Aok := plain_alembic_ok) public_server "/app" plain_env
           "postgresql+asyncpg://a:pass@db/shop" [upgrade_head; downgrade_base; upgrade_head] s).
  - apply public_elsewhere.
  - vm_compute. reflexivity.
  - apply lookup_singleton_eq.
Defined.
