(* ===== verification/Platform.v ===== *)
(** * The platform

    The operations through which the services reach the outside world (two
    databases, Redis, Kafka, the network, the clock and the random sources),
    the state they act on, and their documented behaviour. *)
From S2P Require Import Prelude Effects Json Uuid Domain Orm Redis InventoryModels.
From S2P Require Import ApiModels.

(** How the network treats a gRPC call: it may fail before the server sees the
    request or after the server has executed it. *)
Inductive rpc_fault := NoFault | LostRequest (code : StatusCode) | LostReply (code : StatusCode).

Inductive sys_op : Type → Type :=
| InvDb {B} (op : orm_op inv_key inv_row B) : sys_op B
| ApiDb {B} (op : orm_op api_key api_row B) : sys_op B
| RedisCmd {B} (op : redis_op B) : sys_op B
| KafkaSend (topic key : string) (value : json) : sys_op (result exn unit)
| RpcFault : sys_op rpc_fault
| RpcDetails (e : exn) : sys_op string
| Mail (recipient subject : string) (order_id : uuid) : sys_op unit
| Now : sys_op Z
| Sleep (us : Z) : sys_op unit
| Uuid4 : sys_op uuid
| Random53 : sys_op Z
| Gensalt : sys_op string.

(** What the gRPC runtime reports of an exception no handler caught is its own
    text ([RpcDetails]); [Mail] is the transactional e-mail that
    [_send_mock_email] stands for; [Random53] draws the 53 bits of
    [random.random()]; [Gensalt] is [bcrypt.gensalt()]. *)

(** Programs of the services. *)
Abbreviation M := (prog sys_op exn).

Record kafka_record : Type := KafkaRecord {
  rec_topic : string; rec_key : string; rec_value : json;
}.

Record mail : Type := MailRecord {
  mail_to : string; mail_subject : string; mail_order : uuid;
}.

Record world : Type := World {
  inv_db : database inv_key inv_row;
  api_db : database api_key api_row;
  redis : redis_db;
  redis_up : bool;
  kafka_log : list kafka_record;
  kafka_up : bool;
  mails : list mail;
  fault : rpc_fault;
  clock : Z;
  draws : nat;
}.

Definition set_inv_db (d : database inv_key inv_row) (w : world) : world :=
  World d (api_db w) (redis w) (redis_up w) (kafka_log w) (kafka_up w) (mails w) (fault w) (clock w) (draws w).
Definition set_api_db (d : database api_key api_row) (w : world) : world :=
  World (inv_db w) d (redis w) (redis_up w) (kafka_log w) (kafka_up w) (mails w) (fault w) (clock w) (draws w).
Definition set_redis (r : redis_db) (w : world) : world :=
  World (inv_db w) (api_db w) r (redis_up w) (kafka_log w) (kafka_up w) (mails w) (fault w) (clock w) (draws w).
Definition set_clock (t : Z) (w : world) : world :=
  World (inv_db w) (api_db w) (redis w) (redis_up w) (kafka_log w) (kafka_up w) (mails w) (fault w) t (draws w).
Definition log_record (r : kafka_record) (w : world) : world :=
  World (inv_db w) (api_db w) (redis w) (redis_up w) (kafka_log w ++ [r]) (kafka_up w) (mails w) (fault w)
    (clock w) (draws w).
Definition log_mail (m : mail) (w : world) : world :=
  World (inv_db w) (api_db w) (redis w) (redis_up w) (kafka_log w) (kafka_up w) (mails w ++ [m])
    (fault w) (clock w) (draws w).
Definition set_fault (f : rpc_fault) (w : world) : world :=
  World (inv_db w) (api_db w) (redis w) (redis_up w) (kafka_log w) (kafka_up w) (mails w) f
    (clock w) (draws w).
Definition set_kafka_up (b : bool) (w : world) : world :=
  World (inv_db w) (api_db w) (redis w) (redis_up w) (kafka_log w) b (mails w) (fault w)
    (clock w) (draws w).
Definition next_draw (w : world) : world :=
  World (inv_db w) (api_db w) (redis w) (redis_up w) (kafka_log w) (kafka_up w) (mails w) (fault w)
    (clock w) (S (draws w)).

(** Some random draws later. *)
Definition advance (k : nat) (w : world) : world :=
  World (inv_db w) (api_db w) (redis w) (redis_up w) (kafka_log w) (kafka_up w) (mails w) (fault w)
    (clock w) (k + draws w).

Lemma advance_0 w : advance 0 w = w.
Proof. by destruct w. Qed.

(** What the platform leaves unspecified: the order of query results and the
    random draws. *)
Record oracle : Type := Oracle {
  inv_scan : nat → gmap inv_key inv_row → list inv_row;
  api_scan : nat → gmap api_key api_row → list api_row;
  uuid_draw : nat → uuid;
  random_draw : nat → Z;
  rpc_details : exn → string;
  salt_draw : nat → string;
}.

(** A query returns every row of the table once, in some order; a random draw
    is one of the [2^53] values of [random.random()]. *)
Class OracleOk (o : oracle) : Prop := {
  inv_scan_perm n t : inv_scan o n t ≡ₚ (map_to_list t).*2;
  api_scan_perm n t : api_scan o n t ≡ₚ (map_to_list t).*2;
  random_draw_range n : 0 ≤ random_draw o n < 2 ^ 53;
}.

Section doc.
Variable o : oracle.

(** The documented behaviour of the platform. *)
Definition sys_exec (B : Type) (op : sys_op B) (w : world) : option (B * world) :=
  match op in sys_op B return option (B * world) with
  | InvDb op =>
      match orm_exec (inv_scan o) (clock w) _ op (inv_db w) with
      | Some (b, d) => Some (b, set_inv_db d w)
      | None => None
      end
  | ApiDb op =>
      match orm_exec (api_scan o) (clock w) _ op (api_db w) with
      | Some (b, d) => Some (b, set_api_db d w)
      | None => None
      end
  | RedisCmd op =>
      let '(b, r) := redis_exec (clock w) (redis_up w) _ op (redis w) in
      Some (b, set_redis r w)
  | KafkaSend t k v =>
      if kafka_up w then Some (Ok tt, log_record (KafkaRecord t k v) w)
      else Some (Err KafkaError, w)
  | RpcFault => Some (fault w, w)
  | RpcDetails e => Some (rpc_details o e, w)
  | Mail t sj i => Some (tt, log_mail (MailRecord t sj i) w)
  | Now => Some (clock w, w)
  | Sleep us => Some (tt, set_clock (clock w + us) w)
  | Uuid4 => Some (uuid_draw o (draws w), next_draw w)
  | Random53 => Some (random_draw o (draws w), next_draw w)
  | Gensalt => Some (salt_draw o (draws w), next_draw w)
  end.
End doc.

(** A program that starts with a call. *)
Lemma run_call_bind {B C} (o : oracle) (op : sys_op (result exn B)) (f : B → prog sys_op exn C) w :
  run (sys_exec o) (r <- (r <- trigger op ;; of_result r) ;; f r) w
  = match sys_exec o _ op w with
    | Some (Ok b, w') => run (sys_exec o) (f b) w'
    | Some (Err e, w') => Some (Err e, w')
    | None => None
    end.
Proof.
  rewrite !run_bind, run_trigger. destruct (sys_exec o _ op w) as [[[b|e] w']|]; done.
Qed.

(** ** The calls, as programs *)
Definition datetime_now : M Z := trigger Now.
Definition uuid4 : M uuid := trigger Uuid4.
Definition sleep (us : Z) : M unit := trigger (Sleep us).

(** A call whose reply may be an exception raises it. *)
Definition call {B} (op : sys_op (result exn B)) : M B := r <- trigger op ;; of_result r.

(** ** A concrete oracle *)
Definition sample_oracle : oracle := {|
  inv_scan _ t := (map_to_list t).*2;
  api_scan _ t := (map_to_list t).*2;
  uuid_draw n := uuid_of_N (1000 + N.of_nat n);
  random_draw _ := 2 ^ 52;
  rpc_details _ := "Unexpected error";
  salt_draw n := pretty (Z.of_nat n);
|}.

#[global] Instance sample_oracle_ok : OracleOk sample_oracle.
Proof. split; intros; simpl; try done. Qed.

Definition empty_db {key row} `{Countable key} : database key row := Database ∅ ∅ 0 0.

Definition initial_world : world :=
  World empty_db empty_db ∅ true [] true [] NoFault 0 0.
