(* ===== verification/SessionRuns.v ===== *)
(** * Running session calls

    What each call of the session does when no other session of its database
    is open, for both databases: the state before and after, and the facts the
    repositories' proofs need.  [DbAccess] states how a database's operations
    act on the world. *)
From S2P Require Import Prelude Effects Domain Orm OrmFacts Redis InventoryModels.
From S2P Require Import ApiModels.
From S2P Require Import Platform.

(** ** Access to a database *)
Class DbAccess (o : oracle) (key row : Type) `{Countable key} `{EqDecision row}
    `{Sch : !Schema key row} : Type := {
  db_op : ∀ B, orm_op key row B → sys_op B;
  db_scan : nat → gmap key row → list row;
  db_put : database key row → world → world;
  db_exec : ∀ B (op : orm_op key row B) d w,
    sys_exec o B (db_op B op) (db_put d w)
    = match orm_exec db_scan (clock w) B op d with
      | Some (b, d') => Some (b, db_put d' w)
      | None => None
      end;
}.

#[global] Hint Mode DbAccess - - ! - - - - : typeclass_instances.

#[global] Program Instance inventory_access (o : oracle) : DbAccess o inv_key inv_row := {|
  db_op _ op := InvDb op;
  db_scan := inv_scan o;
  db_put := set_inv_db;
|}.
Next Obligation. intros o B op d w. simpl. by destruct (orm_exec _ _ _ _ _) as [[b d']|]. Qed.

#[global] Program Instance api_access (o : oracle) : DbAccess o api_key api_row := {|
  db_op _ op := ApiDb op;
  db_scan := api_scan o;
  db_put := set_api_db;
|}.
Next Obligation. intros o B op d w. simpl. by destruct (orm_exec _ _ _ _ _) as [[b d']|]. Qed.

Section runs.
Context {key row : Type} `{!EqDecision key, !Countable key, !EqDecision row}.
Context `{Sch : !Schema key row} {o : oracle} `{Acc : !DbAccess o key row}.
Implicit Types (t : gmap key row) (ss : session key row) (w : world) (k : key).

(** A world in which session [s] is the only one open. *)
Definition alone t (s : nat) ss (n q : nat) w : world := db_put (Database t {[s := ss]} n q) w.

(** A world in which no session is open. *)
Definition idle t (n q : nat) w : world := db_put (Database t ∅ n q) w.

Abbreviation op_run op :=
  (run (X := exn) (sys_exec o) (trigger (db_op (key := key) (row := row) (o := o) _ op))).
Abbreviation call_run op :=
  (run (sys_exec o) (call (db_op (key := key) (row := row) (o := o) _ op))).

Lemma run_op {B} (op : orm_op key row B) t s ss n q w :
  op_run op (alone t s ss n q w)
  = match orm_exec db_scan (clock w) _ op (Database t {[s := ss]} n q) with
    | Some (b, d) => Some (Ok b, db_put d w)
    | None => None
    end.
Proof using.
  rewrite run_trigger. unfold alone. rewrite db_exec.
  by destruct (orm_exec _ _ _ _ _) as [[b d]|].
Qed.

Lemma run_call {B} (op : orm_op key row (result exn B)) t s ss n q w :
  call_run op (alone t s ss n q w)
  = match orm_exec db_scan (clock w) _ op (Database t {[s := ss]} n q) with
    | Some (r, d) => Some (r, db_put d w)
    | None => None
    end.
Proof using.
  unfold call. rewrite run_bind, run_op.
  destruct (orm_exec _ _ _ _ _) as [[b d]|]; [|done]. apply run_of_result.
Qed.

Lemma put_alone s ss ss' t n q :
  put_session s ss' (Database t {[s := ss]} n q) = Database t {[s := ss']} n q.
Proof using. unfold put_session, with_sessions. simpl. by rewrite insert_singleton_eq. Qed.

(** ** Opening and closing *)
Lemma run_open t n q w :
  op_run OpenSession (idle t n q w) = Some (Ok n, alone t n empty_session (S n) q w).
Proof using.
  rewrite run_trigger. unfold idle. rewrite db_exec. simpl. by rewrite insert_empty.
Qed.

Lemma run_close t s ss n q w : op_run (CloseSession s) (alone t s ss n q w) = Some (Ok tt, idle t n q w).
Proof using. rewrite run_op. simpl. unfold with_sessions. simpl. by rewrite delete_singleton_eq. Qed.

Lemma run_rollback t s ss n q w :
  op_run (Rollback s) (alone t s ss n q w) = Some (Ok tt, alone t s empty_session n q w).
Proof using. rewrite run_op. simpl. by rewrite lookup_singleton_eq, put_alone. Qed.

(** ** Reads *)
Lemma run_get t s ss n q w k :
  coherent t ss →
  ∃ ss', call_run (Get s k) (alone t s ss n q w)
           = Some (Ok (visible t ss !! k), alone t s ss' n q w)
    ∧ coherent t ss' ∧ visible t ss' = visible t ss ∧ objs ss ⊆ objs ss'
    ∧ (∀ r, visible t ss !! k = Some r → objs ss' !! k = Some (r, r)).
Proof using.
  intros Hc. setoid_rewrite run_call. simpl. rewrite lookup_singleton_eq.
  destruct (objs ss !! k) as [[l c]|] eqn:Hk.
  - destruct (coh_objs _ _ Hc _ _ _ Hk) as [-> Hv].
    exists ss. rewrite Hv. repeat split_and!; try done. naive_solver.
  - change (apply_overlay (overlay ss) t) with (visible t ss). destruct (visible t ss !! k) as [r|] eqn:Hv.
    + eexists. rewrite put_alone. split; [done|]. split.
      { split; [apply Hc..|]. intros k' l c. simpl. rewrite lookup_insert.
        case_decide; [intros; simplify_eq; done | apply Hc]. }
      split; [done|]. split; [by apply insert_subseteq|].
      intros r' [= <-]. apply lookup_insert_eq.
    + exists ss. by split_and!.
Qed.

(** Rows of the visible tables, when every row is stored under its key. *)
Definition keyed t : Prop := ∀ k r, t !! k = Some r → key_of r = k.

(** Loading rows of the visible tables keeps a session coherent. *)
Lemma load_coherent t ss r :
  coherent t ss → visible t ss !! key_of r = Some r →
  coherent t (load ss r) ∧ visible t (load ss r) = visible t ss
  ∧ objs ss ⊆ objs (load ss r) ∧ objs (load ss r) !! key_of r = Some (r, r).
Proof using.
  intros Hc Hr. unfold load. destruct (objs ss !! key_of r) as [[l c]|] eqn:Hk.
  - split_and!; try done. destruct (coh_objs _ _ Hc _ _ _ Hk) as [-> Hv]. congruence.
  - split; [|split; [done|split; [by apply insert_subseteq | apply lookup_insert_eq]]].
    split; [apply Hc..|]. intros k l c. simpl. rewrite lookup_insert.
    case_decide; [|apply Hc]. subst. by intros [= <- <-].
Qed.

Lemma load_all_coherent t rows ss :
  coherent t ss → Forall (λ r, visible t ss !! key_of r = Some r) rows →
  coherent t (foldl load ss rows) ∧ visible t (foldl load ss rows) = visible t ss
  ∧ objs ss ⊆ objs (foldl load ss rows)
  ∧ Forall (λ r, objs (foldl load ss rows) !! key_of r = Some (r, r)) rows.
Proof using.
  revert ss. induction rows as [|r rows IH]; intros ss Hc Hall; [by split_and!|].
  inversion Hall as [|? ? Hr Hall']; subst. simpl.
  destruct (load_coherent t ss r Hc Hr) as (Hc' & Hv & Hsub & Ho).
  destruct (IH (load ss r)) as (Hc2 & Hv2 & Hsub2 & Ho2); [done|by rewrite Hv|].
  split_and!; [done | congruence | by etrans |]. constructor; [|done].
  by eapply lookup_weaken.
Qed.

Lemma instance_of_coherent t ss r :
  coherent t ss → visible t ss !! key_of r = Some r → instance_of ss r = r.
Proof using.
  intros Hc Hr. unfold instance_of.
  destruct (objs ss !! key_of r) as [[l c]|] eqn:Hk; [|done].
  apply (coh_objs _ _ Hc) in Hk as [_ Hk]. congruence.
Qed.

Lemma run_select t s ss n q w qy :
  coherent t ss →
  let rows := run_query db_scan q (visible t ss) qy in
  Forall (λ r, visible t ss !! key_of r = Some r) rows →
  ∃ ss', call_run (Select s qy) (alone t s ss n q w) = Some (Ok rows, alone t s ss' n (S q) w)
    ∧ coherent t ss' ∧ visible t ss' = visible t ss ∧ objs ss ⊆ objs ss'
    ∧ Forall (λ r, objs ss' !! key_of r = Some (r, r)) rows.
Proof using.
  intros Hc rows Hall. exists (foldl load ss rows).
  split; [|by apply load_all_coherent].
  rewrite run_call. simpl. rewrite lookup_singleton_eq, put_alone.
  change (apply_overlay (overlay ss) t) with (visible t ss). fold rows.
  rewrite (map_ext_in _ id); [by rewrite map_id|].
  intros r Hr. apply (instance_of_coherent t); [done|].
  rewrite Forall_forall in Hall. apply Hall. by apply list_elem_of_In.
Qed.

Lemma run_count t s ss n q w p :
  call_run (Count s p) (alone t s ss n q w)
  = Some (Ok (Z.of_nat (length (filter (λ r, p r = true) (db_scan q (visible t ss))))),
          alone t s ss n (S q) w).
Proof using. rewrite run_call. simpl. by rewrite lookup_singleton_eq. Qed.

(** ** Tracked instances *)
Lemma run_write t s ss n q w k f l c :
  objs ss !! k = Some (l, c) →
  op_run (SetAttrs s k f) (alone t s ss n q w)
  = Some (Ok tt, alone t s (with_objs ss (<[k := (l, f c)]> (objs ss))) n q w).
Proof using.
  intros Hk. rewrite run_op. simpl. rewrite lookup_singleton_eq, Hk. by rewrite put_alone.
Qed.

Lemma run_attrs t s ss n q w k l c :
  objs ss !! k = Some (l, c) →
  op_run (Attrs s k) (alone t s ss n q w) = Some (Ok (Some c), alone t s ss n q w).
Proof using. intros Hk. rewrite run_op. simpl. by rewrite lookup_singleton_eq, Hk. Qed.

Lemma run_add t s ss n q w r :
  op_run (Add s r) (alone t s ss n q w)
  = Some (Ok tt, alone t s (Session (objs ss) (news ss ++ [r]) (dels ss) (overlay ss)) n q w).
Proof using. rewrite run_op. simpl. rewrite lookup_singleton_eq. by rewrite put_alone. Qed.

Lemma run_delete t s ss n q w k :
  op_run (Delete s k) (alone t s ss n q w)
  = Some (Ok tt, alone t s (Session (objs ss) (news ss) (dels ss ++ [k]) (overlay ss)) n q w).
Proof using. rewrite run_op. simpl. rewrite lookup_singleton_eq. by rewrite put_alone. Qed.

Lemma run_flush t s ss n q w r :
  do_flush (clock w) s (Database t {[s := ss]} n q) ss = Some r →
  call_run (Flush s) (alone t s ss n q w)
  = Some (match r with Ok _ => Ok tt | Err e => Err e end,
          alone t s (match r with Ok ss' => ss' | Err _ => empty_session end) n q w).
Proof using.
  intros Hf. rewrite run_call. simpl. rewrite lookup_singleton_eq, Hf.
  destruct r; by rewrite put_alone.
Qed.

(** ** Flushes *)
Definition checks (m : gmap key row) : Prop := map_Forall (λ _ r, check_row r = None) m.

#[global] Instance checks_dec m : Decision (checks m).
Proof using. unfold checks. apply _. Defined.

Lemma rows_of_checks now (ch : gmap key (row * row)) :
  checks (rows_of now ch) ↔
  ∀ k l c, ch !! k = Some (l, c) → check_row (new_row now c) = None.
Proof using.
  unfold checks, rows_of. rewrite map_Forall_fmap. split.
  - intros H k l c Hk. by apply H in Hk.
  - intros H k [l c] Hk. simpl. by eapply H.
Qed.

(** Why the database refuses a new row, given the rows it sees. *)
Definition insert_error (vis : gmap key row) (new : row) : option exn :=
  match check_row new with
  | Some e => Some e
  | None =>
      if bool_decide (vis !! key_of new = None
                      ∧ map_Forall (λ _ r', conflicts new r' = false) vis
                      ∧ Forall (λ k', is_Some (vis !! k')) (references new))
      then None else Some IntegrityError
  end.

Lemma insert_error_None vis new :
  insert_error vis new = None ↔
  check_row new = None ∧ vis !! key_of new = None
  ∧ map_Forall (λ _ r', conflicts new r' = false) vis
  ∧ Forall (λ k', is_Some (vis !! k')) (references new).
Proof using.
  unfold insert_error. destruct (check_row new); [split; [done | by intros [? _]]|].
  case_bool_decide; [done|]. split; [done | by intros [_ ?]].
Qed.

Hypothesis merge_same : ∀ r : row, merge_columns r r r = r.

Lemma coherent_tracked t ss : coherent t ss → tracked t ss.
Proof using merge_same.
  intros Hc k l c Hk. destruct (coh_objs _ _ Hc _ _ _ Hk) as [-> Hv].
  split; [done | apply merge_same].
Qed.

(** Attribute changes of current instances: the updated rows, or the error of
    a constraint one of them violates. *)
Lemma flush_changes t s ss ch n q now :
  coherent t ss → changes_ok ss ch →
  ∃ out, do_flush now s (Database t {[s := with_changes ss ch]} n q) (with_changes ss ch) = Some out
    ∧ match out with
      | Ok ss' => checks (rows_of now ch) ∧ coherent t ss'
                  ∧ visible t ss' = rows_of now ch ∪ visible t ss
                  ∧ objs ss' = ((λ r, (r, r)) <$> rows_of now ch) ∪ (ch ∪ objs ss)
      | Err e => ∃ k l c, ch !! k = Some (l, c) ∧ check_row (new_row now c) = Some e
      end.
Proof using merge_same.
  intros Hc Hch. set (ss1 := with_changes ss ch).
  assert (Hd : dirty_objs (objs ss1) = ch) by apply (dirty_with_changes _ _ _ Hc Hch).
  assert (Ht : tracked t ss1) by (apply tracked_with_changes; eauto).
  assert (Hf := unblocked_alone s t ss1 n q ss1).
  assert (Hn : news ss1 = []) by apply Hc. assert (Hdel : dels ss1 = []) by apply Hc.
  assert (Hup : updates now (objs ss1) = rows_of now ch) by (unfold updates; by rewrite Hd).
  destruct (decide (checks (rows_of now ch))) as [Hck|Hck].
  - destruct (flush_updates now _ _ _ Hf Ht Hdel Hn) as (ss' & Hrun & Hcoh & Hv & Ho & _).
    { rewrite Hd. by apply rows_of_checks. }
    exists (Ok ss'). split; [done|]. change (tbl _) with t in *. rewrite Hup in Hv, Ho. done.
  - destruct (flush_check_error now _ _ _ Hf Ht) as (e & k & l & c & Hk & He & Hrun).
    { rewrite Hd. intros H. by apply Hck, rows_of_checks. }
    exists (Err e). split; [done|]. rewrite Hd in Hk. eauto.
Qed.

(** Attribute changes together with a new row. *)
Lemma flush_changes_insert t s ss ch x n q now :
  coherent t ss → changes_ok ss ch →
  let ss1 := Session (ch ∪ objs ss) [x] [] (overlay ss) in
  let new := stamp_insert now (initial_version x) in
  let vis := rows_of now ch ∪ visible t ss in
  key_of new = key_of x →
  ∃ out, do_flush now s (Database t {[s := ss1]} n q) ss1 = Some out
    ∧ match out with
      | Ok ss' => checks (rows_of now ch) ∧ insert_error vis new = None ∧ coherent t ss'
                  ∧ visible t ss' = <[key_of x := new]> vis
                  ∧ objs ss' = <[key_of x := (new, new)]>
                      (((λ r, (r, r)) <$> rows_of now ch) ∪ (ch ∪ objs ss))
      | Err e => (∃ k l c, ch !! k = Some (l, c) ∧ check_row (new_row now c) = Some e)
                 ∨ (checks (rows_of now ch) ∧ insert_error vis new = Some e)
      end.
Proof using merge_same.
  intros Hc Hch ss1 new vis Hkey.
  assert (Hd : dirty_objs (objs ss1) = ch) by apply (dirty_with_changes _ _ _ Hc Hch).
  assert (Ht : tracked t ss1).
  { intros k l c Hk. apply (tracked_with_changes t ss ch) in Hk; eauto. }
  assert (Hf := unblocked_alone s t ss1 n q ss1).
  assert (Hup : updates now (objs ss1) = rows_of now ch) by (unfold updates; by rewrite Hd).
  destruct (decide (checks (rows_of now ch))) as [Hck|Hck].
  2: { destruct (flush_check_error now _ _ _ Hf Ht) as (e & k & l & c & Hk & He & Hrun).
       { rewrite Hd. intros H. by apply Hck, rows_of_checks. }
       exists (Err e). split; [done|]. left. rewrite Hd in Hk. eauto. }
  unfold do_flush. rewrite decide_True by done. unfold flush_statements. change (tbl _) with t.
  destruct (fold_updates now t (dirty ss1) (overlay ss1, objs ss1))
    as ([ov o1] & -> & Hu).
  { apply NoDup_fst_map_to_list. }
  { by apply dirty_tracked. }
  { apply dirty_checks. rewrite Hd. by apply rows_of_checks. }
  pose proof (tracked_updated _ _ _ _ Ht Hu) as Hcoh.
  destruct Hu as [Hov Ho]. rewrite updates_list, Hup in Hov, Ho. simpl in Hov, Ho.
  assert (Hvis : apply_overlay ov t = vis) by (rewrite Hov; apply apply_overlay_union).
  cbn [news dels ss1 fold_result]. eexists. split; [done|].
  unfold insert_one. cbn [fst snd]. fold new. rewrite Hvis, <- Hkey.
  unfold insert_error. destruct (check_row new) as [e|] eqn:Hnew; [by right|].
  case_bool_decide as Hb; [|by right].
  split_and!; try done.
  - split; [done..|]. intros k l c. unfold visible; cbn [overlay objs].
    rewrite apply_overlay_insert, !lookup_insert.
    case_decide; [|apply Hcoh]. by intros [= <- <-].
  - unfold visible. cbn [overlay]. by rewrite apply_overlay_insert, Hvis.
  - cbn [objs]. by rewrite Ho.
Qed.

(** Only a new row. *)
Lemma flush_insert t s ss x n q now :
  coherent t ss →
  let ss1 := Session (objs ss) (news ss ++ [x]) (dels ss) (overlay ss) in
  let new := stamp_insert now (initial_version x) in
  key_of new = key_of x →
  do_flush now s (Database t {[s := ss1]} n q) ss1
  = Some match insert_error (visible t ss) new with
         | Some e => Err e
         | None => Ok (Session (<[key_of x := (new, new)]> (objs ss)) [] []
                         (<[key_of x := Some new]> (overlay ss)))
         end.
Proof using.
  intros Hc ss1 new Hkey. unfold do_flush. rewrite decide_True by apply unblocked_alone.
  unfold flush_statements, dirty. cbn [objs ss1].
  rewrite (dirty_objs_clean (objs ss)), map_to_list_empty by by eapply coherent_clean.
  cbn [fold_result news dels overlay ss1]. rewrite (coh_news _ _ Hc), (coh_dels _ _ Hc).
  cbn [fold_result app]. unfold insert_one. cbn [fst snd tbl]. fold new.
  change (apply_overlay (overlay ss) t) with (visible t ss). rewrite <- Hkey.
  unfold insert_error. destruct (check_row new); [done|]. by case_bool_decide.
Qed.

Lemma insert_coherent t ss k new :
  coherent t ss →
  let ss' := Session (<[k := (new, new)]> (objs ss)) [] [] (<[k := Some new]> (overlay ss)) in
  coherent t ss' ∧ visible t ss' = <[k := new]> (visible t ss).
Proof using.
  intros Hc ss'. assert (Hv : visible t ss' = <[k := new]> (visible t ss))
    by apply apply_overlay_insert.
  split; [|done]. split; [done..|]. intros k' l c. simpl. rewrite Hv, !lookup_insert.
  case_decide; [by intros [= <- <-] | apply Hc].
Qed.

(** Only the deletion of a row. *)
Lemma flush_delete t s ss k n q now :
  coherent t ss →
  let ss1 := Session (objs ss) (news ss) (dels ss ++ [k]) (overlay ss) in
  do_flush now s (Database t {[s := ss1]} n q) ss1
  = Some (if bool_decide (map_Forall (λ _ r', k ∉ references r') (visible t ss))
          then Ok (Session (delete k (objs ss)) [] [] (<[k := None]> (overlay ss)))
          else Err IntegrityError).
Proof using.
  intros Hc ss1. unfold do_flush. rewrite decide_True by apply unblocked_alone.
  unfold flush_statements, dirty. cbn [objs ss1].
  rewrite (dirty_objs_clean (objs ss)), map_to_list_empty by by eapply coherent_clean.
  cbn [fold_result news dels overlay ss1]. rewrite (coh_news _ _ Hc), (coh_dels _ _ Hc).
  cbn [fold_result app]. unfold delete_one. cbn [fst snd tbl].
  change (apply_overlay (overlay ss) t) with (visible t ss). by case_bool_decide.
Qed.

Lemma delete_coherent t ss k :
  coherent t ss →
  let ss' := Session (delete k (objs ss)) [] [] (<[k := None]> (overlay ss)) in
  coherent t ss' ∧ visible t ss' = delete k (visible t ss).
Proof using.
  intros Hc ss'. assert (Hv : visible t ss' = delete k (visible t ss))
    by apply apply_overlay_delete.
  split; [|done]. split; [done..|]. intros k' l c. simpl. rewrite Hv, lookup_delete_Some.
  intros [Hne Hk]. rewrite lookup_delete_ne by done. by apply Hc.
Qed.

(** ** Commits *)

(** Committing what [do_flush] makes of the session. *)
Lemma run_commit_flush t s ss n q w out :
  do_flush (clock w) s (Database t {[s := ss]} n q) ss = Some out →
  call_run (Commit s) (alone t s ss n q w)
  = Some match out with
         | Ok ss' => (Ok tt, alone (visible t ss') s (Session (objs ss') [] [] ∅) n q w)
         | Err e => (Err e, alone t s empty_session n q w)
         end.
Proof using.
  intros Hf. rewrite run_call. simpl. rewrite lookup_singleton_eq, Hf.
  destruct out; [by rewrite insert_singleton_eq | by rewrite put_alone].
Qed.

(** A session that has seen its commit sees the committed tables. *)
Lemma committed_coherent t ss :
  coherent t ss →
  let ss' := Session (objs ss) [] [] ∅ in
  coherent (visible t ss) ss' ∧ visible (visible t ss) ss' = visible t ss.
Proof using.
  intros Hc ss'. assert (Hv : visible (visible t ss) ss' = visible t ss)
    by apply apply_overlay_empty.
  split; [|done]. split; [done..|]. intros k l c Hk. rewrite Hv. by apply Hc.
Qed.

(** Committing a session with nothing left to flush publishes what it sees. *)
Lemma run_commit t s ss n q w :
  coherent t ss →
  ∃ ss', call_run (Commit s) (alone t s ss n q w) = Some (Ok tt, alone (visible t ss) s ss' n q w)
    ∧ coherent (visible t ss) ss' ∧ visible (visible t ss) ss' = visible t ss
    ∧ objs ss' = objs ss.
Proof using.
  intros Hc. exists (Session (objs ss) [] [] ∅). split; [|by destruct (committed_coherent t ss Hc)].
  rewrite (run_commit_flush t s ss n q w (Ok (Session (objs ss) [] [] (overlay ss)))); [done|].
  unfold do_flush. rewrite decide_True by apply unblocked_alone.
  unfold flush_statements, dirty.
  rewrite (dirty_objs_clean (objs ss)), map_to_list_empty by by eapply coherent_clean.
  by rewrite (coh_news _ _ Hc), (coh_dels _ _ Hc).
Qed.

(** Committing the change of one instance: an instance whose attributes are as
    they were loaded is not written. *)
Lemma run_commit_one t s ss k l c n q w :
  coherent t ss → objs ss !! k = Some (l, l) → merge_columns l c l = c →
  let now := clock w in
  let new := if decide (l = c) then l else new_row now c in
  let ss1 := with_objs ss (<[k := (l, c)]> (objs ss)) in
  match (if decide (l = c) then None else check_row new) with
  | Some e => call_run (Commit s) (alone t s ss1 n q w) = Some (Err e, alone t s empty_session n q w)
  | None =>
      ∃ ss', call_run (Commit s) (alone t s ss1 n q w)
             = Some (Ok tt, alone (<[k := new]> (visible t ss)) s ss' n q w)
        ∧ coherent (<[k := new]> (visible t ss)) ss'
        ∧ visible (<[k := new]> (visible t ss)) ss' = <[k := new]> (visible t ss)
        ∧ objs ss' !! k = Some (new, new)
        ∧ (∀ k' x, k' ≠ k → objs ss !! k' = Some x → objs ss' !! k' = Some x)
  end.
Proof using merge_same.
  intros Hc Hk Hm now new ss1. destruct (coh_objs _ _ Hc _ _ _ Hk) as [_ Hv].
  destruct (decide (l = c)) as [<-|Hne].
  { subst new. assert (ss1 = ss) as ->.
    { unfold ss1. rewrite insert_id by done. by destruct ss. }
    destruct (run_commit t s ss n q w Hc) as (ss' & Hrun & Hc' & Hv' & Ho).
    rewrite insert_id by done. exists ss'. rewrite Ho. by split_and!. }
  set (ch := {[k := (l, c)]} : gmap key (row * row)).
  assert (Hch : changes_ok ss ch).
  { intros k' l' c' Hk'. apply lookup_singleton_Some in Hk' as [<- Heq]. by simplify_eq. }
  assert (Hrows : rows_of now ch = {[k := new_row now c]})
    by (unfold rows_of, ch; by rewrite map_fmap_singleton).
  assert (Hss : with_changes ss ch = ss1)
    by (unfold with_changes, ss1, ch; by rewrite <- insert_union_singleton_l).
  destruct (flush_changes t s ss ch n q now Hc Hch) as (out & Hf & Hout).
  rewrite Hss in Hf. rewrite (run_commit_flush _ _ _ _ _ _ _ Hf). rewrite Hrows in Hout.
  destruct out as [ss'|e].
  - destruct Hout as (Hck & Hc' & Hv' & Ho).
    rewrite <- insert_union_singleton_l in Hv'. fold new in Hv'.
    assert (check_row new = None) as -> by (apply (Hck k); apply lookup_singleton_eq).
    exists (Session (objs ss') [] [] ∅). rewrite Hv'.
    destruct (committed_coherent t ss' Hc') as [Hc2 Hv2]. rewrite Hv' in Hc2, Hv2.
    split_and!; try done; cbn [objs]; rewrite Ho, map_fmap_singleton.
    + by apply lookup_union_Some_l, lookup_singleton_eq.
    + intros k' x Hne' Hx. rewrite !lookup_union_r; [done|by apply lookup_singleton_ne..].
  - destruct Hout as (k' & l' & c' & Hk' & He).
    apply lookup_singleton_Some in Hk' as [<- Heq]. simplify_eq. fold now. fold new in He.
    by rewrite He.
Qed.
End runs.

Arguments alone {key row _ _ _ _ o _} t s ss n q w.
Arguments idle {key row _ _ _ _ o _} t n q w.
