(* ===== verification/Kafka.v ===== *)
(** * Messages on the bus

    [services/shared/kafka/]: event types, topics and consumer groups
    ([topics.py]), the envelope and the payloads ([schemas.py]), the producer
    ([producer.py]), and the consumer loop with its offsets ([consumer.py]). *)
From S2P Require Import Prelude Effects Json Uuid Domain Orm Redis InventoryModels.
From S2P Require Import ApiModels.
From S2P Require Import Platform.

(** ** Topics *)

Module EventType.
Inductive t :=
| EVENT_CREATED | EVENT_UPDATED | ORDER_CREATED | PAYMENT_PROCESSED
| TICKET_ISSUED | ORDER_CANCELLED | RESERVATION_EXPIRED.

Definition value (e : t) : string :=
  match e with
  | EVENT_CREATED => "eventsphere.events.created"
  | EVENT_UPDATED => "eventsphere.events.updated"
  | ORDER_CREATED => "eventsphere.orders.created"
  | PAYMENT_PROCESSED => "eventsphere.payments.processed"
  | TICKET_ISSUED => "eventsphere.tickets.issued"
  | ORDER_CANCELLED => "eventsphere.orders.cancelled"
  | RESERVATION_EXPIRED => "eventsphere.reservations.expired"
  end.
End EventType.

Module Topic.
Inductive t := EVENTS_LIFECYCLE | ORDERS_CREATED | ORDERS_STATUS_CHANGED | ORDERS_NOTIFICATIONS.

Definition value (x : t) : string :=
  match x with
  | EVENTS_LIFECYCLE => "eventsphere.events.lifecycle"
  | ORDERS_CREATED => "eventsphere.orders.created"
  | ORDERS_STATUS_CHANGED => "eventsphere.orders.status-changed"
  | ORDERS_NOTIFICATIONS => "eventsphere.orders.notifications"
  end.
End Topic.

#[global] Instance EventType_eq_dec : EqDecision EventType.t.
Proof. solve_decision. Defined.
#[global] Instance Topic_eq_dec : EqDecision Topic.t.
Proof. solve_decision. Defined.

Definition TOPIC_FOR_EVENT_TYPE (e : EventType.t) : Topic.t :=
  match e with
  | EventType.EVENT_CREATED | EventType.EVENT_UPDATED => Topic.EVENTS_LIFECYCLE
  | EventType.ORDER_CREATED => Topic.ORDERS_CREATED
  | EventType.PAYMENT_PROCESSED | EventType.RESERVATION_EXPIRED => Topic.ORDERS_STATUS_CHANGED
  | EventType.TICKET_ISSUED | EventType.ORDER_CANCELLED => Topic.ORDERS_NOTIFICATIONS
  end.

Inductive Group :=
| GROUP_INVENTORY_EVENT_SYNC | GROUP_API_PAYMENT_WORKER
| GROUP_API_ORDER_STATUS_WORKER | GROUP_API_NOTIFICATION_WORKER.

Definition Group_value (g : Group) : string :=
  match g with
  | GROUP_INVENTORY_EVENT_SYNC => "inventory-event-sync"
  | GROUP_API_PAYMENT_WORKER => "api-payment-worker"
  | GROUP_API_ORDER_STATUS_WORKER => "api-order-status-worker"
  | GROUP_API_NOTIFICATION_WORKER => "api-notification-worker"
  end.

(** ** Payloads *)

Inductive payload :=
| EventCreatedPayload (event_id : uuid) (total_seats : Z)
| EventUpdatedPayload (event_id : uuid) (total_seats : Z)
| OrderCreatedPayload (order_id event_id user_id : uuid) (quantity total_price_cents : Z)
    (reservation_id : string)
| PaymentProcessedPayload (order_id : uuid) (success : bool) (transaction_ref : string)
| TicketIssuedPayload (order_id user_id event_id : uuid)
| OrderCancelledPayload (order_id : uuid) (reservation_id : string)
| ReservationExpiredPayload (reservation_id : string) (order_id event_id : uuid).

Definition juuid (u : uuid) : json := JStr (uuid_str u).

(** [payload.model_dump(mode="json")] *)
Definition model_dump (p : payload) : json :=
  match p with
  | EventCreatedPayload e n | EventUpdatedPayload e n =>
      JObj [("event_id", juuid e); ("total_seats", JInt n)]
  | OrderCreatedPayload o e u q c r =>
      JObj [("order_id", juuid o); ("event_id", juuid e); ("user_id", juuid u);
            ("quantity", JInt q); ("total_price_cents", JInt c); ("reservation_id", JStr r)]
  | PaymentProcessedPayload o s t =>
      JObj [("order_id", juuid o); ("success", JBool s); ("transaction_ref", JStr t)]
  | TicketIssuedPayload o u e =>
      JObj [("order_id", juuid o); ("user_id", juuid u); ("event_id", juuid e)]
  | OrderCancelledPayload o r => JObj [("order_id", juuid o); ("reservation_id", JStr r)]
  | ReservationExpiredPayload r o e =>
      JObj [("reservation_id", JStr r); ("order_id", juuid o); ("event_id", juuid e)]
  end.

(** [EventEnvelope.wrap], with the generated identifier and instant, as the
    document [model_dump_json] writes. *)
Definition wrap (event_id : uuid) (event_type : EventType.t) (occurred_at : Z) (p : payload) : json :=
  JObj [("event_id", juuid event_id); ("event_type", JStr (EventType.value event_type));
        ("occurred_at", JTime occurred_at); ("payload", model_dump p)].

(** ** Producer *)

(** [KafkaEventProducer.publish] of a started producer: the record is on the
    broker when the call returns. *)
Definition publish (event_type : EventType.t) (key : string) (p : payload) : M unit :=
  id <- uuid4 ;;
  now <- datetime_now ;;
  call (KafkaSend (Topic.value (TOPIC_FOR_EVENT_TYPE event_type)) key
          (wrap id event_type now p)).

(** ** Consumer *)

(** A dispatch on [message.get("event_type")] and [message.get("payload", {})]. *)
Definition event_type_of (message : json) : result exn json := dict_get message "event_type" JNull.
Definition payload_of (message : json) : result exn json := dict_get message "payload" (JObj []).

(** [case EventType.X.value:] *)
Definition is_event (j : json) (e : EventType.t) : bool :=
  match j with JStr s => bool_decide (s = EventType.value e) | _ => false end.

(** [BaseKafkaConsumer]: the topics it subscribes to, the group it reads for
    and its handler; the broker's address and credentials are aside. *)
Record BaseKafkaConsumer : Type := Consumer {
  topics : list Topic.t;
  group_id : Group;
  on_message : json → M unit;
}.

(** One partition, seen by one consumer group: the offset the group restarts
    from and the offset the running consumer reads next. *)
Record partition : Type := Partition {
  messages : list json;
  committed : nat;
  position : nat;
}.

Definition set_committed (n : nat) (p : partition) : partition :=
  Partition (messages p) n (position p).
Definition advance_position (p : partition) : partition :=
  Partition (messages p) (committed p) (S (position p)).

(** What [AIOKafkaConsumer] and the broker decide, given where the consumer
    stands on each of its partitions: the partition the next message comes
    from, if one comes, and the error a commit ends with, if any. *)
Record AIOKafkaConsumer : Type := {
  next_partition : list nat → option nat;
  commit_error : list nat → option exn;
}.

Section loop.
Variable client : AIOKafkaConsumer.

(** [async for message]: the next message of one of the partitions, the
    position of that one moved past it. *)
Definition next_message (ps : list partition) : option (json * list partition) :=
  i ← next_partition client (position <$> ps);
  p ← ps !! i;
  m ← messages p !! position p;
  Some (m, <[i := advance_position p]> ps).

(** [AIOKafkaConsumer.commit()] commits the current position of every
    partition. *)
Definition commit_position (p : partition) : partition := set_committed (position p) p.

Definition commit (ps : list partition) : result exn (list partition) :=
  match commit_error client (position <$> ps) with
  | Some e => Err e
  | None => Ok (commit_position <$> ps)
  end.

(** A consumer that starts reads from the group's committed offsets. *)
Definition restart (p : partition) : partition := Partition (messages p) (committed p) (committed p).

(** [_process]: commit after the handler returns, log and go on if either
    raises. *)
Definition _process (handler : json → M unit) (m : json) (ps : list partition)
    : M (list partition) :=
  r <- attempt (handler m ;; of_result (commit ps)) ;;
  match r with
  | Ok ps' => Ret ps'
  | Err _ => Ret ps
  end.

(** The loop of [run], until it has seen [fuel] messages or has none left.
    [stopping] tells, by where the consumer stands, whether [stop()] had been
    called when the next message arrived: the loop then ends, that message not
    handled. *)
Fixpoint consume (handler : json → M unit) (stopping : list nat → bool) (fuel : nat)
    (ps : list partition) : M (list partition) :=
  match fuel with
  | O => Ret ps
  | S fuel =>
      match next_message ps with
      | None => Ret ps
      | Some (m, ps') =>
          if stopping (position <$> ps) then Ret ps'
          else ps'' <- _process handler m ps' ;; consume handler stopping fuel ps''
      end
  end.
End loop.
