(* ===== verification/InventoryRepository.v ===== *)
(** * Inventory repository

    [services/inventory/app/repositories/inventory_repository.py]: every read
    and write of [EventInventory] and [Reservation], as programs over the
    session, statement by statement. *)
From S2P Require Import Prelude Effects Uuid Domain Orm Redis InventoryModels Platform.

(** The [AsyncSession] calls. *)
Definition inv_get (s : nat) (k : inv_key) : M (option inv_row) := call (InvDb (Get s k)).
Definition inv_flush (s : nat) : M unit := call (InvDb (Flush s)).
Definition inv_rollback (s : nat) : M unit := trigger (InvDb (Rollback s)).
Definition inv_add (s : nat) (r : inv_row) : M unit := trigger (InvDb (Add s r)).

(** Attribute writes on tracked instances. *)
Definition on_inventory (f : EventInventory → EventInventory) (r : inv_row) : inv_row :=
  match r with RInv i => RInv (f i) | RRes _ => r end.
Definition on_reservation (f : Reservation → Reservation) (r : inv_row) : inv_row :=
  match r with RRes x => RRes (f x) | RInv _ => r end.
Definition write_inventory (s : nat) (e : uuid) (f : EventInventory → EventInventory) : M unit :=
  trigger (InvDb (SetAttrs s (KInv e) (on_inventory f))).
Definition write_reservation (s : nat) (id : uuid) (f : Reservation → Reservation) : M unit :=
  trigger (InvDb (SetAttrs s (KRes id) (on_reservation f))).

(** The attributes of an instance the caller keeps a reference to. *)
Definition as_inventory (r : option inv_row) : option EventInventory :=
  match r with Some (RInv i) => Some i | _ => None end.
Definition as_reservation (r : option inv_row) : option Reservation :=
  match r with Some (RRes x) => Some x | _ => None end.

Definition detached : exn := RuntimeError "instance is not bound to a session".

Definition inventory_instance (s : nat) (e : uuid) : M EventInventory :=
  r <- trigger (InvDb (Attrs s (KInv e))) ;;
  match as_inventory r with Some i => Ret i | None => Raise detached end.
Definition reservation_instance (s : nat) (id : uuid) : M Reservation :=
  r <- trigger (InvDb (Attrs s (KRes id))) ;;
  match as_reservation r with Some x => Ret x | None => Raise detached end.

(** ** Operations of [InventoryRepository] *)

Definition get_inventory (s : nat) (e : uuid) : M (option EventInventory) :=
  r <- inv_get s (KInv e) ;; Ret (as_inventory r).

Definition get_reservation (s : nat) (id : uuid) : M (option Reservation) :=
  r <- inv_get s (KRes id) ;; Ret (as_reservation r).

Definition no_inventory (e : uuid) : exn :=
  NotFoundError ("No inventory record for event " +s uuid_str e).
Definition no_reservation (id : uuid) : exn :=
  NotFoundError ("No reservation " +s uuid_str id).

Definition initialize_inventory (s : nat) (e : uuid) (capacity : Z) : M EventInventory :=
  existing <- get_inventory s e ;;
  match existing with
  | Some inventory => Ret inventory
  | None =>
      inv_add s (RInv (mkEventInventory e capacity 0 0 0)) ;;
      inv_flush s ;;
      inventory_instance s e
  end.

Definition adjust_capacity (s : nat) (e : uuid) (new_total_capacity : Z) : M EventInventory :=
  inventory <- get_inventory s e ;;
  match inventory with
  | None => Raise (no_inventory e)
  | Some _ =>
      write_inventory s e (set_total_capacity new_total_capacity) ;;
      inv_flush s ;;
      inventory_instance s e
  end.

Definition capacity_exceeded (i : EventInventory) (e : uuid) (q : Z) : exn :=
  CapacityExceededError ("Only " +s pretty (available i) +s " seat(s) left for event "
    +s uuid_str e +s ", requested " +s pretty q).

Definition contention (q : Z) (e : uuid) (max_retries : nat) : exn :=
  ConflictError ("Could not reserve " +s pretty q +s " seat(s) for event " +s uuid_str e
    +s " after " +s pretty (Z.of_nat max_retries) +s " attempts due to contention").

Definition new_reservation (id e order_id : uuid) (q expires : Z) : Reservation :=
  mkReservation id e order_id q ReservationStatus.PENDING expires None None.

(** The body of [for _attempt in range(max_retries)]; [remaining] is the number of
    attempts that remain. *)
Fixpoint reserve_attempts (s : nat) (e order_id : uuid) (q ttl_seconds : Z)
    (max_retries remaining : nat) : M Reservation :=
  match remaining with
  | O => Raise (contention q e max_retries)
  | S remaining =>
      inventory <- get_inventory s e ;;
      match inventory with
      | None => Raise (no_inventory e)
      | Some i =>
          if available i <? q then Raise (capacity_exceeded i e q)
          else
            write_inventory s e (add_reserved q) ;;
            now <- datetime_now ;;
            id <- uuid4 ;;
            inv_add s (RRes (new_reservation id e order_id q (now + ttl_seconds * second))) ;;
            flushed <- attempt (inv_flush s) ;;
            match flushed with
            | Ok _ => reservation_instance s id
            | Err StaleDataError =>
                inv_rollback s ;;
                reserve_attempts s e order_id q ttl_seconds max_retries remaining
            | Err err => Raise err
            end
      end
  end.

Definition reserve (s : nat) (e order_id : uuid) (q ttl_seconds : Z) (max_retries : nat)
    : M Reservation :=
  if q <=? 0 then Raise (ValueError "quantity must be positive")
  else reserve_attempts s e order_id q ttl_seconds max_retries max_retries.

Definition confirm (s : nat) (id : uuid) : M Reservation :=
  reservation <- get_reservation s id ;;
  match reservation with
  | None => Raise (no_reservation id)
  | Some r =>
      if decide (status r ≠ ReservationStatus.PENDING) then Ret r
      else
        inventory <- get_inventory s (res_event_id r) ;;
        (match inventory with
         | Some _ =>
             write_inventory s (res_event_id r) (add_reserved (- quantity r)) ;;
             write_inventory s (res_event_id r) (add_confirmed (quantity r))
         | None => Ret tt
         end) ;;
        write_reservation s id (set_status ReservationStatus.CONFIRMED) ;;
        inv_flush s ;;
        reservation_instance s id
  end.

Definition release (s : nat) (id : uuid) (expired : bool) : M Reservation :=
  reservation <- get_reservation s id ;;
  match reservation with
  | None => Raise (no_reservation id)
  | Some r =>
      if decide (status r ≠ ReservationStatus.PENDING ∧ status r ≠ ReservationStatus.CONFIRMED)
      then Ret r
      else
        inventory <- get_inventory s (res_event_id r) ;;
        (match inventory with
         | Some _ =>
             if decide (status r = ReservationStatus.PENDING)
             then write_inventory s (res_event_id r) (add_reserved (- quantity r))
             else write_inventory s (res_event_id r) (add_confirmed (- quantity r))
         | None => Ret tt
         end) ;;
        write_reservation s id
          (set_status (if expired then ReservationStatus.EXPIRED else ReservationStatus.RELEASED)) ;;
        inv_flush s ;;
        reservation_instance s id
  end.

(** [WHERE status = 'pending' AND expires_at < now LIMIT limit] *)
Definition expired_pending (now : Z) (r : inv_row) : bool :=
  match r with
  | RRes x => bool_decide (status x = ReservationStatus.PENDING) && (expires_at x <? now)
  | RInv _ => false
  end.

Definition reservations_of (rows : list inv_row) : list Reservation :=
  omap (λ r, as_reservation (Some r)) rows.

Definition find_expired_pending (s : nat) (limit : nat) : M (list Reservation) :=
  now <- datetime_now ;;
  rows <- call (InvDb (Select s (Query
                                   (expired_pending now) None (Some limit) 0))) ;;
  Ret (reservations_of rows).
