(* ===== verification/Locking.v ===== *)
(** * The Redis lock

    [services/inventory/app/services/locking.py]: a lock per event, taken with
    [SET NX PX] and released by a compare-and-delete script. *)
From S2P Require Import Prelude Effects Uuid Domain Redis Platform.

(** [_RELEASE_SCRIPT], run atomically by the server: delete the key only if it
    still holds our token. *)
Definition release_script (key token : string) (now : Z) (db : redis_db) : Z * redis_db :=
  match redis_get now db key with
  | Some (RStr v) => if decide (v = token) then (1, delete key db) else (0, db)
  | _ => (0, db)
  end.

(** The parameters of [RedisLock.__init__]; the delay is in microseconds. *)
Record RedisLock : Type := mkRedisLock {
  ttl_ms : Z;
  retry_attempts : nat;
  retry_delay_us : Z;
}.

(** Defaults of [RedisLock.__init__] and of [Settings]. *)
Definition default_lock : RedisLock := mkRedisLock 5000 10 100000.

Definition lock_key (resource : string) : string := "lock:" +s resource.

(** [for _ in range(self._retry_attempts)]: whether the lock was acquired. *)
Fixpoint try_acquire (l : RedisLock) (key token : string) (remaining : nat) : M bool :=
  match remaining with
  | O => Ret false
  | S remaining =>
      acquired <- call (RedisCmd (SetNxPx key token (ttl_ms l))) ;;
      if acquired : bool then Ret true
      else sleep (retry_delay_us l) ;; try_acquire l key token remaining
  end.

Definition lock_error (resource : string) : exn :=
  LockAcquisitionError ("Could not acquire lock for resource='" +s resource +s "'").

(** A failure to release is logged and ignored. *)
Definition release_lock (key token : string) : M unit :=
  try_except (call (RedisCmd (EvalScript (release_script key token))) ;; Ret tt)
    (λ _, Ret tt).

(** [async with lock.acquire(resource): body] *)
Definition with_lock {A} (l : RedisLock) (resource : string) (body : M A) : M A :=
  token <- uuid4 ;;
  acquired <- try_acquire l (lock_key resource) (uuid_str token) (retry_attempts l) ;;
  if acquired : bool then
    try_finally body (release_lock (lock_key resource) (uuid_str token))
  else Raise (lock_error resource).
