(* ===== verification/InventoryService.v ===== *)
(** * Inventory service

    [services/inventory/app/services/inventory_service.py] over
    [core/database.py]: each operation is one transaction of its own session;
    capacity changes and reservations also hold the event's lock. *)
From S2P Require Import Prelude Effects Uuid Domain Orm InventoryModels Platform.
From S2P Require Import InventoryRepository Locking.

(** [core/database.py]: commit on success, roll back and re-raise on any
    exception, close in every case. *)
Definition session_scope {A} (body : nat → M A) : M A :=
  s <- trigger (InvDb OpenSession) ;;
  try_finally
    (try_except (a <- body s ;; call (InvDb (Commit s)) ;; Ret a)
       (λ e, inv_rollback s ;; Raise e))
    (trigger (InvDb (CloseSession s))).

(** The constructor arguments of [InventoryService]. *)
Record InventoryService : Type := mkInventoryService {
  lock : RedisLock;
  reservation_ttl_seconds : Z;
  optimistic_retry_attempts : nat;
}.

(** [core/config.py]: the defaults of [Settings]. *)
Definition default_service : InventoryService := mkInventoryService default_lock 600 5.

Definition event_resource (e : uuid) : string := "event:" +s uuid_str e.

Module Service.
Section service.
Variable self : InventoryService.

Definition initialize_inventory (e : uuid) (capacity : Z) : M EventInventory :=
  session_scope (λ s, initialize_inventory s e capacity).

Definition adjust_capacity (e : uuid) (new_total_capacity : Z) : M EventInventory :=
  with_lock (lock self) (event_resource e)
    (session_scope (λ s, adjust_capacity s e new_total_capacity)).

Definition get_availability (e : uuid) : M EventInventory :=
  session_scope (λ s,
    inventory <- get_inventory s e ;;
    match inventory with
    | None => Raise (no_inventory e)
    | Some i => Ret i
    end).

Definition reserve_seats (e order_id : uuid) (q : Z) : M Reservation :=
  with_lock (lock self) (event_resource e)
    (session_scope (λ s,
       reserve s e order_id q (reservation_ttl_seconds self)
         (optimistic_retry_attempts self))).

Definition confirm_reservation (id : uuid) : M Reservation :=
  session_scope (λ s, confirm s id).

Definition release_reservation (id : uuid) (expired : bool) : M Reservation :=
  session_scope (λ s, release s id expired).

Definition sweep_limit : nat := 100.

Definition sweep_expired_reservations : M (list Reservation) :=
  session_scope (λ s,
    expired <- find_expired_pending s sweep_limit ;;
    for_each (λ r, release s (res_id r) true) expired).
End service.
End Service.
