(* ===== verification/InventoryServicer.v ===== *)
(** * The gRPC boundary

    [services/inventory/app/grpc_handlers/inventory_servicer.py]: the handlers
    of the Inventory service, and [services/api/app/grpc_client/inventory_client.py]:
    the API's client, with the status codes in between. *)
From S2P Require Import Prelude Effects Json Uuid Domain Orm Redis InventoryModels.
From S2P Require Import Platform.
From S2P Require Import InventoryRepository Locking InventoryService.

(** ** Wire values *)

(** An [int32] field of a protobuf message refuses a value out of its range
    when the message is built. *)
Definition proto_int32 (z : Z) : result exn Z :=
  if int32_ok z then Ok z else Err (ValueError ("Value out of range: " +s pretty z)).

(** Enumeration values of [inventory_pb2]. *)
Definition _status_to_proto (s : ReservationStatus.t) : Z :=
  match s with
  | ReservationStatus.PENDING => 1
  | ReservationStatus.CONFIRMED => 2
  | ReservationStatus.RELEASED => 3
  | ReservationStatus.EXPIRED => 4
  end.

Record ReservationResponse : Type := mkReservationResponse {
  rr_success : bool;
  rr_message : string;
  rr_reservation_id : string;
  rr_event_id : string;
  rr_order_id : string;
  rr_quantity : Z;
  rr_status : Z;
  rr_expires_at_unix : Z;
}.

Record InventoryResponse : Type := mkInventoryResponse {
  ir_success : bool;
  ir_message : string;
  ir_event_id : string;
  ir_total_capacity : Z;
  ir_reserved_count : Z;
  ir_confirmed_count : Z;
  ir_available : Z;
  ir_version : Z;
}.

(** [int(t.timestamp())]: whole seconds, towards zero. *)
Definition unix_seconds (t : Z) : Z := Z.quot t second.

Definition _reservation_to_proto (r : Reservation) (message : string) : M ReservationResponse :=
  q <- of_result (proto_int32 (quantity r)) ;;
  Ret (mkReservationResponse true message (uuid_str (res_id r)) (uuid_str (res_event_id r))
         (uuid_str (res_order_id r)) q (_status_to_proto (status r))
         (unix_seconds (expires_at r))).

Definition _inventory_to_proto (i : EventInventory) (message : string) : M InventoryResponse :=
  t <- of_result (proto_int32 (total_capacity i)) ;;
  r <- of_result (proto_int32 (reserved_count i)) ;;
  c <- of_result (proto_int32 (confirmed_count i)) ;;
  a <- of_result (proto_int32 (available i)) ;;
  v <- of_result (proto_int32 (version i)) ;;
  Ret (mkInventoryResponse true message (uuid_str (inv_event_id i)) t r c a v).

(** ** Handlers *)

(** [context.abort(code, details)] *)
Definition abort {A} (code : StatusCode) (details : string) : M A := Raise (RpcError code details).

Section servicer.
Variable self : InventoryService.

Definition InitializeInventory (event_id : string) (total_capacity : Z) : M InventoryResponse :=
  e <- of_result (UUID event_id) ;;
  inventory <- Service.initialize_inventory e total_capacity ;;
  _inventory_to_proto inventory "Inventory initialised".

Definition AdjustCapacity (event_id : string) (new_total_capacity : Z) : M InventoryResponse :=
  inventory <- try_except
    (e <- of_result (UUID event_id) ;;
     Service.adjust_capacity self e new_total_capacity)
    (λ exc, match exc with
            | NotFoundError m => abort NOT_FOUND m
            | _ => Raise exc
            end) ;;
  _inventory_to_proto inventory "Capacity updated".

Definition ReserveSeats (event_id order_id : string) (quantity : Z) : M ReservationResponse :=
  reservation <- try_except
    (e <- of_result (UUID event_id) ;;
     o <- of_result (UUID order_id) ;;
     Service.reserve_seats self e o quantity)
    (λ exc, match exc with
            | NotFoundError m => abort NOT_FOUND m
            | CapacityExceededError m => abort FAILED_PRECONDITION m
            | ConflictError m => abort ABORTED m
            | LockAcquisitionError m => abort RESOURCE_EXHAUSTED m
            | _ => Raise exc
            end) ;;
  _reservation_to_proto reservation "Reservation created".

Definition on_not_found {A} (p : M A) : M A :=
  try_except p (λ exc, match exc with
                       | NotFoundError m => abort NOT_FOUND m
                       | _ => Raise exc
                       end).

Definition ConfirmReservation (reservation_id : string) : M ReservationResponse :=
  reservation <- on_not_found
    (id <- of_result (UUID reservation_id) ;; Service.confirm_reservation id) ;;
  _reservation_to_proto reservation "Reservation confirmed".

Definition ReleaseReservation (reservation_id : string) : M ReservationResponse :=
  reservation <- on_not_found
    (id <- of_result (UUID reservation_id) ;; Service.release_reservation id false) ;;
  _reservation_to_proto reservation "Reservation released".

Definition GetAvailability (event_id : string) : M InventoryResponse :=
  inventory <- on_not_found
    (e <- of_result (UUID event_id) ;; Service.get_availability e) ;;
  _inventory_to_proto inventory "OK".
End servicer.

(** ** The call

    A reply carries the handler's value or a status; an exception that is not
    an abort becomes UNKNOWN with the runtime's text.  The network may lose
    the request or the reply (the client's deadline included). *)
Definition reply {A} (handler : M A) : M (result (StatusCode * string) A) :=
  r <- attempt handler ;;
  match r with
  | Ok a => Ret (Ok a)
  | Err (RpcError code details) => Ret (Err (code, details))
  | Err exc => details <- trigger (RpcDetails exc) ;; Ret (Err (UNKNOWN, details))
  end.

Definition rpc {A} (handler : M A) : M A :=
  fault <- trigger RpcFault ;;
  match fault with
  | LostRequest code => Raise (RpcError code "")
  | LostReply code => _ <- reply handler ;; Raise (RpcError code "")
  | NoFault =>
      r <- reply handler ;;
      match r with
      | Ok a => Ret a
      | Err (code, details) => Raise (RpcError code details)
      end
  end.

(** ** Client *)

(** [str(code)] *)
Definition StatusCode_str (c : StatusCode) : string :=
  match c with
  | NOT_FOUND => "StatusCode.NOT_FOUND"
  | FAILED_PRECONDITION => "StatusCode.FAILED_PRECONDITION"
  | ABORTED => "StatusCode.ABORTED"
  | RESOURCE_EXHAUSTED => "StatusCode.RESOURCE_EXHAUSTED"
  | UNKNOWN => "StatusCode.UNKNOWN"
  | UNAVAILABLE => "StatusCode.UNAVAILABLE"
  | DEADLINE_EXCEEDED => "StatusCode.DEADLINE_EXCEEDED"
  | UNIMPLEMENTED => "StatusCode.UNIMPLEMENTED"
  end.

Definition domain_error (code : StatusCode) (details : string) : exn :=
  match code with
  | NOT_FOUND => NotFoundError details
  | FAILED_PRECONDITION => CapacityExceededError details
  | ABORTED | RESOURCE_EXHAUSTED => ConflictError details
  | _ => DomainError ("Inventory service error: " +s StatusCode_str code +s " " +s details)
  end.

Definition _raise_domain_error {A} (code : StatusCode) (details : string) : M A :=
  Raise (domain_error code details).

(** [try: ... except grpc.aio.AioRpcError as exc: _raise_domain_error(exc)] *)
Definition translate {A} (p : M A) : M A :=
  try_except p (λ exc, match exc with
                       | RpcError code details => _raise_domain_error code details
                       | _ => Raise exc
                       end).

Record ReservationResult : Type := mkReservationResult {
  result_reservation_id : string;
  result_expires_at_unix : Z;
}.

Module Client.
Section client.
(** The service at the other end of the channel. *)
Variable server : InventoryService.

Definition initialize_inventory (event_id : uuid) (total_capacity : Z) : M unit :=
  c <- of_result (proto_int32 total_capacity) ;;
  _ <- translate (rpc (InitializeInventory (uuid_str event_id) c)) ;; Ret tt.

Definition adjust_capacity (event_id : uuid) (new_total_capacity : Z) : M unit :=
  c <- of_result (proto_int32 new_total_capacity) ;;
  _ <- translate (rpc (AdjustCapacity server (uuid_str event_id) c)) ;; Ret tt.

Definition reserve_seats (event_id order_id : uuid) (quantity : Z) : M ReservationResult :=
  q <- of_result (proto_int32 quantity) ;;
  response <- translate (rpc (ReserveSeats server (uuid_str event_id) (uuid_str order_id) q)) ;;
  Ret (mkReservationResult (rr_reservation_id response) (rr_expires_at_unix response)).

Definition confirm_reservation (reservation_id : string) : M unit :=
  _ <- translate (rpc (ConfirmReservation reservation_id)) ;; Ret tt.

Definition release_reservation (reservation_id : string) : M unit :=
  _ <- translate (rpc (ReleaseReservation reservation_id)) ;; Ret tt.
End client.
End Client.
