(* ===== verification/GrpcStubs.v ===== *)
(** * The generated stubs

    [services/shared/generated/inventory_pb2_grpc.py]: the stub the client
    calls through, the servicer base class, the table of methods a server is
    given and the static calls; the servicer class of
    [inventory_servicer.py] and the calls of [inventory_client.py] as they go
    through them.  The messages are those of [proto/inventory.proto]; how they
    are written on the wire is protobuf's ([Protobuf]). *)
From S2P Require Import Prelude Effects Json Uuid Domain Orm Redis InventoryModels.
From S2P Require Import Platform.
From S2P Require Import InventoryRepository Locking InventoryService InventoryServicer.

(** ** Messages *)
Record InitializeInventoryRequest : Type := mkInitializeInventoryRequest {
  iir_event_id : string;
  iir_total_capacity : Z;
}.

Record AdjustCapacityRequest : Type := mkAdjustCapacityRequest {
  acr_event_id : string;
  acr_new_total_capacity : Z;
}.

Record ReserveSeatsRequest : Type := mkReserveSeatsRequest {
  rsr_event_id : string;
  rsr_order_id : string;
  rsr_quantity : Z;
}.

Record ReservationIdRequest : Type := mkReservationIdRequest { rir_reservation_id : string }.
Record EventIdRequest : Type := mkEventIdRequest { eir_event_id : string }.

(** The classes of [inventory_pb2], and their instances. *)
Inductive message_class :=
| InitializeInventoryRequest_pb | AdjustCapacityRequest_pb | ReserveSeatsRequest_pb
| ReservationIdRequest_pb | EventIdRequest_pb | ReservationResponse_pb | InventoryResponse_pb.

#[global] Instance message_class_eq_dec : EqDecision message_class.
Proof. solve_decision. Defined.

Definition message (c : message_class) : Type :=
  match c with
  | InitializeInventoryRequest_pb => InitializeInventoryRequest
  | AdjustCapacityRequest_pb => AdjustCapacityRequest
  | ReserveSeatsRequest_pb => ReserveSeatsRequest
  | ReservationIdRequest_pb => ReservationIdRequest
  | EventIdRequest_pb => EventIdRequest
  | ReservationResponse_pb => ReservationResponse
  | InventoryResponse_pb => InventoryResponse
  end.

(** The integer fields are within the widths the [.proto] file gives them. *)
Definition representable (c : message_class) : message c → bool :=
  match c with
  | InitializeInventoryRequest_pb => λ m, int32_ok (iir_total_capacity m)
  | AdjustCapacityRequest_pb => λ m, int32_ok (acr_new_total_capacity m)
  | ReserveSeatsRequest_pb => λ m, int32_ok (rsr_quantity m)
  | ReservationIdRequest_pb | EventIdRequest_pb => λ _, true
  | ReservationResponse_pb => λ m, int32_ok (rr_quantity m) && int32_ok (rr_status m)
                                   && int64_ok (rr_expires_at_unix m)
  | InventoryResponse_pb => λ m, int32_ok (ir_total_capacity m) && int32_ok (ir_reserved_count m)
                                 && int32_ok (ir_confirmed_count m) && int32_ok (ir_available m)
                                 && int32_ok (ir_version m)
  end.

(** The protobuf runtime: the class methods it builds from the descriptors. *)
Record Protobuf : Type := {
  wire : Type;
  SerializeToString : ∀ c, message c → wire;
  FromString : ∀ c, wire → result exn (message c);
}.

(** A message is read as it was written. *)
Class ProtobufOk (pb : Protobuf) : Prop := {
  FromString_SerializeToString c m :
    representable c m = true → FromString pb c (SerializeToString pb c m) = Ok m;
}.

(** ** gRPC *)

(** [channel.unary_unary(path, request_serializer=..., response_deserializer=...)] *)
Record unary_unary : Type := UnaryUnary {
  method_path : string;
  request_serializer : message_class;
  response_deserializer : message_class;
}.

(** [grpc.unary_unary_rpc_method_handler(behaviour, request_deserializer=...,
    response_serializer=...)] *)
Record rpc_method_handler : Type := MethodHandler {
  request_deserializer : message_class;
  response_serializer : message_class;
  behaviour : message request_deserializer → M (message response_serializer);
}.

(** The handlers a server has been given: those of its generic handlers, in
    order, and the registered ones, by path. *)
Record grpc_server : Type := GrpcServer {
  generic_rpc_handlers : list (gmap string rpc_method_handler);
  registered_methods : gmap string rpc_method_handler;
}.

Definition new_server : grpc_server := GrpcServer [] ∅.

Definition fully_qualified_method (service method : string) : string :=
  "/" +s service +s "/" +s method.

(** The methods of a service by their paths. *)
Definition by_path (service : string) (hs : list (string * rpc_method_handler))
    : gmap string rpc_method_handler :=
  list_to_map ((λ '(m, h), (fully_qualified_method service m, h)) <$> hs).

Definition add_generic_rpc_handlers (h : gmap string rpc_method_handler) (s : grpc_server)
    : grpc_server := GrpcServer (generic_rpc_handlers s ++ [h]) (registered_methods s).
Definition add_registered_method_handlers (h : gmap string rpc_method_handler) (s : grpc_server)
    : grpc_server := GrpcServer (generic_rpc_handlers s) (h ∪ registered_methods s).

(** A registered method comes before the generic handlers. *)
Fixpoint first_handler (hs : list (gmap string rpc_method_handler)) (path : string)
    : option rpc_method_handler :=
  match hs with
  | [] => None
  | h :: hs => match h !! path with Some m => Some m | None => first_handler hs path end
  end.

Definition handler_of (s : grpc_server) (path : string) : option rpc_method_handler :=
  match registered_methods s !! path with
  | Some m => Some m
  | None => first_handler (generic_rpc_handlers s) path
  end.

Section grpc.
Variable pb : Protobuf.

(** A server's treatment of one request. *)
Definition handle (s : grpc_server) (path : string) (request : wire pb) : M (wire pb) :=
  match handler_of s path with
  | None => abort UNIMPLEMENTED "Method not found!"
  | Some h =>
      m <- of_result (FromString pb (request_deserializer h) request) ;;
      r <- behaviour h m ;;
      Ret (SerializeToString pb (response_serializer h) r)
  end.

(** A call of a multi-callable, to the server at the other end. *)
Definition call_method (s : grpc_server) (c : unary_unary)
    (request : message (request_serializer c)) : M (message (response_deserializer c)) :=
  reply <- rpc (handle s (method_path c) (SerializeToString pb _ request)) ;;
  of_result (FromString pb (response_deserializer c) reply).
End grpc.

(** ** [inventory_pb2_grpc.py] *)

(** The check of the import: [first_version_is_lower] of the runtime, where it
    has one, and its version. *)
Definition GRPC_GENERATED_VERSION : string := "1.82.1".

Definition check_version (first_version_is_lower : option (string → string → bool))
    (GRPC_VERSION : string) : result exn unit :=
  let _version_not_supported :=
    match first_version_is_lower with
    | Some lower => lower GRPC_VERSION GRPC_GENERATED_VERSION
    | None => true
    end in
  if _version_not_supported then
    Err (RuntimeError ("The grpc package installed is at version " +s GRPC_VERSION +s ","
         +s " but the generated code in inventory_pb2_grpc.py depends on"
         +s " grpcio>=" +s GRPC_GENERATED_VERSION +s "."
         +s " Please upgrade your grpc module to grpcio>=" +s GRPC_GENERATED_VERSION
         +s " or downgrade your generated code using grpcio-tools<=" +s GRPC_VERSION +s "."))
  else Ok tt.

Module Stub.
Definition InitializeInventory : unary_unary :=
  UnaryUnary "/eventsphere.inventory.v1.InventoryService/InitializeInventory"
    InitializeInventoryRequest_pb InventoryResponse_pb.
Definition AdjustCapacity : unary_unary :=
  UnaryUnary "/eventsphere.inventory.v1.InventoryService/AdjustCapacity"
    AdjustCapacityRequest_pb InventoryResponse_pb.
Definition ReserveSeats : unary_unary :=
  UnaryUnary "/eventsphere.inventory.v1.InventoryService/ReserveSeats"
    ReserveSeatsRequest_pb ReservationResponse_pb.
Definition ConfirmReservation : unary_unary :=
  UnaryUnary "/eventsphere.inventory.v1.InventoryService/ConfirmReservation"
    ReservationIdRequest_pb ReservationResponse_pb.
Definition ReleaseReservation : unary_unary :=
  UnaryUnary "/eventsphere.inventory.v1.InventoryService/ReleaseReservation"
    ReservationIdRequest_pb ReservationResponse_pb.
Definition GetAvailability : unary_unary :=
  UnaryUnary "/eventsphere.inventory.v1.InventoryService/GetAvailability"
    EventIdRequest_pb InventoryResponse_pb.
End Stub.

(** An instance of a subclass of [InventoryServiceServicer]: what its methods do
    with a request. *)
Record servicer : Type := Servicer {
  sv_InitializeInventory : InitializeInventoryRequest → M InventoryResponse;
  sv_AdjustCapacity : AdjustCapacityRequest → M InventoryResponse;
  sv_ReserveSeats : ReserveSeatsRequest → M ReservationResponse;
  sv_ConfirmReservation : ReservationIdRequest → M ReservationResponse;
  sv_ReleaseReservation : ReservationIdRequest → M ReservationResponse;
  sv_GetAvailability : EventIdRequest → M InventoryResponse;
}.

(** [context.set_code(UNIMPLEMENTED); context.set_details(...);
    raise NotImplementedError(...)]: the call ends with the code that was set
    and the runtime's text of the exception, a [RuntimeError] of Python's. *)
Definition not_implemented {A} : M A :=
  details <- trigger (RpcDetails (RuntimeError "Method not implemented!")) ;;
  abort UNIMPLEMENTED details.

Definition InventoryServiceServicer : servicer :=
  Servicer (λ _, not_implemented) (λ _, not_implemented) (λ _, not_implemented)
    (λ _, not_implemented) (λ _, not_implemented) (λ _, not_implemented).

(** [inventory_servicer.py] overrides each of them. *)
Definition InventoryServicer (self : InventoryService) : servicer := {|
  sv_InitializeInventory request :=
    InitializeInventory (iir_event_id request) (iir_total_capacity request);
  sv_AdjustCapacity request :=
    AdjustCapacity self (acr_event_id request) (acr_new_total_capacity request);
  sv_ReserveSeats request :=
    ReserveSeats self (rsr_event_id request) (rsr_order_id request) (rsr_quantity request);
  sv_ConfirmReservation request := ConfirmReservation (rir_reservation_id request);
  sv_ReleaseReservation request := ReleaseReservation (rir_reservation_id request);
  sv_GetAvailability request := GetAvailability (eir_event_id request);
|}.

Definition rpc_method_handlers (sv : servicer) : list (string * rpc_method_handler) :=
  [ ("InitializeInventory",
      MethodHandler InitializeInventoryRequest_pb InventoryResponse_pb (sv_InitializeInventory sv));
    ("AdjustCapacity",
      MethodHandler AdjustCapacityRequest_pb InventoryResponse_pb (sv_AdjustCapacity sv));
    ("ReserveSeats",
      MethodHandler ReserveSeatsRequest_pb ReservationResponse_pb (sv_ReserveSeats sv));
    ("ConfirmReservation",
      MethodHandler ReservationIdRequest_pb ReservationResponse_pb (sv_ConfirmReservation sv));
    ("ReleaseReservation",
      MethodHandler ReservationIdRequest_pb ReservationResponse_pb (sv_ReleaseReservation sv));
    ("GetAvailability",
      MethodHandler EventIdRequest_pb InventoryResponse_pb (sv_GetAvailability sv)) ].

Definition add_InventoryServiceServicer_to_server (sv : servicer) (s : grpc_server) : grpc_server :=
  let generic_handler :=
    by_path "eventsphere.inventory.v1.InventoryService" (rpc_method_handlers sv) in
  let s := add_generic_rpc_handlers generic_handler s in
  add_registered_method_handlers
    (by_path "eventsphere.inventory.v1.InventoryService" (rpc_method_handlers sv)) s.

(** The static methods of [InventoryService], on a channel of their own: the
    multi-callable [grpc.experimental.unary_unary] makes of their arguments. *)
Module Experimental.
Definition InitializeInventory : unary_unary :=
  UnaryUnary "/eventsphere.inventory.v1.InventoryService/InitializeInventory"
    InitializeInventoryRequest_pb InventoryResponse_pb.
Definition AdjustCapacity : unary_unary :=
  UnaryUnary "/eventsphere.inventory.v1.InventoryService/AdjustCapacity"
    AdjustCapacityRequest_pb InventoryResponse_pb.
Definition ReserveSeats : unary_unary :=
  UnaryUnary "/eventsphere.inventory.v1.InventoryService/ReserveSeats"
    ReserveSeatsRequest_pb ReservationResponse_pb.
Definition ConfirmReservation : unary_unary :=
  UnaryUnary "/eventsphere.inventory.v1.InventoryService/ConfirmReservation"
    ReservationIdRequest_pb ReservationResponse_pb.
Definition ReleaseReservation : unary_unary :=
  UnaryUnary "/eventsphere.inventory.v1.InventoryService/ReleaseReservation"
    ReservationIdRequest_pb ReservationResponse_pb.
Definition GetAvailability : unary_unary :=
  UnaryUnary "/eventsphere.inventory.v1.InventoryService/GetAvailability"
    EventIdRequest_pb InventoryResponse_pb.
End Experimental.

(** ** [inventory_client.py], through the stub *)
Module StubClient.
Section client.
Variables (pb : Protobuf) (server : grpc_server).
(** [self._stub]: whether [start()] has set it. *)
Variable started : bool.

(** [self.stub.<Method>(request, timeout=...)] *)
Definition stub (c : unary_unary) (request : message (request_serializer c))
    : M (message (response_deserializer c)) :=
  if started then call_method pb server c request
  else Raise (RuntimeError "InventoryClient.start() must be called first").

Definition initialize_inventory (event_id : uuid) (total_capacity : Z) : M unit :=
  c <- of_result (proto_int32 total_capacity) ;;
  let request := mkInitializeInventoryRequest (uuid_str event_id) c in
  _ <- translate (stub Stub.InitializeInventory request) ;; Ret tt.

Definition adjust_capacity (event_id : uuid) (new_total_capacity : Z) : M unit :=
  c <- of_result (proto_int32 new_total_capacity) ;;
  let request := mkAdjustCapacityRequest (uuid_str event_id) c in
  _ <- translate (stub Stub.AdjustCapacity request) ;; Ret tt.

Definition reserve_seats (event_id order_id : uuid) (quantity : Z) : M ReservationResult :=
  q <- of_result (proto_int32 quantity) ;;
  let request := mkReserveSeatsRequest (uuid_str event_id) (uuid_str order_id) q in
  response <- translate (stub Stub.ReserveSeats request) ;;
  Ret (mkReservationResult (rr_reservation_id response) (rr_expires_at_unix response)).

Definition confirm_reservation (reservation_id : string) : M unit :=
  let request := mkReservationIdRequest reservation_id in
  _ <- translate (stub Stub.ConfirmReservation request) ;; Ret tt.

Definition release_reservation (reservation_id : string) : M unit :=
  let request := mkReservationIdRequest reservation_id in
  _ <- translate (stub Stub.ReleaseReservation request) ;; Ret tt.
End client.
End StubClient.
