(* ===== verification/InventorySpec.v ===== *)
(** * What the Inventory service promises

    The atomic specification of each operation on the committed tables, and the
    invariant the service exists to keep: the counters of an event are the
    seats its reservations hold, and they never exceed its capacity.  The
    programs are shown to implement this specification in
    [InventoryRefinement]. *)
From S2P Require Import Prelude Effects Uuid Domain Orm Redis InventoryModels Platform.
From S2P Require Import InventoryRepository.

Abbreviation table := (gmap inv_key inv_row).

Definition inv_of (t : table) (e : uuid) : option EventInventory := as_inventory (t !! KInv e).
Definition res_of (t : table) (id : uuid) : option Reservation := as_reservation (t !! KRes id).

Lemma inv_of_lookup t e i : inv_of t e = Some i ↔ t !! KInv e = Some (RInv i).
Proof. unfold inv_of. destruct (t !! KInv e) as [[?|?]|]; simpl; naive_solver. Qed.
Lemma res_of_lookup t id r : res_of t id = Some r ↔ t !! KRes id = Some (RRes r).
Proof. unfold res_of. destruct (t !! KRes id) as [[?|?]|]; simpl; naive_solver. Qed.

(** ** The invariant *)

(** The reservations of event [e] in status [st], weighed by their seats. *)
Definition w_held (e : uuid) (st : ReservationStatus.t) (r : inv_row) : Z :=
  match r with
  | RRes x => if decide (res_event_id x = e ∧ status x = st) then quantity x else 0
  | RInv _ => 0
  end.

(** The seats held by the reservations of [e] in status [st]. *)
Definition seats_held (e : uuid) (st : ReservationStatus.t) (t : table) : Z :=
  total (w_held e st) t.

(** A counter of event [e], weighed positively. *)
Definition w_counter (e : uuid) (f : EventInventory → Z) (r : inv_row) : Z :=
  match r with
  | RInv i => if decide (inv_event_id i = e) then f i else 0
  | RRes _ => 0
  end.

(** Counter minus seats held: zero in a balanced table. *)
Definition w_reserved (e : uuid) (r : inv_row) : Z :=
  w_counter e reserved_count r - w_held e ReservationStatus.PENDING r.
Definition w_confirmed (e : uuid) (r : inv_row) : Z :=
  w_counter e confirmed_count r - w_held e ReservationStatus.CONFIRMED r.

Definition balanced (t : table) : Prop :=
  ∀ e, total (w_reserved e) t = 0 ∧ total (w_confirmed e) t = 0.

Definition row_ok (r : inv_row) : Prop :=
  inv_check_row r = None ∧
  match r with
  | RInv i => 0 ≤ reserved_count i ∧ 0 ≤ confirmed_count i
  | RRes x => 0 < quantity x
  end.

Record consistent (t : table) : Prop := {
  c_keyed : ∀ k r, t !! k = Some r → inv_key_of r = k;
  c_rows : ∀ k r, t !! k = Some r → row_ok r;
  c_event : ∀ k x, t !! k = Some (RRes x) → is_Some (inv_of t (res_event_id x));
  c_balanced : balanced t;
}.

(** No event is oversold. *)
Definition capacity_respected (t : table) : Prop :=
  ∀ e i, inv_of t e = Some i → reserved_count i + confirmed_count i ≤ total_capacity i.

(** In a balanced table the counters are the seats held. *)
Lemma total_counter t e i f :
  (∀ k r, t !! k = Some r → inv_key_of r = k) → inv_of t e = Some i →
  total (w_counter e f) t = f i.
Proof.
  intros Hk Hi. apply inv_of_lookup in Hi.
  assert (He : inv_event_id i = e) by (apply Hk in Hi; simpl in Hi; congruence).
  rewrite (total_single _ _ (KInv e)).
  - rewrite Hi. simpl. by rewrite decide_True.
  - intros k [j|x] Hj Hne; simpl; [|done]. rewrite decide_False; [done|].
    intros <-. apply Hk in Hj. simpl in Hj. congruence.
Qed.

Lemma total_minus {K V} `{Countable K} (w1 w2 : V → Z) (m : gmap K V) :
  total (λ v, w1 v - w2 v) m = total w1 m - total w2 m.
Proof.
  pose proof (total_plus (λ v, w1 v - w2 v) w2 m) as Hp.
  rewrite <- (total_ext w1) in Hp; [lia|]. intros. lia.
Qed.

Lemma reserved_is_held t e i :
  consistent t → inv_of t e = Some i →
  reserved_count i = seats_held e ReservationStatus.PENDING t.
Proof.
  intros [Hk _ _ Hb] Hi. destruct (Hb e) as [H _].
  unfold w_reserved in H. rewrite total_minus in H.
  rewrite (total_counter t e i) in H by done. unfold seats_held. lia.
Qed.

Lemma confirmed_is_held t e i :
  consistent t → inv_of t e = Some i →
  confirmed_count i = seats_held e ReservationStatus.CONFIRMED t.
Proof.
  intros [Hk _ _ Hb] Hi. destruct (Hb e) as [_ H].
  unfold w_confirmed in H. rewrite total_minus in H.
  rewrite (total_counter t e i) in H by done. unfold seats_held. lia.
Qed.

(** ** Atomic operations *)

(** One row written under its column checks. *)
Definition write_row (r : inv_row) (t : table) : result exn table :=
  match inv_check_row r with
  | Some e => Err e
  | None => Ok (<[inv_key_of r := r]> t)
  end.

(** An operation either answers and yields new tables or fails and leaves the
    tables as they were. *)
Definition committed {A} (t : table) (r : result exn (A * table)) : result exn A * table :=
  match r with Ok (a, t') => (Ok a, t') | Err e => (Err e, t) end.

Definition then_ {A B} (r : result exn A) (f : A → result exn B) : result exn B :=
  match r with Ok a => f a | Err e => Err e end.

(** The inventory row after an attribute change: a net change moves the version. *)
Definition updated_inventory (f : EventInventory → EventInventory) (i : EventInventory)
    : EventInventory := set_version (version i + 1) (f i).

Module Spec.
Definition initialize (e : uuid) (capacity : Z) (t : table) : result exn EventInventory * table :=
  match inv_of t e with
  | Some i => (Ok i, t)
  | None =>
      let i := mkEventInventory e capacity 0 0 1 in
      committed t (then_ (write_row (RInv i) t) (λ t', Ok (i, t')))
  end.

Definition adjust (e : uuid) (capacity : Z) (t : table) : result exn EventInventory * table :=
  match inv_of t e with
  | None => (Err (no_inventory e), t)
  | Some i =>
      if decide (capacity = total_capacity i) then (Ok i, t)
      else
        let i' := updated_inventory (set_total_capacity capacity) i in
        committed t (then_ (write_row (RInv i') t) (λ t', Ok (i', t')))
  end.

Definition availability (e : uuid) (t : table) : result exn EventInventory * table :=
  match inv_of t e with
  | None => (Err (no_inventory e), t)
  | Some i => (Ok i, t)
  end.

(** The two rows of a booking: the inventory row with [q] more seats
    reserved, the new reservation. *)
Definition book (now : Z) (id e order_id : uuid) (q ttl_seconds : Z) (i : EventInventory)
    (t : table) : result exn (Reservation * table) :=
  let r := stamp_created now (new_reservation id e order_id q (now + ttl_seconds * second)) in
  then_ (write_row (RInv (updated_inventory (add_reserved q) i)) t) (λ t1,
  then_ (match inv_check_row (RRes r) with
         | Some err => Err err
         | None => match t !! KRes id with
                   | Some _ => Err IntegrityError
                   | None => Ok (<[KRes id := RRes r]> t1)
                   end
         end) (λ t2, Ok (r, t2))).

Definition reserve (now : Z) (id e order_id : uuid) (q ttl_seconds : Z) (max_retries : nat)
    (t : table) : result exn Reservation * table :=
  if q <=? 0 then (Err (ValueError "quantity must be positive"), t)
  else if decide (max_retries = O) then (Err (contention q e O), t)
  else
    match inv_of t e with
    | None => (Err (no_inventory e), t)
    | Some i =>
        if available i <? q then (Err (capacity_exceeded i e q), t)
        else
          committed t (book now id e order_id q ttl_seconds i t)
    end.

(** The two rows of a transition of reservation [r]. *)
Definition transition (now : Z) (st : ReservationStatus.t)
    (f : EventInventory → EventInventory) (r : Reservation) (t : table)
    : result exn (Reservation * table) :=
  let r' := stamp_updated now (set_status st r) in
  then_ (match inv_of t (res_event_id r) with
         | Some i => write_row (RInv (updated_inventory f i)) t
         | None => Ok t
         end) (λ t1,
  then_ (write_row (RRes r') t1) (λ t2, Ok (r', t2))).

Definition confirm (now : Z) (id : uuid) (t : table) : result exn Reservation * table :=
  match res_of t id with
  | None => (Err (no_reservation id), t)
  | Some r =>
      if decide (status r ≠ ReservationStatus.PENDING) then (Ok r, t)
      else committed t
             (transition now ReservationStatus.CONFIRMED
                (λ i, add_confirmed (quantity r) (add_reserved (- quantity r) i)) r t)
  end.

Definition released_status (expired : bool) : ReservationStatus.t :=
  if expired then ReservationStatus.EXPIRED else ReservationStatus.RELEASED.

Definition release (now : Z) (id : uuid) (expired : bool) (t : table)
    : result exn Reservation * table :=
  match res_of t id with
  | None => (Err (no_reservation id), t)
  | Some r =>
      if decide (status r ≠ ReservationStatus.PENDING ∧ status r ≠ ReservationStatus.CONFIRMED)
      then (Ok r, t)
      else committed t
             (transition now (released_status expired)
                (λ i, if decide (status r = ReservationStatus.PENDING)
                      then add_reserved (- quantity r) i
                      else add_confirmed (- quantity r) i) r t)
  end.

(** A sweep releases the given reservations one after the other, all or none. *)
Fixpoint release_all (now : Z) (ids : list uuid) (t : table)
    : result exn (list Reservation * table) :=
  match ids with
  | [] => Ok ([], t)
  | id :: ids =>
      let '(r, t1) := release now id true t in
      then_ r (λ x, then_ (release_all now ids t1) (λ '(xs, t2), Ok (x :: xs, t2)))
  end.

Definition sweep (now : Z) (ids : list uuid) (t : table)
    : result exn (list Reservation) * table :=
  committed t (release_all now ids t).
End Spec.
