(* ===== verification/InventoryInvariant.v ===== *)
(** * The operations keep the invariant

    Every atomic operation of [InventorySpec] preserves [consistent]; every one
    but a capacity reduction preserves [capacity_respected].  Functional facts
    of the reservation life cycle are here too. *)
From S2P Require Import Prelude Effects Uuid Domain Orm Redis InventoryModels Platform.
From S2P Require Import InventoryRepository InventorySpec.

(** The seats a reservation that may be absent holds in status [st]. *)
Definition held_by (st : ReservationStatus.t) (o : option Reservation) : Z :=
  match o with
  | Some x => if decide (status x = st) then quantity x else 0
  | None => 0
  end.

Lemma write_row_Ok r t t' :
  write_row r t = Ok t' → inv_check_row r = None ∧ t' = <[inv_key_of r := r]> t.
Proof. unfold write_row. destruct (inv_check_row r); naive_solver. Qed.

Lemma then_Ok {A B} (r : result exn A) (f : A → result exn B) b :
  then_ r f = Ok b → ∃ a, r = Ok a ∧ f a = Ok b.
Proof. destruct r; naive_solver. Qed.

Ltac invert_ok :=
  repeat match goal with
  | H : then_ _ _ = Ok _ |- _ => apply then_Ok in H as (? & ? & ?)
  | H : write_row _ _ = Ok _ |- _ => apply write_row_Ok in H as [? ->]
  | H : Ok _ = Ok _ |- _ => injection H as ?; subst
  | H : Err _ = Ok _ |- _ => discriminate H
  | H : Ok _ = Err _ |- _ => discriminate H
  end.

Lemma held_nonneg t st id :
  consistent t → 0 ≤ held_by st (res_of t id).
Proof.
  intros Hc. destruct (res_of t id) as [x|] eqn:Hx; simpl; [|lia].
  apply res_of_lookup in Hx. apply (c_rows _ Hc) in Hx as [_ Hq].
  case_decide; lia.
Qed.

Lemma inv_of_rewrite t e e' id i x :
  inv_of (<[KRes id := RRes x]> (<[KInv e := RInv i]> t)) e'
  = if decide (e' = e) then Some i else inv_of t e'.
Proof.
  unfold inv_of. rewrite lookup_insert_ne by done.
  case_decide; [subst; by rewrite lookup_insert_eq|].
  by rewrite lookup_insert_ne by congruence.
Qed.

Lemma rewrite_rows_capacity t e id i x :
  reserved_count i + confirmed_count i ≤ total_capacity i →
  capacity_respected t →
  capacity_respected (<[KRes id := RRes x]> (<[KInv e := RInv i]> t)).
Proof.
  intros Hle Hcap e' j. rewrite inv_of_rewrite. case_decide; intros; simplify_eq; eauto.
Qed.

(** Rows of one event rewritten together. *)
Section rewrite_rows.
Variables (t : table) (e id : uuid) (i i' : EventInventory) (x' : Reservation).
Hypotheses (Hc : consistent t) (Hi : inv_of t e = Some i).
Hypotheses (Hi' : inv_event_id i' = e) (Hx' : res_event_id x' = e) (Hid : res_id x' = id).
Hypothesis Hsame : ∀ x, res_of t id = Some x → res_event_id x = e.
Hypotheses (Hri : row_ok (RInv i')) (Hrx : row_ok (RRes x')).
Hypothesis Hres : reserved_count i' - reserved_count i =
  held_by ReservationStatus.PENDING (Some x') - held_by ReservationStatus.PENDING (res_of t id).
Hypothesis Hconf : confirmed_count i' - confirmed_count i =
  held_by ReservationStatus.CONFIRMED (Some x') - held_by ReservationStatus.CONFIRMED (res_of t id).

Let t' : table := <[KRes id := RRes x']> (<[KInv e := RInv i']> t).

Lemma rewrite_rows_balanced : balanced t'.
Proof using All.
  intros e'. unfold t'. rewrite !total_insert, lookup_insert_ne by done.
  destruct (c_balanced _ Hc e') as [H1 H2]. rewrite H1, H2.
  apply inv_of_lookup in Hi as Hil. rewrite Hil.
  assert (He : inv_event_id i = e) by (apply (c_keyed _ Hc) in Hil; simpl in Hil; congruence).
  assert (Hold : ∀ st, oweight (w_held e' st) (t !! KRes id)
                 = if decide (e = e') then held_by st (res_of t id) else 0).
  { intros st. unfold res_of. destruct (t !! KRes id) as [[j|x]|] eqn:Hx; simpl.
    - apply (c_keyed _ Hc) in Hx. done.
    - rewrite (Hsame x) by (unfold res_of; by rewrite Hx).
      repeat case_decide; try done; tauto.
    - by case_decide. }
  assert (Hno : ∀ f, oweight (w_counter e' f) (t !! KRes id) = 0).
  { intros f. destruct (t !! KRes id) as [[j|x]|] eqn:Hx; simpl; try done.
    apply (c_keyed _ Hc) in Hx. done. }
  assert (Hsub : ∀ w1 w2 (o : option inv_row),
    oweight (λ r, w1 r - w2 r) o = oweight w1 o - oweight w2 o)
    by (intros w1 w2 [r|]; simpl; lia).
  unfold w_reserved at 3, w_confirmed at 3. rewrite !Hsub, !Hold, !Hno.
  unfold w_reserved, w_confirmed; simpl. rewrite Hi', Hx', He.
  simpl in Hres, Hconf. repeat case_decide; try congruence; try lia; try done; intuition congruence.
Qed.

Lemma rewrite_rows_consistent : consistent t'.
Proof using All.
  constructor.
  - intros k r. unfold t'. rewrite !lookup_insert.
    repeat case_decide; intros; simplify_eq; simpl; try congruence.
    by apply (c_keyed _ Hc).
  - intros k r. unfold t'. rewrite !lookup_insert.
    repeat case_decide; intros; simplify_eq; try done.
    by eapply (c_rows _ Hc).
  - intros k x Hk. unfold t' at 1. rewrite inv_of_rewrite. case_decide; [eauto|].
    unfold t' in Hk. rewrite !lookup_insert in Hk.
    repeat case_decide; simplify_eq. by eapply (c_event _ Hc).
  - apply rewrite_rows_balanced.
Qed.
End rewrite_rows.

(** An inventory row created empty, or rewritten with the same counters. *)
Lemma rewrite_inventory_consistent t e i' :
  consistent t → inv_event_id i' = e → row_ok (RInv i') →
  reserved_count i' = from_option reserved_count 0 (inv_of t e) →
  confirmed_count i' = from_option confirmed_count 0 (inv_of t e) →
  consistent (<[KInv e := RInv i']> t).
Proof.
  intros Hc He Hr Hres Hconf.
  assert (Hold : ∀ k j, t !! k = Some (RInv j) → k = KInv e → inv_of t e = Some j)
    by (intros k j ? ->; by apply inv_of_lookup).
  assert (Hinv : ∀ e', inv_of (<[KInv e := RInv i']> t) e'
                       = if decide (e' = e) then Some i' else inv_of t e').
  { intros e'. unfold inv_of. case_decide; [subst; by rewrite lookup_insert_eq|].
    by rewrite lookup_insert_ne by congruence. }
  constructor.
  - intros k r. rewrite lookup_insert. case_decide; intros; simplify_eq; simpl; try congruence.
    by apply (c_keyed _ Hc).
  - intros k r. rewrite lookup_insert. case_decide; intros; simplify_eq; try done.
    by eapply (c_rows _ Hc).
  - intros k x Hk. rewrite Hinv. case_decide; [eauto|].
    rewrite lookup_insert in Hk. case_decide; simplify_eq. by eapply (c_event _ Hc).
  - intros e'. rewrite !total_insert. destruct (c_balanced _ Hc e') as [-> ->].
    destruct (t !! KInv e) as [[j|x]|] eqn:Hk.
    + pose proof (c_keyed _ Hc _ _ Hk) as Hkey. simpl in Hkey. injection Hkey as Hj.
      rewrite (Hold _ _ Hk eq_refl) in Hres, Hconf.
      unfold w_reserved, w_confirmed; simpl in *. rewrite Hj, He. case_decide; lia.
    + apply (c_keyed _ Hc) in Hk. done.
    + unfold inv_of in Hres, Hconf. rewrite Hk in Hres, Hconf.
      unfold w_reserved, w_confirmed; simpl in *. case_decide; lia.
Qed.

Section preservation.
Variable t : table.
Hypothesis Hc : consistent t.

Lemma inventory_row_ok e i : inv_of t e = Some i → row_ok (RInv i) ∧ inv_event_id i = e.
Proof using Hc.
  intros Hi. apply inv_of_lookup in Hi.
  pose proof (c_keyed _ Hc _ _ Hi) as Hk. pose proof (c_rows _ Hc _ _ Hi).
  injection Hk as Hk. done.
Qed.

Lemma reservation_row_ok id x : res_of t id = Some x → row_ok (RRes x) ∧ res_id x = id.
Proof using Hc.
  intros Hx. apply res_of_lookup in Hx.
  pose proof (c_keyed _ Hc _ _ Hx) as Hk. pose proof (c_rows _ Hc _ _ Hx).
  injection Hk as Hk. done.
Qed.

Lemma initialize_consistent e capacity : consistent (snd (Spec.initialize e capacity t)).
Proof using Hc.
  unfold Spec.initialize. destruct (inv_of t e) eqn:Hi; [done|].
  destruct (write_row _ t) as [t'|err] eqn:Hw; simpl; [|done].
  apply write_row_Ok in Hw as [Hchk ->].
  cbn [inv_key_of inv_event_id].
  apply rewrite_inventory_consistent; rewrite ?Hi; done.
Qed.

Lemma adjust_consistent e capacity : consistent (snd (Spec.adjust e capacity t)).
Proof using Hc.
  unfold Spec.adjust. destruct (inv_of t e) as [i|] eqn:Hi; [|done].
  case_decide; [done|].
  destruct (write_row _ t) as [t'|err] eqn:Hw; simpl; [|done].
  apply write_row_Ok in Hw as [Hchk ->].
  destruct (inventory_row_ok e i Hi) as [[_ Hok] He]. cbn. rewrite He.
  apply rewrite_inventory_consistent; rewrite ?Hi; done.
Qed.

Lemma reserve_consistent now id e o q ttl n :
  consistent (snd (Spec.reserve now id e o q ttl n t)).
Proof using Hc.
  unfold Spec.reserve. destruct (q <=? 0) eqn:Hq; [done|]. case_decide; [done|].
  destruct (inv_of t e) as [i|] eqn:Hi; [|done].
  destruct (available i <? q) eqn:Ha; [done|]. zify_bools.
  destruct (Spec.book _ _ _ _ _ _ _ _) as [[r t']|err] eqn:Hw; simpl; [|done].
  unfold Spec.book in Hw. invert_ok. destruct (inv_check_row (RRes _)) eqn:Hr; [done|].
  destruct (t !! KRes id) eqn:Hid; [done|]. invert_ok.
  destruct (inventory_row_ok e i Hi) as [[_ Hok] He]. cbn [inv_key_of updated_inventory set_version inv_event_id add_reserved].
  rewrite He.
  eapply (rewrite_rows_consistent t e id i); unfold res_of; rewrite ?Hid; simpl;
    try done; try lia; split; simpl; try done; lia.
Qed.

Lemma reserve_capacity now id e o q ttl n :
  capacity_respected t → capacity_respected (snd (Spec.reserve now id e o q ttl n t)).
Proof using Hc.
  intros Hcap. unfold Spec.reserve. destruct (q <=? 0) eqn:Hq; [done|]. case_decide; [done|].
  destruct (inv_of t e) as [i|] eqn:Hi; [|done].
  destruct (available i <? q) eqn:Ha; [done|]. zify_bools.
  destruct (Spec.book _ _ _ _ _ _ _ _) as [[r t']|err] eqn:Hw; simpl; [|done].
  unfold Spec.book in Hw. invert_ok. destruct (inv_check_row (RRes _)) eqn:Hr; [done|].
  destruct (t !! KRes id) eqn:Hid; [done|]. invert_ok.
  destruct (inventory_row_ok e i Hi) as [[_ Hok] He]. cbn [inv_key_of updated_inventory set_version inv_event_id add_reserved].
  rewrite He. apply rewrite_rows_capacity; [|done].
  unfold available in Ha. simpl. lia.
Qed.

(** A reservation's seats are part of its event's counter. *)
Lemma held_le_reserved id r i :
  res_of t id = Some r → inv_of t (res_event_id r) = Some i →
  held_by ReservationStatus.PENDING (Some r) ≤ reserved_count i
  ∧ held_by ReservationStatus.CONFIRMED (Some r) ≤ confirmed_count i.
Proof using Hc.
  intros Hr Hi. apply res_of_lookup in Hr.
  rewrite (reserved_is_held t _ _ Hc Hi), (confirmed_is_held t _ _ Hc Hi).
  assert (Hw : ∀ st, held_by st (Some r) ≤ seats_held (res_event_id r) st t).
  { intros st. transitivity (w_held (res_event_id r) st (RRes r)).
    - simpl. repeat case_decide; try lia; tauto.
    - eapply (total_lookup_le _ _ (KRes id)); [|done].
      intros k [j|x] Hk; simpl; [done|].
      apply (c_rows _ Hc) in Hk as [_ Hq]. case_decide; lia. }
  split; apply Hw.
Qed.

(** A transition of a stored reservation moves its seats between the
    counters of its event, and never adds any. *)
Lemma transition_consistent now st f r r' t' :
  let moved st' := held_by st' (Some (set_status st r)) - held_by st' (Some r) in
  res_of t (res_id r) = Some r →
  (∀ i, inv_event_id (f i) = inv_event_id i ∧ total_capacity (f i) = total_capacity i
    ∧ reserved_count (f i) = reserved_count i + moved ReservationStatus.PENDING
    ∧ confirmed_count (f i) = confirmed_count i + moved ReservationStatus.CONFIRMED) →
  moved ReservationStatus.PENDING + moved ReservationStatus.CONFIRMED ≤ 0 →
  Spec.transition now st f r t = Ok (r', t') →
  consistent t' ∧ (capacity_respected t → capacity_respected t').
Proof using Hc.
  intros moved Hr Hf Hdown Ht. unfold Spec.transition in Ht.
  destruct (reservation_row_ok _ _ Hr) as [[_ Hq] _].
  destruct (c_event _ Hc _ _ (proj1 (res_of_lookup _ _ _) Hr)) as [i Hi].
  rewrite Hi in Ht. invert_ok.
  destruct (inventory_row_ok _ _ Hi) as [[_ Hok] He].
  destruct (Hf i) as (Hfe & Hfc & Hfr & Hfk).
  destruct (held_le_reserved _ _ _ Hr Hi) as [Hp Hk].
  assert (Hpos : ∀ st', 0 ≤ held_by st' (Some (set_status st r)))
    by (intros st'; simpl; case_decide; lia).
  pose proof (Hpos ReservationStatus.PENDING). pose proof (Hpos ReservationStatus.CONFIRMED).
  unfold moved in *.
  cbn [inv_key_of updated_inventory set_version inv_event_id stamp_updated set_status res_id].
  rewrite Hfe, He. split.
  - eapply (rewrite_rows_consistent t (res_event_id r) (res_id r) i); rewrite ?Hr; simpl;
      try done; try congruence; try (split; simpl; [done|]; lia); simpl in *; lia.
  - intros Hcap. apply rewrite_rows_capacity; [|done].
    specialize (Hcap _ _ Hi). simpl in *. lia.
Qed.
End preservation.

(** An operation of the service, for the statements that cover all of them. *)
Inductive operation : Type :=
| OpInitialize (e : uuid) (capacity : Z)
| OpAdjust (e : uuid) (capacity : Z)
| OpAvailability (e : uuid)
| OpReserve (now : Z) (id e order : uuid) (q ttl : Z) (retries : nat)
| OpConfirm (now : Z) (id : uuid)
| OpRelease (now : Z) (id : uuid) (expired : bool).

(** The tables after an operation. *)
Definition apply_operation (op : operation) (t : table) : table :=
  match op with
  | OpInitialize e c => snd (Spec.initialize e c t)
  | OpAdjust e c => snd (Spec.adjust e c t)
  | OpAvailability e => snd (Spec.availability e t)
  | OpReserve now id e o q ttl n => snd (Spec.reserve now id e o q ttl n t)
  | OpConfirm now id => snd (Spec.confirm now id t)
  | OpRelease now id ex => snd (Spec.release now id ex t)
  end.

(** A capacity change that stays above the seats in use. *)
Definition keeps_capacity (op : operation) (t : table) : Prop :=
  match op with
  | OpInitialize _ c => 0 ≤ c
  | OpAdjust e c =>
      ∀ i, inv_of t e = Some i → reserved_count i + confirmed_count i ≤ c
  | _ => True
  end.

Section steps.
Variable t : table.
Hypothesis Hc : consistent t.

Lemma confirm_keeps now id :
  consistent (snd (Spec.confirm now id t)) ∧
  (capacity_respected t → capacity_respected (snd (Spec.confirm now id t))).
Proof using Hc.
  unfold Spec.confirm. destruct (res_of t id) as [r|] eqn:Hr; [|done].
  case_decide as Hst; [done|].
  destruct (reservation_row_ok t Hc id r Hr) as [[_ Hq] <-].
  destruct (Spec.transition _ _ _ _ _) as [[r' t']|err] eqn:Ht; simpl; [|done].
  refine (transition_consistent t Hc _ _ _ _ _ _ Hr _ _ Ht); [intros i; repeat split|];
    simpl; rewrite Hst; simpl; lia.
Qed.

Lemma release_keeps now id expired :
  consistent (snd (Spec.release now id expired t)) ∧
  (capacity_respected t → capacity_respected (snd (Spec.release now id expired t))).
Proof using Hc.
  unfold Spec.release. destruct (res_of t id) as [r|] eqn:Hr; [|done].
  case_decide as Hst; [done|].
  assert (Hst' : status r = ReservationStatus.PENDING ∨ status r = ReservationStatus.CONFIRMED)
    by (destruct (status r); naive_solver).
  destruct (reservation_row_ok t Hc id r Hr) as [[_ Hq] <-].
  destruct (Spec.transition _ _ _ _ _) as [[r' t']|err] eqn:Ht; simpl; [|done].
  refine (transition_consistent t Hc _ _ _ _ _ _ Hr _ _ Ht); [intros i; repeat split|];
    simpl; destruct Hst' as [->| ->]; destruct expired; simpl; done || lia.
Qed.

Lemma operation_consistent op : consistent (apply_operation op t).
Proof using Hc.
  destruct op; simpl.
  - by apply initialize_consistent.
  - by apply adjust_consistent.
  - unfold Spec.availability. by case_goal.
  - by apply reserve_consistent.
  - apply confirm_keeps.
  - apply release_keeps.
Qed.

Lemma capacity_insert e i :
  reserved_count i + confirmed_count i ≤ total_capacity i →
  capacity_respected t → capacity_respected (<[KInv e := RInv i]> t).
Proof using.
  clear Hc. intros Hle Hcap e' j. unfold inv_of.
  destruct (decide (e = e')) as [<-|Hne].
  - rewrite lookup_insert_eq. simpl. by intros [= <-].
  - rewrite lookup_insert_ne by congruence. apply Hcap.
Qed.

Lemma operation_capacity op :
  keeps_capacity op t → capacity_respected t → capacity_respected (apply_operation op t).
Proof using Hc.
  intros Hop Hcap. destruct op; simpl in *.
  - unfold Spec.initialize. case_goal; [done|].
    destruct (write_row _ t) as [t'|err] eqn:Hw; simpl; [|done].
    apply write_row_Ok in Hw as [_ ->]. by apply capacity_insert.
  - unfold Spec.adjust. destruct (inv_of t e) as [i|] eqn:Hi; [|done].
    case_decide; [done|].
    destruct (write_row _ t) as [t'|err] eqn:Hw; simpl; [|done].
    apply write_row_Ok in Hw as [_ ->]. apply capacity_insert; [|done].
    simpl. by apply Hop.
  - unfold Spec.availability. by case_goal.
  - by apply reserve_capacity.
  - by apply confirm_keeps.
  - by apply release_keeps.
Qed.
End steps.

(** ** Runs of the service *)

(** The tables after a sequence of operations on empty tables. *)
Fixpoint apply_operations (ops : list operation) (t : table) : table :=
  match ops with
  | [] => t
  | op :: ops => apply_operations ops (apply_operation op t)
  end.

Fixpoint all_keep_capacity (ops : list operation) (t : table) : Prop :=
  match ops with
  | [] => True
  | op :: ops => keeps_capacity op t ∧ all_keep_capacity ops (apply_operation op t)
  end.

Lemma empty_consistent : consistent ∅.
Proof.
  constructor; try (intros ? ?; by rewrite lookup_empty).
  intros e. by rewrite !total_empty.
Qed.

Lemma operations_consistent ops t : consistent t → consistent (apply_operations ops t).
Proof. revert t. induction ops; simpl; auto using operation_consistent. Qed.

Lemma operations_capacity ops t :
  consistent t → all_keep_capacity ops t → capacity_respected t →
  capacity_respected (apply_operations ops t).
Proof.
  revert t. induction ops as [|op ops IH]; simpl; [done|].
  intros t Hc [? ?] ?. apply IH; auto using operation_consistent, operation_capacity.
Qed.

(** ** The seats an event has sold *)
Lemma sold_within_capacity t e i :
  consistent t → capacity_respected t → inv_of t e = Some i →
  seats_held e ReservationStatus.PENDING t + seats_held e ReservationStatus.CONFIRMED t
  ≤ total_capacity i.
Proof.
  intros Hc Hcap Hi.
  rewrite <- (reserved_is_held t e i Hc Hi), <- (confirmed_is_held t e i Hc Hi).
  by apply (Hcap e).
Qed.

(** ** Sweeps *)
Section sweeps.
Variable now : Z.

(** The columns of an inventory row are 32-bit integers. *)
Lemma inventory_row_fits i :
  inv_check_row (RInv i) = None ↔
  int32_min ≤ total_capacity i ≤ int32_max ∧ int32_min ≤ reserved_count i ≤ int32_max
  ∧ int32_min ≤ confirmed_count i ≤ int32_max ∧ int32_min ≤ version i ≤ int32_max.
Proof using.
  unfold inv_check_row, int32_ok.
  destruct (_ && _) eqn:Hb; [split; [intros _ | done]; lia|].
  split; [done|]. intros H. exfalso. lia.
Qed.

(** A pending reservation is released whatever its event's counters, as
    long as the version column can move. *)
Lemma release_pending v id ex x i :
  consistent v → res_of v id = Some x → status x = ReservationStatus.PENDING →
  inv_of v (res_event_id x) = Some i → version i + 1 ≤ int32_max →
  let y := stamp_updated now (set_status (Spec.released_status ex) x) in
  Spec.release now id ex v
  = (Ok y, <[KRes id := RRes y]>
             (<[KInv (res_event_id x) := RInv (updated_inventory (add_reserved (- quantity x)) i)]> v)).
Proof using.
  intros Hc Hx Hst Hi Hv y. unfold Spec.release. rewrite Hx, Hst.
  rewrite decide_False by (intros [[] _]; done).
  unfold Spec.transition. rewrite Hi. set (f := λ _, _).
  replace (updated_inventory f i) with (updated_inventory (add_reserved (- quantity x)) i)
    by (unfold updated_inventory, f; by rewrite decide_True).
  clear f. unfold write_row.
  destruct (reservation_row_ok v Hc id x Hx) as [[Hck Hq] Hid].
  destruct (inventory_row_ok v Hc _ i Hi) as [[Hcki Hpos] Hkey].
  pose proof (held_le_reserved v Hc id x i Hx Hi) as [Hle _]. simpl in Hle.
  rewrite decide_True in Hle by done.
  assert (Hnew : inv_check_row (RInv (updated_inventory (add_reserved (- quantity x)) i)) = None).
  { apply inventory_row_fits in Hcki as (? & ? & ? & ?). apply inventory_row_fits. simpl.
    unfold int32_min, int32_max in *. lia. }
  rewrite Hnew. simpl then_. change (inv_check_row (RRes (stamp_updated _ _)))
    with (inv_check_row (RRes x)). rewrite Hck. simpl. by rewrite Hkey, Hid.
Qed.

(** A pending reservation is confirmed, its seats moved to the confirmed ones. *)
Lemma confirm_pending v id x i :
  consistent v → capacity_respected v → res_of v id = Some x →
  status x = ReservationStatus.PENDING →
  inv_of v (res_event_id x) = Some i → version i + 1 ≤ int32_max →
  let y := stamp_updated now (set_status ReservationStatus.CONFIRMED x) in
  let j := updated_inventory (λ i, add_confirmed (quantity x) (add_reserved (- quantity x) i)) i in
  Spec.confirm now id v
  = (Ok y, <[KRes id := RRes y]> (<[KInv (res_event_id x) := RInv j]> v)).
Proof using.
  intros Hc Hcap Hx Hst Hi Hv y j. unfold Spec.confirm. rewrite Hx, Hst.
  rewrite decide_False by (by intros []).
  unfold Spec.transition. rewrite Hi. fold j. unfold write_row.
  destruct (reservation_row_ok v Hc id x Hx) as [[Hck Hq] Hid].
  destruct (inventory_row_ok v Hc _ i Hi) as [[Hcki Hpos] Hkey].
  pose proof (held_le_reserved v Hc id x i Hx Hi) as [Hle _]. simpl in Hle.
  rewrite decide_True in Hle by done. specialize (Hcap _ _ Hi).
  assert (Hnew : inv_check_row (RInv j) = None).
  { apply inventory_row_fits in Hcki as (? & ? & ? & ?). apply inventory_row_fits. simpl.
    unfold int32_min, int32_max in *. lia. }
  rewrite Hnew. simpl then_. change (inv_check_row (RRes (stamp_updated _ _)))
    with (inv_check_row (RRes x)). rewrite Hck. simpl. by rewrite Hkey, Hid.
Qed.

(** The expired pending reservations [ids] name in [v]. *)
Definition pending_all (v : table) (ids : list uuid) : Prop :=
  Forall (λ id, ∃ x, res_of v id = Some x ∧ status x = ReservationStatus.PENDING) ids.

Definition versions_below (v : table) (k : Z) : Prop :=
  ∀ e i, inv_of v e = Some i → version i + k ≤ int32_max.

Lemma release_all_pending ids v :
  consistent v → NoDup ids → pending_all v ids → versions_below v (Z.of_nat (length ids)) →
  ∃ xs v', Spec.release_all now ids v = Ok (xs, v')
    ∧ consistent v' ∧ res_id <$> xs = ids
    ∧ Forall (λ y, res_of v' (res_id y) = Some y ∧
        ∃ x, res_of v (res_id y) = Some x ∧ status x = ReservationStatus.PENDING
             ∧ y = stamp_updated now (set_status ReservationStatus.EXPIRED x)) xs
    ∧ (∀ id, id ∉ ids → res_of v' id = res_of v id).
Proof using.
  revert v. induction ids as [|id ids IH]; intros v Hc Hnd Hp Hv.
  { exists [], v. by split_and!. }
  inversion Hnd as [|? ? Hni Hnd']; subst. inversion Hp as [|? ? (x & Hx & Hst) Hp']; subst.
  destruct (c_event _ Hc _ _ (proj1 (res_of_lookup _ _ _) Hx)) as [i Hi].
  pose proof (Hv _ _ Hi) as Hvi. simpl in Hvi.
  pose proof (release_pending v id true x i Hc Hx Hst Hi ltac:(lia)) as Hrel. simpl in Hrel.
  pose proof (release_keeps v Hc now id true) as [Hc1 _]. rewrite Hrel in Hc1. simpl in Hc1.
  destruct (reservation_row_ok v Hc id x Hx) as [_ Hid].
  set (y := stamp_updated _ _) in *. set (v1 := <[KRes id := _]> _) in *.
  assert (Hres : ∀ id', id' ≠ id → res_of v1 id' = res_of v id').
  { intros id' Hne. unfold res_of, v1. by rewrite !lookup_insert_ne by congruence. }
  destruct (IH v1) as (xs & v' & Hall & Hc' & Hids & Hxs & Hout); [done|done| | |].
  { apply Forall_forall. intros id' Hin. rewrite Hres by set_solver.
    unfold pending_all in Hp'. rewrite Forall_forall in Hp'. by apply Hp'. }
  { intros e' i'. unfold v1. rewrite inv_of_rewrite. case_decide.
    - intros [= <-]. simpl. lia.
    - intros Hi'. apply Hv in Hi'. simpl in Hi'. lia. }
  exists (y :: xs), v'. cbn [Spec.release_all]. rewrite Hrel. simpl then_. rewrite Hall.
  split_and!; [done | done | rewrite fmap_cons, Hids; f_equal; exact Hid | constructor |].
  - simpl. rewrite Hid, Hout by done. split; [|eauto].
    unfold res_of, v1. by rewrite lookup_insert_eq.
  - rewrite <- Hids in Hni. apply Forall_forall. intros z Hz. rewrite Forall_forall in Hxs.
    destruct (Hxs z Hz) as (Hz' & x' & Hx' & Hst' & Heq). split; [done|].
    exists x'. rewrite <- Hres; [done|]. intros <-. apply Hni. by apply list_elem_of_fmap_2.
  - intros id' Hni'. rewrite Hout by set_solver. apply Hres. set_solver.
Qed.
End sweeps.
