(* ===== verification/LockingFacts.v ===== *)
(** * The lock's behaviour

    What [with_lock] does in every state of Redis: when it acquires, how long
    it may wait, and that it deletes the key only while the key holds its own
    token. *)
From S2P Require Import Prelude Effects Uuid Domain Redis Platform Locking.

Section locking.
Variable o : oracle.

(** The key at the [j]-th attempt, if nobody else touches it meanwhile. *)
Definition attempt_time (l : RedisLock) (w : world) (j : nat) : Z :=
  clock w + Z.of_nat j * retry_delay_us l.

Definition key_free (l : RedisLock) (key : string) (w : world) (j : nat) : bool :=
  match redis_get (attempt_time l w j) (redis w) key with Some _ => false | None => true end.

(** The first of [n] attempts, counted from [j], that finds the key free. *)
Fixpoint first_free (l : RedisLock) (key : string) (w : world) (j n : nat) : option nat :=
  match n with
  | O => None
  | S n => if key_free l key w j then Some j else first_free l key w (S j) n
  end.

Lemma set_clock_set_clock t t' w : set_clock t (set_clock t' w) = set_clock t w.
Proof. done. Qed.

Lemma set_clock_id w : set_clock (clock w) w = w.
Proof. by destruct w. Qed.

Lemma call_set_nx w key token px :
  redis_up w = true →
  run (sys_exec o) (call (RedisCmd (SetNxPx key token px))) w
  = Some (match redis_get (clock w) (redis w) key with
          | Some _ => (Ok false, w)
          | None => (Ok true, set_redis (<[key := (RStr token, Some (clock w + px * ms))]> (redis w)) w)
          end).
Proof.
  intros Hup. unfold call. rewrite run_bind, run_trigger. simpl. rewrite Hup.
  destruct (redis_get _ _ _); simpl; [|done]. by destruct w.
Qed.

Definition acquired_world (l : RedisLock) (key token : string) (w : world) (t : Z) : world :=
  set_redis (<[key := (RStr token, Some (t + ttl_ms l * ms))]> (redis w)) (set_clock t w).

Lemma try_acquire_from l key token w j n :
  redis_up w = true →
  run (sys_exec o) (try_acquire l key token n) (set_clock (attempt_time l w j) w)
  = Some (match first_free l key w j n with
          | Some k => (Ok true, acquired_world l key token w (attempt_time l w k))
          | None => (Ok false, set_clock (attempt_time l w (j + n)) w)
          end).
Proof.
  intros Hup. revert j. induction n as [|n IH]; intros j.
  { simpl. by rewrite Nat.add_0_r. }
  cbn [try_acquire first_free]. rewrite run_bind, call_set_nx by done. unfold key_free.
  change (redis (set_clock _ _)) with (redis w).
  change (clock (set_clock ?t _)) with t.
  destruct (redis_get _ _ _); [|done]. cbv iota beta.
  rewrite run_bind. unfold sleep. rewrite run_trigger. simpl. rewrite set_clock_set_clock.
  replace (attempt_time l w j + retry_delay_us l) with (attempt_time l w (S j))
    by (unfold attempt_time; lia).
  rewrite IH. by replace (S j + n)%nat with (j + S n)%nat by lia.
Qed.

(** What [try_acquire] does when Redis answers: it takes the lock at the
    first attempt that finds the key free, and gives up after the last. *)
Lemma try_acquire_run l key token w n :
  redis_up w = true →
  run (sys_exec o) (try_acquire l key token n) w
  = Some (match first_free l key w 0 n with
          | Some k => (Ok true, acquired_world l key token w (attempt_time l w k))
          | None => (Ok false, set_clock (attempt_time l w n) w)
          end).
Proof.
  intros Hup. rewrite <- (set_clock_id w) at 1.
  replace (clock w) with (attempt_time l w 0) by (unfold attempt_time; lia).
  by apply try_acquire_from.
Qed.

Lemma first_free_here l key w n :
  (0 < n)%nat → redis_get (clock w) (redis w) key = None → first_free l key w 0 n = Some O.
Proof.
  destruct n; [lia|]. intros _ Hfree. simpl. unfold key_free, attempt_time.
  by rewrite Z.mul_0_l, Z.add_0_r, Hfree.
Qed.

(** The release script in every state. *)
Definition released (key token : string) (w : world) : world :=
  if redis_up w then set_redis (release_script key token (clock w) (redis w)).2 w else w.

Lemma release_lock_run key token w :
  run (sys_exec o) (release_lock key token) w = Some (Ok tt, released key token w).
Proof.
  unfold release_lock, released. rewrite run_try_except, run_bind. unfold call.
  rewrite run_bind, run_trigger. simpl. destruct (redis_up w).
  - by destruct (release_script _ _ _ _) as [n db].
  - simpl. by destruct w.
Qed.

(** The key is deleted only while it holds our token. *)
Lemma release_script_deletes key token now db k :
  (release_script key token now db).2 !! k ≠ db !! k →
  k = key ∧ redis_get now db key = Some (RStr token).
Proof.
  unfold release_script. destruct (redis_get now db key) as [[v|z]|]; try done.
  case_decide; simpl; [|done]. subst v. rewrite lookup_delete. case_decide; [done|congruence].
Qed.

(** [with_lock] around a body: what it does is decided by the first attempt
    that finds the key free. *)
Lemma with_lock_run {A} l resource (body : M A) w :
  redis_up w = true →
  let key := lock_key resource in
  let token := uuid_str (uuid_draw o (draws w)) in
  run (sys_exec o) (with_lock l resource body) w
  = match first_free l key w 0 (retry_attempts l) with
    | None => Some (Err (lock_error resource),
                    set_clock (attempt_time l w (retry_attempts l)) (next_draw w))
    | Some k =>
        match run (sys_exec o) body
                (acquired_world l key token (next_draw w) (attempt_time l w k)) with
        | Some (r, w') => Some (r, released key token w')
        | None => None
        end
    end.
Proof.
  intros Hup key token. unfold with_lock, uuid4. rewrite run_bind, run_trigger.
  simpl (sys_exec _ _ _ _). cbv iota beta. fold token key.
  rewrite run_bind, try_acquire_run by done.
  assert (Hff : ∀ j n, first_free l key (next_draw w) j n = first_free l key w j n).
  { intros j n. revert j. induction n as [|n IH]; intros j; simpl; [done|]. by rewrite IH. }
  rewrite Hff. destruct (first_free _ _ _ _ _) as [k|]; [|done]. cbv iota beta.
  rewrite run_try_finally. change (attempt_time l (next_draw w) k) with (attempt_time l w k).
  destruct (run _ body _) as [[r w']|]; [|done]. by rewrite release_lock_run.
Qed.

(** Whatever Redis does, [with_lock] either fails without running its body
    or runs it once, and nothing but the body touches the databases. *)
Lemma with_lock_cases {A} l resource (body : M A) w :
  ∃ w1, inv_db w1 = inv_db w ∧
    ((∃ e, run (sys_exec o) (with_lock l resource body) w = Some (Err e, w1))
     ∨ (∃ token, run (sys_exec o) (with_lock l resource body) w
        = match run (sys_exec o) body w1 with
          | Some (r, w') => Some (r, released (lock_key resource) token w')
          | None => None
          end)).
Proof.
  destruct (redis_up w) eqn:Hup.
  - rewrite (with_lock_run l resource body w Hup).
    destruct (first_free _ _ _ _ _) as [k|].
    + eexists. split; [|right; by eexists]; done.
    + eexists. split; [|left; by eexists]; done.
  - unfold with_lock. rewrite run_bind. unfold uuid4. rewrite run_trigger.
    simpl (sys_exec _ _ _ _). cbv iota beta. rewrite run_bind.
    destruct (retry_attempts l) as [|n]; simpl.
    + eexists. split; [|left; by eexists]; done.
    + rewrite Hup. simpl. eexists. split; [|left; by eexists]; done.
Qed.
End locking.

Section platform_locking.
Context {W : Type} (o : oracle) (impl : handler sys_op W) (obs : W → world).
Context `{P : !Platform (sys_exec o) impl obs}.

Lemma first_free_spec l key w j n :
  match first_free l key w j n with
  | Some k => (j ≤ k < j + n)%nat ∧ key_free l key w k = true
              ∧ ∀ i, (j ≤ i < k)%nat → key_free l key w i = false
  | None => ∀ i, (j ≤ i < j + n)%nat → key_free l key w i = false
  end.
Proof.
  revert j. induction n as [|n IH]; intros j; simpl; [lia|].
  destruct (key_free l key w j) eqn:Hf.
  - split; [lia|]. split; [done | lia].
  - specialize (IH (S j)). destruct (first_free l key w (S j) n) as [k|].
    + destruct IH as (Hk & Hfk & Hb). split; [lia|]. split; [done|]. intros i Hi.
      destruct (decide (i = j)) as [->|]; [done | apply Hb; lia].
    + intros i Hi. destruct (decide (i = j)) as [->|]; [done | apply IH; lia].
Qed.

(** [RedisLock.acquire] tries at most [retry_attempts] times, one delay
    apart.  If the key is free at some attempt, the first such attempt takes
    it, the body runs holding it, and the release script runs after the body
    whatever its outcome; if the key is held at every attempt, the body never
    runs and [LockAcquisitionError] is raised, nothing but time and one
    random draw having changed. *)
Theorem acquire_outcome {A} l resource (body : M A) w :
  redis_up (obs w) = true →
  let w0 := obs w in
  let key := lock_key resource in
  let token := uuid_str (uuid_draw o (draws w0)) in
  (∃ k, (k < retry_attempts l)%nat ∧ key_free l key w0 k = true
        ∧ (∀ i, (i < k)%nat → key_free l key w0 i = false)
        ∧ ∀ r w', run (sys_exec o) body
                    (acquired_world l key token (next_draw w0) (attempt_time l w0 k))
                  = Some (r, w') →
                  runs_to impl obs (with_lock l resource body) w r (released key token w'))
  ∨ ((∀ i, (i < retry_attempts l)%nat → key_free l key w0 i = false)
     ∧ runs_to impl obs (with_lock l resource body) w (Err (lock_error resource))
         (set_clock (attempt_time l w0 (retry_attempts l)) (next_draw w0))).
Proof using P.
  intros Hup w0 key token. pose proof (with_lock_run o l resource body w0 Hup) as Hrun.
  pose proof (first_free_spec l key w0 0 (retry_attempts l)) as Hff.
  cbv zeta in Hrun. fold key token in Hrun.
  destruct (first_free l key w0 0 (retry_attempts l)) as [k|].
  - left. exists k. destruct Hff as (Hk & Hf & Hb). split; [lia|]. split; [done|]. split.
    + intros i Hi. apply Hb. lia.
    + intros r w' Hbody. apply runs_to_doc. fold w0. by rewrite Hrun, Hbody.
  - right. split; [intros i Hi; apply Hff; lia|]. by apply runs_to_doc.
Qed.

(** C37. Releasing never raises, and changes Redis only by deleting the lock's
    own key while that key still holds the caller's token: a lock that
    expired and was taken by another holder is left alone. *)
Theorem release_only_own_lock key token w :
  let w' := released key token (obs w) in
  runs_to impl obs (release_lock key token) w (Ok tt) w'
  ∧ (∀ k, redis w' !! k ≠ redis (obs w) !! k →
       k = key ∧ redis_get (clock (obs w)) (redis (obs w)) key = Some (RStr token))
  ∧ (redis_up (obs w) = true →
     redis_get (clock (obs w)) (redis (obs w)) key = Some (RStr token) →
     redis w' !! key = None).
Proof using P.
  intros w'. unfold w'. split_and!.
  - apply runs_to_doc, release_lock_run.
  - intros k. unfold released. destruct (redis_up (obs w)); [|done].
    apply release_script_deletes.
  - intros Hup Hget. unfold released. rewrite Hup. simpl. unfold release_script.
    rewrite Hget, decide_True by done. apply lookup_delete_eq.
Qed.
End platform_locking.

(** A key held by another holder for longer than all the attempts. *)
Lemma acquire_outcome_witness :
  let w0 := set_redis {[lock_key "event:1" := (RStr "other", Some (5000 * ms))]} initial_world in
  redis_up w0 = true ∧
  ((∃ k, (k < 10)%nat ∧ key_free default_lock (lock_key "event:1") w0 k = true
          ∧ (∀ i, (i < k)%nat → key_free default_lock (lock_key "event:1") w0 i = false)
          ∧ ∀ r w', run (sys_exec sample_oracle) (Ret tt)
                      (acquired_world default_lock (lock_key "event:1")
                         (uuid_str (uuid_of_N 1000)) (next_draw w0)
                         (attempt_time default_lock w0 k))
                    = Some (r, w') →
                    runs_to (sys_exec sample_oracle) id (with_lock default_lock "event:1" (Ret tt))
                      w0 r (released (lock_key "event:1") (uuid_str (uuid_of_N 1000)) w'))
    ∨ ((∀ i, (i < 10)%nat → key_free default_lock (lock_key "event:1") w0 i = false)
       ∧ runs_to (sys_exec sample_oracle) id (with_lock default_lock "event:1" (Ret tt)) w0
           (Err (lock_error "event:1"))
           (set_clock (attempt_time default_lock w0 10) (next_draw w0)))).
Proof.
  split; [reflexivity|].
  apply (acquire_outcome sample_oracle (sys_exec sample_oracle) id default_lock "event:1" (Ret tt)).
  reflexivity.
Defined.

(** The lock is still ours. *)
Lemma release_only_own_lock_witness :
  let w0 := set_redis {[lock_key "event:1" := (RStr "mine", Some 5000)]} initial_world in
  runs_to (sys_exec sample_oracle) id (release_lock (lock_key "event:1") "mine") w0 (Ok tt)
    (released (lock_key "event:1") "mine" w0)
  ∧ redis (released (lock_key "event:1") "mine" w0) !! lock_key "event:1" = None.
Proof.
  intros w0.
  destruct (release_only_own_lock sample_oracle (sys_exec sample_oracle) id
              (lock_key "event:1") "mine" w0) as (Hrun & _ & Hgone).
  split; [exact Hrun|]. apply Hgone; vm_compute; reflexivity.
Defined.
