(* ===== verification/InventoryRefinement.v ===== *)
(** * The programs implement the specification

    A service operation that runs with no other session open answers what the
    atomic specification answers and leaves the tables the specification
    leaves; the session it used is closed. *)
From S2P Require Import Prelude Effects Uuid Domain Orm OrmFacts Redis InventoryModels.
From S2P Require Import Platform SessionRuns InventoryRepository Locking.
From S2P Require Import InventoryService.
From S2P Require Import InventorySpec InventoryInvariant.

(** A world in which session [s] is the only one open. *)
Definition solo (t : table) (s : nat) (ss : session inv_key inv_row) (n q : nat) (w : world) : world :=
  set_inv_db (Database t {[s := ss]} n q) w.

(** A world in which no session is open. *)
Definition quiet (t : table) (n q : nat) (w : world) : world :=
  set_inv_db (Database t ∅ n q) w.

Lemma inv_check_row_error r e : inv_check_row r = Some e → e = DataError.
Proof. unfold inv_check_row. case_goal; congruence. Qed.

Lemma inv_merge_same (l : inv_row) : merge_columns l l l = l.
Proof.
  destruct l; simpl; [by rewrite merge_inventory_loaded | by rewrite merge_reservation_loaded].
Qed.

(** ** Session calls on the inventory's database *)
Section solo.
Variable o : oracle.
Implicit Types (t : table) (ss : session inv_key inv_row) (w : world).

Lemma run_inv_get t s ss n q w k :
  coherent t ss →
  ∃ ss', run (sys_exec o) (inv_get s k) (solo t s ss n q w)
           = Some (Ok (visible t ss !! k), solo t s ss' n q w)
    ∧ coherent t ss' ∧ visible t ss' = visible t ss ∧ objs ss ⊆ objs ss'
    ∧ (∀ r, visible t ss !! k = Some r → objs ss' !! k = Some (r, r)).
Proof. exact (run_get (o := o) t s ss n q w k). Qed.

Lemma run_inv_write t s ss n q w k f l c :
  objs ss !! k = Some (l, c) →
  run (X := exn) (sys_exec o) (trigger (InvDb (SetAttrs s k f))) (solo t s ss n q w)
  = Some (Ok tt, solo t s (with_objs ss (<[k := (l, f c)]> (objs ss))) n q w).
Proof. exact (run_write (o := o) t s ss n q w k f l c). Qed.

Lemma run_inv_attrs t s ss n q w k l c :
  objs ss !! k = Some (l, c) →
  run (X := exn) (sys_exec o) (trigger (InvDb (Attrs s k))) (solo t s ss n q w)
  = Some (Ok (Some c), solo t s ss n q w).
Proof. exact (run_attrs (o := o) t s ss n q w k l c). Qed.

Lemma run_inv_add t s ss n q w r :
  run (sys_exec o) (inv_add s r) (solo t s ss n q w)
  = Some (Ok tt, solo t s (Session (objs ss) (news ss ++ [r]) (dels ss) (overlay ss)) n q w).
Proof. exact (run_add (o := o) t s ss n q w r). Qed.

Lemma run_inv_flush t s ss n q w r :
  do_flush (clock w) s (Database t {[s := ss]} n q) ss = Some r →
  run (sys_exec o) (inv_flush s) (solo t s ss n q w)
  = Some (match r with Ok _ => Ok tt | Err e => Err e end,
          solo t s (match r with Ok ss' => ss' | Err _ => empty_session end) n q w).
Proof. exact (run_flush (o := o) t s ss n q w r). Qed.

Lemma run_inv_open t n q w :
  run (X := exn) (sys_exec o) (trigger (InvDb OpenSession)) (quiet t n q w)
  = Some (Ok n, solo t n empty_session (S n) q w).
Proof. exact (run_open (o := o) t n q w). Qed.

Lemma run_inv_close t s ss n q w :
  run (X := exn) (sys_exec o) (trigger (InvDb (CloseSession s))) (solo t s ss n q w)
  = Some (Ok tt, quiet t n q w).
Proof. exact (run_close (o := o) t s ss n q w). Qed.

Lemma run_inv_rollback t s ss n q w :
  run (sys_exec o) (inv_rollback s) (solo t s ss n q w)
  = Some (Ok tt, solo t s empty_session n q w).
Proof. exact (run_rollback (o := o) t s ss n q w). Qed.

Lemma run_inv_commit t s ss n q w :
  coherent t ss →
  ∃ ss', run (sys_exec o) (call (InvDb (Commit s))) (solo t s ss n q w)
         = Some (Ok tt, solo (visible t ss) s ss' n q w).
Proof.
  intros Hc. destruct (run_commit (o := o) t s ss n q w Hc) as (ss' & Hrun & _). by exists ss'.
Qed.

(** The only errors of the inventory's updates are values out of range. *)
Lemma check_failed now (ch : gmap inv_key (inv_row * inv_row)) e :
  (∃ k l c, ch !! k = Some (l, c) ∧ inv_check_row (new_row now c) = Some e) →
  e = DataError ∧ ¬ checks (rows_of now ch).
Proof.
  intros (k & l & c & Hk & He). split; [by eapply inv_check_row_error|].
  rewrite rows_of_checks. intros H. apply H in Hk. change (check_row ?r) with (inv_check_row r) in Hk.
  congruence.
Qed.

(** Flushing attribute changes. *)
Lemma run_flush_changes t s ss ch n q w :
  coherent t ss → changes_ok ss ch →
  ∃ r ss', run (sys_exec o) (inv_flush s) (solo t s (with_changes ss ch) n q w)
           = Some (r, solo t s ss' n q w)
    ∧ match r with
      | Ok _ => checks (rows_of (clock w) ch) ∧ coherent t ss'
                ∧ visible t ss' = rows_of (clock w) ch ∪ visible t ss
                ∧ (∀ k x, rows_of (clock w) ch !! k = Some x → objs ss' !! k = Some (x, x))
                ∧ (∀ k x, ch !! k = None → objs ss !! k = Some x → objs ss' !! k = Some x)
      | Err e => e = DataError ∧ ¬ checks (rows_of (clock w) ch)
      end.
Proof.
  intros Hc Hch.
  destruct (flush_changes inv_merge_same t s ss ch n q (clock w) Hc Hch) as (out & Hf & Hout).
  destruct out as [ss'|e].
  - destruct Hout as (? & ? & ? & Ho). exists (Ok tt), ss'. erewrite run_inv_flush by done.
    split_and!; try done.
    + intros k x Hx. rewrite Ho. apply lookup_union_Some_l. by rewrite lookup_fmap, Hx.
    + intros k x Hn Hx. rewrite Ho, !lookup_union_r; [done..|].
      unfold rows_of. by rewrite !lookup_fmap, Hn.
  - exists (Err e), empty_session. erewrite run_inv_flush by done. eauto using check_failed.
Qed.

(** Flushing attribute changes together with one new row. *)
Lemma run_flush_insert t s ss ch x n q w :
  coherent t ss → changes_ok ss ch →
  let new := inv_stamp_insert (clock w) (initial_version x) in
  let vis := rows_of (clock w) ch ∪ visible t ss in
  inv_key_of new = inv_key_of x →
  Forall (λ k, is_Some (vis !! k)) (inv_references new) →
  ∃ r ss', run (sys_exec o) (inv_flush s)
             (solo t s (Session (ch ∪ objs ss) [x] [] (overlay ss)) n q w)
           = Some (r, solo t s ss' n q w)
    ∧ match r with
      | Ok _ => checks (rows_of (clock w) ch) ∧ inv_check_row new = None
                ∧ vis !! inv_key_of x = None ∧ coherent t ss'
                ∧ visible t ss' = <[inv_key_of x := new]> vis
                ∧ objs ss' !! inv_key_of x = Some (new, new)
      | Err e => (¬ checks (rows_of (clock w) ch) ∧ e = DataError)
                 ∨ (checks (rows_of (clock w) ch) ∧ inv_check_row new = Some e)
                 ∨ (checks (rows_of (clock w) ch) ∧ inv_check_row new = None
                    ∧ is_Some (vis !! inv_key_of x) ∧ e = IntegrityError)
      end.
Proof.
  intros Hc Hch new vis Hkey Href.
  destruct (flush_changes_insert inv_merge_same t s ss ch x n q (clock w) Hc Hch Hkey)
    as (out & Hf & Hout).
  destruct out as [ss'|e].
  - destruct Hout as (? & Hins & ? & ? & Ho). apply insert_error_None in Hins as (? & Hn & _).
    exists (Ok tt), ss'. erewrite run_inv_flush by done. split_and!; try done.
    + by rewrite <- Hkey.
    + rewrite Ho. apply lookup_insert_eq.
  - exists (Err e), empty_session. erewrite run_inv_flush by done. split; [done|].
    destruct Hout as [Hbad|[Hck Hins]]; [left; apply check_failed in Hbad; tauto|right].
    assert (Hins' : insert_error vis new = Some e) by exact Hins. clear Hins.
    unfold insert_error in Hins'. change (check_row new) with (inv_check_row new) in Hins'.
    destruct (inv_check_row new) as [e'|] eqn:He; [left; split; [done|congruence]|right].
    case_bool_decide as Hb; [done|]. split_and!; try done; [|congruence].
    destruct (vis !! inv_key_of x) eqn:Hv; [done|]. destruct Hb. split_and!; try done.
    change (key_of new) with (inv_key_of new). by rewrite Hkey.
Qed.

(** Flushing one changed instance. *)
Lemma run_flush_one t s ss k l c n q w :
  coherent t ss → objs ss !! k = Some (l, l) → l ≠ c → inv_merge l c l = c →
  ∃ r ss', run (sys_exec o) (inv_flush s)
             (solo t s (with_objs ss (<[k := (l, c)]> (objs ss))) n q w)
           = Some (r, solo t s ss' n q w)
    ∧ match r with
      | Ok _ => inv_check_row (new_row (clock w) c) = None ∧ coherent t ss'
                ∧ visible t ss' = <[k := new_row (clock w) c]> (visible t ss)
                ∧ objs ss' !! k = Some (new_row (clock w) c, new_row (clock w) c)
      | Err e => inv_check_row (new_row (clock w) c) = Some e
      end.
Proof.
  intros Hc Hk Hne Hm. set (ch := {[k := (l, c)]} : gmap inv_key (inv_row * inv_row)).
  assert (Hch : changes_ok ss ch).
  { intros k' l' c' Hk'. apply lookup_singleton_Some in Hk' as [<- Heq]. by simplify_eq. }
  assert (Hrows : rows_of (clock w) ch = {[k := new_row (clock w) c]}).
  { unfold rows_of, ch. by rewrite map_fmap_singleton. }
  destruct (run_flush_changes t s ss ch n q w Hc Hch) as (r & ss' & Hrun & Hr).
  rewrite Hrows in Hr.
  assert (Hone : checks {[k := new_row (clock w) c]}
                 ↔ inv_check_row (new_row (clock w) c) = None)
    by (unfold checks; by rewrite map_Forall_singleton).
  unfold with_changes in Hrun. unfold ch in Hrun at 1.
  rewrite <- insert_union_singleton_l in Hrun. exists r, ss'. split; [done|].
  destruct r as [u|e].
  - destruct Hr as (? & ? & Hv & Ho & _). rewrite Hv, <- insert_union_singleton_l.
    split_and!; try done; [by apply Hone|]. apply Ho. by rewrite lookup_singleton_eq.
  - destruct Hr as [-> Hbad]. destruct (inv_check_row _) as [e|] eqn:He; [|by destruct Hbad; apply Hone].
    by rewrite (inv_check_row_error _ _ He).
Qed.
End solo.

(** ** Bodies of transactions *)
Section bodies.
Variable o : oracle.

(** [body], run in any session that is coherent and sees [v], answers what
    [spec] answers on [v] and, on success, sees what [spec] yields. *)
Definition implements_at {A} (q : nat) (w : world) (body : nat → M A) (v : table)
    (spec : result exn A * table) : Prop :=
  ∀ t s ss n, coherent t ss → visible t ss = v →
    ∃ ss' q' d,
      run (sys_exec o) (body s) (solo t s ss n q w)
      = Some (spec.1, solo t s ss' n q' (advance d w))
      ∧ (is_ok spec.1 → coherent t ss' ∧ visible t ss' = spec.2).

Definition implements {A} (w : world) (body : nat → M A) (v : table)
    (spec : result exn A * table) : Prop := ∀ q, implements_at q w body v spec.

Lemma get_inventory_run t s ss n q w e :
  coherent t ss → consistent (visible t ss) →
  ∃ ss', run (sys_exec o) (get_inventory s e) (solo t s ss n q w)
           = Some (Ok (inv_of (visible t ss) e), solo t s ss' n q w)
    ∧ coherent t ss' ∧ visible t ss' = visible t ss ∧ objs ss ⊆ objs ss'
    ∧ (∀ i, inv_of (visible t ss) e = Some i → objs ss' !! KInv e = Some (RInv i, RInv i)).
Proof.
  intros Hc Hok. destruct (run_inv_get o t s ss n q w (KInv e) Hc) as (ss' & Hrun & Hc' & Hv & Hs & Ho).
  exists ss'. unfold get_inventory. rewrite run_bind, Hrun. simpl.
  split_and!; try done. intros i Hi. apply Ho. by apply inv_of_lookup.
Qed.

Lemma get_reservation_run t s ss n q w id :
  coherent t ss →
  ∃ ss', run (sys_exec o) (get_reservation s id) (solo t s ss n q w)
           = Some (Ok (res_of (visible t ss) id), solo t s ss' n q w)
    ∧ coherent t ss' ∧ visible t ss' = visible t ss ∧ objs ss ⊆ objs ss'
    ∧ (∀ r, res_of (visible t ss) id = Some r → objs ss' !! KRes id = Some (RRes r, RRes r)).
Proof.
  intros Hc. destruct (run_inv_get o t s ss n q w (KRes id) Hc) as (ss' & Hrun & Hc' & Hv & Hs & Ho).
  exists ss'. unfold get_reservation. rewrite run_bind, Hrun. simpl.
  split_and!; try done. intros r Hr. apply Ho. by apply res_of_lookup.
Qed.

Lemma inventory_instance_run t s ss n q w e i :
  objs ss !! KInv e = Some (RInv i, RInv i) →
  run (sys_exec o) (inventory_instance s e) (solo t s ss n q w) = Some (Ok i, solo t s ss n q w).
Proof.
  intros Hk. unfold inventory_instance. rewrite run_bind.
  erewrite run_inv_attrs by done. done.
Qed.

Lemma reservation_instance_run t s ss n q w id x :
  objs ss !! KRes id = Some (RRes x, RRes x) →
  run (sys_exec o) (reservation_instance s id) (solo t s ss n q w) = Some (Ok x, solo t s ss n q w).
Proof.
  intros Hk. unfold reservation_instance. rewrite run_bind.
  erewrite run_inv_attrs by done. done.
Qed.

Lemma availability_implements w e v :
  consistent v →
  implements w (λ s, inventory <- get_inventory s e ;;
                     match inventory with None => Raise (no_inventory e) | Some i => Ret i end)
    v (Spec.availability e v).
Proof.
  intros Hok q t s ss n Hc <-.
  destruct (get_inventory_run t s ss n q w e Hc Hok) as (ss' & Hrun & Hc' & Hv & _).
  exists ss', q, 0%nat. rewrite run_bind, Hrun. unfold Spec.availability.
  rewrite advance_0. by destruct (inv_of _ e).
Qed.

Lemma initialize_implements w e capacity v :
  consistent v →
  implements w (λ s, initialize_inventory s e capacity) v (Spec.initialize e capacity v).
Proof.
  intros Hok q t s ss n Hc <-.
  destruct (get_inventory_run t s ss n q w e Hc Hok) as (ss1 & Hrun & Hc1 & Hv1 & _).
  unfold initialize_inventory, Spec.initialize. setoid_rewrite run_bind. rewrite Hrun.
  destruct (inv_of (visible t ss) e) as [i|] eqn:Hi.
  { exists ss1, q, 0%nat. by rewrite advance_0. }
  set (x := RInv (mkEventInventory e capacity 0 0 0)).
  destruct (run_flush_insert o t s ss1 ∅ x n q w Hc1) as (r & ss2 & Hfl & Hr); try done.
  rewrite map_empty_union in Hfl. unfold rows_of in Hr. rewrite fmap_empty, map_empty_union in Hr.
  rewrite run_bind, run_inv_add, run_bind.
  rewrite (coh_news _ _ Hc1), (coh_dels _ _ Hc1). simpl app. rewrite Hfl.
  unfold write_row. change (inv_stamp_insert _ (initial_version x))
    with (RInv (mkEventInventory e capacity 0 0 1)) in Hr.
  destruct r as [u|err].
  - destruct Hr as (_ & Hck & Hfresh & Hc2 & Hv2 & Ho2). exists ss2, q, 0%nat.
    rewrite Hck. erewrite inventory_instance_run by exact Ho2. rewrite advance_0.
    split; [done|]. intros _. split; [done|]. by rewrite Hv2, Hv1.
  - exists ss2, q, 0%nat. rewrite advance_0.
    destruct Hr as [[[] _]|[(_ & ->)|(_ & _ & [y Hy] & _)]]; [apply map_Forall_empty|done|].
    rewrite Hv1 in Hy. simpl in Hy. unfold inv_of in Hi. rewrite Hy in Hi.
    destruct y as [j|y]; [done|]. by apply (c_keyed _ Hok) in Hy.
Qed.

Lemma adjust_implements w e capacity v :
  consistent v →
  implements w (λ s, adjust_capacity s e capacity) v (Spec.adjust e capacity v).
Proof.
  intros Hok q t s ss n Hc <-.
  destruct (get_inventory_run t s ss n q w e Hc Hok) as (ss1 & Hrun & Hc1 & Hv1 & _ & Ho1).
  unfold adjust_capacity, Spec.adjust. setoid_rewrite run_bind. rewrite Hrun.
  destruct (inv_of (visible t ss) e) as [i|] eqn:Hi.
  2: { exists ss1, q, 0%nat. by rewrite advance_0. }
  specialize (Ho1 i eq_refl). rewrite run_bind. unfold write_inventory.
  erewrite run_inv_write by done. rewrite run_bind. simpl on_inventory.
  apply inv_of_lookup in Hi as Hk. apply (c_keyed _ Hok) in Hk as Hkey.
  simpl in Hkey. injection Hkey as Hkey.
  case_decide as Hcap.
  - assert (set_total_capacity capacity i = i) as -> by (destruct i; simpl in *; by subst).
    rewrite insert_id by done. change (with_objs ss1 (objs ss1)) with (Session (objs ss1) (news ss1) (dels ss1) (overlay ss1)).
    destruct (run_flush_changes o t s ss1 ∅ n q w Hc1) as (r & ss2 & Hfl & Hr); [apply changes_ok_empty|].
    unfold with_changes, with_objs in Hfl. rewrite map_empty_union in Hfl. rewrite Hfl.
    unfold rows_of in Hr. rewrite fmap_empty, map_empty_union in Hr.
    destruct r as [u|err]; [|by destruct Hr as [_ []]; apply map_Forall_empty].
    destruct Hr as (_ & Hc2 & Hv2 & _ & Ho2). exists ss2, q, 0%nat. rewrite advance_0.
    erewrite inventory_instance_run by (by apply Ho2). by rewrite Hv2, Hv1.
  - destruct (run_flush_one o t s ss1 (KInv e) (RInv i)
                (RInv (set_total_capacity capacity i)) n q w) as (r & ss2 & Hfl & Hr); try done.
    { intros [= He]. apply Hcap. by apply (f_equal total_capacity) in He. }
    { simpl. by rewrite merge_inventory_loaded. }
    rewrite Hfl. exists ss2, q, 0%nat. rewrite advance_0. unfold write_row.
    change (new_row (clock w) (RInv (set_total_capacity capacity i)))
      with (RInv (updated_inventory (set_total_capacity capacity) i)) in Hr.
    destruct r as [u|err].
    + destruct Hr as (Hck & Hc2 & Hv2 & Ho2). rewrite Hck.
      erewrite inventory_instance_run by exact Ho2. split; [done|]. intros _.
      split; [done|]. simpl. by rewrite Hv2, Hv1, Hkey.
    + by rewrite Hr.
Qed.

Lemma write_inventory_run t s ss n q w e f l c :
  objs ss !! KInv e = Some (l, RInv c) →
  run (sys_exec o) (write_inventory s e f) (solo t s ss n q w)
  = Some (Ok tt, solo t s (with_objs ss (<[KInv e := (l, RInv (f c))]> (objs ss))) n q w).
Proof. intros Hk. unfold write_inventory. by erewrite run_inv_write by done. Qed.

Lemma write_reservation_run t s ss n q w id f l c :
  objs ss !! KRes id = Some (l, RRes c) →
  run (sys_exec o) (write_reservation s id f) (solo t s ss n q w)
  = Some (Ok tt, solo t s (with_objs ss (<[KRes id := (l, RRes (f c))]> (objs ss))) n q w).
Proof. intros Hk. unfold write_reservation. by erewrite run_inv_write by done. Qed.

(** The flush of a status change together with its inventory row. *)
Lemma transition_run t s ss n q w i x f st :
  coherent t ss → consistent (visible t ss) →
  objs ss !! KInv (res_event_id x) = Some (RInv i, RInv i) →
  objs ss !! KRes (res_id x) = Some (RRes x, RRes x) →
  f i ≠ i → inv_event_id (f i) = inv_event_id i → version (f i) = version i →
  st ≠ status x →
  ∃ ss',
    run (sys_exec o) (inv_flush s ;; reservation_instance s (res_id x))
      (solo t s (with_objs ss
         (<[KRes (res_id x) := (RRes x, RRes (set_status st x))]>
           (<[KInv (res_event_id x) := (RInv i, RInv (f i))]> (objs ss)))) n q w)
    = Some ((committed (visible t ss) (Spec.transition (clock w) st f x (visible t ss))).1,
            solo t s ss' n q w)
    ∧ (is_ok (committed (visible t ss) (Spec.transition (clock w) st f x (visible t ss))).1 →
       coherent t ss' ∧
       visible t ss' = (committed (visible t ss) (Spec.transition (clock w) st f x (visible t ss))).2).
Proof.
  intros Hc Hok Hi Hx Hf Hfe Hfv Hst.
  assert (Hiv : inv_of (visible t ss) (res_event_id x) = Some i)
    by (apply inv_of_lookup; by apply (coh_objs _ _ Hc) in Hi as [_ ?]).
  assert (Hkey : inv_event_id i = res_event_id x).
  { apply inv_of_lookup, (c_keyed _ Hok) in Hiv. simpl in Hiv. congruence. }
  set (ch := <[KRes (res_id x) := (RRes x, RRes (set_status st x))]>
               {[KInv (res_event_id x) := (RInv i, RInv (f i))]}
             : gmap inv_key (inv_row * inv_row)).
  assert (Hch : changes_ok ss ch).
  { intros k l c. unfold ch. rewrite lookup_insert, lookup_singleton.
    repeat case_decide; intros [= <- <-]; subst; (split; [done|]).
    - split; [intros [= He]; apply Hst; by apply (f_equal status) in He|].
      simpl. by rewrite merge_reservation_loaded.
    - split; [congruence|]. simpl. by rewrite merge_inventory_loaded. }
  assert (Hrows : rows_of (clock w) ch
    = <[KRes (res_id x) := RRes (stamp_updated (clock w) (set_status st x))]>
        {[KInv (res_event_id x) := RInv (updated_inventory f i)]}).
  { unfold rows_of, ch. rewrite fmap_insert, map_fmap_singleton. simpl.
    unfold new_row, bump. simpl. unfold updated_inventory. by rewrite Hfv. }
  destruct (run_flush_changes o t s ss ch n q w Hc Hch) as (r & ss2 & Hfl & Hr).
  rewrite Hrows in Hr.
  assert (Hres : inv_check_row (RRes (stamp_updated (clock w) (set_status st x))) = None).
  { apply (coh_objs _ _ Hc) in Hx as [_ Hx]. by apply (c_rows _ Hok) in Hx as [? _]. }
  assert (Hone : checks (<[KRes (res_id x) := RRes (stamp_updated (clock w) (set_status st x))]>
                    {[KInv (res_event_id x) := RInv (updated_inventory f i)]})
                 ↔ inv_check_row (RInv (updated_inventory f i)) = None).
  { unfold checks. rewrite map_Forall_insert, map_Forall_singleton
      by (by rewrite lookup_singleton_ne). tauto. }
  replace (with_objs ss _) with (with_changes ss ch).
  2: { unfold with_changes, ch. by rewrite <- insert_union_l, <- insert_union_singleton_l. }
  rewrite run_bind, Hfl. exists ss2. unfold Spec.transition. rewrite Hiv. unfold write_row.
  destruct r as [u|err].
  - destruct Hr as (Hck & Hc2 & Hv2 & Ho2 & _). apply Hone in Hck. rewrite Hck. simpl then_.
    rewrite Hres. simpl committed. simpl fst. simpl snd.
    erewrite reservation_instance_run.
    2: { apply Ho2. by rewrite lookup_insert_eq. }
    split; [done|]. intros _. split; [done|].
    rewrite Hv2, <- insert_union_l, <- insert_union_singleton_l. simpl. by rewrite Hfe, Hkey.
  - destruct Hr as [-> Hbad]. destruct (inv_check_row (RInv _)) as [e|] eqn:He.
    + by rewrite (inv_check_row_error _ _ He).
    + destruct Hbad. by apply Hone.
Qed.

Lemma confirm_implements w id v :
  consistent v → implements w (λ s, confirm s id) v (Spec.confirm (clock w) id v).
Proof.
  intros Hok q t s ss n Hc <-.
  destruct (get_reservation_run t s ss n q w id Hc) as (ss1 & Hrun1 & Hc1 & Hv1 & _ & Ho1).
  unfold confirm, Spec.confirm. setoid_rewrite run_bind. rewrite Hrun1.
  destruct (res_of (visible t ss) id) as [x|] eqn:Hx.
  2: { exists ss1, q, 0%nat. by rewrite advance_0. }
  case_decide as Hst; [exists ss1, q, 0%nat; by rewrite advance_0|].
  specialize (Ho1 x eq_refl).
  destruct (reservation_row_ok _ Hok id x Hx) as [[_ Hq] <-].
  rewrite <- Hv1 in Hok.
  destruct (get_inventory_run t s ss1 n q w (res_event_id x) Hc1 Hok)
    as (ss2 & Hrun2 & Hc2 & Hv2 & Hsub & Ho2).
  destruct (c_event _ Hok _ _ (proj1 (res_of_lookup _ (res_id x) _)
             (eq_trans (f_equal (λ v, res_of v _) Hv1) Hx))) as [i Hi].
  rewrite run_bind, Hrun2, Hi. specialize (Ho2 i Hi).
  assert (Hx2 : objs ss2 !! KRes (res_id x) = Some (RRes x, RRes x))
    by (by eapply lookup_weaken).
  rewrite !run_bind. erewrite write_inventory_run by exact Ho2.
  erewrite write_inventory_run by (simpl; apply lookup_insert_eq).
  simpl objs. rewrite insert_insert_eq, run_bind.
  erewrite write_reservation_run by (simpl; by rewrite lookup_insert_ne by done).
  simpl objs.
  rewrite <- Hv1, <- Hv2.
  destruct (transition_run t s ss2 n q w i x
    (λ i, add_confirmed (quantity x) (add_reserved (- quantity x) i))
    ReservationStatus.CONFIRMED Hc2) as (ss3 & Hrun3 & Hok3); try done.
  { by rewrite Hv2. }
  { intros He. apply (f_equal confirmed_count) in He. simpl in He. lia. }
  { congruence. }
  exists ss3, q, 0%nat. rewrite advance_0. rewrite <- Hrun3. done.
Qed.

Lemma release_implements w id expired v :
  consistent v →
  implements w (λ s, release s id expired) v (Spec.release (clock w) id expired v).
Proof.
  intros Hok q t s ss n Hc <-.
  destruct (get_reservation_run t s ss n q w id Hc) as (ss1 & Hrun1 & Hc1 & Hv1 & _ & Ho1).
  unfold release, Spec.release. setoid_rewrite run_bind. rewrite Hrun1.
  destruct (res_of (visible t ss) id) as [x|] eqn:Hx.
  2: { exists ss1, q, 0%nat. by rewrite advance_0. }
  case_decide as Hst; [exists ss1, q, 0%nat; by rewrite advance_0|].
  specialize (Ho1 x eq_refl).
  destruct (reservation_row_ok _ Hok id x Hx) as [[_ Hq] <-].
  rewrite <- Hv1 in Hok.
  destruct (get_inventory_run t s ss1 n q w (res_event_id x) Hc1 Hok)
    as (ss2 & Hrun2 & Hc2 & Hv2 & Hsub & Ho2).
  destruct (c_event _ Hok _ _ (proj1 (res_of_lookup _ (res_id x) _)
             (eq_trans (f_equal (λ v, res_of v _) Hv1) Hx))) as [i Hi].
  rewrite run_bind, Hrun2, Hi. specialize (Ho2 i Hi).
  assert (Hx2 : objs ss2 !! KRes (res_id x) = Some (RRes x, RRes x))
    by (by eapply lookup_weaken).
  rewrite <- Hv1, <- Hv2.
  destruct (transition_run t s ss2 n q w i x
    (λ i, if decide (status x = ReservationStatus.PENDING)
          then add_reserved (- quantity x) i else add_confirmed (- quantity x) i)
    (Spec.released_status expired) Hc2) as (ss3 & Hrun3 & Hok3); try done.
  { by rewrite Hv2. }
  { intros He. case_decide.
    - apply (f_equal reserved_count) in He. simpl in He. lia.
    - apply (f_equal confirmed_count) in He. simpl in He. lia. }
  { by case_decide. }
  { by case_decide. }
  { intros He. apply Hst. rewrite <- He. by destruct expired. }
  exists ss3, q, 0%nat. rewrite advance_0. split; [|done]. rewrite <- Hrun3.
  rewrite run_bind. case_decide; (erewrite write_inventory_run by exact Ho2);
    rewrite run_bind; erewrite write_reservation_run
      by (simpl; by rewrite lookup_insert_ne by done); done.
Qed.
Lemma solo_next_draw t s ss n q w :
  next_draw (solo t s ss n q w) = solo t s ss n q (advance 1 w).
Proof. done. Qed.

(** The flush of a booking. *)
Lemma book_run t s ss n q w e i id order_id qty ttl :
  coherent t ss → objs ss !! KInv e = Some (RInv i, RInv i) → inv_event_id i = e → 0 < qty →
  let x := RRes (new_reservation id e order_id qty (clock w + ttl * second)) in
  ∃ r ss',
    run (sys_exec o) (inv_flush s)
      (solo t s (Session (<[KInv e := (RInv i, RInv (add_reserved qty i))]> (objs ss))
                   [x] [] (overlay ss)) n q w) = Some (r, solo t s ss' n q w)
    ∧ match Spec.book (clock w) id e order_id qty ttl i (visible t ss) with
      | Ok (new, v') => r = Ok tt ∧ coherent t ss' ∧ visible t ss' = v'
                        ∧ objs ss' !! KRes id = Some (RRes new, RRes new)
      | Err err => r = Err err ∧ err ≠ StaleDataError
      end.
Proof.
  intros Hc Hi Hkey Hq x.
  set (ch := {[KInv e := (RInv i, RInv (add_reserved qty i))]}
             : gmap inv_key (inv_row * inv_row)).
  assert (Hch : changes_ok ss ch).
  { intros k' l c Hk'. apply lookup_singleton_Some in Hk' as [<- [= <- <-]].
    split; [done|]. split; [|simpl; by rewrite merge_inventory_loaded].
    intros [= He]. apply (f_equal reserved_count) in He. simpl in He. lia. }
  set (i' := RInv (updated_inventory (add_reserved qty) i)).
  assert (Hrows : rows_of (clock w) ch = {[KInv e := i']})
    by (unfold rows_of, ch; by rewrite map_fmap_singleton).
  destruct (run_flush_insert o t s ss ch x n q w Hc Hch) as (r & ss' & Hfl & Hr); [done| |].
  { simpl. constructor; [|constructor].
    rewrite Hrows, <- insert_union_singleton_l, lookup_insert_eq. eauto. }
  exists r, ss'. rewrite insert_union_singleton_l. split; [exact Hfl|].
  unfold Spec.book. change (inv_stamp_insert _ _) with
    (RRes (stamp_created (clock w)
             (new_reservation id e order_id qty (clock w + ttl * second)))) in Hr.
  set (new := stamp_created _ _) in *. simpl (inv_key_of x) in Hr.
  rewrite Hrows, <- insert_union_singleton_l, lookup_insert_ne in Hr by done.
  assert (Hone : checks {[KInv e := i']} ↔ inv_check_row i' = None)
    by (unfold checks; by rewrite map_Forall_singleton).
  unfold write_row. fold i'. change (inv_key_of i') with (KInv (inv_event_id i)).
  rewrite Hkey. destruct r as [[]|err].
  - destruct Hr as (Hck & Hck' & Hfresh & Hc2 & Hv2 & Ho2). apply Hone in Hck.
    rewrite Hck. simpl then_. by rewrite Hck', Hfresh.
  - destruct Hr as [[Hbad ->]|[[Hck He]|(Hck & Hck' & [y Hy] & ->)]].
    + destruct (inv_check_row i') as [e'|] eqn:He; [|by destruct Hbad; apply Hone].
      by rewrite (inv_check_row_error _ _ He).
    + apply Hone in Hck. rewrite Hck. simpl then_. rewrite He.
      by rewrite (inv_check_row_error _ _ He).
    + apply Hone in Hck. rewrite Hck. simpl then_. by rewrite Hck', Hy.
Qed.

Lemma reserve_implements w e order_id qty ttl max_retries v :
  consistent v →
  implements w (λ s, reserve s e order_id qty ttl max_retries) v
    (Spec.reserve (clock w) (uuid_draw o (draws w)) e order_id qty ttl max_retries v).
Proof.
  intros Hok q t s ss n Hc <-. unfold reserve, Spec.reserve.
  destruct (qty <=? 0) eqn:Hq; [exists ss, q, 0%nat; by rewrite advance_0|].
  destruct max_retries as [|k]; [exists ss, q, 0%nat; by rewrite advance_0|].
  rewrite decide_False by done. cbn [reserve_attempts].
  destruct (get_inventory_run t s ss n q w e Hc Hok) as (ss1 & Hrun & Hc1 & Hv1 & _ & Ho1).
  setoid_rewrite run_bind. rewrite Hrun.
  destruct (inv_of (visible t ss) e) as [i|] eqn:Hi.
  2: { exists ss1, q, 0%nat. by rewrite advance_0. }
  destruct (available i <? qty) eqn:Hav; [exists ss1, q, 0%nat; by rewrite advance_0|].
  specialize (Ho1 i eq_refl). zify_bools.
  destruct (inventory_row_ok _ Hok e i Hi) as [_ Hkey].
  rewrite run_bind. erewrite write_inventory_run by exact Ho1.
  destruct (book_run t s ss1 n q (advance 1 w) e i (uuid_draw o (draws w)) order_id qty ttl
    Hc1 Ho1 Hkey Hq) as (r & ss2 & Hfl & Hr).
  change (clock (advance 1 w)) with (clock w) in *. rewrite Hv1 in Hr.
  exists ss2, q, 1%nat. unfold datetime_now, uuid4.
  rewrite run_bind, run_trigger. simpl (sys_exec _ _ Now _). cbv iota beta.
  rewrite run_bind, run_trigger. simpl (sys_exec _ _ Uuid4 _). cbv iota beta.
  rewrite solo_next_draw. change (draws (solo _ _ _ _ _ w)) with (draws w).
  change (clock (solo _ _ _ _ _ w)) with (clock w).
  rewrite run_bind, run_inv_add, run_bind, run_attempt.
  simpl news. simpl dels. simpl overlay. rewrite (coh_news _ _ Hc1), (coh_dels _ _ Hc1).
  simpl objs. simpl app. rewrite Hfl.
  destruct (Spec.book _ _ _ _ _ _ _ _) as [[new v']|err]; simpl committed.
  - destruct Hr as (-> & Hc2 & Hv2 & Ho2). by erewrite reservation_instance_run by exact Ho2.
  - destruct Hr as [-> Hne]. by destruct err.
Qed.
End bodies.

(** ** The sweep *)
Section sweep.
Variable o : oracle.
Context `{Ook : !OracleOk o}.

(** The query of [find_expired_pending]. *)
Definition expired_query (now : Z) (limit : nat) : query inv_row :=
  Query (expired_pending now) None (Some limit) 0.

Definition found (now : Z) (limit n : nat) (v : table) : list inv_row :=
  run_query (inv_scan o) n v (expired_query now limit).

Lemma found_in now limit n v r :
  consistent v → r ∈ found now limit n v →
  v !! inv_key_of r = Some r ∧ expired_pending now r = true.
Proof using Ook.
  intros Hok [Hexp Hr]%run_query_rows. split; [|done].
  rewrite inv_scan_perm in Hr. apply list_elem_of_fmap in Hr as ([k r'] & -> & Hk).
  apply elem_of_map_to_list in Hk. simpl. by rewrite (c_keyed _ Hok _ _ Hk).
Qed.

(** How many reservations are pending past their expiry. *)
Definition expired_count (now : Z) (v : table) : nat :=
  length (filter (λ r, expired_pending now r = true) (map_to_list v).*2).

Definition found_ids (now : Z) (limit n : nat) (v : table) : list uuid :=
  res_id <$> reservations_of (found now limit n v).

Lemma reservations_of_expired now rows :
  Forall (λ r, expired_pending now r = true) rows →
  RRes <$> reservations_of rows = rows.
Proof using.
  induction 1 as [|[i|x] rows Hr _ IH]; [done | done|].
  change (reservations_of (RRes x :: rows)) with (x :: reservations_of rows).
  by rewrite fmap_cons, IH.
Qed.

Lemma found_reservations now limit n v :
  RRes <$> reservations_of (found now limit n v) = found now limit n v.
Proof using.
  apply (reservations_of_expired now). unfold found, run_query. cbn. rewrite drop_0.
  apply Forall_take, Forall_forall. intros r Hr. by apply list_elem_of_filter in Hr as [? _].
Qed.

Lemma found_ids_nodup now limit n v : consistent v → NoDup (found_ids now limit n v).
Proof using Ook.
  intros Hok. apply (NoDup_fmap_1 KRes). unfold found_ids. rewrite <- list_fmap_compose.
  change (KRes ∘ res_id) with (inv_key_of ∘ RRes). rewrite list_fmap_compose, found_reservations.
  unfold found, run_query. cbn. rewrite drop_0.
  eapply sublist_NoDup; [|apply fmap_sublist, (transitivity (sublist_take _ _)), sublist_filter].
  rewrite inv_scan_perm, <- list_fmap_compose.
  rewrite (list_fmap_ext _ fst); [apply NoDup_fst_map_to_list|].
  intros j [k r] Hj. apply list_elem_of_lookup_2, elem_of_map_to_list in Hj.
  by apply (c_keyed _ Hok) in Hj.
Qed.

Lemma found_ids_pending now limit n v :
  consistent v →
  Forall (λ id, ∃ x, res_of v id = Some x ∧ status x = ReservationStatus.PENDING
                     ∧ expires_at x < now) (found_ids now limit n v).
Proof using Ook.
  intros Hok. unfold found_ids. rewrite Forall_fmap. apply Forall_forall. intros x Hx.
  assert (Hr : RRes x ∈ found now limit n v)
    by (rewrite <- found_reservations; by apply list_elem_of_fmap_2).
  apply found_in in Hr as [Hl Hexp]; [|done]. exists x. simpl in Hl, Hexp |- *.
  apply andb_true_iff in Hexp as [Hst Hexp]. apply bool_decide_eq_true in Hst.
  split; [by apply res_of_lookup|]. split; [done|]. lia.
Qed.

(** Within the limit, every expired pending reservation is found. *)
Lemma found_ids_all now limit n v id x :
  (expired_count now v ≤ limit)%nat → res_of v id = Some x → res_id x = id →
  status x = ReservationStatus.PENDING → expires_at x < now → id ∈ found_ids now limit n v.
Proof using Ook.
  intros Hlim Hx <- Hst Hexp. unfold found_ids. apply list_elem_of_fmap_2.
  assert (Hin : RRes x ∈ RRes <$> reservations_of (found now limit n v)).
  { rewrite found_reservations. unfold found, run_query. cbn. rewrite drop_0, take_ge.
    - apply list_elem_of_filter. split; [simpl; rewrite bool_decide_eq_true_2 by done; simpl; lia|].
      rewrite inv_scan_perm. apply list_elem_of_fmap. exists (KRes (res_id x), RRes x).
      split; [done|]. by apply elem_of_map_to_list, res_of_lookup.
    - unfold expired_count in Hlim. by rewrite inv_scan_perm. }
  apply list_elem_of_fmap in Hin as (y & Hy & Hin). by injection Hy as <-.
Qed.

Lemma found_ids_length now limit n v :
  length (found_ids now limit n v) = Nat.min limit (expired_count now v).
Proof using Ook.
  unfold found_ids. rewrite length_fmap, <- (length_fmap RRes), found_reservations.
  unfold found, run_query. cbn. rewrite drop_0, length_take. f_equal.
  unfold expired_count. by rewrite inv_scan_perm.
Qed.

Lemma find_expired_run t s ss n q w limit :
  coherent t ss → consistent (visible t ss) →
  ∃ ss', run (sys_exec o) (find_expired_pending s limit) (solo t s ss n q w)
         = Some (Ok (reservations_of (found (clock w) limit q (visible t ss))),
                 solo t s ss' n (S q) w)
    ∧ coherent t ss' ∧ visible t ss' = visible t ss.
Proof using Ook.
  intros Hc Hok.
  assert (Hall : Forall (λ r, visible t ss !! inv_key_of r = Some r)
                   (found (clock w) limit q (visible t ss))).
  { apply Forall_forall. intros r Hr. by apply found_in in Hr as [? _]. }
  pose proof (run_select (o := o) t s ss n q w (expired_query (clock w) limit) Hc) as Hsel.
  destruct (Hsel Hall) as (ss' & Hrun & Hc' & Hv & _).
  exists ss'. split; [|done].
  unfold find_expired_pending, datetime_now. rewrite run_bind, run_trigger.
  simpl (sys_exec _ _ Now _). cbv iota beta. change (clock (solo _ _ _ _ _ w)) with (clock w).
  rewrite run_bind. fold (expired_query (clock w) limit).
  change (call (InvDb (Select s (expired_query (clock w) limit))))
    with (call (db_op (o := o) _ (Select s (expired_query (clock w) limit)))).
  unfold solo. change (set_inv_db ?d w) with (db_put (o := o) d w).
  fold (alone (o := o) t s ss n q w). by rewrite Hrun.
Qed.

Lemma release_all_implements w rs v :
  consistent v →
  implements o w (λ s, for_each (λ r, release s (res_id r) true) rs) v
    (committed v (Spec.release_all (clock w) (res_id <$> rs) v)).
Proof using.
  revert v w. induction rs as [|x rs IH]; intros v w Hok q t s ss n Hc Hv.
  { exists ss, q, 0%nat. simpl. by rewrite advance_0. }
  cbn [for_each Spec.release_all fmap list_fmap].
  destruct (release_implements o w (res_id x) true v Hok q t s ss n Hc Hv)
    as (ss1 & q1 & d1 & Hrun & Hres).
  rewrite run_bind, Hrun.
  destruct (Spec.release (clock w) (res_id x) true v) as [[y|e] v1] eqn:Hrel; simpl in Hres |- *.
  2: { by exists ss1, q1, d1. }
  destruct (Hres I) as [Hc1 Hv1].
  assert (Hok1 : consistent v1).
  { pose proof (release_keeps v Hok (clock w) (res_id x) true) as [Hk _]. by rewrite Hrel in Hk. }
  destruct (IH v1 (advance d1 w) Hok1 q1 t s ss1 n Hc1 Hv1) as (ss2 & q2 & d2 & Hrun2 & Hres2).
  change (clock (advance d1 w)) with (clock w) in *.
  rewrite run_bind, Hrun2. exists ss2, q2, (d2 + d1)%nat.
  replace (advance d2 (advance d1 w)) with (advance (d2 + d1) w)
    by (unfold advance; simpl; by rewrite Nat.add_assoc).
  by destruct (Spec.release_all _ _ v1) as [[ys v2]|e].
Qed.

Lemma sweep_implements q w v limit :
  consistent v →
  implements_at o q w
    (λ s, expired <- find_expired_pending s limit ;;
          for_each (λ r, release s (res_id r) true) expired)
    v (Spec.sweep (clock w) (res_id <$> reservations_of (found (clock w) limit q v)) v).
Proof using Ook.
  intros Hok t s ss n Hc <-.
  destruct (find_expired_run t s ss n q w limit Hc Hok) as (ss1 & Hrun & Hc1 & Hv1).
  rewrite run_bind, Hrun. by apply release_all_implements.
Qed.
End sweep.

(** ** Transactions *)
Section transactions.
Variable o : oracle.

(** A failed operation leaves the tables as they were. *)
Definition atomic {A} (v : table) (spec : result exn A * table) : Prop :=
  is_ok spec.1 = false → spec.2 = v.

Lemma committed_atomic {A} v (r : result exn (A * table)) : atomic v (committed v r).
Proof. by destruct r as [[a t]|e]. Qed.

Lemma session_scope_run {A} w (body : nat → M A) v spec n q :
  implements_at o q w body v spec → atomic v spec →
  ∃ n' q' d, run (sys_exec o) (session_scope body) (quiet v n q w)
             = Some (spec.1, quiet spec.2 n' q' (advance d w)).
Proof.
  intros Hb Hat. exists (S n).
  destruct (Hb v n empty_session (S n) (coherent_empty v) (apply_overlay_empty v))
    as (ss & q' & d & Hrun & Hok). exists q', d.
  unfold session_scope. rewrite run_bind, run_inv_open.
  rewrite run_try_finally, run_try_except, run_bind, Hrun.
  destruct spec as [[a|e] v']; simpl in Hat, Hok; cbn [fst snd].
  - destruct (Hok I) as [Hc Hv]. rewrite run_bind.
    destruct (run_inv_commit o v n ss (S n) q' (advance d w) Hc) as (ss' & ->). rewrite Hv.
    cbn [run]. by rewrite run_inv_close.
  - specialize (Hat eq_refl). simpl in Hat. subst v'.
    by rewrite run_bind, run_inv_rollback; cbn [run]; rewrite run_inv_close.
Qed.
End transactions.
