(* ===== verification/InventoryCorrectness.v ===== *)
(** * Correctness of the Inventory service

    The service's programs, run on any platform, against the atomic
    specification: what each call answers, the tables it leaves, and the safety
    of every history of calls. *)
From S2P Require Import Prelude Effects Uuid Domain Orm OrmFacts Redis InventoryModels.
From S2P Require Import Platform InventoryRepository Locking InventoryService.
From S2P Require Import InventorySpec InventoryInvariant LockingFacts.
From S2P Require Import InventoryRefinement.

(** ** Runs from an idle world *)
Section idle.
Variable o : oracle.

Lemma quiet_self t n q w : inv_db w = Database t ∅ n q → w = quiet t n q w.
Proof. destruct w; simpl. by intros ->. Qed.

Lemma initialize_atomic e c v : atomic v (Spec.initialize e c v).
Proof. unfold Spec.initialize. case_goal; [done | apply committed_atomic]. Qed.

Lemma adjust_atomic e c v : atomic v (Spec.adjust e c v).
Proof.
  unfold Spec.adjust. case_goal; [|done]. case_decide; [done | apply committed_atomic].
Qed.

Lemma availability_atomic e v : atomic v (Spec.availability e v).
Proof. unfold Spec.availability. by case_goal. Qed.

Lemma reserve_atomic now id e ord qty ttl k v : atomic v (Spec.reserve now id e ord qty ttl k v).
Proof.
  unfold Spec.reserve. case_goal; [done|]. case_decide; [done|]. case_goal; [|done].
  case_goal; [done | apply committed_atomic].
Qed.

Lemma confirm_atomic now id v : atomic v (Spec.confirm now id v).
Proof.
  unfold Spec.confirm. case_goal; [|done]. case_decide; [done | apply committed_atomic].
Qed.

Lemma release_atomic now id ex v : atomic v (Spec.release now id ex v).
Proof.
  unfold Spec.release. case_goal; [|done]. case_decide; [done | apply committed_atomic].
Qed.

(** A locked transaction started while the lock is free. *)
Lemma locked_run {A} l e (body : nat → M A) v w n q spec :
  redis_up w = true → redis_get (clock w) (redis w) (lock_key (event_resource e)) = None →
  (0 < retry_attempts l)%nat → 0 < ttl_ms l →
  (∀ w1, clock w1 = clock w → draws w1 = S (draws w) →
     implements_at o q w1 body v spec) →
  atomic v spec →
  ∃ n' q' d,
    run (sys_exec o) (with_lock l (event_resource e) (session_scope body)) (quiet v n q w)
    = Some (spec.1, quiet spec.2 n' q'
                      (set_redis (delete (lock_key (event_resource e)) (redis w)) (advance d w))).
Proof.
  intros Hup Hfree Hn Httl Hb Hat. rewrite with_lock_run by done.
  rewrite first_free_here by done. unfold attempt_time.
  change (clock (quiet v n q w)) with (clock w). rewrite Z.mul_0_l, Z.add_0_r.
  set (key := lock_key _) in *. set (token := uuid_str _).
  set (w1 := acquired_world l key token (next_draw w) (clock w)).
  change (acquired_world l key token (next_draw (quiet v n q w)) (clock w))
    with (quiet v n q w1).
  destruct (session_scope_run o w1 body v spec n q) as (n' & q' & d & ->); [|done|].
  { by apply Hb. }
  exists n', q', (S d). f_equal. f_equal. unfold released. simpl. rewrite Hup.
  unfold release_script, redis_get. simpl. rewrite lookup_insert_eq.
  unfold live. rewrite (proj2 (Z.ltb_lt _ _)) by (unfold ms; lia).
  rewrite decide_True by done. simpl. rewrite delete_insert_eq.
  unfold quiet, set_inv_db, set_redis, advance. simpl. by rewrite Nat.add_succ_r.
Qed.
End idle.

(** ** The service's contract *)
Section contract.
Context {W : Type} (o : oracle) (impl : handler sys_op W) (obs : W → world).
Context `{P : !Platform (sys_exec o) impl obs} `{Ook : !OracleOk o}.
Variable self : InventoryService.
Implicit Types (v : table) (n q : nat).

(** The call [p], made in [w] where the tables are [v] and no session is
    open, answers and leaves what [spec] says; [r] is Redis afterwards. *)
Definition serves {A} (p : M A) (w : W) (spec : result exn A * table) (r : redis_db) (w0 : world)
    : Prop :=
  ∃ n' q' d, runs_to impl obs p w spec.1 (quiet spec.2 n' q' (set_redis r (advance d w0))).

Lemma scope_serves {A} (body : nat → M A) w v spec n q w0 :
  obs w = quiet v n q w0 → implements_at o q w0 body v spec → atomic v spec →
  serves (session_scope body) w spec (redis w0) w0.
Proof using P.
  intros Hw Hb Hat. destruct (session_scope_run o w0 body v spec n q Hb Hat)
    as (n' & q' & d & Hrun). exists n', q', d. apply runs_to_doc. rewrite Hw, Hrun.
  by destruct w0.
Qed.

(** When Redis answers and the event's lock is free. *)
Record lock_free (e : uuid) (w0 : world) : Prop := {
  lf_up : redis_up w0 = true;
  lf_free : redis_get (clock w0) (redis w0) (lock_key (event_resource e)) = None;
}.

Record lock_usable (l : RedisLock) : Prop := {
  lu_attempts : (0 < retry_attempts l)%nat;
  lu_ttl : 0 < ttl_ms l;
}.

Lemma locked_serves {A} e (body : nat → M A) w v spec n q w0 :
  obs w = quiet v n q w0 → lock_free e w0 → lock_usable (lock self) →
  (∀ w1, clock w1 = clock w0 → draws w1 = S (draws w0) → implements_at o q w1 body v spec) →
  atomic v spec →
  serves (with_lock (lock self) (event_resource e) (session_scope body)) w spec
    (delete (lock_key (event_resource e)) (redis w0)) w0.
Proof using P.
  intros Hw [Hup Hfree] [Hn Httl] Hb Hat.
  destruct (locked_run o (lock self) e body v w0 n q spec Hup Hfree Hn Httl Hb Hat)
    as (n' & q' & d & Hrun). exists n', q', d. apply runs_to_doc. by rewrite Hw, Hrun.
Qed.

(** C4. [reserve_seats], on any platform: started with the event's lock free
    it terminates with exactly the outcome of the atomic reservation (the
    new PENDING reservation and the seats moved in one commit, or the
    domain error and unchanged tables), closes its session and removes the
    lock it took. *)
Theorem reserve_seats_refines e ord qty w v n q w0 :
  consistent v → obs w = quiet v n q w0 → lock_free e w0 → lock_usable (lock self) →
  serves (Service.reserve_seats self e ord qty) w
    (Spec.reserve (clock w0) (uuid_draw o (S (draws w0))) e ord qty
       (reservation_ttl_seconds self) (optimistic_retry_attempts self) v)
    (delete (lock_key (event_resource e)) (redis w0)) w0.
Proof using P.
  intros Hok Hw Hlf Hlu. eapply locked_serves; eauto using reserve_atomic.
  intros w1 Hc Hd. rewrite <- Hc, <- Hd. by apply reserve_implements.
Qed.

(** [adjust_capacity] replaces the capacity of an initialised event, is a
    no-op when it is unchanged, and reports an unknown event, a capacity
    that does not fit the column included. *)
Theorem adjust_capacity_refines e capacity w v n q w0 :
  consistent v → obs w = quiet v n q w0 → lock_free e w0 → lock_usable (lock self) →
  serves (Service.adjust_capacity self e capacity) w (Spec.adjust e capacity v)
    (delete (lock_key (event_resource e)) (redis w0)) w0.
Proof using P.
  intros Hok Hw Hlf Hlu. eapply locked_serves; eauto using adjust_atomic.
  intros w1 _ _. by apply adjust_implements.
Qed.

(** [initialize_inventory] is idempotent: it creates the record of an
    unknown event and returns the existing one unchanged otherwise. *)
Theorem initialize_inventory_refines e capacity w v n q w0 :
  consistent v → obs w = quiet v n q w0 →
  serves (Service.initialize_inventory e capacity) w (Spec.initialize e capacity v)
    (redis w0) w0.
Proof using P.
  intros Hok Hw. eapply scope_serves; eauto using initialize_atomic.
  by apply initialize_implements.
Qed.

(** [get_availability] reads the event's record and changes nothing. *)
Theorem get_availability_refines e w v n q w0 :
  consistent v → obs w = quiet v n q w0 →
  serves (Service.get_availability e) w (Spec.availability e v) (redis w0) w0.
Proof using P.
  intros Hok Hw. eapply scope_serves; eauto using availability_atomic.
  by apply availability_implements.
Qed.

(** [confirm_reservation] moves a PENDING reservation and its seats to
    CONFIRMED in one commit, and returns any other reservation as it is. *)
Theorem confirm_reservation_refines id w v n q w0 :
  consistent v → obs w = quiet v n q w0 →
  serves (Service.confirm_reservation id) w (Spec.confirm (clock w0) id v) (redis w0) w0.
Proof using P.
  intros Hok Hw. eapply scope_serves; eauto using confirm_atomic.
  by apply confirm_implements.
Qed.

(** [release_reservation] returns the seats of a PENDING or CONFIRMED
    reservation to the event in one commit, and returns a reservation that
    was already released as it is. *)
Theorem release_reservation_refines id expired w v n q w0 :
  consistent v → obs w = quiet v n q w0 →
  serves (Service.release_reservation id expired) w (Spec.release (clock w0) id expired v)
    (redis w0) w0.
Proof using P.
  intros Hok Hw. eapply scope_serves; eauto using release_atomic.
  by apply release_implements.
Qed.

Lemma sweep_serves w v n q w0 :
  consistent v → obs w = quiet v n q w0 →
  serves Service.sweep_expired_reservations w
    (Spec.sweep (clock w0) (found_ids o (clock w0) Service.sweep_limit q v) v)
    (redis w0) w0.
Proof using P Ook.
  intros Hok Hw. eapply scope_serves; eauto; [by apply sweep_implements|].
  apply committed_atomic.
Qed.

(** The sweep of the reservations the query finds. *)
Lemma sweep_found v q now :
  consistent v → versions_below v (Z.of_nat Service.sweep_limit) →
  ∃ xs v',
    Spec.sweep now (found_ids o now Service.sweep_limit q v) v = (Ok xs, v')
    ∧ res_id <$> xs = found_ids o now Service.sweep_limit q v
    ∧ consistent v'
    ∧ length xs = Nat.min Service.sweep_limit (expired_count now v)
    ∧ NoDup (res_id <$> xs)
    ∧ Forall (λ x, status x = ReservationStatus.EXPIRED ∧ expires_at x < now
                   ∧ res_of v' (res_id x) = Some x
                   ∧ from_option status ReservationStatus.EXPIRED (res_of v (res_id x))
                     = ReservationStatus.PENDING) xs
    ∧ (∀ id, id ∉ res_id <$> xs → res_of v' id = res_of v id).
Proof using Ook.
  intros Hok Hv. set (ids := found_ids _ _ _ _ _).
  pose proof (found_ids_pending o now Service.sweep_limit q v Hok) as Hp.
  pose proof (found_ids_length o now Service.sweep_limit q v) as Hlen.
  fold ids in Hp, Hlen.
  destruct (release_all_pending now ids v Hok) as (xs & v' & Hall & Hc' & Hids & Hxs & Hout).
  { by apply found_ids_nodup. }
  { eapply Forall_impl; [exact Hp|]. intros id (x & ? & ? & ?). eauto. }
  { intros e i Hi. apply Hv in Hi. lia. }
  exists xs, v'. unfold Spec.sweep. rewrite Hall.
  split_and!; try done.
  - rewrite <- Hlen, <- Hids. by rewrite length_fmap.
  - rewrite Hids. by apply found_ids_nodup.
  - apply Forall_forall. intros y Hy. rewrite Forall_forall in Hxs.
    destruct (Hxs y Hy) as (Hy' & x & Hx & Hst & Heq).
    assert (Hin : res_id y ∈ ids) by (rewrite <- Hids; by apply list_elem_of_fmap_2).
    rewrite Forall_forall in Hp. destruct (Hp _ Hin) as (x' & Hx' & _ & Hexp).
    rewrite Hx in Hx' |- *. injection Hx' as <-. by rewrite Heq at 1 2.
  - intros id Hid. apply Hout. by rewrite <- Hids.
Qed.
(** [sweep_expired_reservations] always succeeds (version columns
    permitting) and releases, in one transaction, exactly as many expired
    pending reservations as there are, up to the limit of 100: each of them
    becomes EXPIRED, no other reservation changes, and the tables stay
    consistent. *)
Theorem sweep_releases_expired w v n q w0 :
  consistent v → obs w = quiet v n q w0 →
  versions_below v (Z.of_nat Service.sweep_limit) →
  ∃ xs v',
    serves Service.sweep_expired_reservations w (Ok xs, v') (redis w0) w0
    ∧ consistent v'
    ∧ length xs = Nat.min Service.sweep_limit (expired_count (clock w0) v)
    ∧ NoDup (res_id <$> xs)
    ∧ Forall (λ x, status x = ReservationStatus.EXPIRED ∧ expires_at x < clock w0
                   ∧ res_of v' (res_id x) = Some x
                   ∧ from_option status ReservationStatus.EXPIRED (res_of v (res_id x))
                     = ReservationStatus.PENDING) xs
    ∧ (∀ id, id ∉ res_id <$> xs → res_of v' id = res_of v id).
Proof using P Ook.
  intros Hok Hw Hv. pose proof (sweep_serves w v n q w0 Hok Hw) as Hserve.
  destruct (sweep_found v q (clock w0) Hok Hv) as (xs & v' & Heq & _ & Hrest).
  rewrite Heq in Hserve. by exists xs, v'.
Qed.
End contract.

(** ** Histories of calls *)

(** A call on the service. *)
Inductive request : Type :=
| Initialize (e : uuid) (capacity : Z)
| Adjust (e : uuid) (capacity : Z)
| Availability (e : uuid)
| Reserve (e order : uuid) (q : Z)
| Confirm (id : uuid)
| Release (id : uuid) (expired : bool)
| Sweep.

(** The call, its answer set aside. *)
Definition perform (self : InventoryService) (r : request) : M unit :=
  match r with
  | Initialize e c => Service.initialize_inventory e c ;; Ret tt
  | Adjust e c => Service.adjust_capacity self e c ;; Ret tt
  | Availability e => Service.get_availability e ;; Ret tt
  | Reserve e ord q => Service.reserve_seats self e ord q ;; Ret tt
  | Confirm id => Service.confirm_reservation id ;; Ret tt
  | Release id ex => Service.release_reservation id ex ;; Ret tt
  | Sweep => Service.sweep_expired_reservations ;; Ret tt
  end.

(** A request that does not cut a capacity below the seats in use. *)
Definition request_ok (r : request) (t : table) : Prop :=
  match r with
  | Initialize _ c => 0 ≤ c
  | Adjust e c => ∀ i, inv_of t e = Some i → reserved_count i + confirmed_count i ≤ c
  | _ => True
  end.

Section histories.
Variables (o : oracle) (self : InventoryService).
Context `{Ook : !OracleOk o}.

Definition safe (t : table) : Prop := consistent t ∧ capacity_respected t.

(** [p], run from a world with tables [v] and no open session, terminates
    with tables [v'] such that [Q] and no open session. *)
Definition lands {A} (p : M A) (v : table) (Q : table → Prop) : Prop :=
  ∀ w n q, inv_db w = Database v ∅ n q →
    ∃ r w' v' n' q', run (sys_exec o) p w = Some (r, w') ∧ inv_db w' = Database v' ∅ n' q' ∧ Q v'.

Lemma lands_forget {A} (p : M A) v Q : lands p v Q → lands (p ;; Ret tt) v Q.
Proof.
  intros H w n q Hw. destruct (H w n q Hw) as (r & w' & v' & n' & q' & Hrun & Hw' & HQ).
  rewrite run_bind, Hrun. destruct r; eauto 10.
Qed.

Lemma lands_scope {A} (body : nat → M A) v Q
    (spec : nat → world → result exn A * table) :
  (∀ q w, implements_at o q w body v (spec q w)) → (∀ q w, atomic v (spec q w)) →
  (∀ q w, Q (spec q w).2) →
  lands (session_scope body) v Q.
Proof.
  intros Hb Hat HQ w n q Hw. rewrite (quiet_self v n q w Hw).
  destruct (session_scope_run o w body v (spec q w) n q (Hb q w) (Hat q w))
    as (n' & q' & d & ->). eauto 10.
Qed.

Lemma lands_lock {A} l resource (p : M A) v (Q : table → Prop) :
  Q v → lands p v Q → lands (with_lock l resource p) v Q.
Proof.
  intros HQ H w n q Hw.
  destruct (with_lock_cases o l resource p w) as (w1 & Hdb & [[e Hrun]|[token Hrun]]).
  - rewrite Hrun. rewrite <- Hdb in Hw. eauto 10.
  - rewrite <- Hdb in Hw. destruct (H w1 n q Hw) as (r & w' & v' & n' & q' & Hp & Hw' & HQ').
    rewrite Hp in Hrun. rewrite Hrun. eexists r, _, v', n', q'. split; [done|].
    split; [|done]. unfold released. by destruct (redis_up w').
Qed.

Lemma release_all_safe now ids v xs v' :
  consistent v → Spec.release_all now ids v = Ok (xs, v') →
  consistent v' ∧ (capacity_respected v → capacity_respected v').
Proof.
  revert v xs. induction ids as [|id ids IH]; intros v xs Hc; cbn [Spec.release_all].
  { by intros [= <- <-]. }
  destruct (release_keeps v Hc now id true) as [Hc1 Hcap1].
  destruct (Spec.release now id true v) as [r v1] eqn:Hrel; simpl in *.
  destruct r as [y|e]; [|done]. simpl.
  destruct (Spec.release_all now ids v1) as [[ys v2]|e] eqn:Hall; [|done].
  intros [= <- <-]. destruct (IH _ _ Hc1 Hall). auto.
Qed.

(** The tables stay in order, and within capacity if [r] leaves them there. *)
Definition keeps_tables (r : request) (v v' : table) : Prop :=
  consistent v' ∧ (request_ok r v → capacity_respected v → capacity_respected v').

Lemma keeps_refl r v : consistent v → keeps_tables r v v.
Proof. by split. Qed.

Lemma keeps_operation r op v :
  consistent v → (request_ok r v → keeps_capacity op v) → keeps_tables r v (apply_operation op v).
Proof. intros Hc Hop. split; [by apply operation_consistent|]. auto using operation_capacity. Qed.

Lemma sweep_keeps now ids v : consistent v → keeps_tables Sweep v (Spec.sweep now ids v).2.
Proof.
  intros Hc. unfold Spec.sweep.
  destruct (Spec.release_all now ids v) as [[xs v']|e] eqn:Hall; simpl; [|by apply keeps_refl].
  destruct (release_all_safe _ _ _ _ _ Hc Hall). by split.
Qed.

Lemma perform_keeps r v : consistent v → lands (perform self r) v (keeps_tables r v).
Proof using Ook.
  intros Hc. destruct r as [e c|e c|e|e ord qty|id|id ex|]; cbn [perform]; apply lands_forget.
  - apply (lands_scope _ _ _ (λ _ _, Spec.initialize e c v)); intros.
    + by apply initialize_implements.
    + apply initialize_atomic.
    + by apply (keeps_operation _ (OpInitialize e c)).
  - apply lands_lock; [by apply keeps_refl|].
    apply (lands_scope _ _ _ (λ _ _, Spec.adjust e c v)); intros.
    + by apply adjust_implements.
    + apply adjust_atomic.
    + by apply (keeps_operation _ (OpAdjust e c)).
  - apply (lands_scope _ _ _ (λ _ _, Spec.availability e v)); intros.
    + by apply availability_implements.
    + apply availability_atomic.
    + by apply (keeps_operation _ (OpAvailability e)).
  - apply lands_lock; [by apply keeps_refl|]. eapply lands_scope; intros.
    + by apply reserve_implements.
    + apply reserve_atomic.
    + by apply (keeps_operation _ (OpReserve _ _ e ord qty _ _)).
  - eapply lands_scope; intros.
    + by apply confirm_implements.
    + apply confirm_atomic.
    + by apply (keeps_operation _ (OpConfirm _ id)).
  - eapply lands_scope; intros.
    + by apply release_implements.
    + apply release_atomic.
    + by apply (keeps_operation _ (OpRelease _ id ex)).
  - eapply lands_scope; intros.
    + by apply sweep_implements.
    + apply committed_atomic.
    + by apply sweep_keeps.
Qed.
End histories.

Section platform_histories.
Context {W : Type} (o : oracle) (impl : handler sys_op W) (obs : W → world).
Context `{P : !Platform (sys_exec o) impl obs} `{Ook : !OracleOk o}.
Variable self : InventoryService.

(** The worlds reachable from an empty inventory by calls made one after the
    other, any calls at all when [cuts] is true, only those that cut no capacity
    below the seats in use when it is false; in between anything but the
    inventory tables may change: time passes, Redis loses or gains keys, goes
    down or comes back. *)
Inductive history (cuts : bool) : W → Prop :=
| history_empty w n q : inv_db (obs w) = Database ∅ ∅ n q → history cuts w
| history_call w r x w' :
    history cuts w → cuts = true ∨ request_ok r (tbl (inv_db (obs w))) →
    run impl (perform self r) w = Some (x, w') → history cuts w'
| history_env w w' : history cuts w → inv_db (obs w') = inv_db (obs w) → history cuts w'.

Lemma perform_lands w t n q r :
  inv_db (obs w) = Database t ∅ n q → consistent t →
  ∃ x w' t' n' q', run impl (perform self r) w = Some (x, w')
    ∧ inv_db (obs w') = Database t' ∅ n' q' ∧ keeps_tables r t t'.
Proof using P Ook.
  intros Hdb Hc. destruct (perform_keeps o self r t Hc (obs w) n q Hdb)
    as (x & w1 & t' & n' & q' & Hrun & Hdb' & Ht').
  destruct (runs_to_doc (impl := impl) _ w _ _ Hrun) as (w' & Hrun' & Hobs).
  exists x, w', t', n', q'. by rewrite Hobs.
Qed.

Lemma history_invariant cuts w :
  history cuts w → ∃ t n q, inv_db (obs w) = Database t ∅ n q ∧ consistent t
    ∧ (cuts = false → capacity_respected t).
Proof using P Ook.
  induction 1 as [w n q Hw|w r x w' _ (t & n & q & Hdb & Hc & Hcap) Hok Hrun|w w' _ IH Heq].
  - exists ∅, n, q. split; [done|]. split; [apply empty_consistent|].
    intros _ e i. unfold inv_of. by rewrite lookup_empty.
  - rewrite Hdb in Hok. destruct (perform_lands w t n q r Hdb Hc)
      as (x' & w1 & t' & n' & q' & Hrun' & Hdb' & Hc' & Hcap').
    rewrite Hrun in Hrun'. injection Hrun' as _ <-. exists t', n', q'.
    split; [done|]. split; [done|]. intros ->. destruct Hok as [|Hok]; [done|]. auto.
  - by rewrite Heq.
Qed.

(** C5. Whatever calls are made on the service one after the other, from an
    empty inventory on, in whatever state Redis is: the counters of an event are
    exactly the seats its PENDING and CONFIRMED reservations hold, and no
    session stays open; and as long as no call has cut a capacity below the
    seats in use (or made one negative), those seats never exceed the
    capacity. *)
Theorem never_oversold cuts w e i :
  history cuts w → inv_of (tbl (inv_db (obs w))) e = Some i →
  let held st := seats_held e st (tbl (inv_db (obs w))) in
  reserved_count i = held ReservationStatus.PENDING
  ∧ confirmed_count i = held ReservationStatus.CONFIRMED
  ∧ (cuts = false →
     held ReservationStatus.PENDING + held ReservationStatus.CONFIRMED ≤ total_capacity i)
  ∧ sessions (inv_db (obs w)) = ∅.
Proof using P Ook.
  intros Hh Hi. destruct (history_invariant cuts w Hh) as (t & n & q & Hdb & Hc & Hcap).
  rewrite Hdb in Hi |- *. simpl in Hi |- *.
  split_and!; eauto using reserved_is_held, confirmed_is_held, sold_within_capacity.
Qed.

End platform_histories.

(** ** A sample inventory *)
Definition sample_event : uuid := uuid_of_N 1.
Definition sample_held : uuid := uuid_of_N 11.
Definition sample_other : uuid := uuid_of_N 12.

(** Ten seats: six held by one reservation, four by another. *)
Definition sample_operations : list operation :=
  [ OpInitialize sample_event 10;
    OpReserve 0 sample_held sample_event (uuid_of_N 21) 6 600 5;
    OpReserve 0 sample_other sample_event (uuid_of_N 22) 4 600 5 ].

Definition sample_tables : table := apply_operations sample_operations ∅.
Definition sample_world : world := set_inv_db (Database sample_tables ∅ 0 0) initial_world.

Lemma sample_safe : safe sample_tables.
Proof.
  split.
  - apply operations_consistent, empty_consistent.
  - apply operations_capacity; [apply empty_consistent | simpl; lia |].
    intros e i. unfold inv_of. by rewrite lookup_empty.
Qed.

Definition sample_lock : RedisLock := lock default_service.

Lemma sample_lock_free e : lock_free e initial_world.
Proof. split; [done|]. unfold redis_get. simpl. by rewrite lookup_empty. Qed.

Lemma sample_lock_usable : lock_usable (lock default_service).
Proof. split; simpl; lia. Qed.

(** The call, made in the sample world, serves [spec]. *)
Definition sample_serves {A} (p : M A) (spec : result exn A * table) (r : redis_db) : Prop :=
  serves (sys_exec sample_oracle) id p sample_world spec r initial_world.

Lemma reserve_seats_refines_witness :
  sample_serves (Service.reserve_seats default_service sample_event (uuid_of_N 31) 3)
    (Spec.reserve 0 (uuid_of_N 1001) sample_event (uuid_of_N 31) 3 600 5 sample_tables)
    (delete (lock_key (event_resource sample_event)) ∅).
Proof.
  apply (reserve_seats_refines sample_oracle (sys_exec sample_oracle) id default_service
           sample_event (uuid_of_N 31) 3 sample_world sample_tables 0 0 initial_world).
  - apply sample_safe.
  - reflexivity.
  - apply sample_lock_free.
  - apply sample_lock_usable.
Defined.

Lemma adjust_capacity_refines_witness :
  sample_serves (Service.adjust_capacity default_service sample_event 25)
    (Spec.adjust sample_event 25 sample_tables)
    (delete (lock_key (event_resource sample_event)) ∅).
Proof.
  apply (adjust_capacity_refines sample_oracle (sys_exec sample_oracle) id default_service
           sample_event 25 sample_world sample_tables 0 0 initial_world).
  - apply sample_safe.
  - reflexivity.
  - apply sample_lock_free.
  - apply sample_lock_usable.
Defined.

Lemma initialize_inventory_refines_witness :
  sample_serves (Service.initialize_inventory (uuid_of_N 2) 50)
    (Spec.initialize (uuid_of_N 2) 50 sample_tables) ∅.
Proof.
  apply (initialize_inventory_refines sample_oracle (sys_exec sample_oracle) id
           (uuid_of_N 2) 50 sample_world sample_tables 0 0 initial_world).
  - apply sample_safe.
  - reflexivity.
Defined.

Lemma get_availability_refines_witness :
  sample_serves (Service.get_availability sample_event)
    (Spec.availability sample_event sample_tables) ∅.
Proof.
  apply (get_availability_refines sample_oracle (sys_exec sample_oracle) id
           sample_event sample_world sample_tables 0 0 initial_world).
  - apply sample_safe.
  - reflexivity.
Defined.

Lemma confirm_reservation_refines_witness :
  sample_serves (Service.confirm_reservation sample_held)
    (Spec.confirm 0 sample_held sample_tables) ∅.
Proof.
  apply (confirm_reservation_refines sample_oracle (sys_exec sample_oracle) id
           sample_held sample_world sample_tables 0 0 initial_world).
  - apply sample_safe.
  - reflexivity.
Defined.

Lemma release_reservation_refines_witness :
  sample_serves (Service.release_reservation sample_held false)
    (Spec.release 0 sample_held false sample_tables) ∅.
Proof.
  apply (release_reservation_refines sample_oracle (sys_exec sample_oracle) id
           sample_held false sample_world sample_tables 0 0 initial_world).
  - apply sample_safe.
  - reflexivity.
Defined.

(** Past the expiry of every sample reservation. *)
Definition late_world : world := set_clock (601 * second) initial_world.

(** [versions_below], decided on the rows of a table. *)
Definition version_margin (k : Z) (kr : inv_key * inv_row) : bool :=
  match kr.2 with RInv i => version i + k <=? int32_max | RRes _ => true end.

Lemma versions_below_check t k :
  forallb (version_margin k) (map_to_list t) = true → versions_below t k.
Proof.
  intros H e i Hi. apply inv_of_lookup, elem_of_map_to_list, list_elem_of_In in Hi.
  rewrite forallb_forall in H. apply H in Hi. unfold version_margin in Hi. simpl in Hi. lia.
Qed.

Lemma sweep_releases_expired_witness :
  let v := sample_tables in
  ∃ xs v',
    serves (sys_exec sample_oracle) id Service.sweep_expired_reservations
      (quiet v 0 0 late_world) (Ok xs, v') ∅ late_world
    ∧ consistent v'
    ∧ length xs = 2%nat
    ∧ NoDup (res_id <$> xs)
    ∧ Forall (λ x, status x = ReservationStatus.EXPIRED ∧ expires_at x < 601 * second
                   ∧ res_of v' (res_id x) = Some x
                   ∧ from_option status ReservationStatus.EXPIRED (res_of v (res_id x))
                     = ReservationStatus.PENDING) xs
    ∧ (∀ id, id ∉ res_id <$> xs → res_of v' id = res_of v id).
Proof.
  apply (sweep_releases_expired sample_oracle (sys_exec sample_oracle) id
           (quiet sample_tables 0 0 late_world) sample_tables 0 0 late_world).
  - apply sample_safe.
  - reflexivity.
  - apply versions_below_check. vm_compute. reflexivity.
Defined.

(** An event is initialised and four of its ten seats are booked. *)
Definition sample_calls : list request :=
  [ Initialize sample_event 10; Reserve sample_event (uuid_of_N 21) 4 ].

Fixpoint run_calls (rs : list request) (w : world) : option world :=
  match rs with
  | [] => Some w
  | r :: rs =>
      match run (sys_exec sample_oracle) (perform default_service r) w with
      | Some (_, w') => run_calls rs w'
      | None => None
      end
  end.

Lemma run_calls_history cuts rs w w' :
  history (sys_exec sample_oracle) id default_service cuts w →
  Forall (λ r, cuts = true ∨ ∀ t, request_ok r t) rs → run_calls rs w = Some w' →
  history (sys_exec sample_oracle) id default_service cuts w'.
Proof.
  revert w. induction rs as [|r rs IH]; intros w Hw Hok; cbn [run_calls]; [by intros [= <-]|].
  inversion Hok as [|? ? Hr Hrs]; subst.
  destruct (run _ _ w) as [[x w1]|] eqn:Hrun; [|done]. apply IH; [|done].
  eapply history_call; [done| |exact Hrun]. destruct Hr; auto.
Qed.

Lemma sample_calls_end :
  match run_calls sample_calls initial_world with
  | Some w => reserved_count <$> inv_of (tbl (inv_db w)) sample_event
  | None => None
  end = Some 4.
Proof. vm_compute. reflexivity. Qed.

Lemma sample_calls_ok : Forall (λ r, false = true ∨ ∀ t, request_ok r t) sample_calls.
Proof. repeat (apply Forall_cons; split; [right; simpl; lia|]). constructor. Qed.

Lemma never_oversold_witness :
  match run_calls sample_calls initial_world with
  | Some w =>
      match inv_of (tbl (inv_db w)) sample_event with
      | Some i =>
          let held st := seats_held sample_event st (tbl (inv_db w)) in
          reserved_count i = held ReservationStatus.PENDING
          ∧ confirmed_count i = held ReservationStatus.CONFIRMED
          ∧ (false = false →
             held ReservationStatus.PENDING + held ReservationStatus.CONFIRMED ≤ total_capacity i)
          ∧ sessions (inv_db w) = ∅
      | None => False
      end
  | None => False
  end.
Proof.
  pose proof sample_calls_end as H.
  destruct (run_calls sample_calls initial_world) as [w|] eqn:Hrun; [|discriminate H].
  destruct (inv_of (tbl (inv_db w)) sample_event) as [i|] eqn:Hi; [|discriminate H].
  apply (never_oversold sample_oracle (sys_exec sample_oracle) id default_service false w sample_event i);
    [|exact Hi].
  refine (run_calls_history false sample_calls initial_world w _ sample_calls_ok Hrun).
  by eapply history_empty.
Defined.

(** The capacity is cut below the four seats booked. *)
Definition cut_calls : list request := sample_calls ++ [Adjust sample_event 2].

Lemma cut_calls_end :
  match run_calls cut_calls initial_world with
  | Some w => available <$> inv_of (tbl (inv_db w)) sample_event
  | None => None
  end = Some (-2).
Proof. vm_compute. reflexivity. Qed.

