(* ===== verification/CallBounds.v ===== *)
(** * How long a call can take

    The operations a call on the Inventory service performs, whatever it is
    answered: a number that its settings bound.  So in any pool of concurrent
    calls, however they are scheduled and whatever else changes the world, no
    call goes on for ever: neither the attempts at the lock, nor the optimistic
    retries, nor a sweep. *)
From S2P Require Import Prelude Effects Interleaving Uuid Domain Orm Redis.
From S2P Require Import InventoryModels.
From S2P Require Import Platform InventoryRepository Locking InventoryService.
From S2P Require Import InventorySpec InventoryInvariant InventoryCorrectness.

(** ** Programs within a budget *)
Section budget.
Context {E : Type → Type} {X : Type} (possible : ∀ B : Type, E B → B → Prop).

(** [p] performs at most [n] operations, as long as their answers are possible,
    and returns, if it does, a value in [Q]. *)
Fixpoint within {A} (p : prog E X A) (n : nat) (Q : A → Prop) : Prop :=
  match p with
  | Ret a => Q a
  | Raise _ => True
  | Vis op k =>
      match n with
      | O => False
      | S n => ∀ b, possible _ op b → within (k b) n Q
      end
  end.

Lemma within_mono {A} (p : prog E X A) n m (Q R : A → Prop) :
  (n ≤ m)%nat → (∀ a, Q a → R a) → within p n Q → within p m R.
Proof using.
  intros Hle HQ. revert n m Hle. induction p as [a|e|B op k IH]; intros n m Hle; simpl; auto.
  destruct n as [|n]; [done|]. destruct m as [|m]; [lia|]. intros H b Hb.
  apply (IH b n); [lia | auto].
Qed.

Lemma within_bind {A C} (p : prog E X A) (f : A → prog E X C) n m Q R :
  within p n Q → (∀ a, Q a → within (f a) m R) → within (bind p f) (n + m) R.
Proof using.
  intros Hp Hf. revert n Hp. induction p as [a|e|B op k IH]; intros n Hp; simpl in *; auto.
  - eapply within_mono; [|done|by apply Hf]. lia.
  - destruct n as [|n]; [done|]. simpl. auto.
Qed.

Lemma within_attempt {A} (p : prog E X A) n Q :
  within p n Q → within (attempt p) n (λ r, match r with Ok a => Q a | Err _ => True end).
Proof using.
  revert n. induction p as [a|e|B op k IH]; intros n; simpl; auto. destruct n as [|n]; auto.
Qed.

Lemma within_of_result {A} (r : result X A) n (Q : A → Prop) :
  (∀ a, r = Ok a → Q a) → within (of_result r) n Q.
Proof using. destruct r; simpl; auto. Qed.

Lemma within_try_except {A} (p : prog E X A) hd n m Q :
  within p n Q → (∀ e, within (hd e) m Q) → within (try_except p hd) (n + m) Q.
Proof using.
  intros Hp Hh. eapply within_bind; [by apply within_attempt|]. intros [a|e] Ha; [done | apply Hh].
Qed.

Lemma within_try_finally {A} (p : prog E X A) c n m Q :
  within p n Q → within c m (λ _, True) → within (try_finally p c) (n + m) Q.
Proof using.
  intros Hp Hc. eapply within_bind; [by apply within_attempt|]. intros r Hr.
  rewrite <- (Nat.add_0_r m). eapply within_bind; [exact Hc|]. intros _ _.
  apply within_of_result. by intros a ->.
Qed.

Lemma within_for_each {A C} (f : A → prog E X C) xs n :
  (∀ x, within (f x) n (λ _, True)) → within (for_each f xs) (length xs * n) (λ _, True).
Proof using.
  intros Hf. induction xs as [|x xs IH]; simpl; [done|].
  eapply within_bind; [apply Hf|]. intros y _.
  rewrite <- (Nat.add_0_r (length xs * n)). by eapply within_bind; [exact IH|].
Qed.

(** *** Pools *)
Context {S A : Type} (h : handler E S) (env : S → S → Prop).

(** [scheduled turns c c']: from [c] to [c'] the threads move in the order [turns]; the
    environment changes the state in between as it likes. *)
Inductive scheduled : list nat → pool E X A * S → pool E X A * S → Prop :=
| scheduled_nil c : scheduled [] c c
| scheduled_thread i turns ts s B (op : E B) k b s' c :
    ts !! i = Some (Vis op k) → h B op s = Some (b, s') →
    scheduled turns (<[i := k b]> ts, s') c → scheduled (i :: turns) (ts, s) c
| scheduled_env turns ts s s' c :
    env s s' → scheduled turns (ts, s') c → scheduled turns (ts, s) c.

Lemma run_schedule_scheduled turns c c' : run_schedule h turns c = Some c' → scheduled turns c c'.
Proof using.
  revert c. induction turns as [|i turns IH]; intros [ts s] H; simpl in H; [injection H as <-; constructor|].
  destruct (ts !! i) as [[a|e|B op k]|] eqn:Hi; try done.
  destruct (h B op s) as [[b s']|] eqn:Hh; [|done]. eapply scheduled_thread; eauto.
Qed.

Definition moves (i : nat) (turns : list nat) : nat := length (filter (λ j, j = i) turns).

Lemma sum_list_spent (ns : list nat) i n :
  ns !! i = Some (Datatypes.S n) → sum_list ns = Datatypes.S (sum_list (<[i := n]> ns)).
Proof using.
  revert i. induction ns as [|m ns IH]; intros [|i] H; simpl in *; try done.
  - by injection H as ->.
  - rewrite (IH i H). lia.
Qed.

Hypothesis answers : ∀ B (op : E B) s b s', h B op s = Some (b, s') → possible B op b.

(** Threads within budgets move no more often than these allow. *)
Lemma scheduled_within turns c c' ns :
  scheduled turns c c' → Forall2 (λ t n, within t n (λ _, True)) c.1 ns →
  (∀ i n, ns !! i = Some n → moves i turns ≤ n)%nat ∧ (length turns ≤ sum_list ns)%nat.
Proof using answers.
  intros Hs. revert ns. induction Hs as [c|i turns ts s B op k b s' c Hi Hh _ IH|turns ts s s' c _ _ IH];
    intros ns Hns; [| |by apply IH].
  - split; [|simpl; lia]. intros. unfold moves. simpl. lia.
  - destruct (Forall2_lookup_l _ _ _ _ _ Hns Hi) as ([|n] & Hn & Hw); [done|].
    destruct (IH (<[i := n]> ns)) as [Hm Hl].
    { apply Forall2_insert; [exact Hns|]. apply Hw. by eapply answers. }
    split; [|simpl; rewrite (sum_list_spent _ _ _ Hn); lia].
    intros j m Hj. unfold moves in *. rewrite filter_cons. case_decide as Hij.
    + subst j. rewrite Hn in Hj. injection Hj as <-. simpl.
      specialize (Hm i n). rewrite list_lookup_insert_eq in Hm by (by eapply lookup_lt_Some).
      specialize (Hm eq_refl). lia.
    + apply (Hm j m). by rewrite list_lookup_insert_ne.
Qed.
End budget.

(** ** Calls on the service *)

(** What the databases may answer: a query with a limit no more rows than that. *)
Definition possible (B : Type) (op : sys_op B) : B → Prop :=
  match op in sys_op B return B → Prop with
  | InvDb op =>
      match op in orm_op _ _ B return B → Prop with
      | Select _ q => λ r, ∀ rows l, r = Ok rows → q_limit q = Some l → (length rows ≤ l)%nat
      | _ => λ _, True
      end
  | _ => λ _, True
  end.

Abbreviation takes p n := (within possible p n (λ _, True)).

(** Follows a program without loops, counting. *)
Ltac count :=
  repeat (progress cbn || intro ||
          match goal with
          | |- True => exact I
          | b : result _ _ |- _ => destruct b
          | |- context [match ?x with _ => _ end] => destruct x
          end).

Lemma session_takes {A} (body : nat → M A) n :
  (∀ s, takes (body s) n) → takes (session_scope body) (n + 4).
Proof.
  intros Hb. replace (n + 4)%nat with (1 + ((n + 1 + 1) + 1))%nat by lia. unfold session_scope.
  apply (within_bind _ _ _ _ _ (λ _, True)); [done|]. intros s _. apply within_try_finally; [|done].
  apply within_try_except.
  - eapply within_bind; [apply Hb|]. intros a _. count.
  - intros e. done.
Qed.

Lemma try_acquire_takes l key token k : takes (try_acquire l key token k) (2 * k).
Proof.
  induction k as [|k IH]; [done|]. replace (2 * S k)%nat with (S (S (2 * k))) by lia.
  cbn. by intros [[|]|e] _; cbn.
Qed.

Lemma lock_takes {A} l resource (p : M A) n :
  takes p n → takes (with_lock l resource p) (2 * retry_attempts l + n + 2).
Proof.
  intros Hp. replace (2 * retry_attempts l + n + 2)%nat with (1 + (2 * retry_attempts l + (n + 1)))%nat by lia.
  apply (within_bind _ _ _ _ _ (λ _, True)); [done|]. intros token _.
  eapply within_bind; [apply try_acquire_takes|]. intros [|] _; [|done].
  apply within_try_finally; [exact Hp|]. count.
Qed.

Lemma reserve_takes s e order q ttl max k : takes (reserve_attempts s e order q ttl max k) (7 * k).
Proof.
  induction k as [|k IH]; [done|]. replace (7 * S k)%nat with (7 + 7 * k)%nat by lia.
  cbn. intros [r|err] _; cbn; [|done]. destruct (as_inventory r) as [i|]; cbn; [|done].
  destruct (available i <? q); [done|]. cbn. intros _ _ now _ id _ _ _ [[]|err] _; cbn.
  - intros r' _. by destruct (as_reservation r').
  - destruct err; try done. intros _ _. exact IH.
Qed.

Lemma release_takes s id ex : takes (InventoryRepository.release s id ex) 6.
Proof. count. Qed.

Lemma confirm_takes s id : takes (InventoryRepository.confirm s id) 7.
Proof. count. Qed.

Lemma find_takes s limit :
  within possible (find_expired_pending s limit) 2 (λ xs, (length xs ≤ limit)%nat).
Proof.
  intros now _ r Hr. apply within_bind with (n := O) (m := O) (Q := λ rows, (length rows ≤ limit)%nat).
  - apply within_of_result. intros rows ->. by apply (Hr rows limit).
  - intros rows Hrows. cbn. etrans; [|exact Hrows]. unfold reservations_of.
    clear. induction rows as [|[i|x] rows IH]; csimpl in *; lia.
Qed.

(** The operations a call may take, by the settings of the service. *)
Definition lock_budget (l : RedisLock) : nat := (2 * retry_attempts l + 2)%nat.

Definition budget (self : InventoryService) (r : request) : nat :=
  match r with
  | Initialize _ _ => 8
  | Adjust _ _ => lock_budget (lock self) + 8
  | Availability _ => 5
  | Reserve _ _ _ => lock_budget (lock self) + 7 * optimistic_retry_attempts self + 4
  | Confirm _ => 11
  | Release _ _ => 10
  | Sweep => 6 * Service.sweep_limit + 6
  end%nat.

Lemma forget_takes {A} (p : M A) n : takes p n → takes (p ;; Ret tt) n.
Proof. intros Hp. rewrite <- (Nat.add_0_r n). by eapply within_bind. Qed.

Lemma perform_takes self r : takes (perform self r) (budget self r).
Proof.
  destruct r as [e c|e c|e|e ord q|id|id ex|]; cbn [perform budget]; apply forget_takes.
  - apply (session_takes _ 4). intros s. count.
  - eapply within_mono; [|done|apply lock_takes, (session_takes _ 4)]; [unfold lock_budget; lia|].
    intros s. count.
  - apply (session_takes _ 1). intros s. count.
  - eapply within_mono;
      [|done|apply lock_takes, (session_takes _ (7 * optimistic_retry_attempts self))];
      [unfold lock_budget; lia|].
    intros s. unfold reserve. destruct (q <=? 0); [done|]. apply reserve_takes.
  - apply (session_takes _ 7). intros s. apply confirm_takes.
  - apply (session_takes _ 6). intros s. apply release_takes.
  - apply (session_takes _ (2 + Service.sweep_limit * 6)). intros s.
    eapply within_bind; [apply find_takes|]. intros xs Hxs.
    eapply within_mono; [|done|apply within_for_each; intros x; apply release_takes]. by apply Nat.mul_le_mono_r.
Qed.

Section pools.
Context {W : Type} (o : oracle) (impl : handler sys_op W) (obs : W → world).
Context `{P : !Platform (sys_exec o) impl obs}.
Variables (self : InventoryService) (env : W → W → Prop).

Lemma answers_possible B (op : sys_op B) w b w' : impl B op w = Some (b, w') → possible B op b.
Proof using P.
  intros Hop. pose proof (platform_step (impl := impl) B op w) as Hdoc. rewrite Hop in Hdoc. clear Hop.
  destruct op as [B op|B op|B op| | | | | | | | |]; try done.
  destruct op as [|s|s k|s q|s p|s k f|s k|s r|s k|s|s|s|s]; try done.
  simpl in Hdoc. destruct (sessions _ !! s); injection Hdoc as -> _; intros rows l; [|done].
  intros [= <-] Hl. rewrite length_map. unfold run_query. rewrite Hl, length_take. lia.
Qed.

(** C38. A call takes a bounded number of operations, whatever runs beside it.
    In any pool of calls on the service, however their operations are
    interleaved and whatever is done to the world in between (locks taken, rows
    changed, Redis or the clock moved by anyone), each call performs no more
    operations than its budget, which the settings fix: the attempts at the lock
    and the optimistic retries of a reservation, a hundred releases of a sweep.
    So the pool as a whole moves a bounded number of times. *)
Theorem calls_bounded rs turns w c :
  scheduled impl env turns (perform self <$> rs, w) c →
  (∀ i r, rs !! i = Some r → moves i turns ≤ budget self r)%nat
  ∧ (length turns ≤ sum_list (budget self <$> rs))%nat.
Proof using P.
  intros Hs. destruct (scheduled_within possible impl env answers_possible turns _ c (budget self <$> rs) Hs)
    as [Hm Hl].
  - apply Forall2_fmap, Forall_Forall2_diag, Forall_true. intros r. apply perform_takes.
  - split; [|exact Hl]. intros i r Hr. apply Hm. by rewrite list_lookup_fmap, Hr.
Qed.
End pools.

(** Two requests for the same seats, the second waiting for the lock. *)
Definition rival_calls : list request :=
  [ Reserve sample_event (uuid_of_N 21) 4; Reserve sample_event (uuid_of_N 22) 4 ].

Definition rival_turns : list nat := [0; 1; 0; 1; 1; 0; 0; 1; 1]%nat.

Lemma calls_bounded_witness :
  match run_schedule (sys_exec sample_oracle) rival_turns (perform default_service <$> rival_calls, sample_world) with
  | Some _ => (moves 1 rival_turns ≤ 61)%nat ∧ (length rival_turns ≤ 122)%nat
  | None => False
  end.
Proof.
  destruct (run_schedule _ rival_turns _) as [c|] eqn:Hrun; [|vm_compute in Hrun; discriminate Hrun].
  apply (run_schedule_scheduled _ (λ _ _, False)) in Hrun.
  destruct (calls_bounded sample_oracle (sys_exec sample_oracle) id default_service (λ _ _, False)
    rival_calls rival_turns sample_world c Hrun) as [Hm Hl].
  split; [exact (Hm 1%nat _ eq_refl) | exact Hl].
Defined.
