(* ===== verification/RpcCorrectness.v ===== *)
(** * Calls through gRPC

    What a client of the Inventory service sees: the atomic specification's
    outcome with each error in its translation, and, when the network loses the
    request or the reply, an error with the service's work not done or done. *)
From S2P Require Import Prelude Effects Json Uuid Domain Orm Redis InventoryModels.
From S2P Require Import Platform.
From S2P Require Import InventoryRepository Locking InventoryService InventoryServicer.
From S2P Require Import InventorySpec InventoryInvariant LockingFacts.
From S2P Require Import InventoryRefinement.
From S2P Require Import InventoryCorrectness.

(** ** One call *)
Section calls.
Variable o : oracle.

(** The status of a handler's exception, as the client's runtime reports it. *)
Definition status_of (e : exn) : StatusCode * string :=
  match e with
  | RpcError code details => (code, details)
  | _ => (UNKNOWN, rpc_details o e)
  end.

(** The error [translate] makes of it. *)
Definition client_error (e : exn) : exn :=
  domain_error (status_of e).1 (status_of e).2.

Lemma run_reply {A} (h : M A) w :
  run (sys_exec o) (reply h) w
  = match run (sys_exec o) h w with
    | Some (Ok a, w') => Some (Ok (Ok a), w')
    | Some (Err e, w') => Some (Ok (Err (status_of e)), w')
    | None => None
    end.
Proof.
  unfold reply. rewrite run_bind, run_attempt.
  destruct (run (sys_exec o) h w) as [[[a|e] w']|]; [done| |done].
  by destruct e.
Qed.

(** A translated call, whatever the network does. *)
Lemma run_call_rpc {A} (h : M A) w :
  run (sys_exec o) (translate (rpc h)) w
  = match fault w with
    | LostRequest code => Some (Err (domain_error code ""), w)
    | LostReply code =>
        match run (sys_exec o) h w with
        | Some (_, w') => Some (Err (domain_error code ""), w')
        | None => None
        end
    | NoFault =>
        match run (sys_exec o) h w with
        | Some (Ok a, w') => Some (Ok a, w')
        | Some (Err e, w') => Some (Err (client_error e), w')
        | None => None
        end
    end.
Proof.
  unfold translate, rpc. rewrite run_try_except, run_bind, run_trigger.
  simpl (sys_exec _ _ _ _). cbv iota beta. destruct (fault w) as [|c|c].
  - rewrite run_bind, run_reply.
    destruct (run (sys_exec o) h w) as [[[a|e] w']|]; [done| |done].
    unfold client_error. by destruct (status_of e).
  - done.
  - rewrite run_bind, run_reply. by destruct (run (sys_exec o) h w) as [[[a|e] w']|].
Qed.

Lemma proto_int32_ok z : int32_ok z = true → proto_int32 z = Ok z.
Proof. unfold proto_int32. by intros ->. Qed.

(** How [ReserveSeats] reports the service's exceptions. *)
Definition reserve_status (e : exn) : exn :=
  match e with
  | NotFoundError m => RpcError NOT_FOUND m
  | CapacityExceededError m => RpcError FAILED_PRECONDITION m
  | ConflictError m => RpcError ABORTED m
  | LockAcquisitionError m => RpcError RESOURCE_EXHAUSTED m
  | _ => e
  end.

Definition not_found_status (e : exn) : exn :=
  match e with NotFoundError m => RpcError NOT_FOUND m | _ => e end.

Definition response_of (message : string) (r : Reservation) : ReservationResponse :=
  mkReservationResponse true message (uuid_str (res_id r)) (uuid_str (res_event_id r))
    (uuid_str (res_order_id r)) (quantity r) (_status_to_proto (status r))
    (unix_seconds (expires_at r)).

Lemma run_ReserveSeats self e ord q w :
  run (sys_exec o) (ReserveSeats self (uuid_str e) (uuid_str ord) q) w
  = match run (sys_exec o) (Service.reserve_seats self e ord q) w with
    | Some (Ok r, w') =>
        Some (if int32_ok (quantity r) then Ok (response_of "Reservation created" r)
              else Err (ValueError ("Value out of range: " +s pretty (quantity r))), w')
    | Some (Err e, w') => Some (Err (reserve_status e), w')
    | None => None
    end.
Proof.
  unfold ReserveSeats. rewrite !UUID_str. cbn [of_result]. rewrite run_bind, run_try_except.
  simpl (bind (Ret _) _).
  destruct (run (sys_exec o) (Service.reserve_seats self e ord q) w) as [[[r|err] w']|]; [| |done].
  - unfold _reservation_to_proto, proto_int32. by destruct (int32_ok (quantity r)).
  - by destruct err.
Qed.

Lemma run_on_not_found_reservation (p : M Reservation) message w :
  run (sys_exec o) (reservation <- on_not_found p ;; _reservation_to_proto reservation message) w
  = match run (sys_exec o) p w with
    | Some (Ok r, w') =>
        Some (if int32_ok (quantity r) then Ok (response_of message r)
              else Err (ValueError ("Value out of range: " +s pretty (quantity r))), w')
    | Some (Err e, w') => Some (Err (not_found_status e), w')
    | None => None
    end.
Proof.
  unfold on_not_found. rewrite run_bind, run_try_except.
  destruct (run (sys_exec o) p w) as [[[r|err] w']|]; [| |done].
  - unfold _reservation_to_proto, proto_int32. by destruct (int32_ok (quantity r)).
  - by destruct err.
Qed.
End calls.

(** ** Outcomes of the client's calls *)

(** A call's outcome through the network: the answer is lost with the request
    or the reply. *)
Definition through {A C} (f : rpc_fault) (answer : A → C) (error : exn → exn)
    (r : result exn A) : result exn C :=
  match f with
  | NoFault => match r with Ok a => Ok (answer a) | Err e => Err (error e) end
  | LostRequest code | LostReply code => Err (domain_error code "")
  end.

(** Whether the service has run. *)
Definition arrived (f : rpc_fault) : bool :=
  match f with LostRequest _ => false | _ => true end.

Definition reservation_result (r : Reservation) : ReservationResult :=
  mkReservationResult (uuid_str (res_id r)) (unix_seconds (expires_at r)).

Lemma reserve_quantity now id e ord q ttl k v r :
  (Spec.reserve now id e ord q ttl k v).1 = Ok r → quantity r = q.
Proof.
  unfold Spec.reserve. case_goal; [done|]. case_decide; [done|]. case_goal; [|done].
  case_goal; [done|]. destruct (Spec.book _ _ _ _ _ _ _ _) as [[r' t']|e'] eqn:Hb; [|done].
  intros [= <-]. unfold Spec.book in Hb.
  apply then_Ok in Hb as (t1 & _ & Hb). apply then_Ok in Hb as (t2 & _ & Hb). by injection Hb as <- _.
Qed.

Section contract.
Context {W : Type} (o : oracle) (impl : handler sys_op W) (obs : W → world).
Context `{P : !Platform (sys_exec o) impl obs}.
Variable self : InventoryService.

(** A program answered as [spec] is through the network [fault w0]: the tables
    are [spec]'s if the service was reached, and unchanged otherwise. *)
Definition serves_through {A C} (p : M C) (w : W) (v : table) (spec : result exn A * table)
    (answer : A → C) (error : exn → exn) (w0 : world) : Prop :=
  ∃ n q r d,
    runs_to impl obs p w (through (fault w0) answer error spec.1)
      (quiet (if arrived (fault w0) then spec.2 else v) n q (set_redis r (advance d w0))).

Lemma call_serves {A C} (service : M A) (client : M C) w v spec r0 n q w0
    (answer : A → C) (error : exn → exn) :
  obs w = quiet v n q w0 →
  serves impl obs service w spec r0 w0 →
  (∀ w', run (sys_exec o) service (obs w) = Some (spec.1, w') →
    run (sys_exec o) client (obs w)
    = Some (through (fault w0) answer error spec.1,
            if arrived (fault w0) then w' else obs w)) →
  serves_through client w v spec answer error w0.
Proof using P.
  intros Hw (n' & q' & d & Hrun) Hclient. apply (runs_to_inv (doc := sys_exec o)) in Hrun.
  specialize (Hclient _ Hrun). destruct (arrived (fault w0)) eqn:Harr.
  - exists n', q', r0, d. apply runs_to_doc. by rewrite Harr.
  - exists n, q, (redis w0), 0%nat. apply runs_to_doc. rewrite Harr, Hclient, Hw.
    rewrite advance_0. by destruct w0.
Qed.

Lemma client_reserve_serves e ord qty w v n q w0 :
  consistent v → obs w = quiet v n q w0 → lock_free e w0 → lock_usable (lock self) →
  int32_ok qty = true →
  serves_through (Client.reserve_seats self e ord qty) w v
    (Spec.reserve (clock w0) (uuid_draw o (S (draws w0))) e ord qty
       (reservation_ttl_seconds self) (optimistic_retry_attempts self) v)
    reservation_result (λ err, client_error o (reserve_status err)) w0.
Proof using P.
  intros Hok Hw Hlf Hlu Hq. eapply call_serves; [exact Hw | |].
  { eapply locked_serves; eauto using reserve_atomic.
    intros w1 Hc Hd. rewrite <- Hc, <- Hd. by apply reserve_implements. }
  intros w' Hrun. unfold Client.reserve_seats.
  rewrite (bind_of_result_Ok _ qty) by (by apply proto_int32_ok).
  rewrite run_bind, run_call_rpc, run_ReserveSeats.
  change (with_lock _ _ _) with (Service.reserve_seats self e ord qty) in Hrun.
  rewrite Hrun, Hw. change (fault (quiet v n q w0)) with (fault w0).
  set (spec := Spec.reserve _ _ _ _ _ _ _ _) in *.
  destruct (fault w0); [|done|]; destruct spec.1 as [r|err] eqn:Hr; try done.
  apply reserve_quantity in Hr. by rewrite Hr, Hq.
Qed.

(** An operation on the reservation a text names. *)
Definition by_text {A} (f : uuid → result exn A * table) (text : string) (v : table)
    : result exn A * table :=
  match UUID text with Ok id => f id | Err e => (Err e, v) end.

Lemma by_text_str {A} (f : uuid → result exn A * table) id v : by_text f (uuid_str id) v = f id.
Proof using. unfold by_text. by rewrite UUID_str. Qed.

(** A transition call of a reservation named by a text. *)
Lemma client_transition_serves (service : uuid → M Reservation) message text w v f n q w0 :
  obs w = quiet v n q w0 →
  (∀ id, serves impl obs (service id) w (f id) (redis w0) w0) →
  (∀ id r, (f id).1 = Ok r → int32_ok (quantity r) = true) →
  serves_through
    (_ <- translate (rpc (reservation <- on_not_found
                            (i <- of_result (UUID text) ;; service i) ;;
                          _reservation_to_proto reservation message)) ;; Ret tt)
    w v (by_text f text v) (λ _, tt) (λ err, client_error o (not_found_status err)) w0.
Proof using P.
  intros Hw Hserves Hq.
  assert (Hs : serves impl obs (i <- of_result (UUID text) ;; service i) w (by_text f text v)
                 (redis w0) w0).
  { unfold by_text. destruct (UUID text) as [id|e]; [apply Hserves|].
    exists n, q, 0%nat. apply runs_to_doc. rewrite Hw, advance_0. by destruct w0. }
  eapply call_serves; [exact Hw | exact Hs |].
  intros w' Hrun. rewrite run_bind, run_call_rpc, run_on_not_found_reservation.
  rewrite Hrun, Hw. change (fault (quiet v n q w0)) with (fault w0).
  destruct (fault w0); [|done|]; destruct (by_text f text v).1 as [r|err] eqn:Hr; try done.
  unfold by_text in Hr. destruct (UUID text) as [id|]; [|done]. by rewrite (Hq id r Hr).
Qed.

Lemma stored_quantity v id r : consistent v → res_of v id = Some r → int32_ok (quantity r) = true.
Proof using.
  intros Hok Hr. destruct (reservation_row_ok v Hok id r Hr) as [[Hck _] _].
  unfold inv_check_row in Hck. by destruct (int32_ok (quantity r)).
Qed.

Lemma transition_quantity now st f r t r' t' :
  Spec.transition now st f r t = Ok (r', t') → quantity r' = quantity r.
Proof using.
  unfold Spec.transition. intros H. apply then_Ok in H as (t1 & _ & H).
  apply then_Ok in H as (t2 & _ & H). by injection H as <- _.
Qed.

Lemma release_quantity now id ex v r :
  consistent v → (Spec.release now id ex v).1 = Ok r → int32_ok (quantity r) = true.
Proof using.
  intros Hok. unfold Spec.release. destruct (res_of v id) as [x|] eqn:Hx; [|done].
  pose proof (stored_quantity v id x Hok Hx) as Hq. case_decide; [by intros [= <-]|].
  destruct (Spec.transition _ _ _ _ _) as [[r' t']|e] eqn:Ht; [|done]. intros [= <-].
  by rewrite (transition_quantity _ _ _ _ _ _ _ Ht).
Qed.

Lemma confirm_quantity now id v r :
  consistent v → (Spec.confirm now id v).1 = Ok r → int32_ok (quantity r) = true.
Proof using.
  intros Hok. unfold Spec.confirm. destruct (res_of v id) as [x|] eqn:Hx; [|done].
  pose proof (stored_quantity v id x Hok Hx) as Hq. case_decide; [by intros [= <-]|].
  destruct (Spec.transition _ _ _ _ _) as [[r' t']|e] eqn:Ht; [|done]. intros [= <-].
  by rewrite (transition_quantity _ _ _ _ _ _ _ Ht).
Qed.

Lemma client_release_serves text w v n q w0 :
  consistent v → obs w = quiet v n q w0 →
  serves_through (Client.release_reservation text) w v
    (by_text (λ id, Spec.release (clock w0) id false v) text v)
    (λ _, tt) (λ err, client_error o (not_found_status err)) w0.
Proof using P.
  intros Hok Hw. unfold Client.release_reservation, ReleaseReservation.
  apply (client_transition_serves (λ i, Service.release_reservation i false) _ _ _ _ _ n q _ Hw).
  - intros id. apply (scope_serves o impl obs _ w v _ n q w0 Hw); eauto using release_atomic.
    by apply release_implements.
  - intros id r. by apply release_quantity.
Qed.

Lemma client_confirm_serves text w v n q w0 :
  consistent v → obs w = quiet v n q w0 →
  serves_through (Client.confirm_reservation text) w v
    (by_text (λ id, Spec.confirm (clock w0) id v) text v)
    (λ _, tt) (λ err, client_error o (not_found_status err)) w0.
Proof using P.
  intros Hok Hw. unfold Client.confirm_reservation, ConfirmReservation.
  apply (client_transition_serves Service.confirm_reservation _ _ _ _ _ n q _ Hw).
  - intros id. apply (scope_serves o impl obs _ w v _ n q w0 Hw); eauto using confirm_atomic.
    by apply confirm_implements.
  - intros id r. by apply confirm_quantity.
Qed.

(** Booking seats through gRPC: the client gets the atomic reservation's
    identifier and expiry, or its error in translation (sold out, unknown
    event, contention); when the network loses the request nothing has
    happened, and when it loses the reply the seats are reserved although the
    client sees an error. *)
Theorem client_reserve_seats_outcome e ord qty w v n q w0 :
  consistent v → obs w = quiet v n q w0 → lock_free e w0 → lock_usable (lock self) →
  int32_ok qty = true →
  serves_through (Client.reserve_seats self e ord qty) w v
    (Spec.reserve (clock w0) (uuid_draw o (S (draws w0))) e ord qty
       (reservation_ttl_seconds self) (optimistic_retry_attempts self) v)
    reservation_result (λ err, client_error o (reserve_status err)) w0.
Proof using P. intros. by eapply client_reserve_serves. Qed.

(** Releasing and confirming through gRPC: an unknown reservation is a
    NotFoundError with the service's message, any other failure of the service
    a DomainError that names the status, and a lost reply hides work that was
    done. *)
Theorem client_transitions_outcome id w v n q w0 :
  consistent v → obs w = quiet v n q w0 →
  serves_through (Client.release_reservation (uuid_str id)) w v
    (Spec.release (clock w0) id false v) (λ _, tt) (λ err, client_error o (not_found_status err)) w0
  ∧ serves_through (Client.confirm_reservation (uuid_str id)) w v
      (Spec.confirm (clock w0) id v) (λ _, tt) (λ err, client_error o (not_found_status err)) w0.
Proof using P.
  intros Hok Hw.
  pose proof (client_release_serves (uuid_str id) w v n q w0 Hok Hw) as Hr.
  pose proof (client_confirm_serves (uuid_str id) w v n q w0 Hok Hw) as Hc.
  rewrite by_text_str in Hr, Hc. exact (conj Hr Hc).
Qed.
End contract.

(** The network loses the reply of a booking. *)
Definition lossy_world : world := set_fault (LostReply DEADLINE_EXCEEDED) initial_world.

Lemma client_reserve_seats_outcome_witness :
  serves_through (sys_exec sample_oracle) id
    (Client.reserve_seats default_service sample_event (uuid_of_N 31) 3)
    (quiet sample_tables 0 0 lossy_world) sample_tables
    (Spec.reserve 0 (uuid_of_N 1001) sample_event (uuid_of_N 31) 3 600 5 sample_tables)
    reservation_result (λ err, client_error sample_oracle (reserve_status err)) lossy_world.
Proof.
  apply (client_reserve_seats_outcome sample_oracle (sys_exec sample_oracle) id default_service
           sample_event (uuid_of_N 31) 3 (quiet sample_tables 0 0 lossy_world) sample_tables 0 0
           lossy_world).
  - apply sample_safe.
  - reflexivity.
  - split; [reflexivity|]. unfold redis_get. simpl. by rewrite lookup_empty.
  - apply sample_lock_usable.
  - reflexivity.
Defined.

Lemma client_transitions_outcome_witness :
  let w0 := initial_world in
  serves_through (sys_exec sample_oracle) id (Client.release_reservation (uuid_str sample_held))
    sample_world sample_tables (Spec.release 0 sample_held false sample_tables) (λ _, tt)
    (λ err, client_error sample_oracle (not_found_status err)) w0
  ∧ serves_through (sys_exec sample_oracle) id (Client.confirm_reservation (uuid_str sample_held))
      sample_world sample_tables (Spec.confirm 0 sample_held sample_tables) (λ _, tt)
      (λ err, client_error sample_oracle (not_found_status err)) w0.
Proof.
  apply (client_transitions_outcome sample_oracle (sys_exec sample_oracle) id sample_held
           sample_world sample_tables 0 0 initial_world).
  - apply sample_safe.
  - reflexivity.
Defined.
