(* ===== verification/StubCorrectness.v ===== *)
(** * Calls through the generated stubs

    A call the client makes through the stub, the wire, the server's table of
    methods and back is the direct call of the servicer's method that
    [InventoryServicer.Client] makes; what no method serves is refused. *)
From S2P Require Import Prelude Effects Json Uuid Domain Orm Redis InventoryModels.
From S2P Require Import Platform.
From S2P Require Import InventoryRepository Locking InventoryService InventoryServicer.
From S2P Require Import InventoryInvariant InventoryCorrectness.
From S2P Require Import GrpcStubs.

(** ** The server's table *)

(** The server the Inventory service starts, and one with the base class. *)
Definition serving (sv : servicer) : grpc_server :=
  add_InventoryServiceServicer_to_server sv new_server.

Definition stub_methods : list unary_unary :=
  [ Stub.InitializeInventory; Stub.AdjustCapacity; Stub.ReserveSeats;
    Stub.ConfirmReservation; Stub.ReleaseReservation; Stub.GetAvailability ].

(** What the table is looked up for, whichever way a path is found. *)
Lemma handler_of_serving sv path :
  handler_of (serving sv) path
  = by_path "eventsphere.inventory.v1.InventoryService" (rpc_method_handlers sv) !! path.
Proof.
  unfold handler_of, serving, add_InventoryServiceServicer_to_server, new_server. simpl.
  rewrite map_union_empty. by destruct (by_path _ _ !! path).
Qed.

(** The table is the stub's, path by path and class by class. *)
Lemma served_methods sv :
  handler_of (serving sv) (method_path Stub.InitializeInventory)
    = Some (MethodHandler InitializeInventoryRequest_pb InventoryResponse_pb (sv_InitializeInventory sv))
  ∧ handler_of (serving sv) (method_path Stub.AdjustCapacity)
    = Some (MethodHandler AdjustCapacityRequest_pb InventoryResponse_pb (sv_AdjustCapacity sv))
  ∧ handler_of (serving sv) (method_path Stub.ReserveSeats)
    = Some (MethodHandler ReserveSeatsRequest_pb ReservationResponse_pb (sv_ReserveSeats sv))
  ∧ handler_of (serving sv) (method_path Stub.ConfirmReservation)
    = Some (MethodHandler ReservationIdRequest_pb ReservationResponse_pb (sv_ConfirmReservation sv))
  ∧ handler_of (serving sv) (method_path Stub.ReleaseReservation)
    = Some (MethodHandler ReservationIdRequest_pb ReservationResponse_pb (sv_ReleaseReservation sv))
  ∧ handler_of (serving sv) (method_path Stub.GetAvailability)
    = Some (MethodHandler EventIdRequest_pb InventoryResponse_pb (sv_GetAvailability sv)).
Proof. rewrite !handler_of_serving. split_and!; by vm_compute. Qed.

Lemma served_paths sv path :
  is_Some (handler_of (serving sv) path) ↔ path ∈ method_path <$> stub_methods.
Proof.
  rewrite handler_of_serving. unfold by_path. split.
  - intros [m Hm]. apply elem_of_list_to_map_2, list_elem_of_fmap in Hm as ([n h] & [= -> ->] & Hin).
    unfold rpc_method_handlers in Hin. rewrite !elem_of_cons, elem_of_nil in Hin.
    destruct Hin as [E|[E|[E|[E|[E|[E|[]]]]]]]; injection E as -> ->; cbn; set_solver.
  - simpl. rewrite !elem_of_cons, elem_of_nil.
    intros [->|[->|[->|[->|[->|[->|[]]]]]]]; (eexists; by vm_compute).
Qed.

(** What is not one of the six methods is refused, as is a method the servicer's
    class does not override. *)
Lemma unserved_refused pb sv path request :
  path ∉ method_path <$> stub_methods →
  handle pb (serving sv) path request = abort UNIMPLEMENTED "Method not found!".
Proof.
  intros Hn. unfold handle. destruct (handler_of (serving sv) path) eqn:H; [|done].
  destruct Hn. by apply (served_paths sv).
Qed.

(** The static calls are those of a stub. *)
Lemma static_methods_agree :
  [ Experimental.InitializeInventory; Experimental.AdjustCapacity; Experimental.ReserveSeats;
    Experimental.ConfirmReservation; Experimental.ReleaseReservation; Experimental.GetAvailability ]
  = stub_methods.
Proof. done. Qed.

(** A client that has not been started sends nothing. *)
Lemma not_started pb server c request :
  StubClient.stub pb server false c request
  = Raise (RuntimeError "InventoryClient.start() must be called first").
Proof. done. Qed.

(** ** One call *)
Section calls.
Context {S : Type} (h : handler sys_op S).

(** The answer of a call, rewritten. *)
Lemma run_rpc_map {A C} (p : M A) (f : A → C) s :
  run h (rpc (bind p (λ a, Ret (f a)))) s = run h (bind (rpc p) (λ a, Ret (f a))) s.
Proof.
  unfold rpc, reply. rewrite !run_bind, !run_trigger.
  destruct (h _ RpcFault s) as [[[|code|code] s1]|]; cbv iota beta; [|done| |done].
  - rewrite !run_bind, !run_attempt, !run_bind.
    destruct (run h p s1) as [[[a|e] s2]|]; [done| |done].
    destruct e; try done; simpl; by destruct (h _ _ s2) as [[d s3]|].
  - rewrite !run_bind, !run_attempt, !run_bind.
    destruct (run h p s1) as [[[a|e] s2]|]; [done| |done].
    destruct e; try done; simpl; by destruct (h _ _ s2) as [[d s3]|].
Qed.

Context (pb : Protobuf) `{!ProtobufOk pb}.

(** A call whose path leads to a method of its classes, when the request and the
    answer fit their fields. *)
Lemma run_call_method srv path ci co (p : message ci → M (message co)) (request : message ci) s :
  handler_of srv path = Some (MethodHandler ci co p) →
  representable ci request = true →
  (∀ r s', run h (rpc (p request)) s = Some (Ok r, s') → representable co r = true) →
  run h (call_method pb srv (UnaryUnary path ci co) request) s = run h (rpc (p request)) s.
Proof.
  intros Hp Hreq Hrep. unfold call_method, handle.
  cbn [method_path request_serializer response_deserializer]. rewrite Hp.
  cbn [request_deserializer response_serializer behaviour].
  rewrite FromString_SerializeToString by done. cbn [of_result]. rewrite bind_ret_l.
  rewrite run_bind, run_rpc_map, run_bind.
  destruct (run h (rpc (p request)) s) as [[[r|e] s']|] eqn:Hr; [|done..].
  cbn [run]. by rewrite FromString_SerializeToString by (by eapply Hrep).
Qed.

Lemma run_translate_ext {A} (p q : M A) s :
  run h p s = run h q s → run h (translate p) s = run h (translate q) s.
Proof. intros H. unfold translate. by rewrite !run_try_except, H. Qed.

(** ** What a handler answers *)

(** A call's value comes from its handler. *)
Lemma rpc_value {A} (p : M A) (Φ : A → Prop) s :
  (∀ s1 r s2, run h p s1 = Some (Ok r, s2) → Φ r) →
  ∀ r s', run h (rpc p) s = Some (Ok r, s') → Φ r.
Proof.
  intros Hp r s'. unfold rpc, reply. rewrite run_bind, run_trigger.
  destruct (h _ RpcFault s) as [[[|code|code] s1]|]; cbv iota beta; [|done| |done].
  - rewrite run_bind, run_bind, run_attempt.
    destruct (run h p s1) as [[[a|e] s2]|] eqn:Hr; [| |done].
    + simpl. intros [= <- <-]. eauto.
    + destruct e; try done; simpl; by destruct (h _ _ s2) as [[d s3]|].
  - rewrite run_bind. by destruct (run h _ s1) as [[[a|e] s2]|].
Qed.

Lemma of_result_value {A C} (r : result exn A) (k : A → M C) s c s' :
  run h (bind (of_result r) k) s = Some (Ok c, s') →
  ∃ a, r = Ok a ∧ run h (k a) s = Some (Ok c, s').
Proof. destruct r as [a|e]; [by exists a|done]. Qed.

Lemma bind_value {A C} (p : M A) (k : A → M C) s c s' :
  run h (bind p k) s = Some (Ok c, s') →
  ∃ a s1, run h (k a) s1 = Some (Ok c, s').
Proof. rewrite run_bind. destruct (run h p s) as [[[a|e] s1]|]; [by exists a, s1|done..]. Qed.

Lemma proto_int32_value z c : proto_int32 z = Ok c → int32_ok c = true.
Proof. unfold proto_int32. destruct (int32_ok z) eqn:?; [|done]. by intros [= <-]. Qed.

(** The counters of an answer have been checked. *)
Lemma inventory_to_proto_value {A} (p : M A) (inventory : A → EventInventory) m s r s' :
  run h (bind p (λ a, _inventory_to_proto (inventory a) m)) s = Some (Ok r, s') →
  representable InventoryResponse_pb r = true.
Proof.
  intros (a & s1 & H)%bind_value. unfold _inventory_to_proto in H.
  do 5 (apply of_result_value in H as (? & ?%proto_int32_value & H)).
  injection H as <- _. simpl. rewrite !andb_true_iff. by split_and!.
Qed.

Lemma reservation_to_proto_value {A} (p : M A) (reservation : A → Reservation) m s r s' :
  run h (bind p (λ a, _reservation_to_proto (reservation a) m)) s = Some (Ok r, s') →
  int32_ok (rr_quantity r) = true ∧ int32_ok (rr_status r) = true.
Proof.
  intros (a & s1 & H)%bind_value. unfold _reservation_to_proto in H.
  apply of_result_value in H as (? & ?%proto_int32_value & H).
  injection H as <- _. split; [done|]. simpl. by destruct (status _).
Qed.

(** The instant in the answer is one of the calendar: it fits its field. *)
Definition dated (p : M ReservationResponse) (s : S) : Prop :=
  ∀ r s', run h (rpc p) s = Some (Ok r, s') → int64_ok (rr_expires_at_unix r) = true.

Lemma dated_representable p s :
  (∀ s1 r s2, run h p s1 = Some (Ok r, s2) →
     int32_ok (rr_quantity r) = true ∧ int32_ok (rr_status r) = true) →
  dated p s →
  ∀ r s', run h (rpc p) s = Some (Ok r, s') → representable ReservationResponse_pb r = true.
Proof.
  intros Hp Hd r s' Hr. pose proof (rpc_value p _ s Hp _ _ Hr) as [Hq Hst].
  simpl. by rewrite Hq, Hst, (Hd _ _ Hr).
Qed.

(** ** The client *)

(** The calls of a stub whose server serves [sv], whose method is [p]. *)
Section stub.
Variable sv : servicer.

Lemma stub_InitializeInventory (request : InitializeInventoryRequest) p s :
  sv_InitializeInventory sv request = p →
  representable InitializeInventoryRequest_pb request = true →
  (∀ r s', run h (rpc p) s = Some (Ok r, s') → representable InventoryResponse_pb r = true) →
  run h (StubClient.stub pb (serving sv) true Stub.InitializeInventory request) s = run h (rpc p) s.
Proof.
  intros <-. destruct (served_methods sv) as (E & _).
  exact (run_call_method _ _ InitializeInventoryRequest_pb InventoryResponse_pb _ request s E).
Qed.

Lemma stub_AdjustCapacity (request : AdjustCapacityRequest) p s :
  sv_AdjustCapacity sv request = p →
  representable AdjustCapacityRequest_pb request = true →
  (∀ r s', run h (rpc p) s = Some (Ok r, s') → representable InventoryResponse_pb r = true) →
  run h (StubClient.stub pb (serving sv) true Stub.AdjustCapacity request) s = run h (rpc p) s.
Proof.
  intros <-. destruct (served_methods sv) as (_ & E & _).
  exact (run_call_method _ _ AdjustCapacityRequest_pb InventoryResponse_pb _ request s E).
Qed.

Lemma stub_ReserveSeats (request : ReserveSeatsRequest) p s :
  sv_ReserveSeats sv request = p →
  representable ReserveSeatsRequest_pb request = true →
  (∀ r s', run h (rpc p) s = Some (Ok r, s') → representable ReservationResponse_pb r = true) →
  run h (StubClient.stub pb (serving sv) true Stub.ReserveSeats request) s = run h (rpc p) s.
Proof.
  intros <-. destruct (served_methods sv) as (_ & _ & E & _).
  exact (run_call_method _ _ ReserveSeatsRequest_pb ReservationResponse_pb _ request s E).
Qed.

Lemma stub_ConfirmReservation (request : ReservationIdRequest) p s :
  sv_ConfirmReservation sv request = p →
  representable ReservationIdRequest_pb request = true →
  (∀ r s', run h (rpc p) s = Some (Ok r, s') → representable ReservationResponse_pb r = true) →
  run h (StubClient.stub pb (serving sv) true Stub.ConfirmReservation request) s = run h (rpc p) s.
Proof.
  intros <-. destruct (served_methods sv) as (_ & _ & _ & E & _).
  exact (run_call_method _ _ ReservationIdRequest_pb ReservationResponse_pb _ request s E).
Qed.

Lemma stub_ReleaseReservation (request : ReservationIdRequest) p s :
  sv_ReleaseReservation sv request = p →
  representable ReservationIdRequest_pb request = true →
  (∀ r s', run h (rpc p) s = Some (Ok r, s') → representable ReservationResponse_pb r = true) →
  run h (StubClient.stub pb (serving sv) true Stub.ReleaseReservation request) s = run h (rpc p) s.
Proof.
  intros <-. destruct (served_methods sv) as (_ & _ & _ & _ & E & _).
  exact (run_call_method _ _ ReservationIdRequest_pb ReservationResponse_pb _ request s E).
Qed.

End stub.

Variable self : InventoryService.
Abbreviation server := (serving (InventoryServicer self)).

Lemma run_checked {A} z (k k' : Z → M A) s :
  (int32_ok z = true → run h (k z) s = run h (k' z) s) →
  run h (bind (of_result (proto_int32 z)) k) s = run h (bind (of_result (proto_int32 z)) k') s.
Proof. unfold proto_int32. destruct (int32_ok z); [simpl; auto|done]. Qed.

Lemma run_bind_congr {A C} (p q : M A) (k : A → M C) s :
  run h p s = run h q s → run h (bind p k) s = run h (bind q k) s.
Proof. intros H. by rewrite !run_bind, H. Qed.

Lemma sv_InitializeInventory_eq e n :
  sv_InitializeInventory (InventoryServicer self) (mkInitializeInventoryRequest e n)
  = InitializeInventory e n.
Proof. done. Qed.
Lemma sv_AdjustCapacity_eq e n :
  sv_AdjustCapacity (InventoryServicer self) (mkAdjustCapacityRequest e n) = AdjustCapacity self e n.
Proof. done. Qed.
Lemma sv_ReserveSeats_eq e o q :
  sv_ReserveSeats (InventoryServicer self) (mkReserveSeatsRequest e o q) = ReserveSeats self e o q.
Proof. done. Qed.
Lemma sv_ConfirmReservation_eq r :
  sv_ConfirmReservation (InventoryServicer self) (mkReservationIdRequest r) = ConfirmReservation r.
Proof. done. Qed.
Lemma sv_ReleaseReservation_eq r :
  sv_ReleaseReservation (InventoryServicer self) (mkReservationIdRequest r) = ReleaseReservation r.
Proof. done. Qed.

Lemma InitializeInventory_value e n s1 r s2 :
  run h (InitializeInventory e n) s1 = Some (Ok r, s2) → representable InventoryResponse_pb r = true.
Proof.
  unfold InitializeInventory. intros (? & _ & Hr)%of_result_value.
  by apply (inventory_to_proto_value _ id) in Hr.
Qed.

Lemma AdjustCapacity_value e n s1 r s2 :
  run h (AdjustCapacity self e n) s1 = Some (Ok r, s2) → representable InventoryResponse_pb r = true.
Proof. unfold AdjustCapacity. apply (inventory_to_proto_value _ id). Qed.

Lemma ReserveSeats_value e o q s1 r s2 :
  run h (ReserveSeats self e o q) s1 = Some (Ok r, s2) →
  int32_ok (rr_quantity r) = true ∧ int32_ok (rr_status r) = true.
Proof. unfold ReserveSeats. apply (reservation_to_proto_value _ id). Qed.

Lemma ConfirmReservation_value i s1 r s2 :
  run h (ConfirmReservation i) s1 = Some (Ok r, s2) →
  int32_ok (rr_quantity r) = true ∧ int32_ok (rr_status r) = true.
Proof. unfold ConfirmReservation. apply (reservation_to_proto_value _ id). Qed.

Lemma ReleaseReservation_value i s1 r s2 :
  run h (ReleaseReservation i) s1 = Some (Ok r, s2) →
  int32_ok (rr_quantity r) = true ∧ int32_ok (rr_status r) = true.
Proof. unfold ReleaseReservation. apply (reservation_to_proto_value _ id). Qed.

(** C21. The client's calls, made through the generated stub, protobuf's wire
    format and the server's table of methods, are the direct calls of the
    servicer's handlers that the model of the client makes: each path leads to
    the method of its name, with the classes the two sides agree on, whatever
    the network does. *)
Theorem client_through_stub :
  (∀ e n s, run h (StubClient.initialize_inventory pb server true e n) s
            = run h (Client.initialize_inventory e n) s)
  ∧ (∀ e n s, run h (StubClient.adjust_capacity pb server true e n) s
              = run h (Client.adjust_capacity self e n) s)
  ∧ (∀ e o q s, dated (ReserveSeats self (uuid_str e) (uuid_str o) q) s →
       run h (StubClient.reserve_seats pb server true e o q) s
       = run h (Client.reserve_seats self e o q) s)
  ∧ (∀ r s, dated (ConfirmReservation r) s →
       run h (StubClient.confirm_reservation pb server true r) s
       = run h (Client.confirm_reservation r) s)
  ∧ (∀ r s, dated (ReleaseReservation r) s →
       run h (StubClient.release_reservation pb server true r) s
       = run h (Client.release_reservation r) s).
Proof.
  split_and!; intros.
  - unfold StubClient.initialize_inventory, Client.initialize_inventory.
    apply run_checked. intros Hn. apply run_bind_congr, run_translate_ext, stub_InitializeInventory;
      [apply sv_InitializeInventory_eq|done|]. apply rpc_value, InitializeInventory_value.
  - unfold StubClient.adjust_capacity, Client.adjust_capacity.
    apply run_checked. intros Hn. apply run_bind_congr, run_translate_ext, stub_AdjustCapacity;
      [apply sv_AdjustCapacity_eq|done|]. apply rpc_value, AdjustCapacity_value.
  - unfold StubClient.reserve_seats, Client.reserve_seats.
    apply run_checked. intros Hn. apply run_bind_congr, run_translate_ext, stub_ReserveSeats;
      [apply sv_ReserveSeats_eq|done|]. by apply dated_representable; [apply ReserveSeats_value|].
  - unfold StubClient.confirm_reservation, Client.confirm_reservation.
    apply run_bind_congr, run_translate_ext, stub_ConfirmReservation;
      [apply sv_ConfirmReservation_eq|done|]. by apply dated_representable; [apply ConfirmReservation_value|].
  - unfold StubClient.release_reservation, Client.release_reservation.
    apply run_bind_congr, run_translate_ext, stub_ReleaseReservation;
      [apply sv_ReleaseReservation_eq|done|]. by apply dated_representable; [apply ReleaseReservation_value|].
Qed.
End calls.

(** A wire whose messages carry the name of their class. *)
Definition tagged_pb : Protobuf := {|
  wire := { c : message_class & message c };
  SerializeToString c m := existT c m;
  FromString c w :=
    match decide (projT1 w = c) with
    | left e => Ok (eq_rect _ message (projT2 w) _ e)
    | right _ => Err (ValueError "Error parsing message")
    end;
|}.

#[global] Instance tagged_pb_ok : ProtobufOk tagged_pb.
Proof.
  split. intros c m _. simpl. destruct (decide (c = c)) as [e|]; [|done].
  by rewrite (Eqdep_dec.UIP_dec message_class_eq_dec e eq_refl).
Qed.

Lemma client_through_stub_witness :
  let server := serving (InventoryServicer default_service) in
  dated (sys_exec sample_oracle) (ReleaseReservation (uuid_str sample_held)) sample_world
  ∧ run (sys_exec sample_oracle)
      (StubClient.release_reservation tagged_pb server true (uuid_str sample_held)) sample_world
    = run (sys_exec sample_oracle) (Client.release_reservation (uuid_str sample_held)) sample_world.
Proof.
  intros server.
  assert (D : dated (sys_exec sample_oracle) (ReleaseReservation (uuid_str sample_held)) sample_world).
  { intros r s' Hr. apply (f_equal (fmap fst)) in Hr. vm_compute in Hr. by injection Hr as <-. }
  split; [exact D|].
  by apply (client_through_stub (sys_exec sample_oracle) tagged_pb default_service).
Defined.
