(* ===== verification/InventoryConcurrency.v ===== *)
(** * Concurrent calls on the Inventory service

    Several service calls interleaved operation by operation, in any order,
    with sessions dropped by the server at any time.  The invariant of the
    database: the committed tables are safe, every open transaction holds
    bookings, transitions, initialisations or new capacities against rows it has
    locked, and an instance loaded at the stored version is the stored row. *)
From S2P Require Import Prelude Effects Interleaving Uuid Domain Orm OrmFacts Redis.
From S2P Require Import InventoryModels Platform InventoryRepository Locking.
From S2P Require Import InventoryService InventorySpec InventoryInvariant.
From S2P Require Import InventoryCorrectness.

Abbreviation inv_session := (session inv_key inv_row).
Abbreviation overlay_of := (gmap inv_key (option inv_row)).

(** Whether the capacities are to be respected: not when some call may set a
    capacity below the seats in use. *)
Definition safe_while (kept : Prop) (t : table) : Prop :=
  consistent t ∧ (kept → capacity_respected t).

(** ** What an open transaction has written *)

(** Rows of one event rewritten together: the premises of [rewrite_rows_consistent],
    and that the capacity stays respected. *)
Record rewrite_ok (t : table) (e id : uuid) (i i' : EventInventory) (x' : Reservation) : Prop := {
  rw_old : inv_of t e = Some i;
  rw_event : inv_event_id i' = e;
  rw_res_event : res_event_id x' = e;
  rw_res_id : res_id x' = id;
  rw_same : ∀ x, res_of t id = Some x → res_event_id x = e;
  rw_inv_ok : row_ok (RInv i');
  rw_res_ok : row_ok (RRes x');
  rw_reserved : reserved_count i' - reserved_count i =
    held_by ReservationStatus.PENDING (Some x') - held_by ReservationStatus.PENDING (res_of t id);
  rw_confirmed : confirmed_count i' - confirmed_count i =
    held_by ReservationStatus.CONFIRMED (Some x') - held_by ReservationStatus.CONFIRMED (res_of t id);
  rw_version : version i' = version i + 1;
  rw_capacity : reserved_count i + confirmed_count i ≤ total_capacity i →
    reserved_count i' + confirmed_count i' ≤ total_capacity i';
}.

Definition rewrite_overlay (e id : uuid) (i' : EventInventory) (x' : Reservation) : overlay_of :=
  <[KRes id := Some (RRes x')]> {[KInv e := Some (RInv i')]}.

(** An inventory row created empty, or rewritten with the same counters. *)
Record resize_ok (kept : Prop) (t : table) (e : uuid) (i' : EventInventory) : Prop := {
  rz_event : inv_event_id i' = e;
  rz_ok : row_ok (RInv i');
  rz_reserved : reserved_count i' = from_option reserved_count 0 (inv_of t e);
  rz_confirmed : confirmed_count i' = from_option confirmed_count 0 (inv_of t e);
  rz_version : ∀ i, inv_of t e = Some i → version i < version i';
  rz_capacity : kept → reserved_count i' + confirmed_count i' ≤ total_capacity i';
}.

(** What one flush writes. *)
Inductive change (kept : Prop) (t : table) : overlay_of → Prop :=
| change_rewrite e id i i' x' :
    rewrite_ok t e id i i' x' → change kept t (rewrite_overlay e id i' x')
| change_resize e i' :
    resize_ok kept t e i' → change kept t {[KInv e := Some (RInv i')]}.

(** What a transaction has written since it began. *)
Inductive delta (kept : Prop) (t : table) : overlay_of → Prop :=
| delta_none : delta kept t ∅
| delta_then ov ov' :
    delta kept t ov → change kept (apply_overlay ov t) ov' → delta kept t (ov' ∪ ov).

(** ** The invariant of the database *)

(** An instance loaded at the stored version is the stored row. *)
Definition loaded_ok (t : table) (ss : inv_session) : Prop :=
  ∀ e l c, objs ss !! KInv e = Some (l, c) →
    ∃ li i, l = RInv li ∧ inv_event_id li = e ∧ inv_of (visible t ss) e = Some i
            ∧ version li ≤ version i ∧ (version li = version i → li = i).

Record session_ok (kept : Prop) (t : table) (ss : inv_session) : Prop := {
  so_delta : delta kept t (overlay ss);
  so_loaded : loaded_ok t ss;
}.

(** Two transactions never hold the same row. *)
Definition apart (ss1 ss2 : inv_session) : Prop :=
  ∀ k, overlay ss1 !! k ≠ None → overlay ss2 !! k = None.

Record db_ok (kept : Prop) (db : database inv_key inv_row) : Prop := {
  do_safe : safe_while kept (tbl db);
  do_fresh : ∀ s ss, sessions db !! s = Some ss → (s < next_sid db)%nat;
  do_session : ∀ s ss, sessions db !! s = Some ss → session_ok kept (tbl db) ss;
  do_apart : ∀ s1 s2 ss1 ss2, s1 ≠ s2 → sessions db !! s1 = Some ss1 →
    sessions db !! s2 = Some ss2 → apart ss1 ss2;
}.

(** ** What a thread knows *)

(** The reservations the thread may move out of their status, and its session. *)
Record local : Type := Local { l_res : uuid → Prop; l_session : option (nat * inv_session) }.

(** The rows of the thread's reservations are as it loaded them, and it has
    written no other existing reservation. *)
Record knows (r : uuid → Prop) (t : table) (ss : inv_session) : Prop := {
  kn_current : ∀ id l c, r id → objs ss !! KRes id = Some (l, c) →
    visible t ss !! KRes id = Some l;
  kn_written : ∀ id, overlay ss !! KRes id ≠ None → t !! KRes id = None ∨ r id;
}.

(** The thread's session is as the thread left it, unless the server dropped it. *)
Definition own_db (l : local) (db : database inv_key inv_row) : Prop :=
  match l_session l with
  | None => True
  | Some (s, ss) =>
      (s < next_sid db)%nat ∧
      (sessions db !! s = None ∨ (sessions db !! s = Some ss ∧ knows (l_res l) (tbl db) ss))
  end.

Definition disj (l1 l2 : local) : Prop :=
  (∀ id, l_res l1 id → ¬ l_res l2 id) ∧
  (∀ s1 ss1 s2 ss2, l_session l1 = Some (s1, ss1) → l_session l2 = Some (s2, ss2) → s1 ≠ s2).

Definition J (kept : Prop) (w : world) : Prop := db_ok kept (inv_db w).
Definition own (l : local) (w : world) : Prop := own_db l (inv_db w).

(** The environment: time, Redis, Kafka, the network and the other database
    change at will, and the server may drop sessions. *)
Definition env (w w' : world) : Prop :=
  tbl (inv_db w') = tbl (inv_db w) ∧ next_sid (inv_db w') = next_sid (inv_db w)
  ∧ sessions (inv_db w') ⊆ sessions (inv_db w).

Lemma disj_sym l1 l2 : disj l1 l2 → disj l2 l1.
Proof.
  intros [Hr Hs]. split.
  - intros id H2 H1. by eapply Hr.
  - intros s1 ss1 s2 ss2 H1 H2 <-. by eapply Hs.
Qed.

Lemma env_J kept w w' : env w w' → J kept w → J kept w'.
Proof.
  intros (Ht & Hn & Hs) [Hsafe Hfresh Hsess Hap]. unfold J. constructor; rewrite ?Ht, ?Hn; try done.
  - intros s ss Hss. eapply Hfresh, lookup_weaken; eauto.
  - intros s ss Hss. eapply Hsess, lookup_weaken; eauto.
  - intros s1 s2 ss1 ss2 Hne H1 H2. eapply (Hap s1 s2); eauto using lookup_weaken.
Qed.

Lemma env_own w w' l : env w w' → own l w → own l w'.
Proof.
  intros (Ht & Hn & Hs). unfold own, own_db. destruct (l_session l) as [[s ss]|]; [|done].
  rewrite Ht, Hn. intros [Hlt Hss]. split; [done|].
  destruct (sessions (inv_db w') !! s) as [ss'|] eqn:Hs'; [|by left]. right.
  pose proof (lookup_weaken _ _ _ _ Hs' Hs) as Hw. destruct Hss as [Hss|[Hss Hk]]; [congruence|].
  split; [congruence | done].
Qed.

(** ** The tables after a commit *)

Lemma rewrite_overlay_apply t e id i' x' :
  apply_overlay (rewrite_overlay e id i' x') t = <[KRes id := RRes x']> (<[KInv e := RInv i']> t).
Proof.
  unfold rewrite_overlay. rewrite apply_overlay_insert, <- insert_empty, apply_overlay_insert.
  by rewrite apply_overlay_empty.
Qed.

Lemma resize_overlay_apply t e i' :
  apply_overlay {[KInv e := Some (RInv i')]} t = <[KInv e := RInv i']> t.
Proof. by rewrite <- insert_empty, apply_overlay_insert, apply_overlay_empty. Qed.

(** Writes over writes. *)
Lemma apply_overlay_over (ov ov' : overlay_of) t :
  apply_overlay (ov' ∪ ov) t = apply_overlay ov' (apply_overlay ov t).
Proof.
  apply map_eq. intros k. rewrite !lookup_apply_overlay, lookup_union.
  by destruct (ov' !! k), (ov !! k).
Qed.

Section kept.
Context {kept : Prop}.

Lemma change_safe t ov :
  safe_while kept t → change kept t ov → safe_while kept (apply_overlay ov t).
Proof using.
  intros [Hc Hcap] [e id i i' x' Hrw|e i' Hrz].
  - rewrite rewrite_overlay_apply. destruct Hrw. split.
    + by eapply rewrite_rows_consistent.
    + intros Hk. apply rewrite_rows_capacity; [|by apply Hcap]. by eapply rw_capacity0, Hcap.
  - rewrite resize_overlay_apply. destruct Hrz. split.
    + by apply rewrite_inventory_consistent.
    + intros Hk. apply capacity_insert; auto.
Qed.

Lemma delta_safe t ov :
  safe_while kept t → delta kept t ov → safe_while kept (apply_overlay ov t).
Proof using.
  intros Ht. induction 1 as [|ov ov' _ IH Hch]; [by rewrite apply_overlay_empty|].
  rewrite apply_overlay_over. by apply change_safe.
Qed.

Lemma delta_change t ov ov' :
  delta kept t ov → change kept (apply_overlay ov t) ov' → delta kept t (ov' ∪ ov).
Proof using. apply delta_then. Qed.

Lemma change_delta t ov : change kept t ov → delta kept t ov.
Proof using.
  intros Hch. rewrite <- (map_union_empty ov). apply delta_then; [constructor|].
  by rewrite apply_overlay_empty.
Qed.

(** Rows outside an overlay do not matter to it. *)
Lemma change_frame t t' ov :
  (∀ k, ov !! k ≠ None → t' !! k = t !! k) → change kept t ov → change kept t' ov.
Proof using.
  intros Hf Hch. destruct Hch as [e id i i' x' Hrw|e i' Hrz].
  - assert (He : t' !! KInv e = t !! KInv e).
    { apply Hf. unfold rewrite_overlay. rewrite lookup_insert_ne by done.
      by rewrite lookup_singleton_eq. }
    assert (Hid : t' !! KRes id = t !! KRes id).
    { apply Hf. unfold rewrite_overlay. by rewrite lookup_insert_eq. }
    destruct Hrw. econstructor.
    constructor; unfold inv_of, res_of in *; rewrite ?He, ?Hid; eauto.
  - assert (He : t' !! KInv e = t !! KInv e) by (apply Hf; by rewrite lookup_singleton_eq).
    constructor. destruct Hrz. constructor; unfold inv_of in *; rewrite ?He; eauto.
Qed.

Lemma delta_frame t t' ov :
  (∀ k, ov !! k ≠ None → t' !! k = t !! k) → delta kept t ov → delta kept t' ov.
Proof using.
  intros Hf Hd. induction Hd as [|ov ov' _ IH Hch]; [constructor|].
  assert (Hk : ∀ k, ov !! k ≠ None → t' !! k = t !! k).
  { intros k Hk. apply Hf. rewrite lookup_union. by destruct (ov' !! k), (ov !! k). }
  apply delta_then; [by apply IH|]. eapply change_frame; [|exact Hch].
  intros k Hk'. rewrite !lookup_apply_overlay. destruct (ov !! k) eqn:Hov; [done|].
  apply Hf. rewrite lookup_union, Hov. by destruct (ov' !! k).
Qed.

Lemma change_version t ov e i :
  change kept t ov → inv_of t e = Some i →
  ∃ i', inv_of (apply_overlay ov t) e = Some i' ∧ (i' = i ∨ version i < version i').
Proof using.
  intros [e1 id i1 i' x' Hrw|e1 i' Hrz] Hi.
  - rewrite rewrite_overlay_apply. setoid_rewrite inv_of_rewrite. case_decide as He; [|eauto].
    subst. destruct Hrw. exists i'. split; [done|]. right.
    rewrite Hi in rw_old0. injection rw_old0 as ->. lia.
  - rewrite resize_overlay_apply. unfold inv_of at 1. rewrite lookup_insert.
    case_decide as He; [|eauto]. injection He as ->. exists i'. split; [done|]. right.
    by apply (rz_version _ _ _ _ Hrz).
Qed.

Lemma delta_version t ov e i :
  delta kept t ov → inv_of t e = Some i →
  ∃ i', inv_of (apply_overlay ov t) e = Some i' ∧ (i' = i ∨ version i < version i').
Proof using.
  intros Hd Hi. induction Hd as [|ov ov' _ IH Hch]; [rewrite apply_overlay_empty; eauto|].
  destruct IH as (i1 & Hi1 & Hv). destruct (change_version _ _ e i1 Hch Hi1) as (i' & Hi' & Hv').
  exists i'. rewrite apply_overlay_over. split; [done|].
  destruct Hv as [->|Hv], Hv' as [->|Hv']; auto. right. lia.
Qed.
End kept.

Lemma apart_sym ss1 ss2 : apart ss1 ss2 → apart ss2 ss1.
Proof.
  intros Hab k Hk. destruct (overlay ss1 !! k) eqn:H1; [|done].
  assert (overlay ss2 !! k = None) by (apply Hab; congruence). congruence.
Qed.

(** ** Steps of one thread *)
Section steps.
Variables (kept : Prop) (r : uuid → Prop).
Variables (w w' : world) (s : nat) (ss : inv_session).
Hypothesis HJ : J kept w.
Hypothesis Hown : own (Local r (Some (s, ss))) w.
Hypothesis Hlive : sessions (inv_db w) !! s = Some ss.
Hypothesis Hsid : next_sid (inv_db w') = next_sid (inv_db w).

Let t := tbl (inv_db w).

Lemma step_knows : knows r t ss.
Proof using Hown Hlive. destruct Hown as [_ [Hn|[_ Hk]]]; [congruence | done]. Qed.

Lemma step_lt : (s < next_sid (inv_db w))%nat.
Proof using Hown. by destruct Hown. Qed.

(** The database with the thread's session replaced is well formed again. *)
Lemma put_ok ss' :
  sessions (inv_db w') = <[s := ss']> (sessions (inv_db w)) →
  safe_while kept (tbl (inv_db w')) → session_ok kept (tbl (inv_db w')) ss' →
  (∀ s2 ss2, s ≠ s2 → sessions (inv_db w) !! s2 = Some ss2 →
     session_ok kept (tbl (inv_db w')) ss2 ∧ apart ss' ss2) →
  J kept w'.
Proof using All.
  intros Hs Hsafe Hok Hothers. destruct HJ as [_ Hfresh _ Hap].
  unfold J. constructor; rewrite ?Hs, ?Hsid; [done| | |].
  - intros s1 ss1 [[<- _]|[_ H1]]%lookup_insert_Some; [apply step_lt | by eapply Hfresh].
  - intros s1 ss1 [[<- <-]|[Hne H1]]%lookup_insert_Some; [done | by eapply Hothers].
  - intros s1 s2 ss1 ss2 Hne [[<- <-]|[Hne1 H1]]%lookup_insert_Some
      [[<- <-]|[Hne2 H2]]%lookup_insert_Some; [congruence | | | by eapply (Hap s1 s2)].
    + by eapply Hothers.
    + apply apart_sym. by eapply Hothers.
Qed.

(** What another thread owns survives, if what it knows does. *)
Lemma put_guarantee ss' :
  sessions (inv_db w') = <[s := ss']> (sessions (inv_db w)) →
  (∀ ro s2 ss2, s ≠ s2 → (∀ id, r id → ¬ ro id) →
     sessions (inv_db w) !! s2 = Some ss2 →
     knows ro t ss2 → knows ro (tbl (inv_db w')) ss2) →
  guarantee own disj (Local r (Some (s, ss))) (Local r (Some (s, ss'))) w w'.
Proof using Hsid.
  intros Hs Hkn lo [Hr Hd] Ho. split.
  - split; [done|]. intros s1 ss1 s2 ss2 [= <- <-] H2. by eapply Hd.
  - unfold own, own_db in *. destruct (l_session lo) as [[s2 ss2]|] eqn:Hlo; [|done].
    assert (Hne : s ≠ s2) by (by eapply Hd).
    rewrite Hsid, Hs, lookup_insert_ne by done. destruct Ho as [Hlt Ho]. split; [done|].
    destruct Ho as [Ho|[Ho Hk]]; [by left|]. right. split; [done|]. by apply (Hkn _ s2).
Qed.

(** The thread replaces its session. *)
Lemma step_put ss' :
  tbl (inv_db w') = t → sessions (inv_db w') = <[s := ss']> (sessions (inv_db w)) →
  session_ok kept t ss' → knows r t ss' →
  (∀ s2 ss2, s ≠ s2 → sessions (inv_db w) !! s2 = Some ss2 → apart ss' ss2) →
  J kept w' ∧ own (Local r (Some (s, ss'))) w'
  ∧ guarantee own disj (Local r (Some (s, ss))) (Local r (Some (s, ss'))) w w'.
Proof using All.
  intros Ht Hs Hok Hk Hap. destruct HJ as [Hsafe _ Hsess _]. split_and!.
  - apply (put_ok ss'); rewrite ?Ht; try done. eauto.
  - unfold own, own_db. simpl. rewrite Hsid, Hs, Ht. split; [apply step_lt|].
    right. by rewrite lookup_insert_eq.
  - apply put_guarantee; [done|]. intros. by rewrite Ht.
Qed.

(** *** Commit *)
Section commit.
Hypothesis Ht : tbl (inv_db w') = apply_overlay (overlay ss) t.

(** Another session's rows are as they were. *)
Lemma commit_others s2 ss2 k :
  s ≠ s2 → sessions (inv_db w) !! s2 = Some ss2 → overlay ss2 !! k ≠ None →
  tbl (inv_db w') !! k = t !! k.
Proof using All.
  intros Hne H2 Hk2. destruct HJ as [_ _ _ Hap].
  by rewrite Ht, lookup_apply_overlay, (Hap s2 s ss2 ss).
Qed.

(** What another session has loaded is at most as new as what is stored. *)
Lemma commit_session_ok s2 ss2 :
  s ≠ s2 → sessions (inv_db w) !! s2 = Some ss2 → session_ok kept (tbl (inv_db w')) ss2.
Proof using All.
  intros Hne H2. destruct HJ as [_ _ Hsess _]. destruct (Hsess _ _ Hlive) as [Hdelta _].
  destruct (Hsess _ _ H2) as [Hd2 Hl2].
  split; [eapply delta_frame; [|done]; intros k; by eapply commit_others|].
  intros e l c Hl. destruct (Hl2 e l c Hl) as (li & i & -> & He & Hi & Hle & Heq).
  unfold inv_of, visible in Hi |- *. rewrite lookup_apply_overlay in Hi |- *.
  destruct (overlay ss2 !! KInv e) as [row|]; [by exists li, i|].
  destruct (delta_version t (overlay ss) e i Hdelta Hi) as (i' & Hi' & Hv).
  exists li, i'. rewrite Ht. split_and!; try done.
  - destruct Hv as [->|]; [done | lia].
  - intros Hev. destruct Hv as [->|]; [by apply Heq | lia].
Qed.

(** A thread with another reservation still knows its own. *)
Lemma commit_knows ro s2 ss2 :
  s ≠ s2 → (∀ id, r id → ¬ ro id) → sessions (inv_db w) !! s2 = Some ss2 →
  knows ro t ss2 → knows ro (tbl (inv_db w')) ss2.
Proof using All.
  intros Hne Hr H2 [Hcur Hwr]. split.
  - intros id l c Hid Hl. pose proof (Hcur id l c Hid Hl) as Hv.
    unfold visible in *. rewrite lookup_apply_overlay in Hv |- *.
    destruct (overlay ss2 !! KRes id); [done|].
    rewrite Ht, lookup_apply_overlay. destruct (overlay ss !! KRes id) eqn:Hov; [|done]. exfalso.
    destruct (kn_written _ _ _ step_knows id) as [Hn|Hn]; [congruence | congruence |].
    by eapply Hr.
  - intros id Hw. rewrite (commit_others s2 ss2) by done. by apply Hwr.
Qed.

(** The thread commits what it has written. *)
Lemma step_commit ss' :
  sessions (inv_db w') = <[s := ss']> (sessions (inv_db w)) →
  overlay ss' = ∅ → objs ss' = objs ss →
  J kept w' ∧ own (Local r (Some (s, ss'))) w'
  ∧ guarantee own disj (Local r (Some (s, ss))) (Local r (Some (s, ss'))) w w'.
Proof using All.
  intros Hs Hov Hobjs. destruct HJ as [Hsafe _ Hsess _].
  destruct (Hsess _ _ Hlive) as [Hdelta Hloaded].
  assert (Hvis : visible (tbl (inv_db w')) ss' = visible t ss).
  { unfold visible. by rewrite Hov, apply_overlay_empty, Ht. }
  split_and!.
  - apply (put_ok ss'); [done| | |].
    + rewrite Ht. by apply delta_safe.
    + split; [rewrite Hov; constructor|]. unfold loaded_ok. by rewrite Hvis, Hobjs.
    + intros s2 ss2 Hne H2. split; [by eapply commit_session_ok|]. intros k. by rewrite Hov.
  - unfold own, own_db. simpl. rewrite Hsid, Hs. split; [apply step_lt|].
    right. rewrite lookup_insert_eq. split; [done|]. split.
    + rewrite Hvis, Hobjs. apply step_knows.
    + intros id. by rewrite Hov, lookup_empty.
  - apply put_guarantee; [done|]. intros ro s2 ss2. by apply commit_knows.
Qed.
End commit.
End steps.
