(* ===== verification/InventoryThreads.v ===== *)
(** * The calls as verified threads

    The verification rule of each operation a call performs, over the invariant
    of [InventoryConcurrency] and what the calling thread knows of its own
    session and reservations. *)
From S2P Require Import Prelude Effects Interleaving Uuid Domain Orm OrmFacts Redis.
From S2P Require Import InventoryModels Platform InventoryRepository Locking.
From S2P Require Import InventoryService InventorySpec InventoryInvariant.
From S2P Require Import SessionRuns InventoryRefinement InventoryCorrectness.
From S2P Require Import InventoryConcurrency.

Lemma visible_fresh (t : table) : visible t empty_session = t.
Proof. apply apply_overlay_empty. Qed.

Lemma foldl_load_overlay (rows : list inv_row) ss : overlay (foldl load ss rows) = overlay ss.
Proof.
  revert ss. induction rows as [|x rows IH]; intros ss; simpl; [done|]. rewrite IH.
  unfold load. by destruct (objs ss !! key_of x).
Qed.

Section rules.
Variables (o : oracle) (kept : Prop).
Abbreviation cwp := (wp (sys_exec o) (J kept) own disj).
Abbreviation L r s ss := (Local r (Some (s, ss))).

(** An operation that leaves the database alone. *)
Lemma wp_quiet {B} (op : sys_op B) l (Q : result exn B → local → Prop) :
  (∀ w b w', sys_exec o _ op w = Some (b, w') → inv_db w' = inv_db w) →
  (∀ b, Q (Ok b) l) → cwp (trigger op) l Q.
Proof.
  intros Hq HQ. apply wp_trigger. intros w b w' HJ Ho Hop. exists l.
  assert (He : env w w') by (unfold env; by rewrite (Hq _ _ _ Hop)).
  split_and!; eauto using env_J, env_own.
  intros lo Hd Hlo. split; [done | by eapply env_own].
Qed.

Lemma wp_redis {B} (op : redis_op (result exn B)) l (Q : result exn B → local → Prop) :
  (∀ b, Q b l) → cwp (call (RedisCmd op)) l Q.
Proof.
  intros HQ. apply wp_bind, wp_quiet; [|intros []; simpl; apply HQ].
  intros w b w'. simpl. destruct (redis_exec _ _ _ _ _) as [b' d]. by intros [= <- <-].
Qed.

Lemma wp_now l (Q : result exn Z → local → Prop) : (∀ t, Q (Ok t) l) → cwp datetime_now l Q.
Proof. intros HQ. apply wp_quiet; [|done]. intros w b w'. simpl. by intros [= <- <-]. Qed.

Lemma wp_uuid4 l (Q : result exn uuid → local → Prop) : (∀ u, Q (Ok u) l) → cwp uuid4 l Q.
Proof. intros HQ. apply wp_quiet; [|done]. intros w b w'. simpl. by intros [= <- <-]. Qed.

Lemma wp_sleep us l (Q : result exn unit → local → Prop) : Q (Ok tt) l → cwp (sleep us) l Q.
Proof.
  intros HQ. apply wp_quiet; [|by intros []]. intros w b w'. simpl. by intros [= <- <-].
Qed.

(** ** Session operations *)

(** A session operation: either the server has dropped the session, and the
    database is as it was, or the session is as the thread left it. *)
Lemma wp_session {B} (op : orm_op inv_key inv_row B) r s ss (Q : result exn B → local → Prop) :
  (∀ w b db', sessions (inv_db w) !! s = None →
     orm_exec (inv_scan o) (clock w) _ op (inv_db w) = Some (b, db') →
     db' = inv_db w ∧ ∃ ss', Q (Ok b) (L r s ss')) →
  (∀ w b db', J kept w → own (L r s ss) w → sessions (inv_db w) !! s = Some ss →
     orm_exec (inv_scan o) (clock w) _ op (inv_db w) = Some (b, db') →
     ∃ l', J kept (set_inv_db db' w) ∧ own l' (set_inv_db db' w)
           ∧ guarantee own disj (L r s ss) l' w (set_inv_db db' w) ∧ Q (Ok b) l') →
  cwp (trigger (InvDb op)) (L r s ss) Q.
Proof.
  intros Hdead Hlive. apply wp_trigger. intros w b w' HJ Ho Hop. simpl in Hop.
  destruct (orm_exec _ _ _ _ _) as [[b' db']|] eqn:Hex; [|done].
  injection Hop as <- <-. pose proof Ho as [Hlt [Hn|[Hs Hk]]].
  - destruct (Hdead w b' db' Hn Hex) as (-> & ss' & HQ). exists (L r s ss').
    assert (Hw : set_inv_db (inv_db w) w = w) by (by destruct w). rewrite Hw.
    split_and!; try done.
    + split; [done | by left].
    + intros lo [Hr Hd] Hlo. split; [|done]. split; [done|].
      intros s1 ss1 s2 ss2 [= <- <-]. by eapply Hd.
  - by apply (Hlive w b' db').
Qed.

(** The thread only changes what its session has in memory. *)
Lemma step_memory r w s ss ss' db' :
  J kept w → own (L r s ss) w → sessions (inv_db w) !! s = Some ss →
  tbl db' = tbl (inv_db w) → next_sid db' = next_sid (inv_db w) →
  sessions db' = <[s := ss']> (sessions (inv_db w)) →
  overlay ss' = overlay ss → loaded_ok (tbl (inv_db w)) ss' → knows r (tbl (inv_db w)) ss' →
  J kept (set_inv_db db' w) ∧ own (L r s ss') (set_inv_db db' w)
  ∧ guarantee own disj (L r s ss) (L r s ss') w (set_inv_db db' w).
Proof.
  intros HJ Ho Hs Ht Hn Hss Hov Hl Hk. apply step_put; try done.
  - split; [|done]. rewrite Hov. by eapply (do_session _ _ HJ).
  - intros s2 ss2 Hne H2 k. rewrite Hov. by eapply (do_apart _ _ HJ s s2).
Qed.

Lemma loaded_ok_insert t ss k x :
  safe_while kept t → session_ok kept t ss → visible t ss !! k = Some x →
  loaded_ok t (with_objs ss (<[k := (x, x)]> (objs ss))).
Proof.
  intros Hsafe [Hd Hl] Hx e l c. simpl. rewrite lookup_insert. case_decide as He.
  - subst k. intros [= <- <-]. destruct (delta_safe _ _ Hsafe Hd) as [Hc _].
    pose proof (c_keyed _ Hc _ _ Hx) as Hkey. destruct x as [i|]; [|done].
    simpl in Hkey. injection Hkey as Hkey. exists i, i.
    split_and!; try done. by apply inv_of_lookup.
  - apply Hl.
Qed.

Lemma knows_insert r t ss k x :
  knows r t ss → visible t ss !! k = Some x →
  knows r t (with_objs ss (<[k := (x, x)]> (objs ss))).
Proof.
  intros [Hc Hw] Hx. split; [|done]. intros id l c Hid. simpl. rewrite lookup_insert.
  case_decide as He; [subst k; by intros [= <- <-] | by apply Hc].
Qed.

(** [session.get] of a row that the session has not loaded yet. *)
Lemma wp_get r s ss k (Q : result exn (option inv_row) → local → Prop) :
  objs ss !! k = None →
  Q (Err OperationalError) (L r s ss) →
  (∀ t, safe_while kept t → session_ok kept t ss → knows r t ss → visible t ss !! k = None →
     Q (Ok None) (L r s ss)) →
  (∀ t x, safe_while kept t → session_ok kept t ss → knows r t ss → visible t ss !! k = Some x →
     Q (Ok (Some x)) (L r s (with_objs ss (<[k := (x, x)]> (objs ss))))) →
  cwp (inv_get s k) (L r s ss) Q.
Proof.
  intros Hk Hdead Hnone Hsome. apply wp_bind, wp_session.
  - intros w b db' Hn. simpl. rewrite Hn. intros [= <- <-]. split; [done|]. by exists ss.
  - intros w b db' HJ Ho Hs. simpl. rewrite Hs, Hk.
    pose proof (step_knows r w s ss Ho Hs) as Hkn.
    pose proof (do_session _ _ HJ _ _ Hs) as Hok. pose proof (do_safe _ _ HJ) as Hsafe.
    destruct (apply_overlay (overlay ss) (tbl (inv_db w)) !! k) as [x|] eqn:Hx;
      intros [= <- <-].
    + destruct (step_memory r w s ss (with_objs ss (<[k := (x, x)]> (objs ss)))
        (put_session s (with_objs ss (<[k := (x, x)]> (objs ss))) (inv_db w)))
        as (HJ' & Ho' & Hg); try done.
      { by apply loaded_ok_insert. }
      { by apply knows_insert. }
      eexists. split; [exact HJ'|]. split; [exact Ho'|]. split; [exact Hg|]. simpl. eauto.
    + assert (Hw : set_inv_db (inv_db w) w = w) by (by destruct w). rewrite Hw.
      eexists. split; [exact HJ|]. split; [exact Ho|]. split; [done|]. simpl. eauto.
Qed.

(** [session.get] of a row that the session has loaded. *)
Lemma wp_get_loaded r s ss k l c (Q : result exn (option inv_row) → local → Prop) :
  objs ss !! k = Some (l, c) →
  Q (Err OperationalError) (L r s ss) → Q (Ok (Some c)) (L r s ss) →
  cwp (inv_get s k) (L r s ss) Q.
Proof.
  intros Hk Hdead HQ. apply wp_bind, wp_session.
  - intros w b db' Hn. simpl. rewrite Hn. intros [= <- <-]. split; [done|]. by exists ss.
  - intros w b db' HJ Ho Hs. simpl. rewrite Hs, Hk. intros [= <- <-].
    assert (Hw : set_inv_db (inv_db w) w = w) by (by destruct w). rewrite Hw.
    by exists (L r s ss).
Qed.

(** The overdue reservations a query finds are rows of the tables, and the
    session loads them. *)
Lemma wp_select_expired `{!OracleOk o} r s now limit (Q : result exn (list inv_row) → local → Prop) :
  (∀ ss, Q (Err OperationalError) (L r s ss)) →
  (∀ t rows, safe_while kept t →
     Forall (λ x, t !! inv_key_of x = Some x ∧ expired_pending now x = true) rows →
     Q (Ok rows) (L r s (foldl load empty_session rows))) →
  cwp (call (InvDb (Select s (expired_query now limit)))) (L r s empty_session) Q.
Proof.
  intros Hdead HQ. apply wp_bind, wp_session.
  - intros w b db' Hn. simpl. rewrite Hn. intros [= <- <-]. split; [done|].
    exists empty_session. apply Hdead.
  - intros w b db' HJ Ho Hs. cbn [orm_exec]. rewrite Hs. cbn [overlay empty_session].
    rewrite apply_overlay_empty.
    set (t := tbl (inv_db w)). set (rows := run_query _ _ _ _). intros [= <- <-].
    pose proof (do_safe _ _ HJ) as Hsafe. fold t in Hsafe.
    assert (Hrows : Forall (λ x, t !! inv_key_of x = Some x ∧ expired_pending now x = true) rows).
    { apply Forall_forall. intros x Hx. by eapply (found_in o), Hx; apply Hsafe. }
    assert (Hvis : Forall (λ x, visible t empty_session !! key_of x = Some x) rows).
    { eapply Forall_impl; [exact Hrows|]. intros x [Hx _]. by rewrite visible_fresh. }
    destruct (load_all_coherent t rows empty_session (coherent_empty t) Hvis) as (Hc & Hv & _ & _).
    set (ss' := foldl load empty_session rows) in *.
    assert (Hinst : map (instance_of empty_session) rows = rows).
    { rewrite <- (map_id rows) at 2. apply map_ext. intros x. unfold instance_of. simpl.
      by rewrite lookup_empty. }
    rewrite Hinst.
    destruct (step_memory r w s empty_session ss' (bump_queries (put_session s ss' (inv_db w))))
      as (HJ' & Ho' & Hg); try done.
    { unfold ss'. apply foldl_load_overlay. }
    { intros e l c Hl. destruct (coh_objs _ _ Hc _ _ _ Hl) as [-> Hvl].
      rewrite Hv, visible_fresh in Hvl.
      pose proof (c_keyed _ (proj1 Hsafe) _ _ Hvl) as Hkey. destruct c as [i|]; [|done].
      injection Hkey as Hkey. exists i, i. fold t. rewrite Hv, visible_fresh.
      split_and!; try done. by apply inv_of_lookup. }
    { split.
      - intros id l c _ Hl. by destruct (coh_objs _ _ Hc _ _ _ Hl) as [-> ?].
      - intros id. unfold ss'. rewrite foldl_load_overlay. simpl. by rewrite lookup_empty. }
    eexists. split; [exact HJ'|]. split; [exact Ho'|]. split; [exact Hg|]. simpl. by eapply HQ.
Qed.

(** An attribute write on a loaded instance. *)
Lemma wp_set r s ss k f l c (Q : result exn unit → local → Prop) :
  objs ss !! k = Some (l, c) →
  Q (Ok tt) (L r s (with_objs ss (<[k := (l, f c)]> (objs ss)))) →
  cwp (trigger (InvDb (SetAttrs s k f))) (L r s ss) Q.
Proof.
  intros Hk HQ. apply wp_session.
  - intros w b db' Hn. simpl. rewrite Hn. intros [= <- <-]. split; [done|]. by eexists.
  - intros w b db' HJ Ho Hs. simpl. rewrite Hs, Hk. intros [= <- <-].
    pose proof (step_knows r w s ss Ho Hs) as Hkn.
    pose proof (do_session _ _ HJ _ _ Hs) as [Hd Hl].
    set (ss' := with_objs ss (<[k := (l, f c)]> (objs ss))).
    destruct (step_memory r w s ss ss' (put_session s ss' (inv_db w)))
      as (HJ' & Ho' & Hg); try done.
    { intros e l' c'. simpl. rewrite lookup_insert. case_decide as He; [|apply Hl].
      subst k. intros [= <- <-]. by eapply Hl. }
    { split; [|apply Hkn]. intros id l' c' Hid. simpl. rewrite lookup_insert.
      case_decide as He; [|by eapply Hkn]. subst k. intros [= <- <-]. by eapply Hkn. }
    eexists. split; [exact HJ'|]. split; [exact Ho'|]. split; [exact Hg|]. done.
Qed.

Lemma wp_attrs r s ss k l c (Q : result exn (option inv_row) → local → Prop) :
  objs ss !! k = Some (l, c) →
  Q (Ok None) (L r s ss) → Q (Ok (Some c)) (L r s ss) →
  cwp (trigger (InvDb (Attrs s k))) (L r s ss) Q.
Proof.
  intros Hk Hdead HQ. apply wp_session.
  - intros w b db' Hn. simpl. rewrite Hn. intros [= <- <-]. split; [done|]. by exists ss.
  - intros w b db' HJ Ho Hs. simpl. rewrite Hs, Hk. intros [= <- <-].
    assert (Hw : set_inv_db (inv_db w) w = w) by (by destruct w). rewrite Hw.
    by exists (L r s ss).
Qed.

Lemma wp_add r s ss x (Q : result exn unit → local → Prop) :
  Q (Ok tt) (L r s (Session (objs ss) (news ss ++ [x]) (dels ss) (overlay ss))) →
  cwp (inv_add s x) (L r s ss) Q.
Proof.
  intros HQ. apply wp_session.
  - intros w b db' Hn. simpl. rewrite Hn. intros [= <- <-]. split; [done|]. by eexists.
  - intros w b db' HJ Ho Hs. simpl. rewrite Hs. intros [= <- <-].
    pose proof (step_knows r w s ss Ho Hs) as Hkn.
    pose proof (do_session _ _ HJ _ _ Hs) as [Hd Hl].
    set (ss' := Session _ _ _ _).
    destruct (step_memory r w s ss ss' (put_session s ss' (inv_db w)))
      as (HJ' & Ho' & Hg); try done.
    { split; apply Hkn. }
    eexists. split; [exact HJ'|]. split; [exact Ho'|]. split; [exact Hg|]. done.
Qed.

Lemma empty_session_ok t : session_ok kept t empty_session.
Proof. split; [constructor|]. intros e l c. simpl. by rewrite lookup_empty. Qed.

Lemma empty_session_knows r t : knows r t empty_session.
Proof. split; intros id; simpl; intros *; by rewrite lookup_empty. Qed.

(** The transaction is rolled back. *)
Lemma step_reset r w s ss :
  J kept w → own (L r s ss) w → sessions (inv_db w) !! s = Some ss →
  let w' := set_inv_db (put_session s empty_session (inv_db w)) w in
  J kept w' ∧ own (L r s empty_session) w'
  ∧ guarantee own disj (L r s ss) (L r s empty_session) w w'.
Proof.
  intros HJ Ho Hs w'. apply step_put; try done.
  - apply empty_session_ok.
  - intros s2 ss2 _ _ k. simpl. by rewrite lookup_empty.
Qed.

Lemma wp_rollback r s ss (Q : result exn unit → local → Prop) :
  Q (Ok tt) (L r s empty_session) → cwp (inv_rollback s) (L r s ss) Q.
Proof.
  intros HQ. apply wp_session.
  - intros w b db' Hn. simpl. rewrite Hn. intros [= <- <-]. split; [done|]. by eexists.
  - intros w b db' HJ Ho Hs. simpl. rewrite Hs. intros [= <- <-].
    destruct (step_reset r w s ss HJ Ho Hs) as (HJ' & Ho' & Hg).
    eexists. split; [exact HJ'|]. split; [exact Ho'|]. split; [exact Hg|]. done.
Qed.

(** [session.flush]: the caller shows that what a successful flush wrote is a
    delta of rows it wrote; the row locks keep it apart from the others. *)
Lemma wp_flush r s ss (Q : result exn unit → local → Prop) :
  (∀ e, Q (Err e) (L r s empty_session)) →
  Q (Err OperationalError) (L r s ss) →
  (∀ now db ss', let t := tbl db in
     safe_while kept t → session_ok kept t ss → knows r t ss →
     do_flush now s db ss = Some (Ok ss') →
     delta kept t (overlay ss') ∧ loaded_ok t ss' ∧ knows r t ss'
     ∧ (∀ k, overlay ss' !! k ≠ None → overlay ss !! k ≠ None ∨ k ∈ written_keys ss)
     ∧ Q (Ok tt) (L r s ss')) →
  cwp (inv_flush s) (L r s ss) Q.
Proof.
  intros Herr Hdead Hok. apply wp_bind, wp_session.
  - intros w b db' Hn. simpl. rewrite Hn. intros [= <- <-]. split; [done|]. by exists ss.
  - intros w b db' HJ Ho Hs. simpl. rewrite Hs.
    destruct (do_flush (clock w) s (inv_db w) ss) as [[ss'|e]|] eqn:Hf; intros [= <- <-].
    + destruct (Hok (clock w) (inv_db w) ss') as (Hd & Hl & Hk & Hkeys & HQ); try done.
      { apply HJ. } { by eapply (do_session _ _ HJ). } { by eapply step_knows. }
      apply do_flush_unblocked in Hf.
      destruct (step_put kept r w (set_inv_db (put_session s ss' (inv_db w)) w) s ss HJ Ho Hs
        eq_refl ss') as (HJ' & Ho' & Hg); try done.
      { intros s2 ss2 Hne H2 k Hk'. destruct (Hkeys k Hk') as [Hold|Hnew].
        - by eapply (do_apart _ _ HJ s s2).
        - destruct (Hf s2 ss2 H2) as [Hfree _]; [done|].
          rewrite Forall_forall in Hfree. by apply Hfree. }
      eexists. split; [exact HJ'|]. split; [exact Ho'|]. split; [exact Hg|]. done.
    + destruct (step_reset r w s ss HJ Ho Hs) as (HJ' & Ho' & Hg).
      eexists. split; [exact HJ'|]. split; [exact Ho'|]. split; [exact Hg|]. apply Herr.
Qed.

(** Nothing is left to flush. *)
Record flushed (ss : inv_session) : Prop := {
  fl_clean : all_clean (objs ss);
  fl_news : news ss = [];
  fl_dels : dels ss = [];
}.

Lemma do_flush_flushed now s db ss :
  flushed ss →
  do_flush now s db ss = Some (Ok (Session (objs ss) [] [] (overlay ss))).
Proof.
  intros [Hc Hn Hd]. unfold do_flush, flush_statements, dirty.
  rewrite dirty_objs_clean, map_to_list_empty, Hn, Hd by done. simpl.
  rewrite decide_True; [done|]. intros s' ss' _ _.
  unfold written_keys, dirty. rewrite dirty_objs_clean, map_to_list_empty, Hn, Hd by done.
  by split.
Qed.

Lemma wp_commit r s ss (Q : result exn unit → local → Prop) :
  flushed ss →
  Q (Err OperationalError) (L r s ss) →
  Q (Ok tt) (L r s (Session (objs ss) [] [] ∅)) →
  cwp (call (InvDb (Commit s))) (L r s ss) Q.
Proof.
  intros Hfl Hdead HQ. apply wp_bind, wp_session.
  - intros w b db' Hn. simpl. rewrite Hn. intros [= <- <-]. split; [done|]. by exists ss.
  - intros w b db' HJ Ho Hs. simpl. rewrite Hs, do_flush_flushed by done. intros [= <- <-].
    set (ss' := Session (objs ss) [] [] ∅). set (db' := Database _ _ _ _).
    destruct (step_commit kept r w (set_inv_db db' w) s ss HJ Ho Hs eq_refl eq_refl ss')
      as (HJ' & Ho' & Hg); try done.
    eexists. split; [exact HJ'|]. split; [exact Ho'|]. split; [exact Hg|]. done.
Qed.

Lemma wp_open r (Q : result exn nat → local → Prop) :
  (∀ s, Q (Ok s) (L r s empty_session)) → cwp (trigger (InvDb OpenSession)) (Local r None) Q.
Proof.
  intros HQ. apply wp_trigger. intros w s w' HJ _ Hop. simpl in Hop.
  injection Hop as <- <-. set (s := next_sid (inv_db w)). exists (L r s empty_session).
  assert (Hnew : sessions (inv_db w) !! s = None).
  { destruct (sessions (inv_db w) !! s) eqn:Hs; [|done].
    apply (do_fresh _ _ HJ) in Hs. unfold s in Hs. lia. }
  split_and!; [|split; simpl; [lia|]| |by apply HQ].
  - destruct HJ as [Hsafe Hfresh Hsess Hap]. unfold J. constructor; simpl; try done.
    + intros s1 ss1. rewrite lookup_insert. case_decide; [lia|].
      intros H1. apply Hfresh in H1. lia.
    + intros s1 ss1. rewrite lookup_insert. case_decide; [|by apply Hsess].
      intros [= <-]. apply empty_session_ok.
    + intros s1 s2 ss1 ss2 Hne. rewrite !lookup_insert.
      repeat case_decide; intros H1 H2; simplify_eq; [| |by eauto];
        intros k; simpl; by rewrite lookup_empty.
  - right. rewrite lookup_insert_eq. split; [done | apply empty_session_knows].
  - intros lo [Hr _] Hlo. unfold own, own_db in Hlo |- *. split.
    + split; [done|]. intros s1 ss1 s2 ss2 [= <- <-] H2. rewrite H2 in Hlo.
      destruct Hlo as [Hlt _]. unfold s. lia.
    + destruct (l_session lo) as [[s2 ss2]|]; [|done]. destruct Hlo as [Hlt Hlo].
      simpl. split; [lia|]. rewrite lookup_insert_ne; [done|]. unfold s. lia.
Qed.

Lemma wp_close r s ss (Q : result exn unit → local → Prop) :
  Q (Ok tt) (Local r None) → cwp (trigger (InvDb (CloseSession s))) (L r s ss) Q.
Proof.
  intros HQ. apply wp_trigger. intros w [] w' HJ Ho Hop. simpl in Hop.
  injection Hop as <-. exists (Local r None). split_and!; try done.
  - destruct HJ as [Hsafe Hfresh Hsess Hap]. unfold J. constructor; simpl; try done.
    + intros s1 ss1 [_ H1]%lookup_delete_Some. eauto.
    + intros s1 ss1 [_ H1]%lookup_delete_Some. eauto.
    + intros s1 s2 ss1 ss2 Hne [_ H1]%lookup_delete_Some [_ H2]%lookup_delete_Some. eauto.
  - intros lo [Hr Hd] Hlo. split; [by split|]. unfold own, own_db in Hlo |- *.
    destruct (l_session lo) as [[s2 ss2]|] eqn:Hs2; [|done].
    assert (s ≠ s2) by (by eapply Hd). simpl.
    by rewrite lookup_delete_ne.
Qed.

(** ** Transactions and locks *)

(** A body leaves the session it was given open and, when it succeeds, with
    nothing to flush. *)
Definition body_post {A} (r : uuid → Prop) (s : nat) (out : result exn A) (l : local) : Prop :=
  ∃ ss, l = L r s ss ∧ (is_ok out → flushed ss).

Lemma wp_session_scope {A} r (body : nat → M A) :
  (∀ s, cwp (body s) (L r s empty_session) (body_post r s)) →
  cwp (session_scope body) (Local r None) (λ _ l, l = Local r None).
Proof.
  intros Hb. apply wp_bind, wp_open. intros s. cbv beta iota.
  apply wp_bind, wp_attempt, wp_bind, wp_attempt, wp_bind.
  eapply wp_mono; [|apply Hb]. intros out l (ss & -> & Hfl).
  assert (Hclose : ∀ (out : result exn A) ss,
    cwp (trigger (InvDb (CloseSession s)) ;; of_result out) (L r s ss)
      (λ _ l, l = Local r None)).
  { intros out' ss'. apply wp_bind, wp_close. by destruct out'. }
  assert (Hfail : ∀ (e : exn) ss,
    cwp (inv_rollback s ;; Raise (A := A) e) (L r s ss)
      (λ r0 l', cwp (trigger (InvDb (CloseSession s)) ;; of_result r0) l'
                  (λ _ l, l = Local r None))).
  { intros e ss'. apply wp_bind, wp_rollback. apply Hclose. }
  destruct out as [a|e].
  - cbv beta iota. apply wp_bind, wp_commit; [by apply Hfl | apply Hfail | apply Hclose].
  - apply Hfail.
Qed.

Lemma wp_with_lock {A} r lk resource (p : M A) :
  cwp p (Local r None) (λ _ l, l = Local r None) →
  cwp (with_lock lk resource p) (Local r None) (λ _ l, l = Local r None).
Proof.
  intros Hp. apply wp_bind, wp_uuid4. intros token. cbv beta iota.
  apply wp_bind.
  assert (Htry : ∀ n, cwp (try_acquire lk (lock_key resource) (uuid_str token) n)
                        (Local r None) (λ _ l, l = Local r None)).
  { intros n. induction n as [|n IH]; [done|]. cbn [try_acquire].
    apply wp_bind, wp_redis. intros [[]|e]; [done| |done].
    by apply wp_bind, wp_sleep. }
  eapply wp_mono; [|apply Htry]. intros [[]|e] l ->; try done.
  apply wp_bind, wp_attempt. eapply wp_mono; [|exact Hp]. intros out l ->.
  apply wp_bind, wp_bind, wp_attempt, wp_bind, wp_redis.
  intros [b|e]; simpl; by destruct out.
Qed.
End rules.

(** ** Settled sessions

    Between two statements of a body: nothing is left to flush, the event rows
    the session has loaded are those it has written and holds the locks of, and
    the reservations it has loaded are those the thread may move. *)
Record settled (r : uuid → Prop) (ss : inv_session) : Prop := {
  st_flushed : flushed ss;
  st_events : ∀ e l c, objs ss !! KInv e = Some (l, c) →
    ∃ i, l = RInv i ∧ overlay ss !! KInv e = Some (Some (RInv i));
  st_reservations : ∀ id l c, objs ss !! KRes id = Some (l, c) →
    r id ∧ ∃ x, l = RRes x ∧ res_id x = id ∧ 0 < quantity x;
}.

Lemma settled_empty r : settled r empty_session.
Proof.
  split; [split; [intros k l c|done..]|intros e l c|intros id l c]; simpl; by rewrite lookup_empty.
Qed.

(** What it has loaded is what the tables show. *)
Lemma settled_current r t ss k l :
  settled r ss → knows r t ss → objs ss !! k = Some (l, l) → visible t ss !! k = Some l.
Proof.
  intros Hst Hk Hl. destruct k as [e|id].
  - destruct (st_events _ _ Hst e l l Hl) as (i & -> & Hov). unfold visible.
    by rewrite lookup_apply_overlay, Hov.
  - destruct (st_reservations _ _ Hst id l l Hl) as [Hr _]. by eapply kn_current.
Qed.

(** ** What a successful flush of each body has written *)
Section flushes.
Variables (kept : Prop) (now : Z) (s : nat) (db : database inv_key inv_row) (r : uuid → Prop).
Variables (ss ss' : inv_session).
Let t := tbl db.
Let v := visible t ss.
Hypotheses (Hsafe : safe_while kept t) (Hok : session_ok kept t ss) (Hk : knows r t ss).
Hypothesis Hflush : do_flush now s db ss = Some (Ok ss').

Lemma visible_safe : safe_while kept v.
Proof using Hsafe Hok. apply delta_safe; [done | apply Hok]. Qed.

(** The instances that the flush updated were current. *)
Lemma flush_tracked :
  (∀ k l, objs ss !! k = Some (l, l) → v !! k = Some l) →
  (∀ k l c, objs ss !! k = Some (l, c) → l ≠ c → inv_merge l c l = c ∧
     ∀ id, k = KRes id → r id) →
  tracked t ss.
Proof using Hok Hk Hflush.
  intros Hclean Hobjs. eapply flush_Ok_tracked; [| |exact Hflush].
  - intros k l Hl. split; [by apply Hclean | apply inv_merge_same].
  - intros k l c stored Hl Hne Hs Hv. destruct (Hobjs k l c Hl Hne) as (Hm & Hr).
    split; [|done]. destruct k as [e|id].
    + destruct (so_loaded _ _ _ Hok e l c Hl) as (li & i & -> & _ & Hi & _ & Heq).
      apply inv_of_lookup in Hi. unfold t in Hi. rewrite Hi in Hs. injection Hs as <-.
      simpl in Hv. injection Hv as Hv. by rewrite Heq.
    + pose proof (kn_current _ _ _ Hk id l c (Hr id eq_refl) Hl) as Hc.
      unfold t in Hc. congruence.
Qed.

(** A session that knows what it sees is fit to go on. *)
Lemma coherent_fit :
  delta kept t (overlay ss') → coherent t ss' →
  (∀ id, overlay ss' !! KRes id ≠ None → t !! KRes id = None ∨ r id) →
  loaded_ok t ss' ∧ knows r t ss' ∧ flushed ss'.
Proof using Hsafe.
  intros Hd Hc Hw. destruct (delta_safe _ _ Hsafe Hd) as [Hcons _]. split_and!.
  - intros e l c Hl. destruct (coh_objs _ _ Hc _ _ _ Hl) as [-> Hv].
    pose proof (c_keyed _ Hcons _ _ Hv) as Hkey. destruct c as [i|]; [|done].
    simpl in Hkey. injection Hkey as Hkey. exists i, i. split_and!; try done.
    by apply inv_of_lookup.
  - split; [|done]. intros id l c _ Hl. by destruct (coh_objs _ _ Hc _ _ _ Hl) as [-> ?].
  - split; try apply Hc. by eapply coherent_clean.
Qed.

(** ** A booking *)
Section booking.
Hypothesis Hov : overlay ss = ∅.
Variables (e : uuid) (i : EventInventory) (qty : Z) (x : Reservation).
Hypothesis Hobjs : objs ss = {[KInv e := (RInv i, RInv (add_reserved qty i))]}.
Hypotheses (Hnews : news ss = [RRes x]) (Hdels : dels ss = []).
Hypotheses (Hst : status x = ReservationStatus.PENDING) (Hq : quantity x = qty).
Hypotheses (He : res_event_id x = e) (Hpos : 0 < qty) (Hav : qty ≤ available i).

Lemma booking_changes : RInv i ≠ RInv (add_reserved qty i).
Proof using Hpos. intros [= Heq]. apply (f_equal reserved_count) in Heq. simpl in Heq. lia. Qed.

Lemma booking_dirty : dirty_objs (objs ss) = objs ss.
Proof using Hobjs Hpos.
  rewrite Hobjs. apply map_filter_singleton_True. simpl. apply booking_changes.
Qed.

Lemma booking_tracked : tracked t ss.
Proof using Hobjs Hpos Hok Hk Hflush.
  apply flush_tracked; rewrite Hobjs.
  - intros k l Hl. apply lookup_singleton_Some in Hl as [_ Heq].
    destruct booking_changes. congruence.
  - intros k l c Hl _. apply lookup_singleton_Some in Hl as [<- [= <- <-]].
    split; [simpl; by rewrite merge_inventory_loaded | done].
Qed.

Lemma booking_updates :
  updates now (objs ss) = {[KInv e := RInv (updated_inventory (add_reserved qty) i)]}.
Proof using Hobjs Hpos. unfold updates. by rewrite booking_dirty, Hobjs, map_fmap_singleton. Qed.

Lemma booking_stored : inv_of t e = Some i.
Proof using Hobjs Hpos Hok Hk Hflush Hov.
  destruct (booking_tracked (KInv e) (RInv i) (RInv (add_reserved qty i))) as [Hi _].
  { by rewrite Hobjs, lookup_singleton_eq. }
  unfold visible in Hi. rewrite Hov, apply_overlay_empty in Hi. by apply inv_of_lookup.
Qed.

Lemma booking_rewrite_ok :
  inv_check_row (RInv (updated_inventory (add_reserved qty) i)) = None →
  inv_check_row (RRes (stamp_created now x)) = None →
  t !! KRes (res_id x) = None →
  rewrite_ok t e (res_id x) i (updated_inventory (add_reserved qty) i) (stamp_created now x).
Proof using All.
  intros Hck Hckx Hfresh. pose proof booking_stored as Hi. destruct Hsafe as [Hcons Hcap].
  destruct (inventory_row_ok t Hcons e i Hi) as [[Hcki Hpi] Hei].
  assert (Hres : res_of t (res_id x) = None) by (unfold res_of; by rewrite Hfresh).
  constructor; try done.
  - intros y. by rewrite Hres.
  - split; [done | simpl; lia].
  - split; [done | simpl; lia].
  - rewrite Hres. simpl. rewrite decide_True by done. lia.
  - rewrite Hres. simpl. rewrite decide_False by (by rewrite Hst). lia.
  - unfold available in Hav. simpl. lia.
Qed.

Lemma flush_booking :
  delta kept t (overlay ss') ∧ coherent t ss'
  ∧ (∀ id, overlay ss' !! KRes id ≠ None → t !! KRes id = None)
  ∧ (∀ k, overlay ss' !! k ≠ None → k ∈ written_keys ss)
  ∧ objs ss' !! KRes (res_id x) = Some (RRes (stamp_created now x), RRes (stamp_created now x)).
Proof using All.
  pose proof (do_flush_unblocked _ _ _ _ _ Hflush) as Hfree.
  destruct (flush_Ok_insert now s db ss Hfree booking_tracked Hdels (RRes x) ss' Hnews Hflush eq_refl)
    as (Hck & Hc & Hnew & Hfresh & Hov' & Ho').
  rewrite booking_updates in Hfresh, Hov'. rewrite Hov, map_union_empty, map_fmap_singleton in Hov'.
  unfold visible in Hfresh. rewrite Hov, apply_overlay_empty in Hfresh. fold t in Hfresh.
  simpl key_of in Hfresh, Hov'.
  change (stamp_insert now (initial_version (RRes x))) with (RRes (stamp_created now x)) in *.
  rewrite lookup_union_r in Hfresh by (by rewrite lookup_singleton_ne).
  split_and!; [|done| | |].
  - rewrite Hov'. apply change_delta, (change_rewrite _ t e (res_id x) i), booking_rewrite_ok; try done.
    apply (Hck (KInv e) (RInv i) (RInv (add_reserved qty i))).
    by rewrite booking_dirty, Hobjs, lookup_singleton_eq.
  - intros id. rewrite Hov', lookup_insert. case_decide as Hid; [congruence|].
    by rewrite lookup_singleton_ne.
  - intros k. rewrite Hov'. unfold written_keys, dirty. rewrite booking_dirty, Hobjs, Hnews, Hdels.
    rewrite map_to_list_singleton, lookup_insert, lookup_singleton. simpl.
    repeat case_decide; subst; intros; set_solver.
  - rewrite Ho'. apply lookup_insert_eq.
Qed.
End booking.

(** ** An initialisation *)
Lemma flush_initialize e capacity :
  let new := mkEventInventory e capacity 0 0 1 in
  overlay ss = ∅ → objs ss = ∅ → news ss = [RInv (mkEventInventory e capacity 0 0 0)] →
  dels ss = [] → (kept → 0 ≤ capacity) →
  delta kept t (overlay ss') ∧ coherent t ss' ∧ (∀ id, overlay ss' !! KRes id = None)
  ∧ (∀ k, overlay ss' !! k ≠ None → k ∈ written_keys ss)
  ∧ objs ss' !! KInv e = Some (RInv new, RInv new).
Proof using All.
  intros new Hov Hobjs Hnews Hdels Hcap.
  assert (Htr : tracked t ss).
  { intros k l c. by rewrite Hobjs, lookup_empty. }
  pose proof (do_flush_unblocked _ _ _ _ _ Hflush) as Hfree.
  destruct (flush_Ok_insert now s db ss Hfree Htr Hdels _ ss' Hnews Hflush eq_refl)
    as (_ & Hc & Hnew & Hfresh & Hov' & Ho').
  unfold updates, dirty_objs in Hfresh, Hov'.
  rewrite Hobjs, map_filter_empty, fmap_empty in Hfresh, Hov'.
  rewrite Hov, map_union_empty, fmap_empty, insert_empty in Hov'. rewrite map_empty_union in Hfresh.
  unfold visible in Hfresh. rewrite Hov, apply_overlay_empty in Hfresh.
  change (stamp_insert now (initial_version _)) with (RInv new) in *.
  simpl key_of in Hfresh, Hov'. fold t in Hfresh.
  assert (Hno : inv_of t e = None) by (unfold inv_of; by rewrite Hfresh).
  split_and!; [|done| | |].
  - rewrite Hov'. apply change_delta, change_resize. constructor; rewrite ?Hno; done.
  - intros id. by rewrite Hov', lookup_singleton_ne.
  - intros k. rewrite Hov', lookup_singleton. unfold written_keys. rewrite Hnews, Hdels.
    case_decide; [subst; set_solver | done].
  - rewrite Ho'. apply lookup_insert_eq.
Qed.

(** ** A new capacity *)
Lemma flush_resize e i capacity :
  let new := set_version (version i + 1) (set_total_capacity capacity i) in
  overlay ss = ∅ → objs ss = {[KInv e := (RInv i, RInv (set_total_capacity capacity i))]} →
  news ss = [] → dels ss = [] → ¬ kept → capacity ≠ total_capacity i →
  delta kept t (overlay ss') ∧ coherent t ss' ∧ (∀ id, overlay ss' !! KRes id = None)
  ∧ (∀ k, overlay ss' !! k ≠ None → k ∈ written_keys ss)
  ∧ objs ss' !! KInv e = Some (RInv new, RInv new).
Proof using All.
  intros new Hov Hobjs Hnews Hdels Hcut Hne.
  assert (Hch : RInv i ≠ RInv (set_total_capacity capacity i)).
  { intros [= Heq]. apply (f_equal total_capacity) in Heq. by simpl in Heq. }
  assert (Hdirty : dirty_objs (objs ss) = objs ss).
  { rewrite Hobjs. by apply map_filter_singleton_True. }
  assert (Htr : tracked t ss).
  { apply flush_tracked; rewrite Hobjs; intros k l *; rewrite lookup_singleton_Some.
    - intros [_ Heq]. destruct Hch. congruence.
    - intros [<- [= <- <-]] _. split; [simpl; by rewrite merge_inventory_loaded | done]. }
  pose proof (do_flush_unblocked _ _ _ _ _ Hflush) as Hfree.
  destruct (flush_Ok_updates now s db ss Hfree Htr Hdels ss' Hnews Hflush) as (Hck & Hc & Hov' & Ho').
  assert (Hup : updates now (objs ss) = {[KInv e := RInv new]}).
  { unfold updates. by rewrite Hdirty, Hobjs, map_fmap_singleton. }
  rewrite Hup in Hov', Ho'. rewrite Hov, map_union_empty, map_fmap_singleton in Hov'.
  assert (Hi : inv_of t e = Some i).
  { apply inv_of_lookup. destruct (Htr (KInv e) (RInv i) (RInv (set_total_capacity capacity i))) as [Hi _].
    { by rewrite Hobjs, lookup_singleton_eq. }
    unfold visible in Hi. by rewrite Hov, apply_overlay_empty in Hi. }
  destruct Hsafe as [Hcons _]. destruct (inventory_row_ok t Hcons e i Hi) as [[_ Hpos] He].
  split_and!; [|done| | |].
  - rewrite Hov'. apply change_delta, change_resize. constructor; rewrite ?Hi; simpl; try done.
    + split; [|done]. apply (Hck (KInv e) (RInv i) (RInv (set_total_capacity capacity i))).
      by rewrite Hdirty, Hobjs, lookup_singleton_eq.
    + intros j [= <-]. lia.
  - intros id. by rewrite Hov', lookup_singleton_ne.
  - intros k. rewrite Hov', lookup_singleton. unfold written_keys, dirty. rewrite Hdirty, Hobjs.
    rewrite map_to_list_singleton. case_decide; [subst; intros _; by left | done].
  - rewrite Ho', map_fmap_singleton. by apply lookup_union_Some_l, lookup_singleton_eq.
Qed.

(** ** A transition

    In a session that was settled: the rest of its instances are as they were. *)
Section transition.
Variables (ss0 : inv_session).
Variables (i i1 : EventInventory) (x : Reservation) (st : ReservationStatus.t).
Let id := res_id x.
Let e := res_event_id x.
Hypothesis Hsettled : settled r ss0.
Hypothesis Hobjs :
  objs ss = <[KRes id := (RRes x, RRes (set_status st x))]> (<[KInv e := (RInv i, RInv i1)]> (objs ss0)).
Hypotheses (Hov : overlay ss = overlay ss0) (Hnews : news ss = []) (Hdels : dels ss = []) (Hr : r id).
Hypotheses (Hst : st ≠ status x) (Hne : i1 ≠ i) (He : inv_event_id i1 = inv_event_id i).
Hypotheses (Hv : version i1 = version i) (Htot : total_capacity i1 = total_capacity i).

Let moved st' := held_by st' (Some (set_status st x)) - held_by st' (Some x).
Let y := stamp_updated now (set_status st x).
Let j := set_version (version i + 1) i1.

Lemma transition_dirty :
  dirty_objs (objs ss) = <[KRes id := (RRes x, RRes (set_status st x))]> {[KInv e := (RInv i, RInv i1)]}.
Proof using Hobjs Hst Hne Hsettled.
  rewrite Hobjs. unfold dirty_objs. rewrite !map_filter_insert_True.
  - fold (dirty_objs (objs ss0)).
    rewrite dirty_objs_clean by apply Hsettled. by rewrite insert_empty.
  - simpl. congruence.
  - simpl. intros [= Heq]. apply (f_equal status) in Heq. simpl in Heq. congruence.
Qed.

Lemma transition_tracked : tracked t ss.
Proof using Hobjs Hov Hst Hne Hr He Hv Hok Hk Hflush Hsettled.
  apply flush_tracked; rewrite Hobjs; intros k l; setoid_rewrite lookup_insert.
  - case_decide as Hkr; [|setoid_rewrite lookup_insert; case_decide as Hke].
    + intros [= <- Heq]. apply (f_equal (λ r, status <$> as_reservation (Some r))) in Heq.
      simpl in Heq. congruence.
    + intros [= <- Heq]. congruence.
    + intros Hl. destruct k as [e'|id'].
      * destruct (st_events _ _ Hsettled e' l l Hl) as (i' & -> & Hov').
        unfold v, visible. by rewrite lookup_apply_overlay, Hov, Hov'.
      * destruct (st_reservations _ _ Hsettled id' l l Hl) as [Hr' _].
        eapply (kn_current _ _ _ Hk); [done|].
        by rewrite Hobjs, !lookup_insert_ne by congruence.
  - intros c. case_decide as Hkr; [|setoid_rewrite lookup_insert; case_decide as Hke].
    + intros [= <- <-] _. subst k. simpl. rewrite merge_reservation_loaded by done.
      split; [done|]. by intros ? [= <-].
    + intros [= <- <-] _. subst k. simpl. by rewrite merge_inventory_loaded.
    + intros Hl Hlc. by destruct Hlc; apply (fl_clean _ (st_flushed _ _ Hsettled) k l c).
Qed.

Lemma transition_updates :
  updates now (objs ss) = <[KRes id := RRes y]> {[KInv e := RInv j]}.
Proof using Hobjs Hst Hne Hv Hsettled.
  unfold updates. rewrite transition_dirty, fmap_insert, map_fmap_singleton.
  unfold new_row, bump, j. simpl. by rewrite Hv.
Qed.

(** The rows the transition started from are what the session sees. *)
Lemma transition_seen : res_of v id = Some x ∧ inv_of v e = Some i.
Proof using All.
  pose proof transition_tracked as Htr. split; [apply res_of_lookup | apply inv_of_lookup].
  - destruct (Htr (KRes id) (RRes x) (RRes (set_status st x))) as [Hx _]; [|done].
    by rewrite Hobjs, lookup_insert_eq.
  - destruct (Htr (KInv e) (RInv i) (RInv i1)) as [Hi _]; [|done].
    by rewrite Hobjs, lookup_insert_ne, lookup_insert_eq by done.
Qed.

Lemma transition_rewrite_ok :
  inv_check_row (RInv j) = None →
  reserved_count i1 = reserved_count i + moved ReservationStatus.PENDING →
  confirmed_count i1 = confirmed_count i + moved ReservationStatus.CONFIRMED →
  moved ReservationStatus.PENDING + moved ReservationStatus.CONFIRMED ≤ 0 →
  rewrite_ok v e id i j y.
Proof using All.
  intros Hck Hres Hconf Hle. destruct transition_seen as [Hx Hi].
  destruct visible_safe as [Hcons Hcap].
  destruct (inventory_row_ok v Hcons _ i Hi) as [[Hcki Hpi] Hei].
  destruct (reservation_row_ok v Hcons _ x Hx) as [[Hckx Hqx] _].
  pose proof (held_le_reserved v Hcons _ x i Hx Hi) as [Hlr Hlc].
  assert (Hpos : ∀ st', 0 ≤ held_by st' (Some (set_status st x)))
    by (intros st'; simpl; case_decide; lia).
  pose proof (Hpos ReservationStatus.PENDING). pose proof (Hpos ReservationStatus.CONFIRMED).
  unfold moved, j in *.
  constructor; rewrite ?Hx; simpl inv_event_id; simpl reserved_count; simpl confirmed_count;
    simpl total_capacity; simpl version; try done; try congruence; try lia.
  - by intros ? [= <-].
  - split; [done | simpl; lia].
  - rewrite Hres. simpl. lia.
  - rewrite Hconf. simpl. lia.
Qed.

(** The session is settled again. *)
Lemma transition_settled :
  coherent t ss' → overlay ss' = rewrite_overlay e id j y ∪ overlay ss →
  objs ss' = <[KRes id := (RRes y, RRes y)]> {[KInv e := (RInv j, RInv j)]} ∪ objs ss →
  settled r ss'.
Proof using All.
  intros Hc Hov' Ho'. destruct transition_seen as [Hx _]. destruct visible_safe as [Hcons _].
  destruct (reservation_row_ok v Hcons _ x Hx) as [[_ Hq] _].
  split; [split; try apply Hc; by eapply coherent_clean|..]; intros k l c; rewrite Ho', Hobjs.
  - rewrite Hov', Hov. unfold rewrite_overlay.
    rewrite !lookup_union, !(lookup_insert_ne _ (KRes _)), !lookup_singleton, lookup_insert by done.
    case_decide as Hke.
    + rewrite union_Some_l. intros [= <- <-]. exists j. by rewrite union_Some_l.
    + rewrite !(left_id_L None _). apply (st_events _ _ Hsettled).
  - rewrite !lookup_union, !lookup_insert, !lookup_singleton_ne by done.
    case_decide as Hkr.
    + rewrite union_Some_l. intros [= <- <-]. injection Hkr as <-. split; [done|]. by exists y.
    + rewrite decide_False by done. rewrite (left_id_L None _). apply (st_reservations _ _ Hsettled).
Qed.

Lemma flush_transition :
  reserved_count i1 = reserved_count i + moved ReservationStatus.PENDING →
  confirmed_count i1 = confirmed_count i + moved ReservationStatus.CONFIRMED →
  moved ReservationStatus.PENDING + moved ReservationStatus.CONFIRMED ≤ 0 →
  delta kept t (overlay ss') ∧ coherent t ss'
  ∧ (∀ id', overlay ss' !! KRes id' ≠ None → t !! KRes id' = None ∨ r id')
  ∧ (∀ k, overlay ss' !! k ≠ None → overlay ss !! k ≠ None ∨ k ∈ written_keys ss)
  ∧ objs ss' !! KRes id = Some (RRes y, RRes y)
  ∧ settled r ss'.
Proof using All.
  intros Hres Hconf Hle.
  pose proof (do_flush_unblocked _ _ _ _ _ Hflush) as Hfree.
  destruct (flush_Ok_updates now s db ss Hfree transition_tracked Hdels ss' Hnews Hflush)
    as (Hck & Hc & Hov' & Ho').
  rewrite transition_updates in Hov', Ho'. rewrite fmap_insert, map_fmap_singleton in Hov'.
  assert (Hpairs : (λ row, (row, row)) <$> (<[KRes id := RRes y]> {[KInv e := RInv j]} : table)
                   = <[KRes id := (RRes y, RRes y)]> {[KInv e := (RInv j, RInv j)]}).
  { by rewrite fmap_insert, map_fmap_singleton. }
  rewrite Hpairs in Ho'.
  fold (rewrite_overlay e id j y) in Hov'. split_and!; [|done| | | |].
  - rewrite Hov'. apply delta_then; [apply Hok|]. apply (change_rewrite _ _ e id i).
    apply transition_rewrite_ok; try done.
    pose proof (Hck (KInv e) (RInv i) (RInv i1)) as Hck'.
    rewrite transition_dirty, lookup_insert_ne, lookup_singleton_eq in Hck' by done.
    specialize (Hck' eq_refl). unfold new_row, bump in Hck'. simpl in Hck'. by rewrite Hv in Hck'.
  - intros id'. rewrite Hov'. unfold rewrite_overlay.
    rewrite lookup_union, lookup_insert, lookup_singleton_ne by done.
    case_decide as Hid; [injection Hid as <-; by right|].
    rewrite (left_id_L None _). apply (kn_written _ _ _ Hk).
  - intros k. rewrite Hov', lookup_union. unfold written_keys, dirty, rewrite_overlay.
    rewrite transition_dirty, lookup_insert, lookup_singleton. intros Hk'.
    destruct (overlay ss !! k) eqn:Hovk; [by left|]. right. apply elem_of_app. left.
    assert (Hin : is_Some ((<[KRes id := (RRes x, RRes (set_status st x))]>
                             {[KInv e := (RInv i, RInv i1)]} : gmap inv_key _) !! k)).
    { rewrite lookup_insert, lookup_singleton. repeat case_decide; done || eauto. }
    destruct Hin as [lc Hin]. apply (list_elem_of_fmap_2 fst _ (k, lc)).
    by apply elem_of_map_to_list.
  - rewrite Ho'. by apply lookup_union_Some_l, lookup_insert_eq.
  - by apply transition_settled.
Qed.
End transition.
End flushes.
