(* ===== verification/InventoryInterleavings.v ===== *)
(** * Every interleaving of calls is safe

    The bodies of the calls as verified threads, and the theorem about pools
    of calls. *)
From S2P Require Import Prelude Effects Interleaving Uuid Domain Orm OrmFacts Redis.
From S2P Require Import InventoryModels Platform InventoryRepository Locking.
From S2P Require Import InventoryService InventorySpec InventoryInvariant.
From S2P Require Import InventoryCorrectness InventoryConcurrency InventoryThreads.

Section bodies.
Variables (o : oracle) (kept : Prop).
Abbreviation cwp := (wp (sys_exec o) (J kept) own disj).
Abbreviation L r s ss := (Local r (Some (s, ss))).

(** A body may stop at any point with an exception. *)
Lemma body_post_err {A} r s (e : exn) ss : body_post (A := A) r s (Err e) (L r s ss).
Proof. by exists ss. Qed.

Lemma wp_get_inventory r s ss e (Q : result exn (option EventInventory) → local → Prop) :
  objs ss !! KInv e = None →
  Q (Err OperationalError) (L r s ss) →
  (∀ t, safe_while kept t → session_ok kept t ss → knows r t ss → inv_of (visible t ss) e = None →
     Q (Ok None) (L r s ss)) →
  (∀ i, Q (Ok (Some i)) (L r s (with_objs ss (<[KInv e := (RInv i, RInv i)]> (objs ss))))) →
  cwp (get_inventory s e) (L r s ss) Q.
Proof.
  intros Hk Hdead Hnone Hsome. apply wp_bind, wp_get; [done|done| |].
  - intros t Hs Hok Hkn Hv. eapply Hnone; eauto. unfold inv_of. by rewrite Hv.
  - intros t x Hs Hok Hkn Hv. destruct (delta_safe _ _ Hs (so_delta _ _ _ Hok)) as [Hc _].
    pose proof (c_keyed _ Hc _ _ Hv). destruct x as [i|]; [|done]. apply Hsome.
Qed.

Lemma wp_inventory_instance r s ss e i :
  objs ss !! KInv e = Some (RInv i, RInv i) → flushed ss →
  cwp (inventory_instance s e) (L r s ss) (body_post r s).
Proof. intros Hk Hf. apply wp_bind. eapply wp_attrs; [done | apply body_post_err | by exists ss]. Qed.

Lemma wp_reservation_instance r s ss id x (Q : result exn Reservation → local → Prop) :
  objs ss !! KRes id = Some (RRes x, RRes x) → Q (Err detached) (L r s ss) → Q (Ok x) (L r s ss) →
  cwp (reservation_instance s id) (L r s ss) Q.
Proof. intros Hk Hdead HQ. apply wp_bind. by eapply wp_attrs. Qed.

Lemma flushed_get k x : flushed (with_objs empty_session (<[k := (x, x)]> ∅)).
Proof.
  split; [|done..]. intros k' l c. simpl. rewrite lookup_insert.
  case_decide; [by intros [= <- <-] | by rewrite lookup_empty].
Qed.

Lemma availability_thread r s e :
  cwp (inventory <- get_inventory s e ;;
       match inventory with None => Raise (no_inventory e) | Some i => Ret i end)
    (L r s empty_session) (body_post r s).
Proof.
  apply wp_bind, wp_get_inventory; [done | apply body_post_err | intros; apply body_post_err |].
  intros i. eexists. split; [done|]. intros _. apply flushed_get.
Qed.

Lemma initialize_thread r s e capacity :
  (kept → 0 ≤ capacity) →
  cwp (initialize_inventory s e capacity) (L r s empty_session) (body_post r s).
Proof.
  intros Hcap. apply wp_bind, wp_get_inventory; [done | apply body_post_err | |].
  - intros _ _ _ _ _. apply wp_bind, wp_add, wp_bind, wp_flush; [intros; apply body_post_err | apply body_post_err |].
    intros now db ss' t Hs Hok Hk Hf.
    destruct (flush_initialize kept now s db r _ ss' Hs Hok Hk Hf e capacity)
      as (Hd & Hc & Hno & Hkeys & Ho); try done.
    destruct (coherent_fit kept db r ss' Hs Hd Hc) as (Hl & Hkn & Hfl).
    { intros id. by rewrite Hno. }
    split_and!; try done; [by intros k ?%Hkeys; right|].
    by eapply wp_inventory_instance.
  - intros i. eexists. split; [done|]. intros _. apply flushed_get.
Qed.

(** A new capacity; the same as before is not written. *)
Lemma adjust_thread r s e capacity :
  ¬ kept → cwp (adjust_capacity s e capacity) (L r s empty_session) (body_post r s).
Proof.
  intros Hcut. apply wp_bind, wp_get_inventory; [done | apply body_post_err | intros; apply body_post_err |].
  intros i. apply wp_bind. eapply wp_set; [apply lookup_insert_eq|]. simpl on_inventory. simpl objs.
  rewrite insert_insert_eq.
  destruct (decide (capacity = total_capacity i)) as [->|Hne].
  { assert (Hsame : set_total_capacity (total_capacity i) i = i) by by destruct i. rewrite Hsame.
    apply wp_bind, wp_flush; [intros; apply body_post_err | apply body_post_err |].
    intros now db ss' t Hs Hok Hk Hf.
    pose proof (flushed_get (KInv e) (RInv i)) as Hfl.
    rewrite do_flush_flushed in Hf by apply Hfl. injection Hf as <-.
    split_and!; try apply Hok; [by split; apply Hk | intros k; by left |].
    eapply wp_inventory_instance; [apply lookup_insert_eq | by split; try apply Hfl]. }
  apply wp_bind, wp_flush; [intros; apply body_post_err | apply body_post_err |].
  intros now db ss' t Hs Hok Hk Hf.
  destruct (flush_resize kept now s db r _ ss' Hs Hok Hk Hf e i capacity)
    as (Hd & Hc & Hno & Hkeys & Ho); try done; try apply insert_empty.
  destruct (coherent_fit kept db r ss' Hs Hd Hc) as (Hl & Hkn & Hfl).
  { intros id. by rewrite Hno. }
  split_and!; try done; [by intros k ?%Hkeys; right|].
  by eapply wp_inventory_instance.
Qed.

Lemma reserve_thread r s e ord qty ttl n :
  cwp (reserve s e ord qty ttl n) (L r s empty_session) (body_post r s).
Proof.
  unfold reserve. destruct (qty <=? 0) eqn:Hq; [apply body_post_err|]. zify_bools.
  generalize n at 2. intros k. induction k as [|k IH]; [apply body_post_err|]. cbn [reserve_attempts].
  apply wp_bind, wp_get_inventory; [done | apply body_post_err | intros; apply body_post_err |].
  intros i. destruct (available i <? qty) eqn:Hav; [apply body_post_err|]. zify_bools.
  apply wp_bind. eapply wp_set; [apply lookup_insert_eq|]. simpl on_inventory.
  apply wp_bind, wp_now. intros now. cbv beta iota. apply wp_bind, wp_uuid4. intros id.
  cbv beta iota. apply wp_bind, wp_add, wp_bind, wp_attempt.
  simpl objs. rewrite insert_insert_eq. apply wp_flush.
  - intros []; try apply body_post_err. apply wp_bind, wp_rollback, IH.
  - apply body_post_err.
  - intros now' db ss' t Hs Hok Hk Hf.
    destruct (flush_booking kept now' s db r _ ss' Hs Hok Hk Hf eq_refl e i qty
      (new_reservation id e ord qty (now + ttl * second)))
      as (Hd & Hc & Hno & Hkeys & Ho); try done.
    destruct (coherent_fit kept db r ss' Hs Hd Hc) as (Hl & Hkn & Hfl); [by left; apply Hno|].
    split_and!; try done; [by intros k' ?%Hkeys; right|].
    eapply wp_reservation_instance; [exact Ho | apply body_post_err | by exists ss'].
Qed.

(** ** Moving a reservation

    In a settled session, which is settled again afterwards. *)
Definition settled_post {A} (r : uuid → Prop) (s : nat) (out : result exn A) (l : local) : Prop :=
  ∃ ss, l = L r s ss ∧ (is_ok out → settled r ss).

Lemma settled_post_err {A} r s (e : exn) ss : settled_post (A := A) r s (Err e) (L r s ss).
Proof. by exists ss. Qed.

Lemma settled_post_body {A} r s (out : result exn A) l : settled_post r s out l → body_post r s out l.
Proof. intros (ss & -> & Hss). exists ss. split; [done|]. intros Hok. by apply Hss. Qed.

Lemma settled_load r t ss k x :
  safe_while kept t → session_ok kept t ss → settled r ss → visible t ss !! k = Some x →
  (∀ id, k = KRes id → r id) → (∀ e, k ≠ KInv e) →
  settled r (with_objs ss (<[k := (x, x)]> (objs ss))).
Proof.
  intros Hs Hok Hst Hx Hr He. destruct (delta_safe _ _ Hs (so_delta _ _ _ Hok)) as [Hc _].
  destruct k as [e|id]; [by destruct (He e)|].
  pose proof (c_keyed _ Hc _ _ Hx) as Hkey. destruct x as [|x]; [done|]. injection Hkey as Hkey.
  destruct (reservation_row_ok _ Hc id x) as [[_ Hq] _]; [by apply res_of_lookup|].
  split; [split; try apply Hst|..].
  - intros k l c. simpl. rewrite lookup_insert. case_decide; [by intros [= <- <-] | apply Hst].
  - intros e l c. simpl. rewrite lookup_insert_ne by done. apply (st_events _ _ Hst).
  - intros id' l c. simpl. rewrite lookup_insert. case_decide as Hid; [|apply (st_reservations _ _ Hst)].
    injection Hid as <-. intros [= <- <-]. split; [by apply Hr|]. by exists x.
Qed.

Lemma wp_get_reservation r s ss id (Q : result exn (option Reservation) → local → Prop) :
  settled r ss → r id →
  Q (Err OperationalError) (L r s ss) →
  Q (Ok None) (L r s ss) →
  (∀ x ss', settled r ss' → objs ss' !! KRes id = Some (RRes x, RRes x) →
     res_id x = id → 0 < quantity x → Q (Ok (Some x)) (L r s ss')) →
  cwp (get_reservation s id) (L r s ss) Q.
Proof.
  intros Hst Hr Hdead Hnone Hsome. apply wp_bind.
  destruct (objs ss !! KRes id) as [[l c]|] eqn:Ho.
  - eapply wp_get_loaded; [done|done|].
    assert (l = c) as <- by (eapply (fl_clean _ (st_flushed _ _ Hst)), Ho).
    destruct (st_reservations _ _ Hst id l l Ho) as (_ & x & -> & ? & ?). by apply Hsome.
  - apply wp_get; [done|done|done|]. intros t x Hs Hok Hkn Hv.
    destruct (delta_safe _ _ Hs (so_delta _ _ _ Hok)) as [Hc _].
    pose proof (c_keyed _ Hc _ _ Hv) as Hkey. destruct x as [|x]; [done|]. injection Hkey as Hkey.
    destruct (reservation_row_ok _ Hc id x) as [[_ Hq] _]; [by apply res_of_lookup|].
    apply Hsome; [|apply lookup_insert_eq|done|done].
    eapply settled_load; [done..| |done]. by intros ? [= <-].
Qed.

Lemma wp_get_inventory_settled r s ss e (Q : result exn (option EventInventory) → local → Prop) :
  settled r ss →
  Q (Err OperationalError) (L r s ss) →
  (∀ t, safe_while kept t → session_ok kept t ss → knows r t ss → inv_of (visible t ss) e = None →
     Q (Ok None) (L r s ss)) →
  (∀ i, Q (Ok (Some i)) (L r s (with_objs ss (<[KInv e := (RInv i, RInv i)]> (objs ss))))) →
  cwp (get_inventory s e) (L r s ss) Q.
Proof.
  intros Hst Hdead Hnone Hsome. destruct (objs ss !! KInv e) as [[l c]|] eqn:Ho.
  - apply wp_bind. eapply wp_get_loaded; [done|done|].
    assert (l = c) as <- by (eapply (fl_clean _ (st_flushed _ _ Hst)), Ho).
    destruct (st_events _ _ Hst e l l Ho) as (i & -> & _).
    specialize (Hsome i). by rewrite insert_id in Hsome; [destruct ss|].
  - by apply wp_get_inventory.
Qed.

(** The end of a transition: both rows written, flushed and read back. *)
Lemma transition_thread r s ss x i i1 st :
  settled r ss → r (res_id x) →
  st ≠ status x → i1 ≠ i → inv_event_id i1 = inv_event_id i → version i1 = version i →
  total_capacity i1 = total_capacity i →
  let moved st' := held_by st' (Some (set_status st x)) - held_by st' (Some x) in
  reserved_count i1 = reserved_count i + moved ReservationStatus.PENDING →
  confirmed_count i1 = confirmed_count i + moved ReservationStatus.CONFIRMED →
  moved ReservationStatus.PENDING + moved ReservationStatus.CONFIRMED ≤ 0 →
  cwp (inv_flush s ;; reservation_instance s (res_id x))
    (L r s (with_objs ss (<[KRes (res_id x) := (RRes x, RRes (set_status st x))]>
                            (<[KInv (res_event_id x) := (RInv i, RInv i1)]> (objs ss)))))
    (settled_post r s).
Proof.
  intros Hset Hr Hst Hne He Hv Htot moved Hres Hc Hle.
  apply wp_bind, wp_flush; [intros; apply settled_post_err | apply settled_post_err |].
  intros now db ss' t Hs Hok Hk Hf.
  destruct (flush_transition kept now s db r _ ss' Hs Hok Hk Hf ss i i1 x st)
    as (Hd & Hcoh & Hno & Hkeys & Ho & Hset'); try done; try apply Hset.
  destruct (coherent_fit kept db r ss' Hs Hd Hcoh Hno) as (Hl & Hkn & _).
  split_and!; try done.
  eapply wp_reservation_instance; [exact Ho | apply settled_post_err | by exists ss'].
Qed.

(** A loaded reservation's event is in the tables the thread sees. *)
Lemma event_of_loaded r t ss id x :
  safe_while kept t → session_ok kept t ss → knows r t ss → r id →
  objs ss !! KRes id = Some (RRes x, RRes x) → inv_of (visible t ss) (res_event_id x) ≠ None.
Proof.
  intros Hs Hok Hk Hr Ho Hn. destruct (delta_safe _ _ Hs (so_delta _ _ _ Hok)) as [Hc _].
  pose proof (kn_current _ _ _ Hk id _ _ Hr Ho) as Hv.
  destruct (c_event _ Hc _ _ Hv) as [i Hi]. unfold visible in Hn. congruence.
Qed.

(** The reservation and its event read, to the point where they are written. *)
Lemma wp_load_event r s ss id x (Q : result exn (option EventInventory) → local → Prop) :
  settled r ss → r id → objs ss !! KRes id = Some (RRes x, RRes x) →
  Q (Err OperationalError) (L r s ss) →
  (∀ i, Q (Ok (Some i))
          (L r s (with_objs ss (<[KInv (res_event_id x) := (RInv i, RInv i)]> (objs ss))))) →
  cwp (get_inventory s (res_event_id x)) (L r s ss) Q.
Proof.
  intros Hset Hr Ho Hdead Hsome. apply wp_get_inventory_settled; [done|done| |done].
  intros t Hs Hok Hk Hn. exfalso. by eapply event_of_loaded.
Qed.

Lemma confirm_thread r s ss id :
  settled r ss → r id → cwp (confirm s id) (L r s ss) (settled_post r s).
Proof.
  intros Hset Hr. apply wp_bind, wp_get_reservation;
    [done|done| apply settled_post_err | apply settled_post_err |].
  intros x ss1 Hset1 Ho <- Hq. case_decide as Hst; [by exists ss1|].
  apply wp_bind. eapply wp_load_event; [done|done|done| apply settled_post_err |].
  intros i. apply wp_bind, wp_bind.
  eapply wp_set; [apply lookup_insert_eq|]. cbv beta iota.
  eapply wp_set; [apply lookup_insert_eq|]. cbv beta iota.
  apply wp_bind. eapply wp_set.
  { simpl. rewrite !lookup_insert_ne by done. exact Ho. }
  simpl objs. simpl on_inventory. simpl on_reservation. rewrite !insert_insert_eq.
  apply (transition_thread r s ss1); simpl; try done; try congruence.
  - intros He. apply (f_equal confirmed_count) in He. simpl in He. lia.
  - rewrite Hst. simpl. lia.
  - rewrite Hst. simpl. lia.
  - rewrite Hst. simpl. lia.
Qed.

Lemma release_thread r s ss id expired :
  settled r ss → r id → cwp (release s id expired) (L r s ss) (settled_post r s).
Proof.
  intros Hset Hr. apply wp_bind, wp_get_reservation;
    [done|done| apply settled_post_err | apply settled_post_err |].
  intros x ss1 Hset1 Ho <- Hq. case_decide as Hst; [by exists ss1|].
  apply wp_bind. eapply wp_load_event; [done|done|done| apply settled_post_err |].
  intros i. apply wp_bind.
  case_decide as Hp; (eapply wp_set; [apply lookup_insert_eq|]); cbv beta iota;
    apply wp_bind; (eapply wp_set; [simpl; rewrite !lookup_insert_ne by done; exact Ho|]);
    simpl objs; simpl on_inventory; simpl on_reservation; rewrite insert_insert_eq;
    apply (transition_thread r s ss1); simpl; try done.
  - rewrite Hp. by destruct expired.
  - intros He. apply (f_equal reserved_count) in He. simpl in He. lia.
  - rewrite Hp. destruct expired; simpl; lia.
  - rewrite Hp. destruct expired; simpl; lia.
  - rewrite Hp. destruct expired; simpl; lia.
  - intros He. apply Hst. rewrite <- He. by destruct expired.
  - intros He. apply (f_equal confirmed_count) in He. simpl in He. lia.
  - destruct (status x); try (exfalso; apply Hst; split; done); destruct expired; simpl; lia.
  - destruct (status x); try (exfalso; apply Hst; split; done); destruct expired; simpl; lia.
  - destruct (status x); try (exfalso; apply Hst; split; done); destruct expired; simpl; lia.
Qed.

(** ** A sweep *)
Lemma load_all_keys (rows : list inv_row) ss k x :
  objs (foldl load ss rows) !! k = Some x →
  objs ss !! k = Some x ∨ ∃ row, row ∈ rows ∧ key_of row = k ∧ x = (row, row).
Proof.
  revert ss. induction rows as [|row rows IH]; intros ss; simpl; [by left|].
  intros [Hk|(row' & Hin & ? & ?)]%IH; [|right; exists row'; split_and!; [set_solver|done..]].
  unfold load in Hk. destruct (objs ss !! key_of row) eqn:Ho; [by left|].
  simpl in Hk. rewrite lookup_insert in Hk. case_decide; [|by left]. injection Hk as <-.
  right. exists row. split_and!; [set_solver|done..].
Qed.

Lemma settled_found (r : uuid → Prop) t rows now :
  safe_while kept t → (∀ id, r id) →
  Forall (λ x, t !! inv_key_of x = Some x ∧ expired_pending now x = true) rows →
  settled r (foldl load empty_session rows).
Proof.
  intros [Hc _] Hr Hrows. rewrite Forall_forall in Hrows.
  assert (Hobj : ∀ k l c, objs (foldl load empty_session rows) !! k = Some (l, c) →
    ∃ x, l = RRes x ∧ c = RRes x ∧ k = KRes (res_id x) ∧ 0 < quantity x).
  { intros k l c [Hk|(row & Hin & Hkey & [= -> ->])]%load_all_keys; [simpl in Hk; by rewrite lookup_empty in Hk|].
    destruct (Hrows _ Hin) as [Ht Hexp]. destruct row as [|x]; [done|]. exists x.
    destruct (reservation_row_ok _ Hc (res_id x) x) as [[_ Hq] _]; [by apply res_of_lookup|]. done. }
  assert (Hrest : ∀ ss, news ss = [] → dels ss = [] →
    news (foldl load ss rows) = [] ∧ dels (foldl load ss rows) = []).
  { clear. induction rows as [|row rows IH]; intros ss Hn Hd; [done|]. simpl.
    apply IH; unfold load; by destruct (objs ss !! _). }
  destruct (Hrest empty_session eq_refl eq_refl) as [Hn Hd]. split; [split; [|done..]|..].
  - intros k l c Hk. by destruct (Hobj k l c Hk) as (x & -> & -> & _).
  - intros e l c Hk. by destruct (Hobj _ l c Hk) as (x & _ & _ & ? & _).
  - intros id l c Hk. destruct (Hobj _ l c Hk) as (x & -> & _ & [= ->] & Hq).
    split; [done|]. by exists x.
Qed.

Lemma release_each_thread (r : uuid → Prop) s ss (xs : list Reservation) :
  settled r ss → (∀ id, r id) →
  cwp (for_each (λ x, release s (res_id x) true) xs) (L r s ss) (settled_post r s).
Proof.
  intros Hset Hr. revert ss Hset. induction xs as [|x xs IH]; intros ss Hset; [by exists ss|].
  apply wp_bind. eapply wp_mono; [|by apply release_thread].
  intros [y|e] l (ss1 & -> & Hset1); [|apply settled_post_err].
  apply wp_bind. eapply wp_mono; [|by apply IH, Hset1].
  intros [ys|e] l (ss2 & -> & Hset2); [|apply settled_post_err]. exists ss2. split; [done|]. intros _. by apply Hset2.
Qed.

Lemma sweep_thread `{!OracleOk o} (r : uuid → Prop) s :
  (∀ id, r id) →
  cwp (expired <- find_expired_pending s Service.sweep_limit ;;
       for_each (λ x, release s (res_id x) true) expired)
    (L r s empty_session) (settled_post r s).
Proof.
  intros Hr. apply wp_bind, wp_bind, wp_now. intros now. cbv beta iota.
  apply wp_bind, wp_select_expired; [done | intros; apply settled_post_err|].
  intros t rows Hs Hrows. cbv beta iota. apply release_each_thread; [|done].
  by eapply settled_found.
Qed.
End bodies.

(** ** Pools of calls *)

(** The reservation a call may move; a sweep, any. *)
Definition moves (r : request) (id : uuid) : Prop :=
  match r with
  | Confirm id' | Release id' _ => id = id'
  | Sweep => True
  | _ => False
  end.

(** Whether a call may set a capacity below the seats in use. *)
Definition resizes (r : request) : Prop :=
  match r with Initialize _ c => c < 0 | Adjust _ _ => True | _ => False end.

(** No two threads move the same reservation. *)
Definition separate (rs : list (uuid → Prop)) : Prop :=
  ForallOrdPairs (λ r1 r2, ∀ id, r1 id → ¬ r2 id) rs.

Lemma separate_fmap {A} (f : A → uuid → Prop) (R : A → A → Prop) xs :
  (∀ a b, R a b → ∀ id, f a id → ¬ f b id) → ForallOrdPairs R xs → separate (f <$> xs).
Proof.
  intros Hf. induction 1 as [|x xs Hx _ IH]; [constructor|]. constructor; [|done].
  apply Forall_fmap. eapply Forall_impl; [exact Hx|]. intros y Hy id. by apply Hf.
Qed.

Lemma separate_pair rs i j ri rj id :
  separate rs → i ≠ j → rs !! i = Some ri → rs !! j = Some rj → ri id → ¬ rj id.
Proof.
  intros Hsep. revert i j. induction Hsep as [|r rs Hr _ IH]; intros i j Hne Hi Hj Hri; [done|].
  assert (Hin : ∀ k rk, rs !! k = Some rk → r id → ¬ rk id).
  { intros k rk Hk. by apply (Forall_lookup_1 _ _ _ _ Hr Hk). }
  destruct i as [|i], j as [|j]; [done| | |].
  - injection Hi as ->. by eapply Hin.
  - injection Hj as ->. intros Hrj. by eapply Hin.
  - by apply (IH i j); auto.
Qed.

(** A call, or any program that makes some: it has no session open when it
    begins, none when it ends, and keeps the invariant meanwhile. *)
Section threads.
Variables (o : oracle) (kept : Prop) (self : InventoryService).

Definition thread (r : uuid → Prop) {A} (p : M A) : Prop :=
  wp (sys_exec o) (J kept) own disj p (Local r None) (λ _ l, l = Local r None).

Lemma thread_scope {A} r (body : nat → M A) :
  (∀ s, wp (sys_exec o) (J kept) own disj (body s) (Local r (Some (s, empty_session))) (body_post r s)) →
  thread r (session_scope body).
Proof. intros Hb. by apply wp_session_scope. Qed.

Lemma thread_settled {A} r (body : nat → M A) :
  (∀ s, wp (sys_exec o) (J kept) own disj (body s) (Local r (Some (s, empty_session))) (settled_post r s)) →
  thread r (session_scope body).
Proof.
  intros Hb. apply thread_scope. intros s. eapply wp_mono; [|apply Hb]. apply settled_post_body.
Qed.

Lemma initialize_safe_thread r e capacity :
  (kept → 0 ≤ capacity) → thread r (Service.initialize_inventory e capacity).
Proof. intros Hc. apply thread_scope. intros s. by apply initialize_thread. Qed.

Lemma adjust_safe_thread r e capacity : ¬ kept → thread r (Service.adjust_capacity self e capacity).
Proof. intros Hc. apply wp_with_lock, thread_scope. intros s. by apply adjust_thread. Qed.

Lemma availability_safe_thread r e : thread r (Service.get_availability e).
Proof. apply thread_scope. intros s. apply availability_thread. Qed.

Lemma reserve_safe_thread r e ord qty : thread r (Service.reserve_seats self e ord qty).
Proof. apply wp_with_lock, thread_scope. intros s. apply reserve_thread. Qed.

Lemma confirm_safe_thread (r : uuid → Prop) id : r id → thread r (Service.confirm_reservation id).
Proof.
  intros Hr. apply thread_settled. intros s. apply confirm_thread; [apply settled_empty | done].
Qed.

Lemma release_safe_thread (r : uuid → Prop) id ex : r id → thread r (Service.release_reservation id ex).
Proof.
  intros Hr. apply thread_settled. intros s. apply release_thread; [apply settled_empty | done].
Qed.

Lemma sweep_safe_thread `{!OracleOk o} (r : uuid → Prop) :
  (∀ id, r id) → thread r Service.sweep_expired_reservations.
Proof. intros Hr. apply thread_settled. intros s. by apply sweep_thread. Qed.

Lemma thread_forget {A} r (p : M A) : thread r p → thread r (p ;; Ret tt).
Proof. intros Hp. apply wp_bind. eapply wp_mono; [|exact Hp]. by intros [] ? ->. Qed.

Lemma request_thread `{!OracleOk o} rq :
  (kept → ¬ resizes rq) → thread (moves rq) (perform self rq).
Proof.
  intros Hk. destruct rq; cbn [perform]; apply thread_forget.
  - apply initialize_safe_thread. intros ?%Hk. simpl in *. lia.
  - apply adjust_safe_thread. intros ?%Hk. simpl in *. tauto.
  - apply availability_safe_thread.
  - apply reserve_safe_thread.
  - by apply confirm_safe_thread.
  - by apply release_safe_thread.
  - by apply sweep_safe_thread.
Qed.

(** Threads that move no reservation in common, run together. *)
Lemma threads_safe {A} (ps : list (M A)) (rs : list (uuid → Prop)) w ts w' n q t :
  Forall2 (λ p r, thread r p) ps rs →
  separate rs → safe_while kept t → inv_db w = Database t ∅ n q →
  pool_steps (sys_exec o) env (ps, w) (ts, w') →
  safe_while kept (tbl (inv_db w')).
Proof.
  intros Hps Hsep Ht Hw Hsteps.
  assert (Hok : pool_ok (sys_exec o) (J kept) own disj (λ _ _, True) (ps, w)).
  { split.
    - simpl. unfold J. rewrite Hw. constructor; simpl; try done; intros *; by rewrite lookup_empty.
    - exists ((λ r, Local r None) <$> rs). simpl.
      split; [rewrite length_fmap; symmetry; by eapply Forall2_length|]. split.
      + intros i p l Hi Hl. rewrite list_lookup_fmap in Hl.
        destruct (rs !! i) as [r|] eqn:Hr; [|done]. injection Hl as <-. split; [done|].
        eapply wp_mono; [|by eapply (Forall2_lookup_lr _ _ _ _ _ _ Hps Hi Hr)]. by intros.
      + intros i j li lj Hne. rewrite !list_lookup_fmap.
        destruct (rs !! i) as [ri|] eqn:Hri; [|done]. destruct (rs !! j) as [rj|] eqn:Hrj; [|done].
        intros [= <-] [= <-]. split; [|done]. intros id. simpl. by eapply separate_pair. }
  destruct (pool_ok_steps (sys_exec o) env (J kept) own disj (env_J kept) env_own disj_sym _ _ _ Hsteps Hok)
    as [HJ _]. apply HJ.
Qed.
End threads.

Section platform_pools.
Context {W : Type} (o : oracle) (impl : handler sys_op W) (obs : W → world).
Context `{P : !Platform (sys_exec o) impl obs} `{Ook : !OracleOk o}.
Variable self : InventoryService.

(** C3. No interleaving oversells: any number of calls of any kind may run at
    once, scheduled operation by operation in any order on any platform,
    whatever Redis answers and whichever sessions the server drops; as long
    as no two of them move the same reservation, in every reachable state
    the counters are the seats held, and unless some call sets a capacity these
    never exceed it. *)
Theorem concurrent_calls_never_oversell rs w ts w' t n q e i :
  separate (moves <$> rs) →
  inv_db (obs w) = Database t ∅ n q → safe t →
  pool_steps impl (λ v v', env (obs v) (obs v')) (perform self <$> rs, w) (ts, w') →
  inv_of (tbl (inv_db (obs w'))) e = Some i →
  let held st := seats_held e st (tbl (inv_db (obs w'))) in
  reserved_count i = held ReservationStatus.PENDING
  ∧ confirmed_count i = held ReservationStatus.CONFIRMED
  ∧ (Forall (λ r, ¬ resizes r) rs →
     held ReservationStatus.PENDING + held ReservationStatus.CONFIRMED ≤ total_capacity i).
Proof using P Ook.
  intros Hsep Hw [Hc Hcap] Hsteps Hi. apply (platform_steps (doc := sys_exec o)) in Hsteps.
  set (kept := Forall (λ r, ¬ resizes r) rs).
  destruct (threads_safe o kept (perform self <$> rs) (moves <$> rs) (obs w) ts (obs w') n q t)
    as [Hc' Hcap']; try done.
  - apply Forall2_fmap, Forall_Forall2_diag, Forall_forall. intros r Hr.
    apply request_thread; [done|]. intros Hk. unfold kept in Hk. rewrite Forall_forall in Hk. by apply Hk.
  - split_and!; eauto using reserved_is_held, confirmed_is_held, sold_within_capacity.
Qed.
End platform_pools.

(** ** Two calls on one reservation

    A reservation has no version column: its status is read once, before the
    inventory row, and never checked again when it is written. *)
(** The first release reads the reservation; the second runs to its end; the
    first goes on; then ten seats are booked. *)
Definition race_calls : list request :=
  [ Release sample_held false; Release sample_held false;
    Reserve sample_event (uuid_of_N 23) 10 ].
Definition race_schedule : list nat :=
  repeat 0%nat 2 ++ repeat 1%nat 9 ++ repeat 0%nat 7 ++ repeat 2%nat 13.

(** The outcome of a schedule, run by computation. *)
Definition scheduled (is_ : list nat) (rs : list request) : option (pool sys_op exn unit * world) :=
  run_schedule (sys_exec sample_oracle) is_ (perform default_service <$> rs, sample_world).

Definition finished (p : M unit) : bool := match p with Vis _ _ => false | _ => true end.

(** Whether every call has finished, the capacity of the sample event and the
    seats its pending reservations hold. *)
Definition summary (c : pool sys_op exn unit * world) : bool * option Z * Z :=
  (forallb finished c.1, total_capacity <$> inv_of (tbl (inv_db c.2)) sample_event,
   seats_held sample_event ReservationStatus.PENDING (tbl (inv_db c.2))).

(** Two releases of one PENDING reservation can both give its seats back:
    from safe tables with ten seats, six held by the reservation and four by
    another, a schedule of two releases and one booking ends with every call
    finished and fourteen seats held. *)
Theorem double_release_oversells :
  safe sample_tables ∧
  ∃ ts w' i,
    pool_steps (sys_exec sample_oracle) env
      (perform default_service <$> race_calls, sample_world) (ts, w')
    ∧ forallb finished ts = true
    ∧ inv_of (tbl (inv_db w')) sample_event = Some i ∧ total_capacity i = 10
    ∧ seats_held sample_event ReservationStatus.PENDING (tbl (inv_db w')) = 14.
Proof.
  split; [apply sample_safe|].
  assert (H : summary <$> scheduled race_schedule race_calls = Some (true, Some 10, 14))
    by (vm_compute; reflexivity).
  apply fmap_Some in H as ([ts w'] & Hrun & H). unfold summary in H. simpl in H.
  destruct (inv_of (tbl (inv_db w')) sample_event) as [i|] eqn:Hi; [|done].
  exists ts, w', i. injection H as Hfin Hcap Hheld.
  exact (conj (run_schedule_sound _ env _ _ _ Hrun) (conj (eq_sym Hfin) (conj Hi (conj (eq_sym Hcap) (eq_sym Hheld))))).
Qed.

(** A booking, a confirmation and a release at once: the confirmation commits
    between the booking's read and its flush, and the booking retries. *)
Definition pool_calls : list request :=
  [ Reserve sample_event (uuid_of_N 24) 3; Confirm sample_held; Release sample_other false ].
Definition pool_schedule : list nat :=
  repeat 2%nat 9 ++ repeat 1%nat 3 ++ repeat 0%nat 8 ++ repeat 1%nat 7 ++ repeat 0%nat 12.

Lemma concurrent_calls_never_oversell_witness :
  match scheduled pool_schedule pool_calls with
  | Some (ts, w') =>
      match inv_of (tbl (inv_db w')) sample_event with
      | Some i =>
          let held st := seats_held sample_event st (tbl (inv_db w')) in
          reserved_count i = held ReservationStatus.PENDING
          ∧ confirmed_count i = held ReservationStatus.CONFIRMED
          ∧ (Forall (λ r, ¬ resizes r) pool_calls →
             held ReservationStatus.PENDING + held ReservationStatus.CONFIRMED ≤ total_capacity i)
      | None => False
      end
  | None => False
  end.
Proof.
  destruct (scheduled pool_schedule pool_calls) as [[ts w']|] eqn:Hrun.
  2: { assert (H : summary <$> scheduled pool_schedule pool_calls = Some (true, Some 10, 3))
         by (vm_compute; reflexivity). by rewrite Hrun in H. }
  destruct (inv_of (tbl (inv_db w')) sample_event) as [i|] eqn:Hi.
  2: { assert (H : summary <$> scheduled pool_schedule pool_calls = Some (true, Some 10, 3))
         by (vm_compute; reflexivity). rewrite Hrun in H. unfold summary in H. simpl in H.
       by rewrite Hi in H. }
  refine (concurrent_calls_never_oversell sample_oracle (sys_exec sample_oracle) id
            default_service pool_calls sample_world ts w' sample_tables 0 0 sample_event i
            _ eq_refl sample_safe _ Hi).
  - repeat constructor; simpl; try tauto.
    intros id -> He. apply (f_equal uuid_int) in He. vm_compute in He. discriminate He.
  - eapply run_schedule_sound. exact Hrun.
Defined.
