(* ===== verification/Pagination.v ===== *)
(** * Pagination

    [services/shared/pagination.py]: the parameters of a listing, the window of
    rows they select, and the page returned to the client. *)
From S2P Require Import Prelude Effects Domain.

Record PaginationParams : Type := mkPaginationParams {
  page : Z;
  page_size : Z;
}.

(** The [Field] constraints: [page >= 1], [1 <= page_size <= 100]. *)
Definition pagination_valid (p : PaginationParams) : bool :=
  (1 <=? page p) && (1 <=? page_size p) && (page_size p <=? 100).

(** [PaginationParams(page=..., page_size=...)] *)
Definition make_pagination (page page_size : Z) : result exn PaginationParams :=
  let p := mkPaginationParams page page_size in
  if pagination_valid p then Ok p else Err PydanticError.

Definition limit (p : PaginationParams) : Z := page_size p.
Definition offset (p : PaginationParams) : Z := (page p - 1) * page_size p.

Record Page (A : Type) : Type := mkPage {
  items : list A;
  total : Z;
  page_number : Z;
  size : Z;
}.
Arguments mkPage {A} items total page_number size.
Arguments items {A} p.
Arguments total {A} p.
Arguments page_number {A} p.
Arguments size {A} p.

Definition total_pages {A} (p : Page A) : Z :=
  if size p <=? 0 then 0 else (total p + size p - 1) / size p.

(** [Page.create] *)
Definition create {A} (items : list A) (total : Z) (params : PaginationParams) : Page A :=
  mkPage items total (page params) (page_size params).

(** The rows of page [p] of a listing, as [LIMIT] and [OFFSET] select them. *)
Definition window {A} (p : PaginationParams) (rows : list A) : list A :=
  take (Z.to_nat (limit p)) (drop (Z.to_nat (offset p)) rows).

(** ** Facts *)
Section facts.
Context {A : Type}.
Implicit Types (rows : list A) (n sz : Z).

Lemma valid_spec p :
  pagination_valid p = true ↔ 1 ≤ page p ∧ 1 ≤ page_size p ≤ 100.
Proof.
  unfold pagination_valid. rewrite !andb_true_iff, !Z.leb_le. tauto.
Qed.

(** Windows of consecutive pages are consecutive. *)
Lemma take_windows rows sz (k : nat) :
  1 ≤ sz →
  mjoin ((λ i, window (mkPaginationParams (Z.of_nat i + 1) sz) rows) <$> seq 0 k)
  = take (k * Z.to_nat sz) rows.
Proof.
  intros Hsz. induction k as [|k IH]; [done|].
  rewrite seq_S, fmap_app, join_app, IH. simpl. rewrite app_nil_r.
  unfold window, offset, limit. simpl.
  replace (Z.to_nat ((Z.of_nat k + 1 - 1) * sz)) with (k * Z.to_nat sz)%nat by lia.
  rewrite take_take_drop. f_equal. lia.
Qed.

Lemma total_pages_bounds rows n sz :
  1 ≤ sz →
  let k := total_pages (mkPage rows n 1 sz) in
  n ≤ k * sz ∧ (0 < n → (k - 1) * sz < n).
Proof.
  intros Hsz k. unfold k, total_pages. simpl.
  rewrite (proj2 (Z.leb_gt sz 0)) by lia.
  pose proof (Z.div_mod (n + sz - 1) sz ltac:(lia)) as Hd.
  pose proof (Z.mod_pos_bound (n + sz - 1) sz ltac:(lia)). nia.
Qed.
End facts.

(** ** Paging through a listing *)

(** The pages of a listing, one after the other up to [total_pages], are
    exactly the listing: nothing is skipped, nothing is shown twice. *)
Theorem pages_cover {A} (rows : list A) (sz : Z) :
  1 ≤ sz →
  let k := total_pages (create rows (Z.of_nat (length rows)) (mkPaginationParams 1 sz)) in
  mjoin ((λ i, window (mkPaginationParams (Z.of_nat i + 1) sz) rows) <$> seq 0 (Z.to_nat k)) = rows.
Proof.
  intros Hsz k. rewrite take_windows by done.
  destruct (total_pages_bounds rows (Z.of_nat (length rows)) sz Hsz) as [Hn _].
  change (total_pages (mkPage rows (Z.of_nat (length rows)) 1 sz)) with k in Hn.
  apply take_ge. nia.
Qed.

(** No page is longer than its size, every page before the last is full,
    the last one is not empty, and later ones are. *)
Theorem page_lengths {A} (rows : list A) (p : PaginationParams) :
  pagination_valid p = true →
  let pg := create (window p rows) (Z.of_nat (length rows)) p in
  let len := Z.of_nat (length (items pg)) in
  len ≤ size pg
  ∧ (page_number pg < total_pages pg → len = size pg)
  ∧ (page_number pg = total_pages pg → 0 < len)
  ∧ (total_pages pg < page_number pg → len = 0).
Proof.
  intros Hp pg len. apply valid_spec in Hp as (Hp & Hsz & _).
  destruct (total_pages_bounds rows (Z.of_nat (length rows)) (page_size p) Hsz) as [Hn Hlast].
  set (n := Z.of_nat (length rows)) in *.
  change (total_pages (mkPage rows n 1 (page_size p))) with (total_pages pg) in *.
  change (page_number pg) with (page p). change (size pg) with (page_size p).
  assert (Hlen : len = Z.max 0 (Z.min (page_size p) (n - (page p - 1) * page_size p))).
  { unfold len, pg. simpl. unfold window, limit, offset, n.
    rewrite length_take, length_drop. nia. }
  assert (Hrange : 0 < n ∨ n = 0) by lia. destruct Hrange as [Hpos|Hz].
  - specialize (Hlast Hpos). rewrite Hlen. clearbody n. generalize dependent (total_pages pg).
    intros k Hn Hlast. clear Hlen pg len. split_and!; intros; nia.
  - assert (Hk : total_pages pg = 0).
    { unfold pg, total_pages. simpl. rewrite (proj2 (Z.leb_gt (page_size p) 0)) by lia.
      rewrite Hz. apply Z.div_small. lia. }
    rewrite Hk, Hlen, Hz. split_and!; intros; nia.
Qed.

Lemma pages_cover_witness :
  mjoin ((λ i, window (mkPaginationParams (Z.of_nat i + 1) 3) [1; 2; 3; 4; 5; 6; 7]) <$> seq 0 3)
  = [1; 2; 3; 4; 5; 6; 7].
Proof. apply (pages_cover [1; 2; 3; 4; 5; 6; 7] 3). lia. Defined.

Lemma page_lengths_witness :
  let pg := create (window (mkPaginationParams 3 3) [1; 2; 3; 4; 5; 6; 7]) 7 (mkPaginationParams 3 3) in
  let len := Z.of_nat (length (items pg)) in
  len ≤ size pg
  ∧ (page_number pg < total_pages pg → len = size pg)
  ∧ (page_number pg = total_pages pg → 0 < len)
  ∧ (total_pages pg < page_number pg → len = 0).
Proof. apply (page_lengths [1; 2; 3; 4; 5; 6; 7] (mkPaginationParams 3 3)). reflexivity. Defined.
