(* ===== verification/ApiRepositories.v ===== *)
(** * Repositories of the API service

    [services/shared/db/repository.py], the generic repository, and
    [services/api/app/repositories/]: users, events and orders, as programs over
    the session; [services/api/app/db/session.py], the session of a request. *)
From S2P Require Import Prelude Effects Uuid Domain Orm InventoryModels ApiModels.
From S2P Require Import Platform.

(** ** The [AsyncSession] calls *)
Definition api_get (s : nat) (k : api_key) : M (option api_row) := call (ApiDb (Get s k)).
Definition api_select (s : nat) (q : query api_row) : M (list api_row) := call (ApiDb (Select s q)).
Definition api_count (s : nat) (p : api_row → bool) : M Z := call (ApiDb (Count s p)).
Definition api_add (s : nat) (r : api_row) : M unit := trigger (ApiDb (Add s r)).
Definition api_delete (s : nat) (k : api_key) : M unit := trigger (ApiDb (Delete s k)).
Definition api_write (s : nat) (k : api_key) (f : api_row → api_row) : M unit :=
  trigger (ApiDb (SetAttrs s k f)).
Definition api_flush (s : nat) : M unit := call (ApiDb (Flush s)).
Definition api_commit (s : nat) : M unit := call (ApiDb (Commit s)).
Definition api_rollback (s : nat) : M unit := trigger (ApiDb (Rollback s)).

(** The attributes of an instance the caller keeps a reference to. *)
Definition api_instance (s : nat) (k : api_key) : M api_row :=
  r <- trigger (ApiDb (Attrs s k)) ;;
  match r with
  | Some r => Ret r
  | None => Raise (RuntimeError "instance is not bound to a session")
  end.

Definition as_user (r : api_row) : option User := match r with RUser u => Some u | _ => None end.
Definition as_event (r : api_row) : option Event := match r with REvent e => Some e | _ => None end.
Definition as_order (r : api_row) : option Order := match r with ROrder o => Some o | _ => None end.

Definition on_event (f : Event → Event) (r : api_row) : api_row :=
  match r with REvent e => REvent (f e) | _ => r end.
Definition on_order (f : Order → Order) (r : api_row) : api_row :=
  match r with ROrder o => ROrder (f o) | _ => r end.

(** [Result.scalar_one_or_none()] *)
Definition scalar_one_or_none {A} (rows : list A) : result exn (option A) :=
  match rows with
  | [] => Ok None
  | [r] => Ok (Some r)
  | _ => Err MultipleResultsFound
  end.

(** [LIMIT] and [OFFSET] are bound as [BIGINT]. *)
Definition bind_bigint (z : Z) : result exn nat :=
  if int64_ok z then Ok (Z.to_nat z) else Err DataError.

(** ** [BaseRepository] *)
Module BaseRepository.
Section repository.
(** The mapped class: the key of an identifier, and its rows. *)
Context {T : Type} (key : uuid → api_key) (view : api_row → option T) (row : T → api_row).

Definition get (s : nat) (id : uuid) : M (option T) :=
  r <- api_get s (key id) ;; Ret (r ≫= view).

Definition list (s : nat) (limit offset : Z) : M (list T) :=
  l <- of_result (bind_bigint limit) ;;
  o <- of_result (bind_bigint offset) ;;
  rows <- api_select s (Query (λ r, bool_decide (is_Some (view r))) None (Some l) o) ;;
  Ret (omap view rows).

(** The instance the session holds under a key. *)
Definition instance (s : nat) (k : api_key) : M T :=
  r <- api_instance s k ;;
  match view r with
  | Some x => Ret x
  | None => Raise (RuntimeError "instance is not bound to a session")
  end.

Definition add (s : nat) (x : T) : M T :=
  api_add s (row x) ;;
  api_flush s ;;
  instance s (api_key_of (row x)).

Definition delete (s : nat) (x : T) : M unit :=
  api_delete s (api_key_of (row x)) ;;
  api_flush s.
End repository.
End BaseRepository.

(** ** [UserRepository] *)
Module UserRepository.
Definition get := BaseRepository.get KUser as_user.
Definition add := BaseRepository.add as_user RUser.

Definition by_email (address : string) (r : api_row) : bool :=
  match r with RUser u => bool_decide (email u = address) | _ => false end.

Definition get_by_email (s : nat) (address : string) : M (option User) :=
  rows <- api_select s (Query (by_email address) None None 0) ;;
  of_result (scalar_one_or_none (omap as_user rows)).
End UserRepository.

(** ** [EventRepository] *)

(** [schemas/event.py]: [EventSearchParams] *)
Record EventSearchParams : Type := mkEventSearchParams {
  search_q : option string;
  search_venue : option string;
  starts_after : option Z;
  starts_before : option Z;
}.

(** [if text:] *)
Definition given (text : option string) : option string :=
  match text with
  | Some t => if decide (t = "") then None else Some t
  | None => None
  end.

(** [text ILIKE pattern], the operator of the database server. *)
Class Collation : Type := { ilike : string → string → bool }.

(** One that knows no wildcard, for examples. *)
Definition sample_collation : Collation := {| ilike c p := bool_decide (c = p) |}.

Module EventRepository.
Section search.
Context `{Collation}.

Definition get := BaseRepository.get KEvent as_event.
Definition add := BaseRepository.add as_event REvent.
Definition delete := BaseRepository.delete REvent.

Definition contains (text : option string) (column : option string) : bool :=
  match given text with
  | Some t => match column with Some c => ilike c ("%" +s t +s "%") | None => false end
  | None => true
  end.

(** A comparison with NULL is not true. *)
Definition not_before (bound column : option Z) : bool :=
  match bound with
  | Some b => match column with Some c => b <=? c | None => false end
  | None => true
  end.
Definition not_after (bound column : option Z) : bool :=
  match bound with
  | Some b => match column with Some c => c <=? b | None => false end
  | None => true
  end.

Definition _apply_filters (params : EventSearchParams) (r : api_row) : bool :=
  match r with
  | REvent e =>
      contains (search_q params) (title e) && contains (search_venue params) (venue e)
      && not_before (starts_after params) (starts_at e)
      && not_after (starts_before params) (starts_at e)
  | _ => false
  end.

(** [Event.starts_at.asc()] *)
Definition by_start (r : api_row) : Z :=
  match r with REvent e => from_option id 0 (starts_at e) | _ => 0 end.

Definition search (s : nat) (params : EventSearchParams) (limit offset : Z) : M (list Event * Z) :=
  total <- api_count s (_apply_filters params) ;;
  l <- of_result (bind_bigint limit) ;;
  o <- of_result (bind_bigint offset) ;;
  rows <- api_select s (Query (_apply_filters params) (Some by_start) (Some l) o) ;;
  Ret (omap as_event rows, total).

Definition of_organizer (organizer id : uuid) (r : api_row) : bool :=
  match r with
  | REvent e => bool_decide (event_id e = id) && bool_decide (organizer_id e = organizer)
  | _ => false
  end.

Definition get_by_organizer (s : nat) (organizer id : uuid) : M (option Event) :=
  rows <- api_select s (Query (of_organizer organizer id) None None 0) ;;
  of_result (scalar_one_or_none (omap as_event rows)).
End search.
End EventRepository.

(** ** [OrderRepository] *)
Module OrderRepository.
Definition get := BaseRepository.get KOrder as_order.
Definition add := BaseRepository.add as_order ROrder.

Definition of_user (user : uuid) (r : api_row) : bool :=
  match r with ROrder o => bool_decide (order_user_id o = user) | _ => false end.

Definition for_user (id user : uuid) (r : api_row) : bool :=
  match r with
  | ROrder o => bool_decide (order_id o = id) && bool_decide (order_user_id o = user)
  | _ => false
  end.

Definition get_for_user (s : nat) (id user : uuid) : M (option Order) :=
  rows <- api_select s (Query (for_user id user) None None 0) ;;
  of_result (scalar_one_or_none (omap as_order rows)).

Definition with_key (user : uuid) (k : string) (r : api_row) : bool :=
  match r with
  | ROrder o => bool_decide (order_user_id o = user) && bool_decide (idempotency_key o = Some k)
  | _ => false
  end.

Definition get_by_idempotency_key (s : nat) (user : uuid) (k : string) : M (option Order) :=
  rows <- api_select s (Query (with_key user k) None None 0) ;;
  of_result (scalar_one_or_none (omap as_order rows)).

(** [Order.created_at.desc()] *)
Definition newest_first (r : api_row) : Z :=
  match r with ROrder o => - from_option id 0 (order_created_at o) | _ => 0 end.

Definition list_for_user (s : nat) (user : uuid) (limit offset : Z) : M (list Order * Z) :=
  total <- api_count s (of_user user) ;;
  l <- of_result (bind_bigint limit) ;;
  o <- of_result (bind_bigint offset) ;;
  rows <- api_select s (Query (of_user user) (Some newest_first) (Some l) o) ;;
  Ret (omap as_order rows, total).
End OrderRepository.

(** ** Sessions *)

(** [get_db]: the session of one request.  Nothing is committed here; an
    exception rolls back. *)
Definition get_db {A} (endpoint : nat → M A) : M A :=
  s <- trigger (ApiDb OpenSession) ;;
  try_finally
    (try_except (endpoint s) (λ e, api_rollback s ;; Raise e))
    (trigger (ApiDb (CloseSession s))).

(** [async with SessionFactory() as session:] *)
Definition SessionFactory {A} (body : nat → M A) : M A :=
  s <- trigger (ApiDb OpenSession) ;;
  try_finally (body s) (trigger (ApiDb (CloseSession s))).
