(* ===== verification/Security.v ===== *)
(** * Passwords and tokens

    [services/api/app/core/security.py], over the interfaces of bcrypt and
    PyJWT, and the settings of [core/config.py] it reads. *)
From S2P Require Import Prelude Effects Json Uuid Domain Orm Redis InventoryModels.
From S2P Require Import ApiModels.
From S2P Require Import Platform.

(** ** The libraries *)
Inductive jwt_error := ExpiredSignatureError | InvalidTokenError.

(** [bcrypt.hashpw], [bcrypt.checkpw], [jwt.encode] and [jwt.decode]; the last
    reads the clock.  A password is its UTF-8 bytes. *)
Class Crypto : Type := {
  hashpw : string → string → result exn string;
  checkpw : string → string → result exn bool;
  jwt_encode : json → string → string → string;
  jwt_decode : Z → string → string → string → result jwt_error json;
}.

(** [datetime] claims are whole seconds in a token. *)
Definition numeric_date (t : Z) : Z := t / second.

(** The five claims the service puts in a token, as given and as read back. *)
Definition claims (sub typ : string) (iat exp : json) (jti : string) : json :=
  JObj [("sub", JStr sub); ("type", JStr typ); ("iat", iat); ("exp", exp); ("jti", JStr jti)].

(** Documented behaviour: a password of at most 72 bytes is hashed to a text of
    60 characters that checks for it, a longer one is refused (bcrypt 5); a token
    decodes, before its expiry and under its own key, to its claims. *)
Class CryptoOk (C : Crypto) : Prop := {
  hashpw_short p salt : (String.length p <= 72)%nat →
    ∃ h, hashpw p salt = Ok h ∧ (String.length h <= 60)%nat;
  hashpw_long p salt : (72 < String.length p)%nat →
    hashpw p salt = Err (ValueError "password cannot be longer than 72 bytes");
  checkpw_hash p salt h : hashpw p salt = Ok h → checkpw p h = Ok true;
  jwt_decode_encode sub typ iat exp jti key alg now :
    jwt_decode now (jwt_encode (claims sub typ (JTime iat) (JTime exp) jti) key alg) key alg
    = if numeric_date exp * second <=? now then Err ExpiredSignatureError
      else if now <? numeric_date iat * second then Err InvalidTokenError
      else Ok (claims sub typ (JInt (numeric_date iat)) (JInt (numeric_date exp)) jti);
}.

(** ** Settings *)
Record Settings : Type := mkSettings {
  jwt_secret_key : string;
  jwt_algorithm : string;
  access_token_expire_minutes : Z;
  refresh_token_expire_days : Z;
  rate_limit_per_minute : Z;
}.

Definition default_settings : Settings :=
  mkSettings "changeme-generate-a-long-random-secret-and-set-this-via-env" "HS256" 30 7 60.

Definition minute : Z := 60 * second.
Definition day : Z := 86400 * second.

(** ** [security.py] *)
(** [value == text] *)
Definition is_text (v : json) (text : string) : bool :=
  match v with JStr t => bool_decide (t = text) | _ => false end.

Inductive token_type := access | refresh.

#[global] Instance token_type_eq_dec : EqDecision token_type.
Proof. solve_decision. Defined.

Definition token_type_value (t : token_type) : string :=
  match t with access => "access" | refresh => "refresh" end.

Section security.
Context `{C : Crypto}.
Variable settings : Settings.

Definition hash_password (password : string) : M string :=
  salt <- trigger Gensalt ;;
  of_result (hashpw password salt).

Definition verify_password (password hashed : string) : result exn bool :=
  match checkpw password hashed with
  | Err (ValueError _) => Ok false
  | r => r
  end.

Definition _create_token (subject : string) (token_type : token_type) (expires_delta : Z) : M string :=
  now <- datetime_now ;;
  jti <- uuid4 ;;
  Ret (jwt_encode
         (claims subject (token_type_value token_type) (JTime now) (JTime (now + expires_delta))
            (uuid_str jti))
         (jwt_secret_key settings) (jwt_algorithm settings)).

Definition create_access_token (user_id : uuid) : M string :=
  _create_token (uuid_str user_id) access (access_token_expire_minutes settings * minute).

Definition create_refresh_token (user_id : uuid) : M string :=
  _create_token (uuid_str user_id) refresh (refresh_token_expire_days settings * day).

Definition decode_token (token : string) (expected_type : token_type) : M json :=
  now <- datetime_now ;;
  match jwt_decode now token (jwt_secret_key settings) (jwt_algorithm settings) with
  | Err ExpiredSignatureError => Raise (AuthenticationError "Token has expired")
  | Err InvalidTokenError => Raise (AuthenticationError "Invalid token")
  | Ok payload =>
      typ <- of_result (dict_get payload "type" JNull) ;;
      if is_text typ (token_type_value expected_type) then Ret payload
      else Raise (AuthenticationError
                    ("Expected a " +s token_type_value expected_type +s " token"))
  end.
End security.

(** ** Concrete libraries

    A password is hashed to its first 60 bytes; a token is the text of its
    claims and of its key, which decoding reads back. *)
Fixpoint bits (p : positive) : string :=
  match p with
  | xH => ""
  | xO p => String "0" (bits p)
  | xI p => String "1" (bits p)
  end.

Fixpoint of_bits (s : string) : option positive :=
  match s with
  | "" => Some xH
  | String c s =>
      p ← of_bits s;
      if Ascii.eqb c "0" then Some (xO p) else if Ascii.eqb c "1" then Some (xI p) else None
  end%string.

Lemma of_bits_bits p : of_bits (bits p) = Some p.
Proof. induction p as [p IH|p IH|]; simpl; by rewrite ?IH. Qed.

Definition token_data : Type := string * string * (Z * Z) * string * (string * string).

Definition sample_encode (payload : json) (key alg : string) : string :=
  match payload with
  | JObj [(_, JStr sub); (_, JStr typ); (_, JTime iat); (_, JTime exp); (_, JStr jti)] =>
      bits (encode ((sub, typ, (numeric_date iat, numeric_date exp), jti, (key, alg)) : token_data))
  | _ => ""
  end.

Definition sample_decode (now : Z) (token key alg : string) : result jwt_error json :=
  match of_bits token ≫= (λ p, decode p : option token_data) with
  | Some (sub, typ, (iat, exp), jti, (key', alg')) =>
      if decide (key' = key ∧ alg' = alg) then
        if exp * second <=? now then Err ExpiredSignatureError
        else if now <? iat * second then Err InvalidTokenError
        else Ok (claims sub typ (JInt iat) (JInt exp) jti)
      else Err InvalidTokenError
  | None => Err InvalidTokenError
  end.

Definition sample_hash (p : string) : string := String.substring 0 60 p.

Definition sample_crypto : Crypto := {|
  hashpw p _ :=
    if (String.length p <=? 72)%nat then Ok (sample_hash p)
    else Err (ValueError "password cannot be longer than 72 bytes");
  checkpw p h := Ok (bool_decide (sample_hash p = h));
  jwt_encode := sample_encode;
  jwt_decode := sample_decode;
|}.

Lemma substring_length n s : (String.length (String.substring 0 n s) <= n)%nat.
Proof. revert s. induction n as [|n IH]; intros [|c s]; simpl; [lia..|]. specialize (IH s). lia. Qed.

Lemma sample_crypto_ok : CryptoOk sample_crypto.
Proof.
  split; simpl.
  - intros p _ Hp. rewrite (proj2 (Nat.leb_le _ _)) by done. eexists. split; [done|].
    apply substring_length.
  - intros p _ Hp. by rewrite (proj2 (Nat.leb_gt _ _)).
  - intros p _ h. case_goal; [|done]. intros [= <-]. by rewrite bool_decide_eq_true_2.
  - intros. unfold sample_decode. rewrite of_bits_bits. simpl. rewrite decode_encode.
    by rewrite decide_True.
Qed.
