(* ===== verification/AuthService.v ===== *)
(** * Accounts and sessions of users

    [services/api/app/services/auth_service.py]: registration, login, and the
    refresh tokens kept in Redis. *)
From S2P Require Import Prelude Effects Json Uuid Domain Orm Redis InventoryModels.
From S2P Require Import ApiModels.
From S2P Require Import Platform ApiRepositories Security.

(** [schemas/auth.py]: the lengths [RegisterRequest] lets through, in characters;
    the text here is ASCII.  [EmailStr] is a library's type. *)
Definition register_valid (password full_name : string) : bool :=
  (8 <=? String.length password)%nat && (String.length password <=? 128)%nat
  && (1 <=? String.length full_name)%nat && (String.length full_name <=? 255)%nat.

Record TokenResponse : Type := mkTokenResponse {
  access_token : string;
  refresh_token : string;
}.

(** [f"refresh:{jti}"] of a claim. *)
Definition refresh_key (jti : json) : result exn string :=
  match jti with JStr j => Ok ("refresh:" +s j) | _ => Err (TypeError "jti") end.

Module AuthService.
Section service.
Context `{C : Crypto}.
Variable settings : Settings.

(** [s] is the session of the repository. *)
Definition register (s : nat) (address password full_name : string) : M User :=
  existing <- UserRepository.get_by_email s address ;;
  match existing with
  | Some _ => Raise (ValidationError "An account with this email already exists")
  | None =>
      hashed <- hash_password password ;;
      id <- uuid4 ;;
      user <- UserRepository.add s (mkUser id address hashed full_name ATTENDEE true None None) ;;
      api_commit s ;;
      Ret user
  end.

Definition _issue_tokens (user_id : uuid) : M TokenResponse :=
  access_token <- create_access_token settings user_id ;;
  refresh_token <- create_refresh_token settings user_id ;;
  payload <- decode_token settings refresh_token refresh ;;
  jti <- of_result (dict_item payload "jti") ;;
  key <- of_result (refresh_key jti) ;;
  call (RedisCmd (SetEx key (uuid_str user_id) (refresh_token_expire_days settings * 86400))) ;;
  Ret (mkTokenResponse access_token refresh_token).

Definition login (s : nat) (address password : string) : M TokenResponse :=
  user <- UserRepository.get_by_email s address ;;
  match user with
  | None => Raise (AuthenticationError "Incorrect email or password")
  | Some user =>
      ok <- of_result (verify_password password (hashed_password user)) ;;
      if negb ok then Raise (AuthenticationError "Incorrect email or password")
      else if negb (is_active user)
      then Raise (AuthenticationError "This account has been deactivated")
      else _issue_tokens (user_id user)
  end.

Definition refresh (refresh_token : string) : M TokenResponse :=
  payload <- decode_token settings refresh_token Security.refresh ;;
  jti <- of_result (dict_item payload "jti") ;;
  user_id <- of_result (dict_item payload "sub") ;;
  key <- of_result (refresh_key jti) ;;
  stored_user_id <- call (RedisCmd (RGet key)) ;;
  match stored_user_id with
  | None => Raise (AuthenticationError "Refresh token has been revoked or has expired")
  | Some _ =>
      call (RedisCmd (Del key)) ;;
      user_id <- of_result (json_uuid user_id) ;;
      _issue_tokens user_id
  end.

Definition logout (refresh_token : string) : M unit :=
  payload <- attempt (decode_token settings refresh_token Security.refresh) ;;
  match payload with
  | Err (AuthenticationError _) => Ret tt
  | Err e => Raise e
  | Ok payload =>
      jti <- of_result (dict_item payload "jti") ;;
      key <- of_result (refresh_key jti) ;;
      call (RedisCmd (Del key)) ;;
      Ret tt
  end.
End service.
End AuthService.
