(* ===== verification/EventService.v ===== *)
(** * Events

    [services/api/app/services/event_service.py] with the request bodies of
    [schemas/event.py]: creation, lookup, search, partial update and deletion,
    and the lifecycle messages they publish. *)
From S2P Require Import Prelude Effects Json Uuid Domain Orm Redis InventoryModels.
From S2P Require Import ApiModels.
From S2P Require Import Platform Kafka Pagination ApiRepositories.

(** ** Request bodies *)

(** [EventCreate], with its field constraints. *)
Record EventCreate : Type := mkEventCreate {
  new_title : string;
  new_description : option string;
  new_venue : string;
  new_starts_at : Z;
  new_total_seats : Z;
  new_price_cents : Z;
}.

(** [Field(min_length=1, max_length=255)], in characters; the text here is
    ASCII. *)
Definition name_valid (t : string) : bool :=
  (1 <=? String.length t)%nat && (String.length t <=? 255)%nat.

Definition event_create_valid (d : EventCreate) : bool :=
  name_valid (new_title d) && name_valid (new_venue d)
  && (0 <? new_total_seats d) && (0 <=? new_price_cents d).

(** [EventUpdate]: a field that the body does not mention is [None], one that
    it sets to null is [Some None]. *)
Record EventUpdate : Type := mkEventUpdate {
  upd_title : option (option string);
  upd_description : option (option string);
  upd_venue : option (option string);
  upd_starts_at : option (option Z);
  upd_total_seats : option (option Z);
  upd_price_cents : option (option Z);
}.

Definition constrained {A} (p : A → bool) (field : option (option A)) : bool :=
  match field with Some (Some x) => p x | _ => true end.

Definition event_update_valid (d : EventUpdate) : bool :=
  constrained name_valid (upd_title d) && constrained name_valid (upd_venue d)
  && constrained (Z.ltb 0) (upd_total_seats d) && constrained (Z.leb 0) (upd_price_cents d).

(** [for field, value in data.model_dump(exclude_unset=True).items():
    setattr(event, field, value)] *)
Definition apply_update (d : EventUpdate) (e : Event) : Event :=
  mkEvent (event_id e)
    (default (title e) (upd_title d))
    (default (description e) (upd_description d))
    (default (venue e) (upd_venue d))
    (default (starts_at e) (upd_starts_at d))
    (default (total_seats e) (upd_total_seats d))
    (default (price_cents e) (upd_price_cents d))
    (organizer_id e) (event_created_at e) (event_updated_at e).

(** [data.total_seats is not None and data.total_seats != event.total_seats] *)
Definition seats_changed (d : EventUpdate) (e : Event) : bool :=
  match mjoin (upd_total_seats d) with
  | Some n => bool_decide (Some n ≠ total_seats e)
  | None => false
  end.

(** A payload's [total_seats: int] refuses null. *)
Definition int_field (v : option Z) : result exn Z :=
  match v with Some z => Ok z | None => Err PydanticError end.

(** ** The service *)
Definition no_event (id : uuid) : exn := NotFoundError ("No event " +s uuid_str id).

Definition may_modify (e : Event) (current_user : User) : bool :=
  bool_decide (role current_user = ADMIN) || bool_decide (organizer_id e = user_id current_user).

Module EventService.
Section service.
Context `{Collation}.

Definition create (s : nat) (data : EventCreate) (organizer : User) : M Event :=
  id <- uuid4 ;;
  _ <- EventRepository.add s
         (mkEvent id (Some (new_title data)) (new_description data) (Some (new_venue data))
            (Some (new_starts_at data)) (Some (new_total_seats data)) (Some (new_price_cents data))
            (user_id organizer) None None) ;;
  api_commit s ;;
  event <- BaseRepository.instance as_event s (KEvent id) ;;
  seats <- of_result (int_field (total_seats event)) ;;
  publish EventType.EVENT_CREATED (uuid_str (event_id event))
    (EventCreatedPayload (event_id event) seats) ;;
  Ret event.

Definition get (s : nat) (id : uuid) : M Event :=
  event <- EventRepository.get s id ;;
  match event with
  | None => Raise (no_event id)
  | Some event => Ret event
  end.

Definition search (s : nat) (params : EventSearchParams) (pagination : PaginationParams)
    : M (Page Event) :=
  r <- EventRepository.search s params (limit pagination) (offset pagination) ;;
  Ret (Pagination.create r.1 r.2 pagination).

Definition _require_owner_or_admin (event : Event) (current_user : User) : M unit :=
  if negb (bool_decide (role current_user = ADMIN))
     && negb (bool_decide (organizer_id event = user_id current_user))
  then Raise (AuthorizationError "You do not have permission to modify this event")
  else Ret tt.

Definition update (s : nat) (id : uuid) (data : EventUpdate) (current_user : User) : M Event :=
  event <- get s id ;;
  _require_owner_or_admin event current_user ;;
  let seats_changed := seats_changed data event in
  api_write s (KEvent id) (on_event (apply_update data)) ;;
  api_commit s ;;
  event <- BaseRepository.instance as_event s (KEvent id) ;;
  (if seats_changed then
     seats <- of_result (int_field (total_seats event)) ;;
     publish EventType.EVENT_UPDATED (uuid_str (event_id event))
       (EventUpdatedPayload (event_id event) seats)
   else Ret tt) ;;
  Ret event.

Definition delete (s : nat) (id : uuid) (current_user : User) : M unit :=
  event <- get s id ;;
  _require_owner_or_admin event current_user ;;
  EventRepository.delete s event ;;
  api_commit s.
End service.
End EventService.
