(* ===== verification/BookingService.v ===== *)
(** * Bookings

    [services/api/app/services/booking_service.py] with the request body of
    [schemas/order.py]: an order is written after its seats are reserved over
    gRPC, and cancelling one gives its seats back. *)
From S2P Require Import Prelude Effects Json Uuid Domain Orm Redis InventoryModels.
From S2P Require Import ApiModels.
From S2P Require Import Platform Kafka Pagination ApiRepositories InventoryService.
From S2P Require Import InventoryServicer EventService.

(** [OrderCreateRequest.quantity: Field(gt=0, le=20)] *)
Definition quantity_valid (q : Z) : bool := (0 <? q) && (q <=? 20).

Definition no_order (id : uuid) : exn := NotFoundError ("No order " +s uuid_str id).

(** [event.price_cents * quantity]: a null price is not a number. *)
Definition price_field (v : option Z) : result exn Z :=
  match v with Some z => Ok z | None => Err (TypeError "unsupported operand type(s) for *") end.

Module BookingService.
Section service.
(** The Inventory service behind [self._inventory]. *)
Variable inventory : InventoryService.

Definition publish_created (o : Order) : M unit :=
  publish EventType.ORDER_CREATED (uuid_str (order_id o))
    (OrderCreatedPayload (order_id o) (order_event_id o) (order_user_id o)
       (order_quantity o) (total_price_cents o) (reservation_id o)).

Definition publish_cancelled (o : Order) : M unit :=
  publish EventType.ORDER_CANCELLED (uuid_str (order_id o))
    (OrderCancelledPayload (order_id o) (reservation_id o)).

(** From [event = await self._events.get(event_id)] on. *)
Definition book_new (s : nat) (user : User) (e : uuid) (quantity : Z)
    (idempotency_key : option string) : M Order :=
  event <- EventRepository.get s e ;;
  match event with
  | None => Raise (no_event e)
  | Some event =>
      order_id <- uuid4 ;;
      reservation <- Client.reserve_seats inventory e order_id quantity ;;
      price <- of_result (price_field (price_cents event)) ;;
      order <- OrderRepository.add s
        (mkOrder order_id (user_id user) e (result_reservation_id reservation) quantity
           price (price * quantity) OrderStatus.PENDING idempotency_key None None) ;;
      api_commit s ;;
      publish_created order ;;
      Ret order
  end.

Definition book_tickets (s : nat) (user : User) (e : uuid) (quantity : Z)
    (idempotency_key : option string) : M Order :=
  match given idempotency_key with
  | Some key =>
      existing <- OrderRepository.get_by_idempotency_key s (user_id user) key ;;
      match existing with
      | Some order => Ret order
      | None => book_new s user e quantity idempotency_key
      end
  | None => book_new s user e quantity idempotency_key
  end.

Definition get_order (s : nat) (id : uuid) (user : User) : M Order :=
  order <- OrderRepository.get_for_user s id (user_id user) ;;
  match order with
  | None => Raise (no_order id)
  | Some order => Ret order
  end.

Definition list_orders (s : nat) (user : User) (pagination : PaginationParams) : M (Page Order) :=
  r <- OrderRepository.list_for_user s (user_id user) (limit pagination) (offset pagination) ;;
  Ret (Pagination.create r.1 r.2 pagination).

(** [order.status in (CANCELLED, EXPIRED)] *)
Definition already_closed (st : OrderStatus.t) : bool :=
  match st with OrderStatus.CANCELLED | OrderStatus.EXPIRED => true | _ => false end.

Definition cancel_order (s : nat) (id : uuid) (user : User) : M Order :=
  order <- OrderRepository.get_for_user s id (user_id user) ;;
  match order with
  | None => Raise (no_order id)
  | Some order =>
      if negb (bool_decide (order_user_id order = user_id user))
      then Raise (AuthorizationError "You do not have permission to cancel this order")
      else if already_closed (order_status order)
      then Raise (ValidationError ("Order is already " +s OrderStatus_value (order_status order)))
      else
        Client.release_reservation (reservation_id order) ;;
        api_write s (KOrder (order_id order)) (on_order (set_order_status OrderStatus.CANCELLED)) ;;
        api_commit s ;;
        order <- BaseRepository.instance as_order s (KOrder (order_id order)) ;;
        publish_cancelled order ;;
        Ret order
  end.
End service.
End BookingService.
