(* ===== verification/Workers.v ===== *)
(** * Workers

    The consumers of the bus: [services/api/app/workers/] (payment, order
    status, notification) and [services/inventory/app/workers/] (event sync,
    reservation reaper). *)
From S2P Require Import Prelude Effects Json Uuid Domain Orm Redis InventoryModels.
From S2P Require Import ApiModels.
From S2P Require Import Platform Kafka ApiRepositories InventoryService.
From S2P Require Import InventoryServicer.

(** [payload["order_id"]] and the like, as UUIDs. *)
Definition uuid_item (payload : json) (k : string) : result exn uuid :=
  match dict_item payload k with
  | Ok v => json_uuid v
  | Err e => Err e
  end.

(** ** Payment worker *)
Module PaymentWorker.
(** [random.random() > 0.05]: a draw is a multiple of [2^-53], and the double
    nearest to 0.05 is [3602879701896397 / 2^56]. *)
Definition charge_succeeds (draw : Z) : bool := 3602879701896397 <? draw * 8.

(** [random.uniform(0.05, 0.2)] seconds. *)
Definition charge_latency (draw : Z) : Z := 50000 + 150000 * draw / 2 ^ 53.

(** [f"mock_txn_{uuid.uuid4().hex[:12]}"] *)
Definition hex (u : uuid) : string :=
  String.string_of_list_ascii
    (List.filter (λ c, negb (Ascii.eqb c "-"%char)) (String.list_ascii_of_string (uuid_str u))).

Definition transaction_ref (u : uuid) : string := "mock_txn_" +s String.substring 0 12 (hex u).

Definition _mock_charge : M (bool * string) :=
  latency <- trigger Random53 ;;
  sleep (charge_latency latency) ;;
  draw <- trigger Random53 ;;
  u <- uuid4 ;;
  Ret (charge_succeeds draw, transaction_ref u).

Definition _handle_message (message : json) : M unit :=
  payload <- of_result (payload_of message) ;;
  order_id <- of_result (uuid_item payload "order_id") ;;
  _ <- of_result (dict_item payload "total_price_cents") ;;
  charge <- _mock_charge ;;
  publish EventType.PAYMENT_PROCESSED (uuid_str order_id)
    (PaymentProcessedPayload order_id charge.1 charge.2).

Definition consumer : BaseKafkaConsumer :=
  Consumer [Topic.ORDERS_CREATED] GROUP_API_PAYMENT_WORKER _handle_message.
End PaymentWorker.

(** ** Order status worker *)
Module OrderStatusWorker.
(** [session.get(Order, order_id)], the order being looked at only if it is
    still PENDING. *)
Definition get_pending (s : nat) (id : uuid) : M (option Order) :=
  order <- OrderRepository.get s id ;;
  Ret (match order with
       | Some o => if decide (order_status o ≠ OrderStatus.PENDING) then None else Some o
       | None => None
       end).

Definition close_order (s : nat) (id : uuid) (status : OrderStatus.t) : M Order :=
  api_write s (KOrder id) (on_order (set_order_status status)) ;;
  api_commit s ;;
  BaseRepository.instance as_order s (KOrder id).

Definition _handle_payment_processed (payload : json) : M unit :=
  order_id <- of_result (uuid_item payload "order_id") ;;
  SessionFactory (λ s,
    order <- get_pending s order_id ;;
    match order with
    | None => Ret tt
    | Some order =>
        success <- of_result (dict_item payload "success") ;;
        if truthy success then
          Client.confirm_reservation (reservation_id order) ;;
          order <- close_order s order_id OrderStatus.CONFIRMED ;;
          publish EventType.TICKET_ISSUED (uuid_str (ApiModels.order_id order))
            (TicketIssuedPayload (ApiModels.order_id order) (order_user_id order) (order_event_id order))
        else
          Client.release_reservation (reservation_id order) ;;
          order <- close_order s order_id OrderStatus.CANCELLED ;;
          publish EventType.ORDER_CANCELLED (uuid_str (ApiModels.order_id order))
            (OrderCancelledPayload (ApiModels.order_id order) (reservation_id order))
    end).

Definition _handle_reservation_expired (payload : json) : M unit :=
  order_id <- of_result (uuid_item payload "order_id") ;;
  SessionFactory (λ s,
    order <- get_pending s order_id ;;
    match order with
    | None => Ret tt
    | Some _ => _ <- close_order s order_id OrderStatus.EXPIRED ;; Ret tt
    end).

Definition _handle_message (message : json) : M unit :=
  event_type <- of_result (event_type_of message) ;;
  payload <- of_result (payload_of message) ;;
  if is_event event_type EventType.PAYMENT_PROCESSED then _handle_payment_processed payload
  else if is_event event_type EventType.RESERVATION_EXPIRED then _handle_reservation_expired payload
  else Ret tt.

Definition consumer : BaseKafkaConsumer :=
  Consumer [Topic.ORDERS_STATUS_CHANGED] GROUP_API_ORDER_STATUS_WORKER _handle_message.
End OrderStatusWorker.

(** ** Notification worker *)
Module NotificationWorker.
Definition _send_mock_email (recipient subject : string) (order_id : uuid) : M unit :=
  trigger (Mail recipient subject order_id).

Definition recipient (s : nat) (order_id : uuid) : M (option User) :=
  order <- OrderRepository.get s order_id ;;
  match order with
  | None => Ret None
  | Some order => UserRepository.get s (order_user_id order)
  end.

Definition _handle_message (message : json) : M unit :=
  event_type <- of_result (event_type_of message) ;;
  payload <- of_result (payload_of message) ;;
  order_id <- of_result (uuid_item payload "order_id") ;;
  user <- SessionFactory (λ s, recipient s order_id) ;;
  match user with
  | None => Ret tt
  | Some user =>
      if is_event event_type EventType.TICKET_ISSUED
      then _send_mock_email (email user) "Your tickets are confirmed!" order_id
      else if is_event event_type EventType.ORDER_CANCELLED
      then _send_mock_email (email user) "Your order was cancelled" order_id
      else Ret tt
  end.

Definition consumer : BaseKafkaConsumer :=
  Consumer [Topic.ORDERS_NOTIFICATIONS] GROUP_API_NOTIFICATION_WORKER _handle_message.
End NotificationWorker.

(** ** Event synchronisation, in the Inventory service *)
Module EventSync.
Section handler.
Variable service : InventoryService.

Definition _handle_message (message : json) : M unit :=
  event_type <- of_result (event_type_of message) ;;
  payload <- of_result (payload_of message) ;;
  if is_event event_type EventType.EVENT_CREATED then
    event_id <- of_result (uuid_item payload "event_id") ;;
    seats <- of_result (dict_item payload "total_seats") ;;
    seats <- of_result (json_int seats) ;;
    _ <- Service.initialize_inventory event_id seats ;;
    Ret tt
  else if is_event event_type EventType.EVENT_UPDATED then
    event_id <- of_result (uuid_item payload "event_id") ;;
    seats <- of_result (dict_item payload "total_seats") ;;
    seats <- of_result (json_int seats) ;;
    _ <- Service.adjust_capacity service event_id seats ;;
    Ret tt
  else Ret tt.

Definition consumer : BaseKafkaConsumer :=
  Consumer [Topic.EVENTS_LIFECYCLE] GROUP_INVENTORY_EVENT_SYNC _handle_message.
End handler.
End EventSync.

(** ** Reservation reaper, in the Inventory service *)
Module Reaper.
Definition announce (r : Reservation) : M unit :=
  publish EventType.RESERVATION_EXPIRED (uuid_str (res_event_id r))
    (ReservationExpiredPayload (uuid_str (res_id r)) (res_order_id r) (res_event_id r)).

(** One turn of [while True], its sleep aside. *)
Definition sweep_once : M unit :=
  released <- Service.sweep_expired_reservations ;;
  _ <- for_each announce released ;;
  Ret tt.

(** [turns] turns of the loop; an exception leaves it. *)
Fixpoint loop (reaper_interval_us : Z) (turns : nat) : M unit :=
  match turns with
  | O => Ret tt
  | S turns =>
      sweep_once ;;
      sleep reaper_interval_us ;;
      loop reaper_interval_us turns
  end.
End Reaper.

(** ** What runs *)

(** The consumers of [api/app/workers/main.py] and [inventory/app/workers/main.py]. *)
Definition api_workers : list BaseKafkaConsumer :=
  [PaymentWorker.consumer; OrderStatusWorker.consumer; NotificationWorker.consumer].
Definition inventory_workers (service : InventoryService) : list BaseKafkaConsumer :=
  [EventSync.consumer service].
Definition workers (service : InventoryService) : list BaseKafkaConsumer :=
  api_workers ++ inventory_workers service.
