(* ===== verification/Processes.v ===== *)
(** * Processes and their connections

    What the entry points put around the handlers: [start] and [stop] of the
    producer ([shared/kafka/producer.py]), of the consumer
    ([shared/kafka/consumer.py]) and of the gRPC channel
    ([inventory_client.py]), the [run_*] functions of the workers, the
    [lifespan] of the API ([api/app/main.py]) and [serve] of the Inventory
    service ([inventory/app/main.py]). *)
From S2P Require Import Prelude Effects Json Uuid Domain Orm Redis InventoryModels.
From S2P Require Import ApiModels.
From S2P Require Import Platform Kafka Locking InventoryService InventoryServicer.
From S2P Require Import Workers.

(** What a process opens and closes. *)
Inductive connection :=
| RedisPool | KafkaProducer | KafkaConsumer | GrpcChannel | GrpcServer | DatabaseEngine.

#[global] Instance connection_eq_dec : EqDecision connection.
Proof. solve_decision. Defined.
#[global] Instance connection_countable : Countable connection.
Proof.
  refine (inj_countable'
    (λ c, match c with
          | RedisPool => 0 | KafkaProducer => 1 | KafkaConsumer => 2
          | GrpcChannel => 3 | GrpcServer => 4 | DatabaseEngine => 5 end)%nat
    (λ n, match n with
          | 0 => RedisPool | 1 => KafkaProducer | 2 => KafkaConsumer
          | 3 => GrpcChannel | 4 => GrpcServer | _ => DatabaseEngine end)%nat _).
  by intros [].
Defined.

(** Operations of a process: those of the platform, and connections, which may
    be refused. *)
Inductive proc_op : Type → Type :=
| Sys {B} (op : sys_op B) : proc_op B
| Connect (c : connection) : proc_op (result exn unit)
| Disconnect (c : connection) : proc_op (result exn unit).

Abbreviation P := (prog proc_op exn).

(** The connection an operation goes through; database sessions draw theirs
    from the engine, which connects when it is first asked. *)
Definition needs {B} (op : sys_op B) : option connection :=
  match op with
  | KafkaSend _ _ _ => Some KafkaProducer
  | RpcFault => Some GrpcChannel
  | RedisCmd _ => Some RedisPool
  | _ => None
  end.

(** A handler's program, run by a process. *)
Fixpoint lift {A} (p : M A) : P A :=
  match p with
  | Ret a => Ret a
  | Raise e => Raise e
  | Vis op k => Vis (Sys op) (λ b, lift (k b))
  end.

Definition connect (c : connection) : P unit := r <- trigger (Connect c) ;; of_result r.
Definition disconnect (c : connection) : P unit := r <- trigger (Disconnect c) ;; of_result r.

(** ** Clients *)
Module KafkaEventProducer.
Definition start : P unit := connect KafkaProducer.
Definition stop : P unit := disconnect KafkaProducer.
End KafkaEventProducer.

Module InventoryClient.
Definition start : P unit := connect GrpcChannel.
Definition stop : P unit := disconnect GrpcChannel.
End InventoryClient.

(** [BaseKafkaConsumer.run]: [fuel] messages at most, of the partitions [ps]
    the group coordinator gave it. *)
Definition consumer_run (c : BaseKafkaConsumer) (client : AIOKafkaConsumer)
    (stopping : list nat → bool) (fuel : nat) (ps : list partition) : P (list partition) :=
  connect KafkaConsumer ;;
  try_finally (lift (consume client (on_message c) stopping fuel ps)) (disconnect KafkaConsumer).

(** ** Workers *)
Section workers.
Variables (client : AIOKafkaConsumer) (stopping : list nat → bool) (fuel : nat).
Variable ps : list partition.

Definition run_payment_worker : P (list partition) :=
  KafkaEventProducer.start ;;
  try_finally (consumer_run PaymentWorker.consumer client stopping fuel ps) KafkaEventProducer.stop.

Definition run_order_status_worker : P (list partition) :=
  InventoryClient.start ;;
  KafkaEventProducer.start ;;
  try_finally (consumer_run OrderStatusWorker.consumer client stopping fuel ps)
    (KafkaEventProducer.stop ;; InventoryClient.stop).

Definition run_notification_worker : P (list partition) :=
  consumer_run NotificationWorker.consumer client stopping fuel ps.

Definition run_event_sync_consumer (service : InventoryService) : P (list partition) :=
  consumer_run (EventSync.consumer service) client stopping fuel ps.
End workers.

Definition run_reservation_reaper (reaper_interval_us : Z) (turns : nat) : P unit :=
  KafkaEventProducer.start ;;
  try_finally (lift (Reaper.loop reaper_interval_us turns)) KafkaEventProducer.stop.

(** ** Servers *)

(** [lifespan]: the requests of the application come at the [yield]. *)
Definition lifespan {A} (requests : P A) : P A :=
  connect RedisPool ;;
  KafkaEventProducer.start ;;
  InventoryClient.start ;;
  try_finally requests
    (InventoryClient.stop ;; KafkaEventProducer.stop ;; disconnect RedisPool ;; disconnect DatabaseEngine).

(** [serve]: the calls come while it waits for a signal; what they raise goes to
    their callers. *)
Definition serve {A} (calls : P A) : P unit :=
  connect RedisPool ;;
  connect GrpcServer ;;
  _ <- attempt calls ;;
  disconnect GrpcServer ;;
  disconnect RedisPool.

(** [main] of the Inventory workers, around its tasks. *)
Definition inventory_worker_main {A} (tasks : P A) : P A :=
  connect RedisPool ;;
  try_finally tasks (disconnect RedisPool).

(** ** Settings *)

(** [inventory/app/core/config.py], as far as a service is built from it. *)
Record InventorySettings : Type := mkInventorySettings {
  lock_ttl_ms : Z;
  lock_retry_attempts : nat;
  lock_retry_delay_us : Z;
  optimistic_attempts : nat;
  reservation_ttl : Z;
  reaper_interval_us : Z;
}.

Definition default_inventory_settings : InventorySettings :=
  mkInventorySettings 5000 10 100000 5 600 (30 * second).

(** The service of [serve]. *)
Definition server_service (st : InventorySettings) : InventoryService :=
  mkInventoryService (mkRedisLock (lock_ttl_ms st) (lock_retry_attempts st) (lock_retry_delay_us st))
    (reservation_ttl st) (optimistic_attempts st).

(** The service of the workers' [main], which leaves the lock's delay at its
    default. *)
Definition worker_service (st : InventorySettings) : InventoryService :=
  mkInventoryService
    (mkRedisLock (lock_ttl_ms st) (lock_retry_attempts st) (retry_delay_us default_lock))
    (reservation_ttl st) (optimistic_attempts st).

(** ** A process over an environment *)
Record process (W : Type) : Type := Process {
  env : W;
  opened : gset connection;
  misused : bool;   (** an operation went through a connection that was not open *)
}.
Arguments Process {W} env opened misused.
Arguments env {W} p.
Arguments opened {W} p.
Arguments misused {W} p.

Section process.
Context {W : Type} (h : handler sys_op W).
(** The connections that are refused, and how. *)
Variable refusal : connection → option exn.

Definition usable (s : gset connection) {B} (op : sys_op B) : bool :=
  match needs op with Some c => bool_decide (c ∈ s) | None => true end.

Definition proc_exec (B : Type) (op : proc_op B) (st : process W) : option (B * process W) :=
  match op in proc_op B return option (B * process W) with
  | Sys op =>
      match h _ op (env st) with
      | Some (b, w) => Some (b, Process w (opened st) (misused st || negb (usable (opened st) op)))
      | None => None
      end
  | Connect c =>
      match refusal c with
      | Some e => Some (Err e, st)
      | None => Some (Ok tt, Process (env st) ({[c]} ∪ opened st) (misused st))
      end
  | Disconnect c => Some (Ok tt, Process (env st) (opened st ∖ {[c]}) (misused st))
  end.
End process.
