(* ===== verification/Logging.v ===== *)
(** * Logging

    [services/shared/logging.py]: what [configure_logging] asks of the standard
    library's [logging] and of structlog; [api/app/core/logging.py]: what a
    request binds to the context of its lines.  structlog itself, which filters
    and renders the lines, is not modelled. *)
From S2P Require Import Prelude Effects Domain.

(** ** [logging] *)

(** The public names in capitals of the module: levels, and one text. *)
Inductive logging_value := Level (n : Z) | Text (s : string).

Definition logging_attribute (name : string) : option logging_value :=
  if bool_decide (name ∈ ["CRITICAL"; "FATAL"]) then Some (Level 50)
  else if bool_decide (name = "ERROR") then Some (Level 40)
  else if bool_decide (name ∈ ["WARNING"; "WARN"]) then Some (Level 30)
  else if bool_decide (name = "INFO") then Some (Level 20)
  else if bool_decide (name = "DEBUG") then Some (Level 10)
  else if bool_decide (name = "NOTSET") then Some (Level 0)
  else if bool_decide (name = "BASIC_FORMAT") then Some (Text "%(levelname)s:%(name)s:%(message)s")
  else None.

Definition logging_INFO : Z := 20.

Fixpoint upper (s : string) : string :=
  match s with
  | "" => ""
  | String c s =>
      let n := nat_of_ascii c in
      String (if (97 <=? n)%nat && (n <=? 122)%nat then ascii_of_nat (n - 32) else c) (upper s)
  end.

(** ** [configure_logging] *)

(** structlog's processors, by their names. *)
Inductive processor :=
| merge_contextvars | add_log_level | TimeStamper_iso | add_logger_name | StackInfoRenderer
| format_exc_info | ConsoleRenderer | JSONRenderer.

(** The calls the function makes, in order. *)
Inductive logging_call :=
| basicConfig (level : logging_value)
| structlog_configure (processors : list processor) (filtering : logging_value)
| clear_contextvars
| bind_contextvars (vars : list (string * string)).

Definition log_level (level : string) : logging_value :=
  default (Level logging_INFO) (logging_attribute (upper level)).

Definition renderer (environment : string) : processor :=
  if bool_decide (environment = "development") then ConsoleRenderer else JSONRenderer.

Definition configure_logging (service_name environment level : string) : list logging_call :=
  let level := log_level level in
  let shared_processors :=
    [ merge_contextvars; add_log_level; TimeStamper_iso; add_logger_name; StackInfoRenderer;
      format_exc_info ] in
  [ basicConfig level;
    structlog_configure (shared_processors ++ [renderer environment]) level;
    clear_contextvars;
    bind_contextvars [("service", service_name)] ].

(** [RequestContextMiddleware.dispatch]: what is bound before the request is
    passed on, and unbound when it has been answered, but not when it raised. *)
Definition request_context (request_id path method : string) : list (string * string) :=
  [("request_id", request_id); ("path", path); ("method", method)].

(** A text that names no level means INFO, in any case of its letters. *)
Example levels :
  log_level "info" = Level 20 ∧ log_level "Warn" = Level 30 ∧ log_level "verbose" = Level 20
  ∧ log_level "basic_format" = Text "%(levelname)s:%(name)s:%(message)s".
Proof. by split_and!. Qed.
