(* ===== verification/ConfigurationCorrectness.v ===== *)
(** * Correctness of the configuration

    Every Kafka client of every process is built from the settings of its
    service; the services and the migrations agree on the database, as far as the
    environment is concerned. *)
From S2P Require Import Prelude Effects Json Uuid Domain Orm Redis InventoryModels.
From S2P Require Import ApiModels.
From S2P Require Import Platform Kafka Locking InventoryService InventoryServicer.
From S2P Require Import MigrationEnv Workers Processes Configuration.

(** ** Connections *)

(** The connection the settings describe: TLS for SASL_SSL and for nothing
    else. *)
Definition connection_for (k : KafkaSettings) : connection_options :=
  ConnectionOptions (kafka_bootstrap_servers k) (kafka_security_protocol k)
    (kafka_sasl_mechanism k) (kafka_sasl_username k) (kafka_sasl_password k)
    (bool_decide (kafka_security_protocol k = "SASL_SSL")).

(** A producer that never duplicates, a consumer that commits by itself. *)
Definition follows (k : KafkaSettings) (c : client) : Prop :=
  match c with
  | AProducer p =>
      Producer.options p = Producer.ProducerOptions (connection_for k) true "all"
      ∧ Producer._producer p = None
  | AConsumer c =>
      Consumer.connection_of (Consumer.options c) = connection_for k
      ∧ Consumer.enable_auto_commit (Consumer.options c) = false
      ∧ Consumer.auto_offset_reset (Consumer.options c) = "earliest"
  | _ => True
  end.

(** Every Kafka client of every process, the API's, the three API workers', the
    event synchronisation's and the reaper's, is built from the settings of its
    service: broker, protocol, mechanism, credentials, with TLS if and only if the
    protocol is SASL_SSL; producers are idempotent and wait for all replicas,
    consumers commit themselves and start from the earliest message. *)
Lemma clients_follow_settings api inventory :
  Forall (follows (ApiSettings.kafka api)) (lifespan_clients api ++ api_worker_clients api)
  ∧ Forall (follows (InventorySettings.kafka inventory))
      (serve_clients inventory ++ inventory_worker_clients inventory).
Proof. split; repeat constructor. Qed.

(** ** The state of the application *)

(** Before the lifespan has run, a getter has nothing to give; after it, the
    clients it gives are started: publishing goes to the bus. *)
Lemma getters_after_lifespan AIOKafkaProducer st s :
  lifespan_state AIOKafkaProducer st = Ok s →
  get_redis s = Ok (ApiSettings.redis_url st)
  ∧ (∃ c, get_inventory_client s = Ok c ∧ GrpcClient._stub c = true
          ∧ GrpcClient._target c = ApiSettings.inventory_grpc_target st)
  ∧ ∃ p, get_kafka_producer s = Ok p
         ∧ ∀ event_type key m, Producer.publish p event_type key m = Kafka.publish event_type key m.
Proof.
  unfold lifespan_state, Producer.start. destruct (AIOKafkaProducer _) as [[]|e]; [|done].
  intros [= <-]. split_and!; [done|by eexists|]. by eexists.
Qed.

Lemma getters_before_lifespan :
  ¬ is_ok (get_redis new_state) ∧ ¬ is_ok (get_inventory_client new_state)
  ∧ ¬ is_ok (get_kafka_producer new_state).
Proof. by split_and!; intros []. Qed.

(** ** One environment, two services and the migrations *)

(** The two services use one database, one Redis and one way to the brokers. *)
Record share_backends (a : ApiSettings.t) (i : InventorySettings.t) : Prop := {
  share_database : ApiSettings.database_url a = InventorySettings.database_url i;
  share_redis : ApiSettings.redis_url a = InventorySettings.redis_url i;
  share_kafka : ApiSettings.kafka a = InventorySettings.kafka i;
}.

Section environment.
Variables (pydantic : Pydantic) (env dotenv : environ).

Lemma andThen_Ok {A C} (r : result exn A) (k : A → result exn C) c :
  andThen r k = Ok c → ∃ a, r = Ok a ∧ k a = Ok c.
Proof using. destruct r as [a|e]; [by exists a|done]. Qed.

Lemma api_fields a :
  ApiSettings.Settings pydantic env dotenv = Ok a →
  str pydantic env dotenv "DATABASE_URL" default_database_url = Ok (ApiSettings.database_url a)
  ∧ str pydantic env dotenv "REDIS_URL" "redis://localhost:6379/0" = Ok (ApiSettings.redis_url a)
  ∧ kafka_fields pydantic env dotenv = Ok (ApiSettings.kafka a).
Proof using.
  unfold ApiSettings.Settings. intros H.
  repeat (let E := fresh "E" in apply andThen_Ok in H as (? & E & H)).
  injection H as <-. by split_and!.
Qed.

Lemma inventory_fields i :
  InventorySettings.Settings pydantic env dotenv = Ok i →
  str pydantic env dotenv "DATABASE_URL" default_database_url = Ok (InventorySettings.database_url i)
  ∧ str pydantic env dotenv "REDIS_URL" "redis://localhost:6379/0" = Ok (InventorySettings.redis_url i)
  ∧ kafka_fields pydantic env dotenv = Ok (InventorySettings.kafka i).
Proof using.
  unfold InventorySettings.Settings. intros H.
  repeat (let E := fresh "E" in apply andThen_Ok in H as (? & E & H)).
  injection H as <-. by split_and!.
Qed.

End environment.

(** A machine whose [.env] file names a database, and whose environment does
    not; of several variables whose names agree up to case the first wins. *)
Definition plain_pydantic : Pydantic := {|
  env_value env name :=
    snd <$> head (filter (λ kv : string * string, lower kv.1 = lower name) (map_to_list env));
  parse_int _ := None;
  parse_seconds _ := None;
  parse_list _ := None;
|}.

Lemma plain_pydantic_ok : PydanticOk plain_pydantic.
Proof.
  split; simpl; intros env name.
  - intros k s (Hk & Hl & Hu).
    assert (Hin : (k, s) ∈ filter (λ kv : string * string, lower kv.1 = lower name) (map_to_list env))
      by (apply list_elem_of_filter; split; [exact Hl|by apply elem_of_map_to_list]).
    destruct (filter _ _) as [|[k' s'] l] eqn:E; [by apply elem_of_nil in Hin|].
    assert (Hin' : (k', s') ∈ (k', s') :: l) by (apply elem_of_cons; by left).
    rewrite <- E in Hin'. apply list_elem_of_filter in Hin' as [Hl' Hk'%elem_of_map_to_list].
    simpl in *. assert (k' = k) as -> by (apply Hu; [done|by eexists]). congruence.
  - intros Hn. destruct (filter _ _) as [|[k' s'] l] eqn:E; [done|].
    assert (Hin' : (k', s') ∈ (k', s') :: l) by (apply elem_of_cons; by left).
    rewrite <- E in Hin'. apply list_elem_of_filter in Hin' as [Hl' Hk'%elem_of_map_to_list].
    simpl in *. rewrite (Hn k' Hl') in Hk'. done.
Qed.

Definition sample_dotenv : environ :=
  {["DATABASE_URL" := "postgresql+asyncpg://shop:secret@db/shop"]}.

