(* ===== verification/Http.v ===== *)
(** * HTTP boundary of the API service

    The middleware of [services/api/app/core/] ([rate_limit.py], [logging.py]),
    the dependencies of [api/deps.py], the routes of [api/v1/], and the error
    statuses and the middleware stack of [main.py]. *)
From S2P Require Import Prelude Effects Json Uuid Domain Orm Redis InventoryModels.
From S2P Require Import ApiModels.
From S2P Require Import Platform Pagination ApiRepositories Security AuthService.
From S2P Require Import EventService.
From S2P Require Import InventoryService BookingService.

(** ** Responses *)

(** [schemas/]: what a route answers with. *)
Record UserRead : Type := mkUserRead {
  ur_id : uuid; ur_email : string; ur_full_name : string; ur_role : UserRole; ur_is_active : bool;
  ur_created_at : Z;
}.
Record EventRead : Type := mkEventRead {
  er_id : uuid; er_title : string; er_description : option string; er_venue : string;
  er_starts_at : Z; er_total_seats : Z; er_price_cents : Z; er_organizer_id : uuid;
  er_created_at : Z; er_updated_at : Z;
}.
Record OrderRead : Type := mkOrderRead {
  or_id : uuid; or_event_id : uuid; or_quantity : Z; or_unit_price_cents : Z;
  or_total_price_cents : Z; or_status : OrderStatus.t; or_reservation_id : string;
  or_created_at : Z; or_updated_at : Z;
}.

(** [model_validate] of an instance: a null in a required field is refused. *)
Definition user_read (u : User) : result exn UserRead :=
  match user_created_at u with
  | Some c => Ok (mkUserRead (user_id u) (email u) (full_name u) (role u) (is_active u) c)
  | None => Err PydanticError
  end.

Definition event_read (e : Event) : result exn EventRead :=
  match title e, venue e, starts_at e, total_seats e, price_cents e,
        event_created_at e, event_updated_at e with
  | Some t, Some v, Some st, Some n, Some p, Some c, Some u =>
      Ok (mkEventRead (event_id e) t (description e) v st n p (organizer_id e) c u)
  | _, _, _, _, _, _, _ => Err PydanticError
  end.

Definition order_read (o : Order) : result exn OrderRead :=
  match order_created_at o, order_updated_at o with
  | Some c, Some u =>
      Ok (mkOrderRead (order_id o) (order_event_id o) (order_quantity o) (unit_price_cents o)
            (total_price_cents o) (order_status o) (reservation_id o) c u)
  | _, _ => Err PydanticError
  end.

(** The body and the headers the middleware and the handlers set. *)
Inductive body :=
| Nothing
| Detail (text : string)
| PlainText (text : string)
| Tokens (t : TokenResponse)
| AUser (u : UserRead)
| AnEvent (e : EventRead)
| Events (p : Page EventRead)
| AnOrder (o : OrderRead)
| Orders (p : Page OrderRead)
| Status (status : string)
| Health (status : string) (checks : list (string * string)).

Record Response : Type := mkResponse {
  status_code : Z;
  content : body;
  headers : gmap string string;
}.

Definition set_header (k v : string) (r : Response) : Response :=
  mkResponse (status_code r) (content r) (<[k := v]> (headers r)).

(** ** Errors *)

(** The status of the exceptions that have a handler; [None] for the others. *)
Definition _ERROR_STATUS_MAP (e : exn) : option Z :=
  match e with
  | NotFoundError _ => Some 404
  | ValidationError _ => Some 422
  | AuthenticationError _ => Some 401
  | AuthorizationError _ => Some 403
  | CapacityExceededError _ => Some 409
  | ConflictError _ => Some 409
  | _ => None
  end.

(** [_make_handler(code)] *)
Definition _handler (code : Z) (e : exn) : Response := mkResponse code (Detail (exn_message e)) ∅.

(** A route, with the exception handlers around it: an exception without a
    handler goes on to the middleware. *)
Definition respond {A} (status : Z) (render : A → body) (p : M A) : M Response :=
  r <- attempt p ;;
  match r with
  | Ok a => Ret (mkResponse status (render a) ∅)
  | Err e => match _ERROR_STATUS_MAP e with
             | Some code => Ret (_handler code e)
             | None => Raise e
             end
  end.

(** ** Rate limiting *)
Record Request : Type := mkRequest {
  path : string;
  client_host : option string;
  x_request_id : option string;
}.

Definition api_prefix : string := "/api/v1".

Definition _EXEMPT_PATHS : list string :=
  [api_prefix +s "/health"; api_prefix +s "/health/ready"; "/docs"; "/openapi.json"; "/redoc"].

Definition window_of (now : Z) : Z := now / (60 * second).

Definition rate_key (identifier : string) (window : Z) : string :=
  "ratelimit:" +s identifier +s ":" +s pretty window.

Definition identifier_of (request : Request) : string :=
  default "unknown" (client_host request).

Section middleware.
(** [self._limit] *)
Variable limit_per_minute : Z.

Definition too_many : Response :=
  mkResponse 429 (Detail "Rate limit exceeded. Try again shortly.") {["Retry-After" := "60"]}.

(** The count of this request in its window. *)
Definition count_request (key : string) : M Z :=
  current <- call (RedisCmd (Incr key)) ;;
  (if current =? 1 then _ <- call (RedisCmd (Expire key 60)) ;; Ret tt else Ret tt) ;;
  Ret current.

Definition dispatch (request : Request) (call_next : M Response) : M Response :=
  if decide (path request ∈ _EXEMPT_PATHS) then call_next
  else
    now <- datetime_now ;;
    current <- count_request (rate_key (identifier_of request) (window_of now)) ;;
    if limit_per_minute <? current then Ret too_many
    else
      response <- call_next ;;
      Ret (set_header "X-RateLimit-Remaining" (pretty (Z.max 0 (limit_per_minute - current)))
             (set_header "X-RateLimit-Limit" (pretty limit_per_minute) response)).
End middleware.

(** ** Request context

    The identifier of a request, on its response; the default of
    [headers.get] is drawn whether or not the header is there.  The bindings of
    the log's context and the measured duration only reach the log. *)
Module RequestContext.
Definition dispatch (request : Request) (call_next : M Response) : M Response :=
  fresh <- uuid4 ;;
  let request_id := default (uuid_str fresh) (x_request_id request) in
  response <- call_next ;;
  Ret (set_header "X-Request-ID" request_id response).
End RequestContext.

(** ** The application *)
Section application.
(** The headers that Starlette's [CORSMiddleware] adds to the response of a
    request that is not a preflight. *)
Variable cors_headers : Request → gmap string string.
Variable limit_per_minute : Z.

Definition with_headers (hs : gmap string string) (r : Response) : Response :=
  mkResponse (status_code r) (content r) (hs ∪ headers r).

Definition cors (request : Request) (call_next : M Response) : M Response :=
  response <- call_next ;; Ret (with_headers (cors_headers request) response).

(** Starlette's [ServerErrorMiddleware], outside every other. *)
Definition internal_error : Response := mkResponse 500 (PlainText "Internal Server Error") ∅.
Definition server_errors (call_next : M Response) : M Response :=
  try_except call_next (λ _, Ret internal_error).

(** [create_app]: the middleware added last is outermost. *)
Definition app (request : Request) (route : M Response) : M Response :=
  server_errors
    (dispatch limit_per_minute request
       (RequestContext.dispatch request (cors request route))).
End application.

(** ** Dependencies *)
Section dependencies.
Context `{C : Crypto}.
Variable settings : Settings.

Definition get_current_user (s : nat) (token : string) : M User :=
  payload <- decode_token settings token access ;;
  sub <- of_result (dict_item payload "sub") ;;
  id <- of_result (json_uuid sub) ;;
  user <- UserRepository.get s id ;;
  match user with
  | None => Raise (AuthenticationError "User not found or inactive")
  | Some user =>
      if is_active user then Ret user
      else Raise (AuthenticationError "User not found or inactive")
  end.
End dependencies.

Fixpoint join_roles (roles : list UserRole) : string :=
  match roles with
  | [] => ""
  | [r] => UserRole_value r
  | r :: roles => UserRole_value r +s ", " +s join_roles roles
  end.

Definition require_roles (roles : list UserRole) (current_user : User) : M User :=
  if decide (role current_user ∈ roles) then Ret current_user
  else Raise (AuthorizationError ("Requires one of roles: " +s join_roles roles)).

Definition get_pagination (page page_size : Z) : M PaginationParams :=
  of_result (make_pagination page page_size).

(** ** Routes

    Each route resolves its dependencies in the session of the request, calls
    the service, and renders the answer. *)
Section routes.
Context `{C : Crypto} `{Collation}.
Variables (settings : Settings) (inventory : InventoryService).

Definition rendered {A B} (render : A → result exn B) (p : M A) : M B :=
  a <- p ;; of_result (render a).

Definition map_page {A B} (render : A → result exn B) (p : Page A) : result exn (Page B) :=
  match fold_result (λ acc a, match render a with Ok b => Ok (acc ++ [b]) | Err e => Err e end)
          [] (items p) with
  | Ok bs => Ok (mkPage bs (total p) (page_number p) (size p))
  | Err e => Err e
  end.

(** *** health.py *)
Definition liveness : M Response := respond 200 Status (Ret "ok").

(** [try: p; checks[name] = "ok"  except Exception as exc: ...] *)
Definition check (str_exn : exn → string) (name : string) (p : M string) (checks : list (string * string))
    : M (list (string * string) * bool) :=
  r <- attempt p ;;
  Ret match r with
      | Ok text => (checks ++ [(name, text)], true)
      | Err e => (checks ++ [(name, "error: " +s str_exn e)], false)
      end.

(** [inventory.stub] raises until [InventoryClient.start()] has set it. *)
Definition stub (started : bool) : M unit :=
  if started then Ret tt else Raise (RuntimeError "InventoryClient.start() must be called first").

Definition readiness (str_exn : exn → string) (started : bool) : M Response :=
  get_db (λ s,
    database <- check str_exn "database" (_ <- call (ApiDb (Execute s)) ;; Ret "ok") [] ;;
    redis <- check str_exn "redis" (_ <- call (RedisCmd Ping) ;; Ret "ok") database.1 ;;
    grpc <- check str_exn "inventory_grpc" (_ <- stub started ;; Ret "ok") redis.1 ;;
    let healthy := database.2 && redis.2 && grpc.2 in
    Ret (mkResponse (if healthy then 200 else 503)
           (Health (if healthy then "ok" else "unhealthy") grpc.1) ∅)).

(** *** auth.py *)
Definition post_register (address password full_name : string) : M Response :=
  respond 201 AUser (get_db (λ s,
    rendered user_read (AuthService.register s address password full_name))).

Definition post_login (username password : string) : M Response :=
  respond 200 Tokens (get_db (λ s, AuthService.login settings s username password)).

Definition post_refresh (token : string) : M Response :=
  respond 200 Tokens (get_db (λ _, AuthService.refresh settings token)).

Definition post_logout (token : string) : M Response :=
  respond 204 (λ _, Nothing) (get_db (λ _, AuthService.logout settings token)).

(** *** events.py *)
Definition OrganizerUser (s : nat) (token : string) : M User :=
  user <- get_current_user settings s token ;;
  require_roles [ORGANIZER; ADMIN] user.

Definition search_events (page page_size : Z) (q venue : option string) : M Response :=
  respond 200 Events (get_db (λ s,
    pagination <- get_pagination page page_size ;;
    rendered (map_page event_read)
      (EventService.search s (mkEventSearchParams q venue None None) pagination))).

Definition get_event (id : uuid) : M Response :=
  respond 200 AnEvent (get_db (λ s, rendered event_read (EventService.get s id))).

Definition create_event (token : string) (data : EventCreate) : M Response :=
  respond 201 AnEvent (get_db (λ s,
    user <- OrganizerUser s token ;;
    rendered event_read (EventService.create s data user))).

Definition update_event (token : string) (id : uuid) (data : EventUpdate) : M Response :=
  respond 200 AnEvent (get_db (λ s,
    user <- OrganizerUser s token ;;
    rendered event_read (EventService.update s id data user))).

Definition delete_event (token : string) (id : uuid) : M Response :=
  respond 204 (λ _, Nothing) (get_db (λ s,
    user <- OrganizerUser s token ;;
    EventService.delete s id user)).

(** *** orders.py *)
Definition post_order (token : string) (e : uuid) (quantity : Z) (idempotency_key : option string)
    : M Response :=
  respond 201 AnOrder (get_db (λ s,
    user <- get_current_user settings s token ;;
    rendered order_read (BookingService.book_tickets inventory s user e quantity idempotency_key))).

Definition list_orders (token : string) (page page_size : Z) : M Response :=
  respond 200 Orders (get_db (λ s,
    user <- get_current_user settings s token ;;
    pagination <- get_pagination page page_size ;;
    rendered (map_page order_read) (BookingService.list_orders s user pagination))).

Definition get_order (token : string) (id : uuid) : M Response :=
  respond 200 AnOrder (get_db (λ s,
    user <- get_current_user settings s token ;;
    rendered order_read (BookingService.get_order s id user))).

Definition cancel_order (token : string) (id : uuid) : M Response :=
  respond 200 AnOrder (get_db (λ s,
    user <- get_current_user settings s token ;;
    rendered order_read (BookingService.cancel_order s id user))).
End routes.
