(* ===== verification/Routing.v ===== *)
(** * The routes and their paths

    The path operations that [services/api/app/api/v1/] declares, the prefixes
    of their routers and the order in which [router.py] and [main.py] include
    them; and that every one of them is reached by its path, whatever that
    order. *)
From S2P Require Import Prelude Effects Json Uuid Domain Orm Redis InventoryModels.
From S2P Require Import ApiModels.
From S2P Require Import Platform Kafka ApiRepositories Security AuthService.
From S2P Require Import EventService.
From S2P Require Import BookingService Http.

(** ** Declarations *)
Inductive http_method := GET | POST | PATCH | DELETE.

(** A part of a path: itself, or the parameter of type [uuid.UUID]. *)
Inductive segment := Lit (s : string) | Param.

(** The path operations, by function. *)
Inductive endpoint :=
| Eliveness | Ereadiness
| Eregister | Elogin | Erefresh | Elogout
| Esearch_events | Eget_event | Ecreate_event | Eupdate_event | Edelete_event
| Ebook_tickets | Elist_orders | Eget_order | Ecancel_order.

Record api_route : Type := Route {
  rt_method : http_method;
  rt_path : list segment;
  rt_endpoint : endpoint;
}.

#[global] Instance http_method_eq_dec : EqDecision http_method.
Proof. solve_decision. Defined.
#[global] Instance segment_eq_dec : EqDecision segment.
Proof. solve_decision. Defined.
#[global] Instance endpoint_eq_dec : EqDecision endpoint.
Proof. solve_decision. Defined.
#[global] Instance api_route_eq_dec : EqDecision api_route.
Proof. solve_decision. Defined.

(** [APIRouter(prefix=...)] and [include_router(..., prefix=...)] *)
Definition include_router (prefix : list segment) (routes : list api_route) : list api_route :=
  (λ r, Route (rt_method r) (prefix ++ rt_path r) (rt_endpoint r)) <$> routes.

Definition health_router : list api_route :=
  [ Route GET [Lit "health"] Eliveness;
    Route GET [Lit "health"; Lit "ready"] Ereadiness ].

Definition auth_router : list api_route :=
  include_router [Lit "auth"]
    [ Route POST [Lit "register"] Eregister;
      Route POST [Lit "login"] Elogin;
      Route POST [Lit "refresh"] Erefresh;
      Route POST [Lit "logout"] Elogout ].

Definition events_router : list api_route :=
  include_router [Lit "events"]
    [ Route GET [] Esearch_events;
      Route GET [Param] Eget_event;
      Route POST [] Ecreate_event;
      Route PATCH [Param] Eupdate_event;
      Route DELETE [Param] Edelete_event ].

Definition orders_router : list api_route :=
  include_router [Lit "orders"]
    [ Route POST [] Ebook_tickets;
      Route GET [] Elist_orders;
      Route GET [Param] Eget_order;
      Route POST [Param; Lit "cancel"] Ecancel_order ].

(** [router.py] *)
Definition api_router : list api_route :=
  include_router [] health_router ++ include_router [] auth_router
  ++ include_router [] events_router ++ include_router [] orders_router.

(** [path.split("/")] *)
Fixpoint split_path (s : string) : list string :=
  match s with
  | EmptyString => [""]
  | String c s =>
      if (c =? "/")%char then "" :: split_path s
      else match split_path s with h :: t => String c h :: t | [] => [] end
  end.

(** [app.include_router(api_router, prefix=settings.api_prefix)] *)
Definition app_routes : list api_route :=
  include_router (Lit <$> tail (split_path api_prefix)) api_router.

(** ** Matching

    Starlette's documented matching: the parts of a template are those of the
    path, a parameter stands for any part that is not empty; the first route
    of the method that matches takes the request. *)
Fixpoint match_segments (template : list segment) (parts : list string) : option (list string) :=
  match template, parts with
  | [], [] => Some []
  | Lit s :: template, part :: parts =>
      if decide (s = part) then match_segments template parts else None
  | Param :: template, part :: parts =>
      if decide (part = "") then None else (part ::.) <$> match_segments template parts
  | _, _ => None
  end.

Definition match_route (method : http_method) (path : string) (r : api_route) : option (list string) :=
  if decide (rt_method r = method) then
    match split_path path with
    | "" :: parts => match_segments (rt_path r) parts
    | _ => None
    end
  else None.

Fixpoint find_route (method : http_method) (path : string) (routes : list api_route)
    : option (api_route * list string) :=
  match routes with
  | [] => None
  | r :: routes =>
      match match_route method path r with
      | Some params => Some (r, params)
      | None => find_route method path routes
      end
  end.

(** ** The path of a route *)
Definition part_text (id : uuid) (s : segment) : string :=
  match s with Lit t => t | Param => uuid_str id end.

(** The path of [r], its parameter being [id]. *)
Definition path_of (r : api_route) (id : uuid) : string :=
  foldr (λ part rest, "/" +s part +s rest) "" (part_text id <$> rt_path r).

Definition params_of (r : api_route) (id : uuid) : list uuid :=
  omap (λ s, match s with Param => Some id | Lit _ => None end) (rt_path r).

(** ** Every route is reached *)
Definition no_slash (s : string) : Prop := "/"%char ∉ String.list_ascii_of_string s.

Definition join_path (parts : list string) : string :=
  foldr (λ part rest, "/" +s part +s rest) "" parts.

Lemma split_app part s parts :
  no_slash part → split_path s = "" :: parts → split_path (part +s s) = part :: parts.
Proof.
  intros Hp Hs. induction part as [|c part IH]; [exact Hs|]. unfold no_slash in Hp.
  cbn [String.list_ascii_of_string] in Hp. apply not_elem_of_cons in Hp as [Hc Hp].
  change (split_path (String c (part +s s)) = String c part :: parts). cbn [split_path].
  destruct (Ascii.eqb_spec c "/"%char) as [->|_]; [done|]. by rewrite IH.
Qed.

Lemma split_join parts : Forall no_slash parts → split_path (join_path parts) = "" :: parts.
Proof.
  induction 1 as [|part parts Hp _ IH]; [done|].
  change (split_path (String "/" (part +s join_path parts)) = "" :: part :: parts).
  cbn [split_path Ascii.eqb]. f_equal. by apply split_app.
Qed.

Lemma uuid_str_no_slash id : no_slash (uuid_str id).
Proof.
  unfold no_slash, uuid_str. rewrite String.list_ascii_of_string_of_list_ascii.
  apply uuid_char_not_in; [done..|]. apply dashed_chars, to_hex_is_hex.
Qed.

Lemma uuid_str_nonempty id : uuid_str id ≠ "".
Proof. intros H. pose proof (uuid_parse_str id) as Hp. rewrite H in Hp. discriminate Hp. Qed.

(** Two templates that some path may both match. *)
Fixpoint may_match (template other : list segment) : bool :=
  match template, other with
  | [], [] => true
  | Lit s :: template, Lit s' :: other => bool_decide (s = s') && may_match template other
  | Param :: template, Lit s' :: other => bool_decide (s' ≠ "") && may_match template other
  | _ :: template, Param :: other => may_match template other
  | _, _ => false
  end.

Lemma match_may template other id params :
  match_segments template (part_text id <$> other) = Some params → may_match template other = true.
Proof.
  revert other params. induction template as [|[s|] template IH]; intros [|[s'|] other] params; simpl; try done.
  - case_decide; [|done]. subst. rewrite bool_decide_eq_true_2 by done. apply IH.
  - case_decide; [|done]. apply IH.
  - case_decide; [done|]. rewrite bool_decide_eq_true_2 by done.
    destruct (match_segments template _) eqn:Hm; [|done]. intros _. by eapply IH.
  - destruct (match_segments template _) eqn:Hm; [|done]. intros _. by eapply IH.
Qed.

Lemma match_self template id :
  match_segments template (part_text id <$> template)
  = Some (uuid_str <$> omap (λ s, match s with Param => Some id | Lit _ => None end) template).
Proof.
  induction template as [|[s|] template IH]; csimpl; [done|..].
  - by rewrite decide_True.
  - by rewrite IH.
Qed.

(** The tables as they are: no two routes of a method may match one path, and
    no literal part has a slash. *)
Lemma routes_distinct r r' :
  r ∈ app_routes → r' ∈ app_routes → rt_method r = rt_method r' →
  may_match (rt_path r) (rt_path r') = true → r = r'.
Proof.
  intros Hr Hr' Hm Hp.
  assert (Hall : forallb (λ r, forallb (λ r', bool_decide (rt_method r ≠ rt_method r')
      || negb (may_match (rt_path r) (rt_path r')) || bool_decide (r = r')) app_routes) app_routes = true)
    by by vm_compute.
  rewrite forallb_forall in Hall. specialize (Hall r (proj1 (list_elem_of_In _ _) Hr)).
  rewrite forallb_forall in Hall. specialize (Hall r' (proj1 (list_elem_of_In _ _) Hr')).
  rewrite Hp in Hall. apply orb_true_iff in Hall as [Hall|Hall]; [|by apply bool_decide_eq_true in Hall].
  rewrite orb_false_r in Hall. by apply bool_decide_eq_true in Hall.
Qed.

Lemma route_parts_no_slash r id : r ∈ app_routes → Forall no_slash (part_text id <$> rt_path r).
Proof.
  intros Hr. apply Forall_fmap, Forall_forall. intros [s|] Hs; [|apply uuid_str_no_slash].
  assert (Hall : forallb (λ r, forallb (λ s, match s with
      | Lit t => bool_decide (no_slash t) | Param => true end) (rt_path r)) app_routes = true) by by vm_compute.
  rewrite forallb_forall in Hall. specialize (Hall r (proj1 (list_elem_of_In _ _) Hr)).
  rewrite forallb_forall in Hall. specialize (Hall _ (proj1 (list_elem_of_In _ _) Hs)).
  by apply bool_decide_eq_true in Hall.
Qed.

Lemma match_own r r' id :
  r ∈ app_routes → match_route (rt_method r) (path_of r id) r'
  = if decide (rt_method r' = rt_method r)
    then match_segments (rt_path r') (part_text id <$> rt_path r) else None.
Proof.
  intros Hr. unfold match_route, path_of. fold (join_path (part_text id <$> rt_path r)).
  by rewrite split_join by by apply route_parts_no_slash.
Qed.

Lemma find_only routes method path r params :
  r ∈ routes → match_route method path r = Some params →
  (∀ r', r' ∈ routes → match_route method path r' ≠ None → r' = r) →
  find_route method path routes = Some (r, params).
Proof.
  intros Hr Hm Hall. induction routes as [|r' routes IH]; [by apply elem_of_nil in Hr|]. simpl.
  destruct (match_route method path r') as [ps|] eqn:Hr'.
  - assert (r' = r) as -> by (apply Hall; [by left | congruence]). congruence.
  - apply elem_of_cons in Hr as [->|Hr]; [congruence|]. apply IH; [done|]. intros r2 H2. apply Hall. by right.
Qed.

(** The probes, which the rate limiter lets through uncounted. *)
Definition is_probe (e : endpoint) : bool :=
  match e with Eliveness | Ereadiness => true | _ => false end.

Lemma exempt_probe r id : r ∈ app_routes → path_of r id ∈ _EXEMPT_PATHS → is_probe (rt_endpoint r) = true.
Proof.
  intros Hr Hp.
  assert (Hall : forallb (λ r, forallb (λ p, is_probe (rt_endpoint r)
      || bool_decide (match_route (rt_method r) p r = None)) _EXEMPT_PATHS) app_routes = true) by by vm_compute.
  rewrite forallb_forall in Hall. specialize (Hall r (proj1 (list_elem_of_In _ _) Hr)).
  rewrite forallb_forall in Hall. specialize (Hall _ (proj1 (list_elem_of_In _ _) Hp)).
  apply orb_true_iff in Hall as [Hall|Hall]; [done|]. apply bool_decide_eq_true in Hall.
  rewrite match_own, decide_True, match_self in Hall by done. done.
Qed.

Lemma probe_exempt r id : r ∈ app_routes → is_probe (rt_endpoint r) = true → path_of r id ∈ _EXEMPT_PATHS.
Proof.
  intros Hr Hp.
  assert (Hall : forallb (λ r, negb (is_probe (rt_endpoint r))
      || bool_decide (Param ∉ rt_path r) && bool_decide (path_of r (uuid_of_N 0) ∈ _EXEMPT_PATHS)) app_routes = true)
    by by vm_compute.
  rewrite forallb_forall in Hall. specialize (Hall r (proj1 (list_elem_of_In _ _) Hr)).
  rewrite Hp in Hall. apply andb_true_iff in Hall as [Hno Hin].
  apply bool_decide_eq_true in Hno, Hin. enough (path_of r id = path_of r (uuid_of_N 0)) as -> by done.
  unfold path_of. f_equal. clear Hin Hp Hr. revert Hno.
  induction (rt_path r) as [|[s|] l IH]; intros Hno; [done|..]; csimpl; [|by apply not_elem_of_cons in Hno as []].
  f_equal. apply IH. by apply not_elem_of_cons in Hno as [].
Qed.

(** C20. Every path operation is reached by its own path and by no other's: a
    request whose method and path are those of a declared route, with the text
    of a UUID for its parameter, goes to that route, which reads the UUID back;
    no other route of the method matches, so the order in which the routers
    are included does not matter; and the rate limiter exempts exactly the
    paths of the probes. *)
Theorem routes_reached r id :
  r ∈ app_routes →
  (∃ params, find_route (rt_method r) (path_of r id) app_routes = Some (r, params)
     ∧ UUID <$> params = Ok <$> params_of r id)
  ∧ (∀ r', r' ∈ app_routes → match_route (rt_method r) (path_of r id) r' ≠ None → r' = r)
  ∧ (path_of r id ∈ _EXEMPT_PATHS ↔ is_probe (rt_endpoint r) = true).
Proof.
  intros Hr.
  assert (Honly : ∀ r', r' ∈ app_routes → match_route (rt_method r) (path_of r id) r' ≠ None → r' = r).
  { intros r' Hr' Hm. rewrite match_own in Hm by done. case_decide as Hmeth; [|done].
    destruct (match_segments _ _) as [ps|] eqn:Hps; [|done].
    by apply routes_distinct; [..|eapply match_may]. }
  split_and!; [|exact Honly|split; [by apply exempt_probe | by apply probe_exempt]].
  exists (uuid_str <$> params_of r id). split.
  - apply find_only; [done| |exact Honly]. rewrite match_own, decide_True by done. apply match_self.
  - rewrite <- list_fmap_compose. apply list_fmap_ext. intros i u _. apply UUID_str.
Qed.

Definition cancel_route : api_route :=
  Route POST [Lit "api"; Lit "v1"; Lit "orders"; Param; Lit "cancel"] Ecancel_order.

Lemma routes_reached_witness :
  ∃ params,
    find_route POST (api_prefix +s "/orders/" +s uuid_str (uuid_of_N 7) +s "/cancel") app_routes
    = Some (cancel_route, params) ∧ UUID <$> params = [Ok (uuid_of_N 7)].
Proof.
  destruct (routes_reached cancel_route (uuid_of_N 7)) as ((params & Hf & Hp) & _).
  - apply (bool_decide_unpack (cancel_route ∈ app_routes)). vm_compute. exact I.
  - exists params. split; [exact Hf | exact Hp].
Defined.
