(* ===== verification/ApiRuns.v ===== *)
(** * Running the API's repositories

    The tables of the API as constraints keep them, what a query for one row
    finds, and what each repository call does in a request's session. *)
From S2P Require Import Prelude Effects Uuid Domain Orm OrmFacts Redis InventoryModels.
From S2P Require Import ApiModels.
From S2P Require Import Platform SessionRuns ApiRepositories.

(** The API's tables. *)
Abbreviation rows := (gmap api_key api_row).
Abbreviation api_session := (session api_key api_row).

(** ** Well-formed tables: what the constraints of the schema guarantee *)
Record well_formed (t : rows) : Prop := {
  wf_key k r : t !! k = Some r → api_key_of r = k;
  wf_check k r : t !! k = Some r → api_check_row r = None;
  wf_unique k k' r r' : t !! k = Some r → t !! k' = Some r' → k ≠ k' → api_conflicts r r' = false;
  wf_refs k r k' : t !! k = Some r → k' ∈ api_references r → is_Some (t !! k');
}.

Lemma empty_well_formed : well_formed ∅.
Proof. split; intros *; by rewrite lookup_empty. Qed.

Lemma conflicts_sym r r' : api_conflicts r r' = api_conflicts r' r.
Proof.
  destruct r as [u|e|o], r' as [u'|e'|o']; simpl; try done.
  - by apply bool_decide_ext.
  - destruct (idempotency_key o), (idempotency_key o'); try done.
    f_equal; by apply bool_decide_ext.
Qed.

(** Rows that constraints accept keep the tables well formed. *)
Lemma insert_well_formed t new :
  well_formed t → insert_error t new = None → well_formed (<[api_key_of new := new]> t).
Proof.
  intros Hw Hi. apply insert_error_None in Hi as (Hck & Hn & Hconf & Href). split.
  - intros k r. rewrite lookup_insert_Some. intros [[<- <-]|[_ Hk]]; [done|]. by eapply wf_key.
  - intros k r. rewrite lookup_insert_Some. intros [[_ <-]|[_ Hk]]; [done|]. by eapply wf_check.
  - intros k k' r r' Hk Hk' Hne.
    apply lookup_insert_Some in Hk as [[<- <-]|[_ Hk]], Hk' as [[<- <-]|[_ Hk']]; try done.
    + by apply (Hconf k').
    + rewrite conflicts_sym. by apply (Hconf k).
    + by eapply wf_unique.
  - intros k r k' Hk Hin. rewrite lookup_insert. case_decide; [by eexists|].
    apply lookup_insert_Some in Hk as [[_ <-]|[_ Hk]]; [|by eapply wf_refs].
    by apply (proj1 (Forall_forall _ _) Href).
Qed.

(** So does an update that leaves the unique and the referring columns alone. *)
Lemma update_well_formed t k r new :
  well_formed t → t !! k = Some r → api_key_of new = k → api_check_row new = None →
  (∀ r', api_conflicts new r' = api_conflicts r r') → api_references new = api_references r →
  well_formed (<[k := new]> t).
Proof.
  intros Hw Hr Hkey Hck Hconf Href. split.
  - intros k' r'. rewrite lookup_insert_Some. intros [[<- <-]|[_ Hk]]; [done|]. by eapply wf_key.
  - intros k' r'. rewrite lookup_insert_Some. intros [[_ <-]|[_ Hk]]; [done|]. by eapply wf_check.
  - intros k1 k2 r1 r2 H1 H2 Hne.
    apply lookup_insert_Some in H1 as [[<- <-]|[_ H1]], H2 as [[<- <-]|[_ H2]]; try done.
    + rewrite Hconf. by eapply wf_unique.
    + rewrite conflicts_sym, Hconf. by eapply wf_unique.
    + by eapply wf_unique.
  - intros k1 r1 k2 H1 Hin. rewrite lookup_insert. case_decide; [by eexists|].
    apply lookup_insert_Some in H1 as [[_ <-]|[_ H1]]; [|by eapply wf_refs].
    rewrite Href in Hin. by eapply wf_refs.
Qed.

Lemma delete_well_formed t k :
  well_formed t → map_Forall (λ _ r', k ∉ api_references r') t → well_formed (delete k t).
Proof.
  intros Hw Hfree. split.
  - intros k' r'. rewrite lookup_delete_Some. intros [_ Hk]. by eapply wf_key.
  - intros k' r'. rewrite lookup_delete_Some. intros [_ Hk]. by eapply wf_check.
  - intros k1 k2 r1 r2. rewrite !lookup_delete_Some. intros [_ H1] [_ H2]. by eapply wf_unique.
  - intros k1 r1 k2 H1 Hin. apply lookup_delete_Some in H1 as [_ H1].
    rewrite lookup_delete_ne; [by eapply wf_refs|]. intros <-. by apply (Hfree k1 r1).
Qed.

(** ** Queries for one row *)
Definition find_row (p : api_row → bool) (t : rows) : option api_row :=
  head (filter (λ r, p r = true) (map_to_list t).*2).

Definition unique_row (p : api_row → bool) (t : rows) : Prop :=
  ∀ k k' r r', t !! k = Some r → t !! k' = Some r' → p r = true → p r' = true → k = k'.

Lemma filter_unique p t :
  unique_row p t → ∃ l, filter (λ r, p r = true) (map_to_list t).*2 = l ∧ (length l ≤ 1)%nat.
Proof.
  intros Hu. eexists. split; [done|].
  set (kvs := map_to_list t). assert (Hnd : NoDup kvs.*1) by apply NoDup_fst_map_to_list.
  assert (Hin : ∀ x, x ∈ kvs → t !! x.1 = Some x.2)
    by (intros [k r]; unfold kvs; by rewrite elem_of_map_to_list).
  clearbody kvs. induction kvs as [|[k r] kvs IH]; [simpl; lia|].
  inversion Hnd as [|? ? Hk Hnd']; subst. rewrite fmap_cons, filter_cons. simpl.
  case_decide as Hp.
  - destruct (filter (λ r, p r = true) kvs.*2) as [|r' l] eqn:Hf; simpl; [lia|].
    assert (Hr' : r' ∈ filter (λ r, p r = true) kvs.*2) by (rewrite Hf; left).
    apply list_elem_of_filter in Hr' as [Hp' Hr'].
    apply list_elem_of_fmap in Hr' as ([k' r2] & -> & Hin'). destruct Hk. replace k with k'; [by apply (list_elem_of_fmap_2 fst _ (k', r2))|].
    symmetry. apply (Hu k k' r r2); [apply (Hin (k, r)); left | apply (Hin (k', r2)); by right | done..].
  - apply IH; [done|]. intros x Hx. apply Hin. by right.
Qed.

Lemma find_row_spec p t :
  unique_row p t →
  ∀ r, find_row p t = Some r ↔ ∃ k, t !! k = Some r ∧ p r = true.
Proof.
  intros Hu r. destruct (filter_unique p t Hu) as (l & Hl & Hlen).
  assert (Helem : ∀ x, x ∈ l ↔ ∃ k, t !! k = Some x ∧ p x = true).
  { intros x. rewrite <- Hl, list_elem_of_filter, list_elem_of_fmap. split.
    - intros (Hp & [k x'] & -> & Hx). apply elem_of_map_to_list in Hx. eauto.
    - intros (k & Hk & Hp). split; [done|]. exists (k, x). by rewrite elem_of_map_to_list. }
  rewrite <- Helem. unfold find_row. rewrite Hl.
  destruct l as [|x [|y l]]; simpl in *; [| |lia].
  - split; [done | by intros ?%not_elem_of_nil].
  - rewrite list_elem_of_singleton. split; congruence.
Qed.

Section queries.
Context (o : oracle) `{Ook : !OracleOk o}.

Lemma query_unique p t n :
  unique_row p t →
  run_query (api_scan o) n t (Query p None None 0) = option_list (find_row p t).
Proof using Ook.
  intros Hu. unfold run_query. simpl. rewrite drop_0. unfold find_row.
  assert (Hperm : filter (λ r, p r = true) (api_scan o n t) ≡ₚ
                  filter (λ r, p r = true) (map_to_list t).*2) by (by rewrite api_scan_perm).
  destruct (filter_unique p t Hu) as (l & Hl & Hlen). rewrite Hl in *.
  destruct l as [|x [|y l]]; simpl in *; [by apply Permutation_nil_r | | lia].
  by apply Permutation_singleton_r.
Qed.

Lemma query_elem p ord lim off t n r :
  r ∈ run_query (api_scan o) n t (Query p ord lim off) →
  p r = true ∧ ∃ k, t !! k = Some r.
Proof using Ook.
  unfold run_query. cbn [q_where q_order q_limit q_offset]. intros Hin.
  assert (Hin' : r ∈ filter (λ r, p r = true) (api_scan o n t)).
  { assert (Hd : r ∈ drop off (match ord with
        | Some f => merge_sort (sorted_by f) (filter (λ r, p r = true) (api_scan o n t))
        | None => filter (λ r, p r = true) (api_scan o n t) end)).
    { destruct lim; [|done]. apply elem_of_take in Hin as (j & Hj & _).
      by eapply list_elem_of_lookup_2. }
    apply list_elem_of_lookup in Hd as [j Hj]. rewrite lookup_drop in Hj.
    apply list_elem_of_lookup_2 in Hj. destruct ord; [|done]. by rewrite merge_sort_Permutation in Hj. }
  apply list_elem_of_filter in Hin' as [Hp Hin']. split; [done|].
  rewrite api_scan_perm in Hin'. apply list_elem_of_fmap in Hin' as ([k x] & -> & Hx).
  apply elem_of_map_to_list in Hx. by exists k.
Qed.
End queries.

(** ** Session calls *)

Lemma api_merge_same (r : api_row) : merge_columns r r r = r.
Proof.
  destruct r as [u|e|x]; simpl; f_equal;
    [destruct u | destruct e | destruct x]; unfold merge_user, merge_event, merge_order;
    simpl; by rewrite !col_loaded.
Qed.

(** A world in which session [s] of the API's database is the only one open. *)
Definition in_session (t : rows) (s : nat) (ss : api_session) (n q : nat) (w : world) : world :=
  set_api_db (Database t {[s := ss]} n q) w.

(** A world in which no such session is open. *)
Definition api_idle (t : rows) (n q : nat) (w : world) : world := set_api_db (Database t ∅ n q) w.

(** The session [ss'] shows the rows that [ss] shows, and has loaded them. *)
Record extends (t : rows) (ss ss' : api_session) : Prop := {
  ext_coherent : coherent t ss';
  ext_visible : visible t ss' = visible t ss;
  ext_objs : objs ss ⊆ objs ss';
}.

Lemma visible_empty (t : rows) : visible t empty_session = t.
Proof. apply apply_overlay_empty. Qed.

Lemma extends_refl t ss : coherent t ss → extends t ss ss.
Proof. by split. Qed.

Lemma extends_trans t ss1 ss2 ss3 : extends t ss1 ss2 → extends t ss2 ss3 → extends t ss1 ss3.
Proof.
  intros [? Hv1 Ho1] [? Hv2 Ho2]. split; [done | congruence | by etrans].
Qed.

(** The instance of a row is in the session. *)
Definition loaded (ss : api_session) (r : api_row) : Prop := objs ss !! api_key_of r = Some (r, r).

Lemma extends_loaded t ss ss' r : extends t ss ss' → loaded ss r → loaded ss' r.
Proof. intros [_ _ Ho] Hl. by eapply lookup_weaken. Qed.

Lemma loaded_visible t ss r : coherent t ss → loaded ss r → visible t ss !! api_key_of r = Some r.
Proof. intros Hc Hl. by apply (coh_objs _ _ Hc) in Hl as [_ ?]. Qed.

Section calls.
Context (o : oracle) `{Ook : !OracleOk o}.
Implicit Types (t : rows) (ss : api_session) (w : world).

Lemma run_api_open t n q w :
  run (X := exn) (sys_exec o) (trigger (ApiDb OpenSession)) (api_idle t n q w)
  = Some (Ok n, in_session t n empty_session (S n) q w).
Proof using. exact (run_open (o := o) t n q w). Qed.

Lemma run_api_close t s ss n q w :
  run (X := exn) (sys_exec o) (trigger (ApiDb (CloseSession s))) (in_session t s ss n q w)
  = Some (Ok tt, api_idle t n q w).
Proof using. exact (run_close (o := o) t s ss n q w). Qed.

Lemma run_api_rollback t s ss n q w :
  run (sys_exec o) (api_rollback s) (in_session t s ss n q w)
  = Some (Ok tt, in_session t s empty_session n q w).
Proof using. exact (run_rollback (o := o) t s ss n q w). Qed.

Lemma run_api_get t s ss n q w k :
  coherent t ss → well_formed (visible t ss) →
  ∃ ss', run (sys_exec o) (api_get s k) (in_session t s ss n q w)
         = Some (Ok (visible t ss !! k), in_session t s ss' n q w)
    ∧ extends t ss ss' ∧ (∀ r, visible t ss !! k = Some r → loaded ss' r).
Proof using.
  intros Hc Hw. destruct (run_get (o := o) t s ss n q w k Hc) as (ss' & Hrun & ? & ? & ? & Hl).
  exists ss'. split; [exact Hrun|]. split; [by split|]. intros r Hr. unfold loaded.
  rewrite (wf_key _ Hw _ _ Hr). by apply Hl.
Qed.

Lemma run_api_select t s ss n q w qy :
  coherent t ss → well_formed (visible t ss) →
  ∃ ss', run (sys_exec o) (api_select s qy) (in_session t s ss n q w)
         = Some (Ok (run_query (api_scan o) q (visible t ss) qy), in_session t s ss' n (S q) w)
    ∧ extends t ss ss' ∧ Forall (loaded ss') (run_query (api_scan o) q (visible t ss) qy).
Proof using Ook.
  intros Hc Hw. pose proof (run_select (o := o) t s ss n q w qy Hc) as Hsel.
  destruct Hsel as (ss' & Hrun & ? & ? & ? & Hl).
  { apply Forall_forall. intros r Hr. destruct qy as [p ord lim off].
    apply query_elem in Hr as (_ & k & Hk); [|done].
    change (key_of r) with (api_key_of r). by rewrite (wf_key _ Hw _ _ Hk). }
  exists ss'. split; [exact Hrun|]. split; [by split | exact Hl].
Qed.

Lemma run_api_select_one t s ss n q w p :
  coherent t ss → well_formed (visible t ss) → unique_row p (visible t ss) →
  ∃ ss', run (sys_exec o) (api_select s (Query p None None 0)) (in_session t s ss n q w)
         = Some (Ok (option_list (find_row p (visible t ss))), in_session t s ss' n (S q) w)
    ∧ extends t ss ss' ∧ (∀ r, find_row p (visible t ss) = Some r → loaded ss' r).
Proof using Ook.
  intros Hc Hw Hu.
  destruct (run_api_select t s ss n q w (Query p None None 0) Hc Hw) as (ss' & Hrun & He & Hl).
  rewrite (query_unique o p _ q Hu) in Hrun, Hl. exists ss'. split; [done|]. split; [done|].
  intros r Hr. rewrite Hr in Hl. simpl in Hl. by inversion Hl.
Qed.

Lemma run_api_count t s ss n q w p :
  run (sys_exec o) (api_count s p) (in_session t s ss n q w)
  = Some (Ok (Z.of_nat (length (filter (λ r, p r = true) (map_to_list (visible t ss)).*2))),
          in_session t s ss n (S q) w).
Proof using Ook.
  etrans; [exact (run_count (o := o) t s ss n q w p)|]. do 3 f_equal.
  change (db_scan q (visible t ss)) with (api_scan o q (visible t ss)).
  by rewrite (api_scan_perm (o := o) q (visible t ss)).
Qed.

Lemma run_api_write t s ss n q w k f l c :
  objs ss !! k = Some (l, c) →
  run (sys_exec o) (api_write s k f) (in_session t s ss n q w)
  = Some (Ok tt, in_session t s (with_objs ss (<[k := (l, f c)]> (objs ss))) n q w).
Proof using. exact (run_write (o := o) t s ss n q w k f l c). Qed.

Lemma run_api_attrs t s ss n q w k l c :
  objs ss !! k = Some (l, c) →
  run (X := exn) (sys_exec o) (trigger (ApiDb (Attrs s k))) (in_session t s ss n q w)
  = Some (Ok (Some c), in_session t s ss n q w).
Proof using. exact (run_attrs (o := o) t s ss n q w k l c). Qed.

Lemma run_api_instance t s ss n q w k l c :
  objs ss !! k = Some (l, c) →
  run (sys_exec o) (api_instance s k) (in_session t s ss n q w)
  = Some (Ok c, in_session t s ss n q w).
Proof using. intros Hk. unfold api_instance. rewrite run_bind. by erewrite run_api_attrs by done. Qed.

(** The row an [INSERT] at [now] writes for an instance. *)
Definition inserted_row (now : Z) (x : api_row) : api_row := api_stamp (λ _, Some now) now x.

(** The row an [UPDATE] at [now] writes for an instance. *)
Definition updated_row (now : Z) (x : api_row) : api_row := api_stamp id now x.

Lemma inserted_key now x : api_key_of (inserted_row now x) = api_key_of x.
Proof using. by destruct x. Qed.

(** A session after it has flushed a new row. *)
Definition with_new ss (r : api_row) : api_session :=
  Session (<[api_key_of r := (r, r)]> (objs ss)) [] [] (<[api_key_of r := Some r]> (overlay ss)).

Lemma with_new_coherent t ss r :
  coherent t ss → coherent t (with_new ss r)
  ∧ visible t (with_new ss r) = <[api_key_of r := r]> (visible t ss) ∧ loaded (with_new ss r) r.
Proof using.
  intros Hc. destruct (insert_coherent t ss (api_key_of r) r Hc) as [? ?].
  split_and!; [done..|]. apply lookup_insert_eq.
Qed.

(** [session.add(x)], [session.flush()], and the attributes of [x] afterwards. *)
Lemma run_api_insert {A} t s ss n q w x (k : M A) :
  coherent t ss →
  let new := inserted_row (clock w) x in
  run (sys_exec o) (api_add s x ;; api_flush s ;; k) (in_session t s ss n q w)
  = match insert_error (visible t ss) new with
    | Some e => Some (Err e, in_session t s empty_session n q w)
    | None => run (sys_exec o) k (in_session t s (with_new ss new) n q w)
    end.
Proof using.
  intros Hc new. unfold api_add, api_flush.
  pose proof (run_add (o := o) t s ss n q w x) as Hadd.
  pose proof (flush_insert t s ss x n q (clock w) Hc) as Hfl.
  specialize (Hfl (inserted_key _ x)).
  pose proof (run_flush (o := o) _ _ _ _ _ w _ Hfl) as Hrun.
  rewrite run_bind. etrans; [apply (f_equal (λ r, match r with
    | Some (Ok _, s') => _ | Some (Err e, s') => _ | None => _ end) Hadd)|].
  cbv beta iota. rewrite run_bind.
  etrans; [apply (f_equal (λ r, match r with
    | Some (Ok _, s') => _ | Some (Err e, s') => _ | None => _ end) Hrun)|].
  change (stamp_insert (clock w) (initial_version x)) with new.
  destruct (insert_error (visible t ss) new); [done|]. cbv beta iota.
  unfold with_new, new. by rewrite inserted_key.
Qed.

(** A session after it has flushed a deletion. *)
Definition without ss (k : api_key) : api_session :=
  Session (delete k (objs ss)) [] [] (<[k := None]> (overlay ss)).

(** [session.delete(x)], [session.flush()]. *)
Lemma run_api_remove {A} t s ss n q w key (k : M A) :
  coherent t ss →
  run (sys_exec o) (api_delete s key ;; api_flush s ;; k) (in_session t s ss n q w)
  = if bool_decide (map_Forall (λ _ r', key ∉ api_references r') (visible t ss))
    then run (sys_exec o) k (in_session t s (without ss key) n q w)
    else Some (Err IntegrityError, in_session t s empty_session n q w).
Proof using.
  intros Hc. unfold api_delete, api_flush.
  pose proof (run_delete (o := o) t s ss n q w key) as Hdel.
  pose proof (run_flush (o := o) _ _ _ _ _ w _ (flush_delete t s ss key n q (clock w) Hc)) as Hrun.
  rewrite run_bind. etrans; [apply (f_equal (λ r, match r with
    | Some (Ok _, s') => _ | Some (Err e, s') => _ | None => _ end) Hdel)|].
  cbv beta iota. rewrite run_bind.
  etrans; [apply (f_equal (λ r, match r with
    | Some (Ok _, s') => _ | Some (Err e, s') => _ | None => _ end) Hrun)|].
  case_bool_decide as H1; case_bool_decide as H2; try done; by destruct H1 || by destruct H2.
Qed.

Lemma run_api_commit t s ss n q w :
  coherent t ss →
  ∃ ss', run (sys_exec o) (api_commit s) (in_session t s ss n q w)
         = Some (Ok tt, in_session (visible t ss) s ss' n q w)
    ∧ coherent (visible t ss) ss' ∧ visible (visible t ss) ss' = visible t ss
    ∧ objs ss' = objs ss.
Proof using. exact (run_commit (o := o) t s ss n q w). Qed.

(** What committing the change of an instance from [r] to [c] writes, and the
    constraint that refuses it; an unchanged instance is not written. *)
Definition changed_row (now : Z) (r c : api_row) : api_row :=
  if decide (r = c) then r else updated_row now c.
Definition change_error (now : Z) (r c : api_row) : option exn :=
  if decide (r = c) then None else api_check_row (updated_row now c).

(** Attribute writes on a loaded instance, then [session.commit()]. *)
Lemma run_api_change {A} t s ss n q w r f (k : M A) :
  coherent t ss → loaded ss r → api_merge r (f r) r = f r →
  let key := api_key_of r in
  let new := changed_row (clock w) r (f r) in
  match change_error (clock w) r (f r) with
  | Some e => run (sys_exec o) (api_write s key f ;; api_commit s ;; k) (in_session t s ss n q w)
              = Some (Err e, in_session t s empty_session n q w)
  | None =>
      ∃ ss', run (sys_exec o) (api_write s key f ;; api_commit s ;; k) (in_session t s ss n q w)
             = run (sys_exec o) k (in_session (<[key := new]> (visible t ss)) s ss' n q w)
        ∧ coherent (<[key := new]> (visible t ss)) ss'
        ∧ visible (<[key := new]> (visible t ss)) ss' = <[key := new]> (visible t ss)
        ∧ objs ss' !! key = Some (new, new)
        ∧ (∀ k' x, k' ≠ key → objs ss !! k' = Some x → objs ss' !! k' = Some x)
  end.
Proof using.
  intros Hc Hl Hm key new.
  pose proof (run_commit_one (o := o) api_merge_same t s ss key r (f r) n q w Hc Hl Hm) as Hone.
  cbv zeta in Hone.
  assert (Hw : ∀ k' : M A,
    run (sys_exec o) (api_write s key f ;; api_commit s ;; k') (in_session t s ss n q w)
    = run (sys_exec o) (api_commit s ;; k')
        (in_session t s (with_objs ss (<[key := (r, f r)]> (objs ss))) n q w)).
  { intros k'. rewrite run_bind. erewrite run_api_write by done. done. }
  unfold change_error. unfold new, changed_row. destruct (decide (r = f r)) as [Heq|Hne].
  - destruct Hone as (ss' & Hrun & Hrest). exists ss'. split; [|exact Hrest].
    rewrite Hw, run_bind. unfold api_commit.
    etrans; [apply (f_equal (λ r, match r with
      | Some (Ok _, s') => _ | Some (Err e, s') => _ | None => _ end) Hrun)|]. done.
  - change (@check_row _ _ _ _ _ _) with api_check_row in Hone.
    change (new_row (clock w) (f r)) with (updated_row (clock w) (f r)) in Hone.
    destruct (api_check_row (updated_row (clock w) (f r))) as [e|].
    + rewrite Hw, run_bind. unfold api_commit.
      etrans; [apply (f_equal (λ r, match r with
        | Some (Ok _, s') => _ | Some (Err e, s') => _ | None => _ end) Hone)|]. done.
    + destruct Hone as (ss' & Hrun & Hrest). exists ss'. split; [|exact Hrest].
      rewrite Hw, run_bind. unfold api_commit.
      etrans; [apply (f_equal (λ r, match r with
        | Some (Ok _, s') => _ | Some (Err e, s') => _ | None => _ end) Hrun)|]. done.
Qed.

(** ** Sessions *)

(** The request's session is closed whatever the endpoint does. *)
Lemma get_db_run {A} (endpoint : nat → M A) t n q w r t' ss' n' q' w' :
  run (sys_exec o) (endpoint n) (in_session t n empty_session (S n) q w)
  = Some (r, in_session t' n ss' n' q' w') →
  run (sys_exec o) (get_db endpoint) (api_idle t n q w) = Some (r, api_idle t' n' q' w').
Proof using.
  intros Hrun. unfold get_db. rewrite run_bind, run_api_open, run_try_finally, run_try_except, Hrun.
  destruct r as [a|e]; [by rewrite run_api_close|].
  by rewrite run_bind, run_api_rollback; cbn [run]; rewrite run_api_close.
Qed.

Lemma SessionFactory_run {A} (body : nat → M A) t n q w r t' ss' n' q' w' :
  run (sys_exec o) (body n) (in_session t n empty_session (S n) q w)
  = Some (r, in_session t' n ss' n' q' w') →
  run (sys_exec o) (SessionFactory body) (api_idle t n q w) = Some (r, api_idle t' n' q' w').
Proof using.
  intros Hrun. unfold SessionFactory. rewrite run_bind, run_api_open, run_try_finally, Hrun.
  by rewrite run_api_close.
Qed.
End calls.

(** ** Rows by identifier and by unique columns *)
Definition user_of (t : rows) (id : uuid) : option User := t !! KUser id ≫= as_user.
Definition event_of (t : rows) (id : uuid) : option Event := t !! KEvent id ≫= as_event.
Definition order_of (t : rows) (id : uuid) : option Order := t !! KOrder id ≫= as_order.

Definition user_with_email (t : rows) (address : string) : option User :=
  find_row (UserRepository.by_email address) t ≫= as_user.
Definition order_with_key (t : rows) (user : uuid) (k : string) : option Order :=
  find_row (OrderRepository.with_key user k) t ≫= as_order.
(** An order shown only to its user. *)
Definition order_for (t : rows) (id user : uuid) : option Order :=
  o ← order_of t id; if decide (order_user_id o = user) then Some o else None.

Section lookups.
Context (t : rows) (Hw : well_formed t).

Lemma user_of_lookup id u : user_of t id = Some u ↔ t !! KUser id = Some (RUser u).
Proof using.
  unfold user_of. split.
  - intros (r & Hr & Hu)%bind_Some. by destruct r; simplify_eq/=.
  - by intros ->.
Qed.

Lemma event_of_lookup id e : event_of t id = Some e ↔ t !! KEvent id = Some (REvent e).
Proof using.
  unfold event_of. split.
  - intros (r & Hr & Hu)%bind_Some. by destruct r; simplify_eq/=.
  - by intros ->.
Qed.

Lemma order_of_lookup id x : order_of t id = Some x ↔ t !! KOrder id = Some (ROrder x).
Proof using.
  unfold order_of. split.
  - intros (r & Hr & Hu)%bind_Some. by destruct r; simplify_eq/=.
  - by intros ->.
Qed.

Lemma user_of_id id u : user_of t id = Some u → user_id u = id.
Proof using Hw. rewrite user_of_lookup. intros Hk. by apply (wf_key _ Hw) in Hk as [= ->]. Qed.

Lemma event_of_id id e : event_of t id = Some e → event_id e = id.
Proof using Hw. rewrite event_of_lookup. intros Hk. by apply (wf_key _ Hw) in Hk as [= ->]. Qed.

Lemma order_of_id id x : order_of t id = Some x → order_id x = id.
Proof using Hw. rewrite order_of_lookup. intros Hk. by apply (wf_key _ Hw) in Hk as [= ->]. Qed.

(** Rows that the constraints keep apart. *)
Lemma conflict_unique p :
  (∀ r r', p r = true → p r' = true → api_conflicts r r' = true ∨ api_key_of r = api_key_of r') →
  unique_row p t.
Proof using Hw.
  intros Hp k k' r r' Hk Hk' Hpr Hpr'. destruct (decide (k = k')) as [|Hne]; [done|].
  pose proof (wf_unique _ Hw _ _ _ _ Hk Hk' Hne) as Hn.
  destruct (Hp r r' Hpr Hpr') as [Hc|Heq]; [congruence|].
  by rewrite <- (wf_key _ Hw _ _ Hk), <- (wf_key _ Hw _ _ Hk').
Qed.

Lemma by_email_unique a : unique_row (UserRepository.by_email a) t.
Proof using Hw.
  apply conflict_unique. intros [u| |] [u'| |]; simpl; try done. rewrite !bool_decide_eq_true.
  intros -> ->. by left.
Qed.

Lemma with_key_unique u k : unique_row (OrderRepository.with_key u k) t.
Proof using Hw.
  apply conflict_unique. intros [| |x] [| |x']; simpl; try done.
  rewrite !andb_true_iff, !bool_decide_eq_true. intros [-> ->] [-> ->]. left.
  by rewrite !bool_decide_eq_true_2.
Qed.

Lemma for_user_unique id u : unique_row (OrderRepository.for_user id u) t.
Proof using Hw.
  apply conflict_unique. intros [| |x] [| |x']; simpl; try done.
  rewrite !andb_true_iff, !bool_decide_eq_true. intros [-> _] [-> _]. by right.
Qed.

Lemma user_with_email_spec a u :
  user_with_email t a = Some u ↔ user_of t (user_id u) = Some u ∧ email u = a.
Proof using Hw.
  unfold user_with_email. rewrite user_of_lookup. split.
  - intros (r & Hr & Hu)%bind_Some. apply find_row_spec in Hr as (k & Hk & Hp); [|apply by_email_unique].
    destruct r as [u'| |]; simplify_eq/=. apply bool_decide_eq_true in Hp. split; [|done].
    by rewrite (wf_key _ Hw _ _ Hk : KUser (user_id u) = k).
  - intros [Hk Ha]. apply bind_Some. exists (RUser u). split; [|done].
    apply find_row_spec; [apply by_email_unique|]. exists (KUser (user_id u)).
    split; [done|]. simpl. by apply bool_decide_eq_true.
Qed.

Lemma order_with_key_spec u k x :
  order_with_key t u k = Some x ↔
  order_of t (order_id x) = Some x ∧ order_user_id x = u ∧ idempotency_key x = Some k.
Proof using Hw.
  unfold order_with_key. rewrite order_of_lookup. split.
  - intros (r & Hr & Hu)%bind_Some. apply find_row_spec in Hr as (key & Hk & Hp); [|apply with_key_unique].
    destruct r as [| |x']; simplify_eq/=. apply andb_true_iff in Hp as [H1 H2].
    apply bool_decide_eq_true in H1, H2. split_and!; [|done..].
    by rewrite (wf_key _ Hw _ _ Hk : KOrder (order_id x) = key).
  - intros (Hk & Hu & Hi). apply bind_Some. exists (ROrder x). split; [|done].
    apply find_row_spec; [apply with_key_unique|]. exists (KOrder (order_id x)).
    split; [done|]. simpl. by rewrite !bool_decide_eq_true_2.
Qed.

Lemma find_for_user id u :
  find_row (OrderRepository.for_user id u) t = ROrder <$> order_for t id u.
Proof using Hw.
  apply option_eq. intros r. rewrite find_row_spec by apply for_user_unique. split.
  - intros (k & Hk & Hp). destruct r as [| |x]; simpl in Hp; [done..|].
    apply andb_true_iff in Hp as [H1 H2]. apply bool_decide_eq_true in H1, H2.
    pose proof (wf_key _ Hw _ _ Hk) as Hkey. simpl in Hkey. subst.
    unfold order_for. rewrite (proj2 (order_of_lookup _ _) Hk). simpl. by rewrite decide_True.
  - intros (x & Hx & ->)%fmap_Some. unfold order_for in Hx.
    apply bind_Some in Hx as (x' & Ho & Hx). case_decide; [|done]. simplify_eq.
    pose proof (order_of_id _ _ Ho) as Hid. apply order_of_lookup in Ho.
    exists (KOrder id). split; [done|]. simpl. by rewrite !bool_decide_eq_true_2.
Qed.
End lookups.

(** ** Repository calls *)
Section repositories.
Context (o : oracle) `{Ook : !OracleOk o}.
Variables (t : rows) (s : nat) (ss : api_session) (n q : nat) (w : world).
Hypotheses (Hc : coherent t ss) (Hw : well_formed (visible t ss)).

Abbreviation here := (in_session t s ss n q w).
Abbreviation vis := (visible t ss).

Lemma user_get_run id :
  ∃ ss', run (sys_exec o) (UserRepository.get s id) here
         = Some (Ok (user_of vis id), in_session t s ss' n q w)
    ∧ extends t ss ss' ∧ (∀ u, user_of vis id = Some u → loaded ss' (RUser u)).
Proof using Hc Hw.
  destruct (run_api_get o t s ss n q w (KUser id) Hc Hw) as (ss' & Hrun & He & Hl).
  exists ss'. unfold UserRepository.get, BaseRepository.get. rewrite run_bind, Hrun.
  split; [done|]. split; [done|]. intros u Hu. by apply Hl, user_of_lookup.
Qed.

Lemma event_get_run id :
  ∃ ss', run (sys_exec o) (EventRepository.get s id) here
         = Some (Ok (event_of vis id), in_session t s ss' n q w)
    ∧ extends t ss ss' ∧ (∀ e, event_of vis id = Some e → loaded ss' (REvent e)).
Proof using Hc Hw.
  destruct (run_api_get o t s ss n q w (KEvent id) Hc Hw) as (ss' & Hrun & He & Hl).
  exists ss'. unfold EventRepository.get, BaseRepository.get. rewrite run_bind, Hrun.
  split; [done|]. split; [done|]. intros e Hu. by apply Hl, event_of_lookup.
Qed.

Lemma order_get_run id :
  ∃ ss', run (sys_exec o) (OrderRepository.get s id) here
         = Some (Ok (order_of vis id), in_session t s ss' n q w)
    ∧ extends t ss ss' ∧ (∀ x, order_of vis id = Some x → loaded ss' (ROrder x)).
Proof using Hc Hw.
  destruct (run_api_get o t s ss n q w (KOrder id) Hc Hw) as (ss' & Hrun & He & Hl).
  exists ss'. unfold OrderRepository.get, BaseRepository.get. rewrite run_bind, Hrun.
  split; [done|]. split; [done|]. intros x Hu. by apply Hl, order_of_lookup.
Qed.

(** A query for one row of one class. *)
Lemma select_one_run {T} (p : api_row → bool) (view : api_row → option T) :
  unique_row p vis → (∀ r, p r = true → is_Some (view r)) →
  ∃ ss', run (sys_exec o)
           (found <- api_select s (Query p None None 0) ;;
            of_result (scalar_one_or_none (omap view found))) here
         = Some (Ok (find_row p vis ≫= view), in_session t s ss' n (S q) w)
    ∧ extends t ss ss' ∧ (∀ r, find_row p vis = Some r → loaded ss' r).
Proof using Hc Hw Ook.
  intros Hu Hp. destruct (run_api_select_one o t s ss n q w p Hc Hw Hu) as (ss' & Hrun & He & Hl).
  exists ss'. rewrite run_bind, Hrun. split; [|done].
  destruct (find_row p vis) as [r|] eqn:Hf; [|done].
  apply find_row_spec in Hf as (k & _ & Hpr); [|done]. destruct (Hp r Hpr) as [x Hx].
  simpl. by rewrite Hx.
Qed.

Lemma get_by_email_run a :
  ∃ ss', run (sys_exec o) (UserRepository.get_by_email s a) here
         = Some (Ok (user_with_email vis a), in_session t s ss' n (S q) w)
    ∧ extends t ss ss'.
Proof using Hc Hw Ook.
  destruct (select_one_run (UserRepository.by_email a) as_user) as (ss' & Hrun & He & _).
  { by apply by_email_unique. }
  { intros [u| |]; [by eexists|done|done]. }
  by exists ss'.
Qed.

Lemma get_by_key_run u k :
  ∃ ss', run (sys_exec o) (OrderRepository.get_by_idempotency_key s u k) here
         = Some (Ok (order_with_key vis u k), in_session t s ss' n (S q) w)
    ∧ extends t ss ss'.
Proof using Hc Hw Ook.
  destruct (select_one_run (OrderRepository.with_key u k) as_order) as (ss' & Hrun & He & _).
  { by apply with_key_unique. }
  { intros [| |x]; [done|done|by eexists]. }
  by exists ss'.
Qed.

Lemma get_for_user_run id u :
  ∃ ss', run (sys_exec o) (OrderRepository.get_for_user s id u) here
         = Some (Ok (order_for vis id u), in_session t s ss' n (S q) w)
    ∧ extends t ss ss' ∧ (∀ x, order_for vis id u = Some x → loaded ss' (ROrder x)).
Proof using Hc Hw Ook.
  destruct (select_one_run (OrderRepository.for_user id u) as_order) as (ss' & Hrun & He & Hl).
  { by apply for_user_unique. }
  { intros [| |x]; [done|done|by eexists]. }
  rewrite find_for_user in Hrun, Hl by done. exists ss'.
  split; [etrans; [exact Hrun|]; by destruct (order_for vis id u)|].
  split; [done|]. intros x Hx. apply Hl. by rewrite Hx.
Qed.

(** [BaseRepository.add] *)
Lemma add_run {T} (view : api_row → option T) (row : T → api_row) x :
  (∀ y, view (row y) = Some y) →
  (∀ y, ∃ y', inserted_row (clock w) (row y) = row y') →
  let new := inserted_row (clock w) (row x) in
  run (sys_exec o) (BaseRepository.add view row s x) here
  = match insert_error vis new with
    | Some e => Some (Err e, in_session t s empty_session n q w)
    | None => match view new with
              | Some y => Some (Ok y, in_session t s (with_new ss new) n q w)
              | None => None
              end
    end.
Proof using Hc.
  intros Hview Hrow new. unfold BaseRepository.add.
  rewrite (run_api_insert o t s ss n q w (row x) _ Hc). fold new.
  destruct (insert_error vis new); [done|].
  unfold BaseRepository.instance. rewrite run_bind.
  erewrite run_api_instance; [|cbn [with_new objs]; unfold new; rewrite inserted_key; apply lookup_insert_eq].
  destruct (Hrow x) as [y Hy]. unfold new. rewrite Hy, Hview. done.
Qed.
End repositories.
