(* ===== verification/ApiConcurrency.v ===== *)
(** * What concurrent sessions keep of the orders

    Any number of sessions on the database of the API service, their operations
    interleaved in any order: an order that is stored stays stored, and names
    the reservation it was booked with. *)
From S2P Require Import Prelude Effects Uuid Domain Orm OrmFacts InventoryModels.
From S2P Require Import ApiModels.
From S2P Require Import Platform ApiRepositories SessionRuns ApiRuns.

Abbreviation api_session := (session api_key api_row).

Section kept.
(** The tables when the sessions began. *)
Variable t0 : rows.

(** The row is stored under its own key; an order of [t0] has its reservation. *)
Definition true_order (o : Order) : Prop :=
  ∀ x, order_of t0 (order_id o) = Some x → reservation_id o = reservation_id x.

Definition held (k : api_key) (r : api_row) : Prop :=
  api_key_of r = k ∧ match r with ROrder o => true_order o | _ => True end.

Definition held_pair (k : api_key) (x : api_row * api_row) : Prop := held k x.1 ∧ held k x.2.

(** What a transaction has written: no order deleted. *)
Definition held_write (k : api_key) (x : option api_row) : Prop :=
  match x with Some r => held k r | None => ∀ id, k ≠ KOrder id end.

Record session_kept (ss : api_session) : Prop := {
  sk_objs : map_Forall held_pair (objs ss);
  sk_overlay : map_Forall held_write (overlay ss);
  sk_dels : Forall (λ k, ∀ id, k ≠ KOrder id) (dels ss);
}.

Record rows_kept (t : rows) : Prop := {
  rk_rows : map_Forall held t;
  rk_orders : ∀ id x, order_of t0 id = Some x → is_Some (t !! KOrder id);
}.

Record orders_kept (db : database api_key api_row) : Prop := {
  ok_rows : rows_kept (tbl db);
  ok_sessions : map_Forall (λ _, session_kept) (sessions db);
}.

Lemma empty_session_kept : session_kept empty_session.
Proof using. split; [apply map_Forall_empty..|constructor]. Qed.

(** ** What a transaction sees *)
Lemma overlay_kept ov t : map_Forall held_write ov → rows_kept t → rows_kept (apply_overlay ov t).
Proof using.
  intros Hov [Ht Ho]. split.
  - intros k r. rewrite lookup_apply_overlay. destruct (ov !! k) as [x|] eqn:Hk; [|apply Ht].
    intros ->. exact (Hov _ _ Hk).
  - intros id x Hx. rewrite lookup_apply_overlay. destruct (ov !! KOrder id) as [[r|]|] eqn:Hk; [done| |eauto].
    by destruct (Hov _ _ Hk id).
Qed.

(** ** A flush *)
Lemma held_merge k l c s : held k l → held k c → held k s → held k (api_merge l c s).
Proof using.
  intros [Hl Hl'] [Hc Hc'] [Hs Hs']. destruct l, c, s; try done; (split; [done|]); simpl in *; try done.
  intros x Hx. simpl in *. unfold col. case_decide; [by apply Hs'|].
  apply Hc'. congruence.
Qed.

Lemma held_stamp k created now r : held k r → held k (api_stamp created now r).
Proof using. intros [Hk Ht]. by destruct r. Qed.

Definition acc_kept (acc : flush_acc (key := api_key) (row := api_row)) : Prop :=
  map_Forall held_write acc.1 ∧ map_Forall held_pair acc.2.

Lemma fold_kept {X} (f : flush_acc → X → result exn flush_acc) (P : X → Prop) xs acc acc' :
  (∀ acc x acc', P x → acc_kept acc → f acc x = Ok acc' → acc_kept acc') →
  Forall P xs → acc_kept acc → fold_result f acc xs = Ok acc' → acc_kept acc'.
Proof using.
  intros Hf Hxs. revert acc. induction Hxs as [|x xs Hx _ IH]; intros acc Hacc; simpl.
  - by intros [= <-].
  - destruct (f acc x) as [acc1|] eqn:Hfx; [|done]. apply IH. by eapply Hf.
Qed.

Section flush.
Context (now : Z) (t : rows) (Ht : rows_kept t).

Lemma update_kept acc d acc' :
  held_pair d.1 d.2 → acc_kept acc → update_one now t acc d = Ok acc' → acc_kept acc'.
Proof using Ht.
  destruct d as [k [l c]]. intros [Hl Hc] [Hov Ho]. unfold update_one.
  destruct (apply_overlay acc.1 t !! k) as [stored|] eqn:Hs; [|done].
  assert (Hst : held k stored) by (eapply (rk_rows _ (overlay_kept _ _ Hov Ht)), Hs).
  case_bool_decide; [|done]. destruct (check_row _); [done|]. intros [= <-]. split; simpl.
  - apply map_Forall_insert_2; [|done]. by apply held_stamp, held_merge.
  - apply map_Forall_insert_2; [|done]. split; by apply held_stamp.
Qed.

(** An order that is stored cannot be inserted. *)
Lemma insert_kept acc r acc' : acc_kept acc → insert_one now t acc r = Ok acc' → acc_kept acc'.
Proof using Ht.
  intros [Hov Ho]. unfold insert_one. destruct (check_row _); [done|].
  case_bool_decide as Hb; [|done]. destruct Hb as [Hnone _].
  assert (Hnew : held (key_of r) (api_stamp (λ _, Some now) now r)).
  { apply held_stamp. split; [done|]. destruct r as [| |y]; [done..|]. intros x Hx.
    destruct (rk_orders _ (overlay_kept _ _ Hov Ht) _ _ Hx) as [row Hrow].
    simpl in Hnone. congruence. }
  intros [= <-]. split; simpl; by apply map_Forall_insert_2.
Qed.

Lemma delete_kept acc k acc' :
  (∀ id, k ≠ KOrder id) → acc_kept acc → delete_one t acc k = Ok acc' → acc_kept acc'.
Proof using.
  intros Hk [Hov Ho]. unfold delete_one. case_bool_decide; [|done]. intros [= <-]. split; simpl.
  - by apply map_Forall_insert_2.
  - by apply map_Forall_delete.
Qed.

Lemma flush_kept s db ss ss' :
  tbl db = t → session_kept ss → do_flush now s db ss = Some (Ok ss') → session_kept ss'.
Proof using Ht.
  intros Hdb [Hobjs Hov Hdels]. unfold do_flush. case_decide; [|done]. rewrite Hdb.
  unfold flush_statements. intros Hf.
  destruct (fold_result (update_one now t) _ _) as [acc1|] eqn:H1; [|done].
  destruct (fold_result (insert_one now t) _ _) as [acc2|] eqn:H2; [|done].
  destruct (fold_result (delete_one t) _ _) as [[ov o]|] eqn:H3; [|done]. injection Hf as <-.
  apply (fold_kept _ (λ d, held_pair d.1 d.2)) in H1; [..|by split].
  2: { intros. by eapply update_kept. }
  2: { apply Forall_forall. intros [k x] Hin. apply elem_of_map_to_list in Hin.
       apply map_lookup_filter_Some in Hin as [Hin _]. by apply Hobjs. }
  apply (fold_kept _ (λ _, True)) in H2; [..|done]; [| |by apply Forall_true].
  2: { intros. by eapply insert_kept. }
  apply (fold_kept _ (λ k, ∀ id, k ≠ KOrder id)) in H3; [..|done]; [|intros; by eapply delete_kept|done].
  destruct H3. by split.
Qed.
End flush.

(** ** Queries *)
Lemma load_kept (rs : list api_row) ss :
  Forall (λ r, held (api_key_of r) r) rs → session_kept ss → session_kept (foldl load ss rs).
Proof using.
  intros Hrs. revert ss. induction Hrs as [|r rs Hr _ IH]; intros ss Hss; [done|]. simpl. apply IH.
  unfold load. destruct (objs ss !! key_of r); [done|]. destruct Hss.
  split; try done. by apply map_Forall_insert_2.
Qed.

(** The row a query returns for the row [r] of the tables. *)
Lemma instance_kept ss r :
  session_kept ss → held (api_key_of r) r → held (api_key_of r) (instance_of ss r).
Proof using.
  intros Hss Hr. unfold instance_of. destruct (objs ss !! key_of r) as [[l c]|] eqn:Ho; [|done].
  by apply (sk_objs _ Hss _ _ Ho).
Qed.

(** ** The operations *)

(** Attributes written keep a row's key and an order's reservation; orders are
    not deleted. *)
Definition keeps_orders {B} (op : orm_op api_key api_row B) : Prop :=
  match op with
  | SetAttrs _ k f => ∀ r, held k r → held k (f r)
  | Delete _ k => ∀ id, k ≠ KOrder id
  | _ => True
  end.

(** What the answer to an operation shows. *)
Definition answer_kept {B} (op : orm_op api_key api_row B) : B → Prop :=
  match op in orm_op _ _ B return B → Prop with
  | Get _ k => λ b, ∀ r, b = Ok (Some r) → held k r
  | Select _ q => λ b, ∀ rs, b = Ok rs →
      Forall (λ r, held (api_key_of r) r
                   ∧ ∃ r', q_where q r' = true ∧ api_key_of r' = api_key_of r) rs
  | _ => λ _, True
  end.

Lemma put_kept s ss db :
  orders_kept db → session_kept ss → orders_kept (put_session s ss db).
Proof using. intros [Ht Hs] Hss. split; [done|]. by apply map_Forall_insert_2. Qed.

Lemma orm_kept (o : oracle) `{!OracleOk o} now {B} (op : orm_op api_key api_row B) db b db' :
  keeps_orders op → orders_kept db → orm_exec (api_scan o) now B op db = Some (b, db') →
  orders_kept db' ∧ answer_kept op b.
Proof using.
  intros Hop Hdb. pose proof Hdb as [Ht Hss].
  destruct op as [|s|s k|s q|s p|s k f|s k|s r|s k|s|s|s|s]; cbn [orm_exec answer_kept].
  - intros [= <- <-]. split; [|done]. split; [done|]. apply map_Forall_insert_2; [apply empty_session_kept | done].
  - intros [= <- <-]. split; [|done]. split; [done|]. by apply map_Forall_delete.
  - destruct (sessions db !! s) as [ss|] eqn:Hs; [|by intros [= <- <-]].
    pose proof (Hss _ _ Hs) as Hk.
    destruct (objs ss !! k) as [[l c]|] eqn:Ho.
    { intros [= <- <-]. split; [done|]. intros r [= <-]. by apply (sk_objs _ Hk _ _ Ho). }
    destruct (apply_overlay (overlay ss) (tbl db) !! k) as [r|] eqn:Hr; intros [= <- <-]; [|done].
    pose proof (rk_rows _ (overlay_kept _ _ (sk_overlay _ Hk) Ht) _ _ Hr) as Hheld.
    split; [|by intros r' [= <-]]. apply put_kept; [done|]. destruct Hk.
    split; try done. by apply map_Forall_insert_2.
  - destruct (sessions db !! s) as [ss|] eqn:Hs; [|by intros [= <- <-]].
    pose proof (Hss _ _ Hs) as Hk.
    set (rs := run_query _ _ _ _). intros [= <- <-].
    assert (Hrs : Forall (λ r, held (api_key_of r) r ∧ q_where q r = true) rs).
    { apply Forall_forall. intros r Hr. apply run_query_rows in Hr as [Hq Hr]. split; [|done].
      rewrite api_scan_perm in Hr. apply list_elem_of_fmap in Hr as ([k r'] & -> & Hr).
      apply elem_of_map_to_list in Hr.
      pose proof (rk_rows _ (overlay_kept _ _ (sk_overlay _ Hk) Ht) _ _ Hr) as Hheld.
      simpl. by rewrite (proj1 Hheld). }
    split.
    + destruct (put_kept s (foldl load ss rs) db Hdb) as [Ht' Hs']; [|by split].
      apply load_kept; [|done]. eapply Forall_impl; [exact Hrs|]. by intros r [? _].
    + intros ? [= <-]. apply Forall_fmap. eapply Forall_impl; [exact Hrs|]. intros r [Hr Hq]. simpl.
      pose proof (instance_kept ss r Hk Hr) as Hi. rewrite (proj1 Hi). split; [done|]. by exists r.
  - destruct (sessions db !! s) as [ss|]; intros [= <- <-]; [|done]. split; [by split | done].
  - destruct (sessions db !! s) as [ss|] eqn:Hs; [|by intros [= <- <-]].
    pose proof (Hss _ _ Hs) as Hk.
    destruct (objs ss !! k) as [[l c]|] eqn:Ho; intros [= <- <-]; [|done]. split; [|done].
    apply put_kept; [done|]. destruct (sk_objs _ Hk _ _ Ho) as [Hl Hc]. destruct Hk.
    split; try done. apply map_Forall_insert_2; [|done]. split; [done|]. by apply Hop.
  - by intros [= <- <-].
  - destruct (sessions db !! s) as [ss|] eqn:Hs; intros [= <- <-]; [|done]. split; [|done].
    apply put_kept; [done|]. by destruct (Hss _ _ Hs).
  - destruct (sessions db !! s) as [ss|] eqn:Hs; intros [= <- <-]; [|done]. split; [|done].
    apply put_kept; [done|]. destruct (Hss _ _ Hs). split; try done. simpl.
    apply Forall_app. split; [done|]. by constructor.
  - destruct (sessions db !! s) as [ss|] eqn:Hs; [|by intros [= <- <-]].
    destruct (do_flush now s db ss) as [[ss'|e]|] eqn:Hf; intros [= <- <-]; (split; [|done]);
      (apply put_kept; [done|]); [|apply empty_session_kept].
    eapply flush_kept; [exact Ht | done | by apply (Hss _ _ Hs) | exact Hf].
  - destruct (sessions db !! s) as [ss|] eqn:Hs; [|by intros [= <- <-]].
    destruct (do_flush now s db ss) as [[ss'|e]|] eqn:Hf; intros [= <- <-]; (split; [|done]).
    + assert (Hk : session_kept ss').
      { eapply flush_kept; [exact Ht | done | by apply (Hss _ _ Hs) | exact Hf]. }
      split; simpl; [apply overlay_kept; [apply Hk | done]|].
      apply map_Forall_insert_2; [|done]. destruct Hk. by split.
    + apply put_kept; [done | apply empty_session_kept].
  - destruct (sessions db !! s) as [ss|] eqn:Hs; intros [= <- <-]; (split; [|done]); [|done].
    apply put_kept; [done | apply empty_session_kept].
  - destruct (sessions db !! s) as [ss|] eqn:Hs; by intros [= <- <-].
Qed.
End kept.

(** No session open, every row under its key: the orders are as they are. *)
Lemma orders_kept_self t n q :
  (∀ k r, t !! k = Some r → api_key_of r = k) → orders_kept t (Database t ∅ n q).
Proof.
  intros Hkey. split; [split|].
  - intros k r Hr. simpl in Hr. split; [by apply Hkey|]. destruct r as [| |y]; [done..|]. intros x Hx.
    pose proof (Hkey _ _ Hr) as Hk. simpl in Hk. subst k.
    unfold order_of in Hx. rewrite Hr in Hx. by injection Hx as ->.
  - intros id x. unfold order_of. simpl. destruct (t !! KOrder id); [by eexists | done].
  - apply map_Forall_empty.
Qed.
