(* ===== verification/SystemSpec.v ===== *)
(** * What the two services promise together

    The atomic effect of the operations that touch both databases and the bus:
    booking, cancelling, and the order worker's reactions to a payment and to
    an expired reservation.  The invariant that ties the databases: every order
    is backed by a reservation of the same event and size that names it. *)
From S2P Require Import Prelude Effects Json Uuid Domain Orm OrmFacts Redis.
From S2P Require Import InventoryModels.
From S2P Require Import ApiModels Platform SessionRuns Kafka ApiRepositories ApiRuns.
From S2P Require Import InventoryRepository Locking InventoryService InventoryServicer.
From S2P Require Import InventorySpec InventoryInvariant RpcCorrectness EventService.
From S2P Require Import BookingService.

(** ** Effects *)

(** A message the operation publishes. *)
Definition announcement : Type := EventType.t * string * payload.

Record effect (A : Type) : Type := Effect {
  answer : result exn A;
  api_after : rows;
  inv_after : table;
  sent : list announcement;
}.
Arguments Effect {A} answer api_after inv_after sent.
Arguments answer {A} e.
Arguments api_after {A} e.
Arguments inv_after {A} e.
Arguments sent {A} e.

(** The last step of an operation: publish, with the work already committed. *)
Definition announcing {A} (kafka : bool) (a : A) (t : rows) (v : table) (m : announcement)
    : effect A :=
  if kafka then Effect (Ok a) t v [m] else Effect (Err KafkaError) t v [].

(** An order moved to a status by a commit at [now]. *)
Definition with_status (now : Z) (st : OrderStatus.t) (x : Order) : Order :=
  mkOrder (order_id x) (order_user_id x) (order_event_id x) (reservation_id x) (order_quantity x)
    (unit_price_cents x) (total_price_cents x) st (idempotency_key x) (order_created_at x) (Some now).

Definition order_created (x : Order) : announcement :=
  (EventType.ORDER_CREATED, uuid_str (order_id x),
   OrderCreatedPayload (order_id x) (order_event_id x) (order_user_id x) (order_quantity x)
     (total_price_cents x) (reservation_id x)).

Definition order_cancelled (x : Order) : announcement :=
  (EventType.ORDER_CANCELLED, uuid_str (order_id x),
   OrderCancelledPayload (order_id x) (reservation_id x)).

Definition ticket_issued (x : Order) : announcement :=
  (EventType.TICKET_ISSUED, uuid_str (order_id x),
   TicketIssuedPayload (order_id x) (order_user_id x) (order_event_id x)).

(** ** Operations *)
Module System.
Section operations.
(** The texts the gRPC runtime gives unknown exceptions, the network during
    the operation, the broker, and the clock. *)
Variables (o : oracle) (net : rpc_fault) (kafka : bool) (now : Z).

(** A call of the Inventory service over the network. *)
Definition remote {A} (status : exn → exn) (v : table) (spec : result exn A * table)
    : result exn A * table :=
  (through net id (λ e, client_error o (status e)) spec.1,
   if arrived net then spec.2 else v).

Definition new_order (order_id : uuid) (user : User) (e : uuid) (reservation_id : string)
    (q price : Z) (key : option string) : Order :=
  mkOrder order_id (user_id user) e reservation_id q price (price * q) OrderStatus.PENDING key
    (Some now) (Some now).

(** A booking whose order gets [order_id] and whose reservation gets [rid]. *)
Definition book_new (self : InventoryService) (order_id rid : uuid) (user : User) (e : uuid)
    (q : Z) (key : option string) (t : rows) (v : table) : effect Order :=
  match event_of t e with
  | None => Effect (Err (no_event e)) t v []
  | Some ev =>
      let '(reserved, v') := remote reserve_status v
        (Spec.reserve now rid e order_id q (reservation_ttl_seconds self)
           (optimistic_retry_attempts self) v) in
      match reserved, price_field (price_cents ev) with
      | Err err, _ | Ok _, Err err => Effect (Err err) t v' []
      | Ok r, Ok price =>
          let x := new_order order_id user e (uuid_str (res_id r)) q price key in
          match insert_error t (ROrder x) with
          | Some err => Effect (Err err) t v' []
          | None => announcing kafka x (<[KOrder order_id := ROrder x]> t) v' (order_created x)
          end
      end
  end.

Definition book (self : InventoryService) (order_id rid : uuid) (user : User) (e : uuid)
    (q : Z) (key : option string) (t : rows) (v : table) : effect Order :=
  match given key ≫= order_with_key t (user_id user) with
  | Some x => Effect (Ok x) t v []
  | None => book_new self order_id rid user e q key t v
  end.

(** The order moved to [st] once the Inventory service has answered. *)
Definition settle {A} (st : OrderStatus.t) (m : Order → announcement) (x : Order)
    (answer : Order → A) (t : rows) (remote : result exn Reservation * table) : effect A :=
  let '(r, v') := remote in
  match r with
  | Err err => Effect (Err err) t v' []
  | Ok _ =>
      let x' := with_status now st x in
      announcing kafka (answer x') (<[KOrder (order_id x) := ROrder x']> t) v' (m x')
  end.

Definition release (x : Order) (v : table) : result exn Reservation * table :=
  remote not_found_status v
    (by_text (λ id, Spec.release now id false v) (reservation_id x) v).

Definition confirm (x : Order) (v : table) : result exn Reservation * table :=
  remote not_found_status v (by_text (λ id, Spec.confirm now id v) (reservation_id x) v).

Definition cancel (id : uuid) (user : User) (t : rows) (v : table) : effect Order :=
  match order_for t id (user_id user) with
  | None => Effect (Err (no_order id)) t v []
  | Some x =>
      if BookingService.already_closed (order_status x)
      then Effect (Err (ValidationError ("Order is already " +s OrderStatus_value (order_status x)))) t v []
      else settle OrderStatus.CANCELLED order_cancelled x (λ x, x) t (release x v)
  end.

(** The order a worker acts on: a PENDING one. *)
Definition pending_order (t : rows) (id : uuid) : option Order :=
  x ← order_of t id; if decide (order_status x = OrderStatus.PENDING) then Some x else None.

Definition paid (id : uuid) (success : bool) (t : rows) (v : table) : effect unit :=
  match pending_order t id with
  | None => Effect (Ok tt) t v []
  | Some x =>
      if success
      then settle OrderStatus.CONFIRMED ticket_issued x (λ _, tt) t (confirm x v)
      else settle OrderStatus.CANCELLED order_cancelled x (λ _, tt) t (release x v)
  end.

Definition expired (id : uuid) (t : rows) (v : table) : effect unit :=
  match pending_order t id with
  | None => Effect (Ok tt) t v []
  | Some x =>
      Effect (Ok tt) (<[KOrder id := ROrder (with_status now OrderStatus.EXPIRED x)]> t) v []
  end.
End operations.
End System.

(** ** The invariant across the databases *)

(** The reservation an order names. *)
Definition backs (v : table) (x : Order) : Prop :=
  ∃ rid r, reservation_id x = uuid_str rid ∧ res_of v rid = Some r
    ∧ res_order_id r = order_id x ∧ res_event_id r = order_event_id x ∧ quantity r = order_quantity x.

Definition linked (t : rows) (v : table) : Prop :=
  ∀ id x, order_of t id = Some x → backs v x.

(** Reservations keep their event, order and size. *)
Definition kept (v v' : table) : Prop :=
  ∀ id r, res_of v id = Some r →
    ∃ r', res_of v' id = Some r' ∧ res_order_id r' = res_order_id r
      ∧ res_event_id r' = res_event_id r ∧ quantity r' = quantity r.

Lemma kept_refl v : kept v v.
Proof. intros id r Hr. by exists r. Qed.

Lemma backs_kept v v' x : kept v v' → backs v x → backs v' x.
Proof.
  intros Hk (rid & r & Hid & Hr & Ho & He & Hq). destruct (Hk rid r Hr) as (r' & Hr' & ? & ? & ?).
  exists rid, r'. split_and!; congruence.
Qed.

Lemma linked_kept t v v' : kept v v' → linked t v → linked t v'.
Proof. intros Hk Hl id x Hx. eauto using backs_kept. Qed.

(** Writing the rows of a transition of [r] keeps every reservation. *)
Lemma transition_kept now st f r r' v v' :
  res_of v (res_id r) = Some r →
  (∀ i, inv_event_id (f i) = inv_event_id i) →
  Spec.transition now st f r v = Ok (r', v') → kept v v'.
Proof.
  intros Hr Hf Ht. unfold Spec.transition in Ht.
  assert (Hkept : ∀ v1, (∀ id, res_of v1 id = res_of v id) →
    kept v (<[KRes (res_id r) := RRes (stamp_updated now (set_status st r))]> v1)).
  { intros v1 Hv1 id x Hx. unfold res_of. rewrite lookup_insert. case_decide as Heq.
    - injection Heq as <-. rewrite Hr in Hx. injection Hx as <-. by eexists.
    - exists x. fold (res_of v1 id). by rewrite Hv1. }
  destruct (inv_of v (res_event_id r)) as [i|]; invert_ok; apply Hkept; [|done].
  intros id. unfold res_of. by rewrite lookup_insert_ne.
Qed.

Lemma confirm_kept now id v : consistent v → kept v (Spec.confirm now id v).2.
Proof.
  intros Hc. unfold Spec.confirm. destruct (res_of v id) as [r|] eqn:Hr; [|apply kept_refl].
  case_decide; [apply kept_refl|].
  destruct (reservation_row_ok v Hc id r Hr) as [_ <-].
  destruct (Spec.transition _ _ _ _ _) as [[r' v']|err] eqn:Ht; [|apply kept_refl].
  by refine (transition_kept _ _ _ _ _ _ _ Hr _ Ht).
Qed.

Lemma release_kept now id ex v : consistent v → kept v (Spec.release now id ex v).2.
Proof.
  intros Hc. unfold Spec.release. destruct (res_of v id) as [r|] eqn:Hr; [|apply kept_refl].
  case_decide; [apply kept_refl|].
  destruct (reservation_row_ok v Hc id r Hr) as [_ <-].
  destruct (Spec.transition _ _ _ _ _) as [[r' v']|err] eqn:Ht; [|apply kept_refl].
  refine (transition_kept _ _ _ _ _ _ _ Hr _ Ht). intros i. simpl. by case_decide.
Qed.

(** What a reservation leaves: the new reservation, and every other one. *)
Lemma reserve_result now id e ord q ttl k v :
  consistent v →
  let spec := Spec.reserve now id e ord q ttl k v in
  kept v spec.2
  ∧ ∀ r, spec.1 = Ok r →
      res_id r = id ∧ res_of spec.2 id = Some r ∧ res_order_id r = ord ∧ res_event_id r = e
      ∧ quantity r = q ∧ status r = ReservationStatus.PENDING ∧ 0 < q.
Proof.
  intros Hc spec. unfold spec, Spec.reserve. destruct (q <=? 0) eqn:Hq; [split; [apply kept_refl|done]|].
  case_decide; [split; [apply kept_refl|done]|].
  destruct (inv_of v e) as [i|] eqn:Hi; [|split; [apply kept_refl|done]].
  destruct (available i <? q) eqn:Ha; [split; [apply kept_refl|done]|].
  destruct (Spec.book _ _ _ _ _ _ _ _) as [[r v']|err] eqn:Hb; [|split; [apply kept_refl|done]].
  unfold Spec.book in Hb. invert_ok. destruct (inv_check_row (RRes _)); [done|].
  destruct (v !! KRes id) eqn:Hid; [done|]. invert_ok. zify_bools.
  cbn [committed fst snd]. split.
  - intros id' x Hx. exists x. split; [|done]. unfold res_of.
    rewrite lookup_insert_ne, lookup_insert_ne; [done | done |].
    intros [= <-]. unfold res_of in Hx. by rewrite Hid in Hx.
  - intros r [= <-]. unfold res_of. rewrite lookup_insert_eq. simpl. split_and!; done || lia.
Qed.

(** ** The operations keep the databases tied *)
Record joint (t : rows) (v : table) : Prop := {
  joint_api : well_formed t;
  joint_inv : consistent v;
  joint_linked : linked t v;
}.

Lemma joint_inventory t v v' : joint t v → consistent v' → kept v v' → joint t v'.
Proof. intros [Hw Hc Hl] Hc' Hk. split; eauto using linked_kept. Qed.

Lemma order_of_insert t id x id' :
  order_of (<[KOrder id := ROrder x]> t) id' = if decide (id = id') then Some x else order_of t id'.
Proof.
  unfold order_of. case_decide as Heq; [subst; by rewrite lookup_insert_eq|].
  by rewrite lookup_insert_ne by congruence.
Qed.

Lemma joint_insert t v id x :
  well_formed (<[KOrder id := ROrder x]> t) → joint t v → backs v x →
  joint (<[KOrder id := ROrder x]> t) v.
Proof.
  intros Hw [_ Hc Hl] Hb. split; [done..|]. intros id' x'. rewrite order_of_insert.
  case_decide; [by intros [= <-] | apply Hl].
Qed.

(** A status change touches no constrained column. *)
Lemma with_status_well_formed t now st x :
  well_formed t → order_of t (order_id x) = Some x →
  well_formed (<[KOrder (order_id x) := ROrder (with_status now st x)]> t).
Proof.
  intros Hw Hx%order_of_lookup. apply (update_well_formed t _ (ROrder x)); try done.
  exact (wf_check _ Hw _ _ Hx).
Qed.

Lemma joint_status t v now st x :
  joint t v → order_of t (order_id x) = Some x →
  joint (<[KOrder (order_id x) := ROrder (with_status now st x)]> t) v.
Proof.
  intros Hj Hx. apply joint_insert; [| done | exact (joint_linked _ _ Hj _ _ Hx)].
  apply with_status_well_formed; [apply Hj | done].
Qed.

Section steps.
Variables (o : oracle) (net : rpc_fault) (kafka : bool) (now : Z).

Lemma announcing_after {A} (a : A) t v m :
  api_after (announcing kafka a t v m) = t ∧ inv_after (announcing kafka a t v m) = v.
Proof using. unfold announcing. by destruct kafka. Qed.

Lemma remote_kept {A} status v (spec : result exn A * table) :
  consistent v → consistent spec.2 → kept v spec.2 →
  consistent (System.remote o net status v spec).2 ∧ kept v (System.remote o net status v spec).2.
Proof using.
  intros. unfold System.remote. simpl. destruct (arrived net); [done|]. split; [done | apply kept_refl].
Qed.

Lemma remote_Ok {A} status v (spec : result exn A * table) a :
  (System.remote o net status v spec).1 = Ok a →
  net = NoFault ∧ spec.1 = Ok a ∧ (System.remote o net status v spec).2 = spec.2.
Proof using.
  unfold System.remote. simpl. destruct net; [|done..]. by destruct spec as [[x|e] v']; simpl; intros [= ->].
Qed.

Lemma by_text_kept {A} (f : uuid → result exn A * table) text v :
  consistent v → (∀ id, consistent (f id).2 ∧ kept v (f id).2) →
  consistent (by_text f text v).2 ∧ kept v (by_text f text v).2.
Proof using. intros Hc Hf. unfold by_text. destruct (UUID text); [apply Hf|]. split; [done | apply kept_refl]. Qed.

Lemma release_remote_kept x v :
  consistent v → consistent (System.release o net now x v).2 ∧ kept v (System.release o net now x v).2.
Proof using.
  intros Hc. unfold System.release. apply remote_kept; [done| |];
    apply by_text_kept; try done; intros id; split; [apply release_keeps | apply release_kept|
    apply release_keeps | apply release_kept]; done.
Qed.

Lemma confirm_remote_kept x v :
  consistent v → consistent (System.confirm o net now x v).2 ∧ kept v (System.confirm o net now x v).2.
Proof using.
  intros Hc. unfold System.confirm. apply remote_kept; [done| |];
    apply by_text_kept; try done; intros id; split; [apply confirm_keeps | apply confirm_kept|
    apply confirm_keeps | apply confirm_kept]; done.
Qed.

Lemma book_joint self order_id rid user e q key t v :
  joint t v →
  let out := System.book o net kafka now self order_id rid user e q key t v in
  joint (api_after out) (inv_after out).
Proof using.
  intros Hj out. unfold out, System.book. destruct (given key ≫= _) as [x|]; [done|].
  unfold System.book_new. destruct (event_of t e) as [ev|]; [|done].
  set (spec := Spec.reserve _ _ _ _ _ _ _ _).
  destruct (reserve_result now rid e order_id q (reservation_ttl_seconds self)
              (optimistic_retry_attempts self) v (joint_inv _ _ Hj)) as [Hkept Hres].
  fold spec in Hkept, Hres.
  destruct (remote_kept reserve_status v spec (joint_inv _ _ Hj)
              (reserve_consistent v (joint_inv _ _ Hj) _ _ _ _ _ _ _) Hkept) as [Hc Hk].
  pose proof (remote_Ok reserve_status v spec) as Hok.
  destruct (System.remote o net reserve_status v spec) as [r v']. simpl in Hc, Hk, Hok.
  assert (Hj' : joint t v') by eauto using joint_inventory.
  destruct r as [r|err]; [|done]. destruct (price_field _) as [price|err]; [|done].
  destruct (insert_error t _) eqn:Hins; [done|].
  destruct (Hok r eq_refl) as (_ & Hr & ->).
  destruct (announcing_after (System.new_order now order_id user e (uuid_str (res_id r)) q price key)
    (<[KOrder order_id := ROrder (System.new_order now order_id user e (uuid_str (res_id r)) q price key)]> t)
    spec.2 (order_created (System.new_order now order_id user e (uuid_str (res_id r)) q price key)))
    as [-> ->].
  apply joint_insert; [exact (insert_well_formed t _ (joint_api _ _ Hj) Hins) | done |].
  destruct (Hres r Hr) as (Hid & Hin & ? & ? & ? & _). exists (res_id r), r.
  split_and!; try done. by rewrite Hid.
Qed.

Lemma settle_joint {A} st m x (answer : Order → A) t v remote :
  joint t v → order_of t (order_id x) = Some x → consistent remote.2 → kept v remote.2 →
  joint (api_after (System.settle kafka now st m x answer t remote))
        (inv_after (System.settle kafka now st m x answer t remote)).
Proof using.
  intros Hj Hx Hc Hk. destruct remote as [[r|err] v']; simpl in *; [|eauto using joint_inventory].
  destruct (announcing_after (answer (with_status now st x))
    (<[KOrder (order_id x) := ROrder (with_status now st x)]> t) v' (m (with_status now st x))) as [-> ->].
  apply joint_status; eauto using joint_inventory.
Qed.

Lemma order_for_of t id u x : well_formed t → order_for t id u = Some x → order_of t (order_id x) = Some x.
Proof using.
  intros Hw (x' & Hx & Hd)%bind_Some. case_decide; [|done]. injection Hd as <-.
  by rewrite (order_of_id t Hw id x' Hx).
Qed.

Lemma pending_order_of t id x :
  well_formed t → System.pending_order t id = Some x →
  order_of t (order_id x) = Some x ∧ order_id x = id ∧ order_status x = OrderStatus.PENDING.
Proof using.
  intros Hw (x' & Hx & Hd)%bind_Some. case_decide; [|done]. injection Hd as <-.
  by rewrite (order_of_id t Hw id x' Hx).
Qed.

Lemma cancel_joint id user t v :
  joint t v →
  let out := System.cancel o net kafka now id user t v in
  joint (api_after out) (inv_after out).
Proof using.
  intros Hj out. unfold out, System.cancel. destruct (order_for _ _ _) as [x|] eqn:Hx; [|done].
  apply order_for_of in Hx; [|apply Hj]. case_goal; [done|].
  destruct (release_remote_kept x v (joint_inv _ _ Hj)). by eapply settle_joint.
Qed.

Lemma paid_joint id success t v :
  joint t v →
  let out := System.paid o net kafka now id success t v in
  joint (api_after out) (inv_after out).
Proof using.
  intros Hj out. unfold out, System.paid. destruct (System.pending_order _ _) as [x|] eqn:Hx; [|done].
  apply pending_order_of in Hx as (Hx & _); [|apply Hj].
  destruct success; [destruct (confirm_remote_kept x v (joint_inv _ _ Hj))
                    |destruct (release_remote_kept x v (joint_inv _ _ Hj))]; by eapply settle_joint.
Qed.

Lemma expired_joint id t v :
  joint t v →
  let out := System.expired now id t v in joint (api_after out) (inv_after out).
Proof using.
  intros Hj out. unfold out, System.expired. destruct (System.pending_order _ _) as [x|] eqn:Hx; [|done].
  apply pending_order_of in Hx as (Hx & <- & _); [|apply Hj]. by apply joint_status.
Qed.
End steps.
