(* ===== verification/SystemRuns.v ===== *)
(** * Running the operations that span both services

    A request's session with the Inventory service behind it: how publishing
    and the client's calls move such a world, and a body's contract against an
    effect of [SystemSpec]. *)
From S2P Require Import Prelude Effects Json Uuid Domain Orm OrmFacts Redis.
From S2P Require Import InventoryModels.
From S2P Require Import ApiModels Platform SessionRuns Kafka ApiRepositories ApiRuns.
From S2P Require Import InventoryRepository Locking InventoryService InventoryServicer.
From S2P Require Import InventorySpec InventoryInvariant InventoryRefinement.
From S2P Require Import InventoryCorrectness.
From S2P Require Import RpcCorrectness SystemSpec.

(** ** What an operation leaves of the world besides the tables *)

(** The record a message becomes, given its identifier. *)
Definition record_of (now : Z) (id : uuid) (m : announcement) : kafka_record :=
  let '(ev, key, p) := m in
  KafkaRecord (Topic.value (TOPIC_FOR_EVENT_TYPE ev)) key (wrap id ev now p).

(** The log has grown by the messages, each under a fresh identifier. *)
Definition announced (ms : list announcement) (w w' : world) : Prop :=
  ∃ ids, length ids = length ms
    ∧ kafka_log w' = kafka_log w ++ zip_with (record_of (clock w)) ids ms.

Record progressed (ms : list announcement) (w w' : world) : Prop := {
  pg_log : announced ms w w';
  pg_clock : clock w' = clock w;
  pg_mails : mails w' = mails w;
  pg_flags : redis_up w' = redis_up w ∧ kafka_up w' = kafka_up w ∧ fault w' = fault w;
}.

Lemma progressed_nil w w' :
  kafka_log w' = kafka_log w → clock w' = clock w → mails w' = mails w →
  redis_up w' = redis_up w → kafka_up w' = kafka_up w → fault w' = fault w → progressed [] w w'.
Proof. intros Hl. split; [|done..]. exists []. by rewrite app_nil_r. Qed.

Lemma progressed_refl w : progressed [] w w.
Proof. by apply progressed_nil. Qed.

Lemma progressed_then ms w1 w2 w3 : progressed [] w1 w2 → progressed ms w2 w3 → progressed ms w1 w3.
Proof.
  intros [([|] & Hlen & Hl) Hc Hm (Hr & Hk & Hf)] [(ids & Hlen2 & Hl2) Hc2 Hm2 (Hr2 & Hk2 & Hf2)];
    [|done]. simpl in Hl. rewrite app_nil_r in Hl.
  split; [|congruence..|split_and!; congruence]. exists ids. split; [done|]. congruence.
Qed.

Lemma progressed_draw ms w w' : progressed ms (next_draw w) w' → progressed ms w w'.
Proof. apply progressed_then. by apply progressed_nil. Qed.

Lemma run_publish o ev key p w :
  run (sys_exec o) (publish ev key p) w
  = Some (if kafka_up w then
            (Ok tt, log_record (record_of (clock w) (uuid_draw o (draws w)) (ev, key, p)) (next_draw w))
          else (Err KafkaError, next_draw w)).
Proof. unfold publish, call. simpl. by destruct (kafka_up w). Qed.

Lemma progressed_log id m w : progressed [m] w (log_record (record_of (clock w) id m) w).
Proof. split; try done. exists [id]. done. Qed.

(** ** Bodies of requests *)

(** The world of a body: session [s] open on the API's tables [t], which it
    shows unchanged, and the inventory's tables [v] at rest. *)
Definition joint_world (t : rows) (s : nat) (ss : api_session) (n q : nat)
    (v : table) (ni qi : nat) (w : world) : world :=
  in_session t s ss n q (quiet v ni qi w).

(** [body] has the effect [out] on [t] and [v], started in [w]. *)
Definition effects {A} (o : oracle) (body : nat → M A) (t : rows) (v : table) (w : world)
    (out : effect A) : Prop :=
  ∀ s ss n q ni qi, coherent t ss → visible t ss = t →
    ∃ ss' q' ni' qi' w',
      run (sys_exec o) (body s) (joint_world t s ss n q v ni qi w)
      = Some (answer out, joint_world (api_after out) s ss' n q' (inv_after out) ni' qi' w')
      ∧ progressed (sent out) w w'.

Section bodies.
Context (o : oracle) `{Ook : !OracleOk o}.
Implicit Types (t : rows) (v : table) (w : world).

(** The last step: publish, then answer. *)
Lemma announcing_run {A} (a : A) m t s ss n q v ni qi w :
  let out := announcing (kafka_up w) a t v m in
  ∃ w', run (sys_exec o) (_ <- publish m.1.1 m.1.2 m.2 ;; Ret a) (joint_world t s ss n q v ni qi w)
        = Some (answer out, joint_world (api_after out) s ss n q (inv_after out) ni qi w')
    ∧ progressed (sent out) w w'.
Proof using.
  intros out. unfold out, announcing. rewrite run_bind, run_publish.
  change (kafka_up (joint_world t s ss n q v ni qi w)) with (kafka_up w).
  destruct m as [[ev key] p]. cbn [fst snd].
  destruct (kafka_up w) eqn:Hup.
  - exists (log_record (record_of (clock w) (uuid_draw o (draws w)) (ev, key, p)) (next_draw w)).
    split; [done|]. apply progressed_draw. exact (progressed_log _ (ev, key, p) (next_draw w)).
  - exists (next_draw w). split; [done|]. by apply progressed_nil.
Qed.

(** A call of the Inventory service. *)
Lemma remote_run {A C} (p : M C) (answer : A → C) status (spec : result exn A * table)
    t s ss n q v ni qi w :
  serves_through (sys_exec o) id p (joint_world t s ss n q v ni qi w) v spec answer
    (λ err, client_error o (status err)) (in_session t s ss n q w) →
  let out := System.remote o (fault w) status v spec in
  ∃ ni' qi' w',
    run (sys_exec o) p (joint_world t s ss n q v ni qi w)
    = Some (match out.1 with Ok a => Ok (answer a) | Err e => Err e end,
            joint_world t s ss n q out.2 ni' qi' w')
    ∧ progressed [] w w'.
Proof using.
  intros (ni' & qi' & r & d & w2 & Hrun & Hw2) out. unfold id in Hw2.
  change (fault (in_session t s ss n q w)) with (fault w) in *.
  exists ni', qi', (set_redis r (advance d w)). split; [|by apply progressed_nil].
  rewrite Hrun, Hw2. unfold out, System.remote. cbn [fst snd]. f_equal. f_equal.
  by destruct (fault w), spec.1.
Qed.

Lemma reserve_seats_run self e ord qty t s ss n q v ni qi w :
  consistent v → lock_free e w → lock_usable (lock self) → int32_ok qty = true →
  let spec := Spec.reserve (clock w) (uuid_draw o (S (draws w))) e ord qty
                (reservation_ttl_seconds self) (optimistic_retry_attempts self) v in
  let out := System.remote o (fault w) reserve_status v spec in
  ∃ ni' qi' w',
    run (sys_exec o) (Client.reserve_seats self e ord qty) (joint_world t s ss n q v ni qi w)
    = Some (match out.1 with Ok r => Ok (reservation_result r) | Err err => Err err end,
            joint_world t s ss n q out.2 ni' qi' w')
    ∧ progressed [] w w'.
Proof using.
  intros Hc Hf Hu Hq spec out. unfold out, spec. apply remote_run.
  apply (client_reserve_serves o (sys_exec o) id self e ord qty _ v ni qi
           (in_session t s ss n q w)); [done|done| |done|done].
  by destruct Hf; split.
Qed.

Lemma release_run x t s ss n q v ni qi w :
  consistent v →
  let out := System.release o (fault w) (clock w) x v in
  ∃ ni' qi' w',
    run (sys_exec o) (Client.release_reservation (reservation_id x)) (joint_world t s ss n q v ni qi w)
    = Some (match out.1 with Ok _ => Ok tt | Err err => Err err end,
            joint_world t s ss n q out.2 ni' qi' w')
    ∧ progressed [] w w'.
Proof using.
  intros Hc out. unfold out, System.release.
  apply (remote_run (A := Reservation) (Client.release_reservation (reservation_id x)) (λ _, tt)).
  by apply (client_release_serves o (sys_exec o) id _ _ v ni qi (in_session t s ss n q w)).
Qed.

Lemma confirm_run x t s ss n q v ni qi w :
  consistent v →
  let out := System.confirm o (fault w) (clock w) x v in
  ∃ ni' qi' w',
    run (sys_exec o) (Client.confirm_reservation (reservation_id x)) (joint_world t s ss n q v ni qi w)
    = Some (match out.1 with Ok _ => Ok tt | Err err => Err err end,
            joint_world t s ss n q out.2 ni' qi' w')
    ∧ progressed [] w w'.
Proof using.
  intros Hc out. unfold out, System.confirm.
  apply (remote_run (A := Reservation) (Client.confirm_reservation (reservation_id x)) (λ _, tt)).
  by apply (client_confirm_serves o (sys_exec o) id _ _ v ni qi (in_session t s ss n q w)).
Qed.

(** The status of a loaded order is written and committed. *)
Lemma close_run {A} x st t s ss n q v ni qi w (k : M A) :
  coherent t ss → visible t ss = t → well_formed t →
  loaded ss (ROrder x) → order_status x ≠ st →
  let x' := with_status (clock w) st x in
  let t' := <[KOrder (order_id x) := ROrder x']> t in
  ∃ ss', run (sys_exec o)
      (api_write s (KOrder (order_id x)) (on_order (set_order_status st)) ;; api_commit s ;; k)
      (joint_world t s ss n q v ni qi w)
    = run (sys_exec o) k (joint_world t' s ss' n q v ni qi w)
    ∧ objs ss' !! KOrder (order_id x) = Some (ROrder x', ROrder x').
Proof using.
  intros Hc Hv Hw Hl Hst x' t'.
  pose proof (run_api_change o t s ss n q (quiet v ni qi w) (ROrder x)
    (on_order (set_order_status st)) k Hc Hl) as Hch.
  change (clock (quiet v ni qi w)) with (clock w) in Hch.
  specialize (Hch ltac:(simpl; unfold merge_order; rewrite !col_loaded; done)).
  cbv zeta in Hch. unfold change_error, changed_row in Hch.
  assert (Hne : ROrder x ≠ on_order (set_order_status st) (ROrder x))
    by (simpl; intros [= Heq]; apply Hst; by rewrite Heq).
  rewrite decide_False in Hch by done.
  assert (Hck : api_check_row (updated_row (clock w) (on_order (set_order_status st) (ROrder x))) = None).
  { apply (wf_check t Hw (KOrder (order_id x)) (ROrder x)).
    rewrite <- Hv at 1. by apply (loaded_visible t ss (ROrder x)). }
  rewrite Hck, Hv in Hch. destruct Hch as (ss' & Hrun & _ & _ & Ho & _).
  rewrite decide_False in Hrun by done. rewrite !decide_False in Ho by done. by exists ss'.
Qed.

(** The status change, the instance read back, and what is done with it. *)
Lemma close_then_run {A} x st t s ss n q v ni qi w (k : Order → M A) :
  coherent t ss → visible t ss = t → well_formed t →
  loaded ss (ROrder x) → order_status x ≠ st →
  let x' := with_status (clock w) st x in
  let t' := <[KOrder (order_id x) := ROrder x']> t in
  ∃ ss', run (sys_exec o)
      (api_write s (KOrder (order_id x)) (on_order (set_order_status st)) ;; api_commit s ;;
       order <- BaseRepository.instance as_order s (KOrder (order_id x)) ;; k order)
      (joint_world t s ss n q v ni qi w)
    = run (sys_exec o) (k x') (joint_world t' s ss' n q v ni qi w).
Proof using.
  intros Hc Hv Hw Hl Hst x' t'.
  destruct (close_run x st t s ss n q v ni qi w
    (order <- BaseRepository.instance as_order s (KOrder (order_id x)) ;; k order) Hc Hv Hw Hl Hst)
    as (ss' & Hrun & Ho).
  exists ss'. rewrite Hrun. unfold BaseRepository.instance, joint_world. rewrite !run_bind.
  by erewrite run_api_instance by done.
Qed.

(** The Inventory service has answered: settle the order. *)
Lemma settle_run {A} x st m (f : Order → A) t s ss n q v ni qi w r :
  coherent t ss → visible t ss = t → well_formed t →
  loaded ss (ROrder x) → order_status x ≠ st →
  let out := System.settle (kafka_up w) (clock w) st m x f t (Ok r, v) in
  ∃ ss' w',
    run (sys_exec o)
      (api_write s (KOrder (order_id x)) (on_order (set_order_status st)) ;; api_commit s ;;
       order <- BaseRepository.instance as_order s (KOrder (order_id x)) ;;
       _ <- publish (m order).1.1 (m order).1.2 (m order).2 ;; Ret (f order))
      (joint_world t s ss n q v ni qi w)
    = Some (answer out, joint_world (api_after out) s ss' n q (inv_after out) ni qi w')
    ∧ progressed (sent out) w w'.
Proof using.
  intros Hc Hv Hw Hl Hst out.
  destruct (close_then_run x st t s ss n q v ni qi w
    (λ order, _ <- publish (m order).1.1 (m order).1.2 (m order).2 ;; Ret (f order)) Hc Hv Hw Hl Hst)
    as (ss' & Hrun).
  destruct (announcing_run (f (with_status (clock w) st x)) (m (with_status (clock w) st x))
    (<[KOrder (order_id x) := ROrder (with_status (clock w) st x)]> t) s ss' n q v ni qi w)
    as (w' & Ha & Hp).
  exists ss', w'. split; [refine (eq_trans Hrun _); exact Ha | exact Hp].
Qed.
End bodies.

(** ** From bodies to calls *)
Section calls.
Context {W : Type} (o : oracle) (impl : handler sys_op W) (obs : W → world).
Context `{P : !Platform (sys_exec o) impl obs}.

(** Both databases at rest, holding [t] and [v]. *)
Definition resting (w : world) (t : rows) (v : table) : Prop :=
  ∃ n q ni qi, api_db w = Database t ∅ n q ∧ inv_db w = Database v ∅ ni qi.

(** The call [p] made in [w] has the effect [out], and the databases it leaves
    at rest are again tied to each other. *)
Definition performs {A} (p : M A) (w : W) (out : effect A) : Prop :=
  ∃ w', run impl p w = Some (answer out, w')
    ∧ resting (obs w') (api_after out) (inv_after out)
    ∧ joint (api_after out) (inv_after out)
    ∧ progressed (sent out) (obs w) (obs w').

Lemma resting_idle w t v :
  resting w t v → ∃ n q ni qi, w = api_idle t n q (quiet v ni qi w).
Proof using.
  intros (n & q & ni & qi & Ha & Hi). exists n, q, ni, qi. unfold api_idle, quiet.
  rewrite <- Ha, <- Hi. by destruct w.
Qed.

Lemma progressed_tables ms w t n q v ni qi w' :
  progressed ms w w' → progressed ms w (api_idle t n q (quiet v ni qi w')).
Proof using. intros [Hl ? ? ?]. by split. Qed.

Lemma request_performs {A} (body : nat → M A) w t v out :
  resting (obs w) t v → joint (api_after out) (inv_after out) →
  effects o body t v (obs w) out → performs (get_db body) w out.
Proof using P.
  intros (n & q & ni & qi & Hw)%resting_idle Hj Hb.
  destruct (Hb n empty_session (S n) q ni qi (coherent_empty t) (visible_empty t))
    as (ss & q' & ni' & qi' & w1 & Hrun & Hp).
  apply (get_db_run o body) in Hrun. rewrite <- Hw in Hrun.
  destruct (runs_to_doc (impl := impl) _ w _ _ Hrun) as (w' & Hrun' & Hobs).
  exists w'. split; [done|]. rewrite Hobs. split; [by exists (S n), q', ni', qi'|].
  split; [done | by apply progressed_tables].
Qed.

Lemma worker_performs {A} (body : nat → M A) w t v out :
  resting (obs w) t v → joint (api_after out) (inv_after out) →
  effects o body t v (obs w) out → performs (SessionFactory body) w out.
Proof using P.
  intros (n & q & ni & qi & Hw)%resting_idle Hj Hb.
  destruct (Hb n empty_session (S n) q ni qi (coherent_empty t) (visible_empty t))
    as (ss & q' & ni' & qi' & w1 & Hrun & Hp).
  apply (SessionFactory_run o body) in Hrun. rewrite <- Hw in Hrun.
  destruct (runs_to_doc (impl := impl) _ w _ _ Hrun) as (w' & Hrun' & Hobs).
  exists w'. split; [done|]. rewrite Hobs. split; [by exists (S n), q', ni', qi'|].
  split; [done | by apply progressed_tables].
Qed.
End calls.
