(* ===== verification/BookingCorrectness.v ===== *)
(** * Correctness of bookings

    [BookingService] against the effects of [SystemSpec]: what a booking and a
    cancellation answer, the rows they leave in both databases and the messages
    they send, whatever the network and the broker do; replays under an
    idempotency key; and the empty key. *)
From S2P Require Import Prelude Effects Json Uuid Domain Orm OrmFacts Redis.
From S2P Require Import InventoryModels.
From S2P Require Import ApiModels Platform SessionRuns Kafka Pagination.
From S2P Require Import ApiRepositories ApiRuns.
From S2P Require Import InventoryRepository Locking InventoryService InventoryServicer.
From S2P Require Import InventorySpec InventoryInvariant InventoryRefinement.
From S2P Require Import InventoryCorrectness.
From S2P Require Import RpcCorrectness EventService BookingService SystemSpec.
From S2P Require Import SystemRuns.

Section bodies.
Context (o : oracle) `{Ook : !OracleOk o}.
Variable self : InventoryService.
Implicit Types (t : rows) (v : table) (w : world).

(** Writing the order, committing and announcing it. *)
Lemma store_order_run t s ss n q v ni qi w x :
  coherent t ss → visible t ss = t →
  let new := mkOrder (order_id x) (order_user_id x) (order_event_id x) (reservation_id x)
    (order_quantity x) (unit_price_cents x) (total_price_cents x) (order_status x)
    (idempotency_key x) (Some (clock w)) (Some (clock w)) in
  let out := match insert_error t (ROrder new) with
             | Some err => Effect (Err err) t v []
             | None => announcing (kafka_up w) new (<[KOrder (order_id x) := ROrder new]> t) v
                         (order_created new)
             end in
  ∃ ss' w',
    run (sys_exec o)
      (order <- OrderRepository.add s x ;;
       api_commit s ;;
       BookingService.publish_created order ;;
       Ret order) (joint_world t s ss n q v ni qi w)
    = Some (answer out, joint_world (api_after out) s ss' n q (inv_after out) ni qi w')
    ∧ progressed (sent out) w w'.
Proof using.
  intros Hc Hv new out. unfold OrderRepository.add.
  pose proof (add_run o t s ss n q (quiet v ni qi w) Hc as_order ROrder x
    ltac:(done) ltac:(by eexists)) as Hadd.
  cbv zeta in Hadd. change (inserted_row _ (ROrder x)) with (ROrder new) in Hadd. rewrite Hv in Hadd.
  unfold joint_world. rewrite run_bind, Hadd. unfold out.
  destruct (insert_error t (ROrder new)) as [err|] eqn:Hins.
  { exists empty_session, w. split; [done | apply progressed_refl]. }
  cbn [as_order]. cbv iota beta.
  destruct (with_new_coherent t ss (ROrder new) Hc) as (Hc1 & Hv1 & _). rewrite Hv in Hv1.
  destruct (run_api_commit o t s (with_new ss (ROrder new)) n q (quiet v ni qi w) Hc1)
    as (ss2 & Hcm & _). rewrite Hv1 in Hcm. rewrite run_bind, Hcm. exists ss2.
  exact (announcing_run o new (order_created new) _ s ss2 n q v ni qi w).
Qed.

Lemma book_new_effects user e qty key t v w :
  well_formed t → consistent v → lock_free e w → lock_usable (lock self) → int32_ok qty = true →
  effects o (λ s, BookingService.book_new self s user e qty key) t v w
    (System.book_new o (fault w) (kafka_up w) (clock w) self
       (uuid_draw o (draws w)) (uuid_draw o (S (S (draws w)))) user e qty key t v).
Proof using.
  intros Hw Hok Hf Hu Hq s ss n q ni qi Hc Hv. unfold BookingService.book_new, System.book_new.
  assert (Hvw : well_formed (visible t ss)) by by rewrite Hv.
  destruct (event_get_run o t s ss n q (quiet v ni qi w) Hc Hvw e) as (ss1 & Hrun & [Hc1 Hv1 _] & _).
  rewrite Hv in Hrun, Hv1. unfold joint_world at 1. rewrite run_bind, Hrun.
  destruct (event_of t e) as [ev|] eqn:Hev.
  2: { exists ss1, q, ni, qi, w. split; [done | apply progressed_refl]. }
  rewrite run_bind. change (run _ uuid4 _) with
    (Some (Ok (X := exn) (uuid_draw o (draws w)), joint_world t s ss1 n q v ni qi (next_draw w))).
  cbv iota beta.
  destruct (reserve_seats_run o self e (uuid_draw o (draws w)) qty t s ss1 n q v ni qi (next_draw w))
    as (ni2 & qi2 & w2 & Hres & Hp); [done|by destruct Hf; split|done|done|].
  change (fault (next_draw w)) with (fault w) in Hres.
  change (clock (next_draw w)) with (clock w) in Hres.
  change (draws (next_draw w)) with (S (draws w)) in Hres.
  rewrite run_bind, Hres. clear Hres.
  destruct (System.remote _ _ _ _ _) as [[r|err] v2] eqn:Hremote; cbn [fst snd].
  2: { exists ss1, q, ni2, qi2, w2. split; [done|].
       by apply progressed_draw. }
  destruct (price_field (price_cents ev)) as [price|err].
  2: { exists ss1, q, ni2, qi2, w2. split; [done|].
       by apply progressed_draw. }
  simpl (bind (of_result _) _). change (result_reservation_id (reservation_result r)) with (uuid_str (res_id r)).
  destruct (store_order_run t s ss1 n q v2 ni2 qi2 w2
    (mkOrder (uuid_draw o (draws w)) (user_id user) e (uuid_str (res_id r)) qty price (price * qty)
       OrderStatus.PENDING key None None) Hc1 Hv1) as (ss3 & w3 & Hst & Hp3).
  destruct Hp as [Hlog Hclock Hmails (Hf1 & Hf2 & Hf3)].
  change (clock (next_draw w)) with (clock w) in Hclock.
  change (kafka_up (next_draw w)) with (kafka_up w) in Hf2.
  rewrite Hclock, Hf2 in Hst, Hp3.
  exists ss3, q, ni2, qi2, w3. split; [exact Hst|].
  apply progressed_draw, (progressed_then _ _ w2); [|exact Hp3]. by split.
Qed.

Lemma book_tickets_effects user e qty key t v w :
  well_formed t → consistent v → lock_free e w → lock_usable (lock self) → int32_ok qty = true →
  effects o (λ s, BookingService.book_tickets self s user e qty key) t v w
    (System.book o (fault w) (kafka_up w) (clock w) self
       (uuid_draw o (draws w)) (uuid_draw o (S (S (draws w)))) user e qty key t v).
Proof using Ook.
  intros Hw Hok Hf Hu Hq s ss n q ni qi Hc Hv.
  unfold BookingService.book_tickets, System.book.
  destruct (given key) as [k|]; [|by apply book_new_effects].
  assert (Hvw : well_formed (visible t ss)) by by rewrite Hv.
  destruct (get_by_key_run o t s ss n q (quiet v ni qi w) Hc Hvw (user_id user) k)
    as (ss1 & Hrun & [Hc1 Hv1 _]).
  rewrite Hv in Hrun, Hv1. unfold joint_world at 1. rewrite run_bind, Hrun.
  cbn [mbind option_bind]. destruct (order_with_key t (user_id user) k) as [x|].
  - exists ss1, (S q), ni, qi, w. split; [done | apply progressed_refl].
  - by apply book_new_effects.
Qed.

(** A booking under a key the user has used. *)
Lemma known_key_effects user e qty k t v w x :
  well_formed t → k ≠ "" → order_with_key t (user_id user) k = Some x →
  effects o (λ s, BookingService.book_tickets self s user e qty (Some k)) t v w (Effect (Ok x) t v []).
Proof using Ook.
  intros Hw Hk Hx s ss n q ni qi Hc Hv. unfold BookingService.book_tickets.
  assert (Hg : given (Some k) = Some k) by (simpl; by rewrite decide_False). rewrite Hg.
  assert (Hvw : well_formed (visible t ss)) by by rewrite Hv.
  destruct (get_by_key_run o t s ss n q (quiet v ni qi w) Hc Hvw (user_id user) k)
    as (ss1 & Hrun & [Hc1 Hv1 _]).
  rewrite Hv in Hrun. unfold joint_world at 1. rewrite run_bind, Hrun, Hx.
  exists ss1, (S q), ni, qi, w. split; [done | apply progressed_refl].
Qed.

Lemma cancel_order_effects id user t v w :
  well_formed t → consistent v →
  effects o (λ s, BookingService.cancel_order s id user) t v w
    (System.cancel o (fault w) (kafka_up w) (clock w) id user t v).
Proof using Ook.
  intros Hw Hok s ss n q ni qi Hc Hv. unfold BookingService.cancel_order, System.cancel.
  assert (Hvw : well_formed (visible t ss)) by by rewrite Hv.
  destruct (get_for_user_run o t s ss n q (quiet v ni qi w) Hc Hvw id (user_id user))
    as (ss1 & Hrun & [Hc1 Hv1 _] & Hl).
  rewrite Hv in Hrun, Hv1, Hl. unfold joint_world at 1. rewrite run_bind, Hrun.
  destruct (order_for t id (user_id user)) as [x|] eqn:Hx.
  2: { exists ss1, (S q), ni, qi, w. split; [done | apply progressed_refl]. }
  assert (Hu : order_user_id x = user_id user).
  { apply bind_Some in Hx as (x' & _ & Hd). case_decide; [|done]. by injection Hd as <-. }
  rewrite bool_decide_eq_true_2 by done. cbn [negb].
  destruct (BookingService.already_closed (order_status x)) eqn:Hclosed.
  { exists ss1, (S q), ni, qi, w. split; [done | apply progressed_refl]. }
  destruct (release_run o x t s ss1 n (S q) v ni qi w Hok) as (ni2 & qi2 & w2 & Hrel & Hp).
  fold (joint_world t s ss1 n (S q) v ni qi w). rewrite run_bind, Hrel. clear Hrel.
  destruct (System.release o (fault w) (clock w) x v) as [[r|err] v2]; cbn [fst snd].
  2: { by exists ss1, (S q), ni2, qi2, w2. }
  destruct Hp as [Hlog Hclock Hmails (Hf1 & Hf2 & Hf3)].
  destruct (settle_run o x OrderStatus.CANCELLED order_cancelled (λ x, x) t s ss1 n (S q) v2 ni2 qi2
    w2 r) as (ss2 & w3 & Hcl & Hp3); [done|done|done|by apply Hl|by intros Hs; rewrite Hs in Hclosed|].
  rewrite Hclock, Hf2 in Hcl, Hp3. exists ss2, (S q), ni2, qi2, w3.
  split; [|apply (progressed_then _ _ w2); [by split | exact Hp3]].
  exact Hcl.
Qed.
End bodies.

(** ** What bookings promise *)
Section contract.
Context {W : Type} (o : oracle) (impl : handler sys_op W) (obs : W → world).
Context `{P : !Platform (sys_exec o) impl obs} `{Ook : !OracleOk o}.
Variable self : InventoryService.
Implicit Types (t : rows) (v : table).

(** The effect of a booking made in [w]. *)
Definition booking (w : world) (user : User) (e : uuid) (qty : Z) (key : option string)
    (t : rows) (v : table) : effect Order :=
  System.book o (fault w) (kafka_up w) (clock w) self (uuid_draw o (draws w))
    (uuid_draw o (S (S (draws w)))) user e qty key t v.

Definition cancellation (w : world) (id : uuid) (user : User) (t : rows) (v : table) : effect Order :=
  System.cancel o (fault w) (kafka_up w) (clock w) id user t v.

Lemma quantity_int32 q : quantity_valid q = true → int32_ok q = true.
Proof using. unfold quantity_valid, int32_ok, int32_min, int32_max. lia. Qed.

Lemma book_tickets_performs w t v user e qty key :
  resting (obs w) t v → joint t v → lock_free e (obs w) → lock_usable (lock self) →
  quantity_valid qty = true →
  performs impl obs (get_db (λ s, BookingService.book_tickets self s user e qty key)) w
    (booking (obs w) user e qty key t v).
Proof using P Ook.
  intros Hr Hj Hf Hu Hq. apply (request_performs o impl obs _ w t v); [done | by apply book_joint|].
  apply book_tickets_effects; try done; [apply Hj..|by apply quantity_int32].
Qed.

(** C12. A booking, the event's lock being free: the order already made under the
    key; or no such event; or the Inventory service's refusal, translated; or an
    error of the network, with the seats held if only the reply was lost; or the
    refusal of the order's row, with the seats held; or the order, stored with
    its reservation and announced once; or, with the broker down, the order
    stored, nothing announced and the broker's error for an answer.  Whatever
    happens on the network and at the broker, the two databases stay tied to
    each other. *)
Theorem book_tickets_outcome w t v user e qty key :
  resting (obs w) t v → joint t v → lock_free e (obs w) → lock_usable (lock self) →
  quantity_valid qty = true →
  performs impl obs (get_db (λ s, BookingService.book_tickets self s user e qty key)) w
    (booking (obs w) user e qty key t v).
Proof using P Ook. apply book_tickets_performs. Qed.

(** C13. Cancelling an order answers and leaves exactly what [System.cancel]
    specifies, whatever the network and the broker do: an order of another user
    is not found, a closed one is refused, both without effect; otherwise the
    Inventory service is asked to release the reservation.  If the request is
    lost or the service refuses, nothing changes and the error is answered; if
    only the reply is lost, the seats are back, the order is as it was and the
    error is answered; else the order is CANCELLED and the cancellation
    announced, or, with the broker down, CANCELLED with nothing announced and
    the broker's error for an answer. *)
Theorem cancel_order_outcome w t v id user :
  resting (obs w) t v → joint t v →
  performs impl obs (get_db (λ s, BookingService.cancel_order s id user)) w
    (cancellation (obs w) id user t v).
Proof using P Ook.
  intros Hr Hj. apply (request_performs o impl obs _ w t v); [done | by apply cancel_joint|].
  apply cancel_order_effects; [done|apply Hj..].
Qed.

(** The order a successful booking has stored. *)
Lemma booking_Ok net kafka now oid rid user e qty key t v x :
  joint t v →
  let out := System.book o net kafka now self oid rid user e qty key t v in
  answer out = Ok x →
  (given key ≫= order_with_key t (user_id user) = Some x ∧ out = Effect (Ok x) t v [])
  ∨ (∃ r price,
      let spec := Spec.reserve now rid e oid qty (reservation_ttl_seconds self)
                    (optimistic_retry_attempts self) v in
      given key ≫= order_with_key t (user_id user) = None
      ∧ spec.1 = Ok r ∧ x = System.new_order now oid user e (uuid_str (res_id r)) qty price key
      ∧ insert_error t (ROrder x) = None
      ∧ out = Effect (Ok x) (<[KOrder oid := ROrder x]> t) spec.2 [order_created x]).
Proof using.
  intros Hj out. unfold out, System.book.
  destruct (given key ≫= order_with_key t (user_id user)) as [x'|]; [left; by simplify_eq/=|].
  unfold System.book_new. destruct (event_of t e) as [ev|]; [|done].
  set (spec := Spec.reserve _ _ _ _ _ _ _ _).
  pose proof (remote_Ok o net reserve_status v spec) as Hok.
  destruct (System.remote o net reserve_status v spec) as [[r|err] v']; [|done].
  destruct (price_field _) as [price|err]; [|done].
  destruct (insert_error t _) eqn:Hins; [done|].
  destruct (Hok r eq_refl) as (_ & Hr & Hv'). cbn [snd] in Hv'. subst v'. unfold announcing. destruct kafka; [|done].
  intros [= <-]. right. exists r, price. by split_and!.
Qed.

(** A booked order is backed: its reservation exists, is PENDING, and is
    for the same event, order and number of seats; the order is PENDING at the
    event's price. *)
Theorem booking_backed w t v user e qty key x :
  joint t v → answer (booking (obs w) user e qty key t v) = Ok x →
  given key ≫= order_with_key t (user_id user) = None →
  let out := booking (obs w) user e qty key t v in
  order_of (api_after out) (order_id x) = Some x
  ∧ order_status x = OrderStatus.PENDING
  ∧ total_price_cents x = unit_price_cents x * qty
  ∧ ∃ rid r, reservation_id x = uuid_str rid ∧ res_of (inv_after out) rid = Some r
      ∧ status r = ReservationStatus.PENDING ∧ res_order_id r = order_id x
      ∧ res_event_id r = e ∧ quantity r = qty.
Proof using.
  intros Hj Hx Hnew out. destruct (booking_Ok _ _ _ _ _ _ _ _ _ _ _ _ Hj Hx) as [[Hold _]|Hb];
    [congruence|].
  destruct Hb as (r & price & _ & Hr & -> & Hins & Hout). unfold out, booking. rewrite Hout.
  destruct (reserve_result (clock (obs w)) (uuid_draw o (S (S (draws (obs w))))) e
    (uuid_draw o (draws (obs w))) qty (reservation_ttl_seconds self)
    (optimistic_retry_attempts self) v (joint_inv _ _ Hj)) as [_ Hres].
  destruct (Hres r Hr) as (Hid & Hin & Hord & Hev & Hq & Hst & _).
  cbn [api_after inv_after]. rewrite order_of_insert, decide_True by done.
  split_and!; try done. exists (res_id r), r. rewrite Hid. by split_and!.
Qed.

(** The key of the order a booking under it answers. *)
Lemma booked_under_key w t v user e qty k x :
  joint t v → k ≠ "" → answer (booking (obs w) user e qty (Some k) t v) = Ok x →
  order_user_id x = user_id user ∧ idempotency_key x = Some k.
Proof using.
  intros Hj Hk Hx. assert (Hg : given (Some k) = Some k) by (simpl; by rewrite decide_False).
  destruct (booking_Ok _ _ _ _ _ _ _ _ _ _ _ _ Hj Hx) as [[Hold _]|(r & price & _ & _ & -> & _)]; [|done].
  rewrite Hg in Hold. by apply order_with_key_spec in Hold as (_ & ? & ?); [|apply Hj].
Qed.

(** C22. Retrying a booking.  Once a booking under a (non-empty) key has answered
    an order, any booking of that user under that key, for whatever event and
    number of seats, and whatever the lock, the network and the broker do,
    answers that order as it then is, changes neither database and announces
    nothing; anything may have happened in between that keeps the order with its
    user and key. *)
Theorem booking_replay w w1 w2 t v t2 v2 user e qty k x y e2 qty2 :
  resting (obs w) t v → joint t v → lock_free e (obs w) → lock_usable (lock self) →
  quantity_valid qty = true → k ≠ "" →
  run impl (get_db (λ s, BookingService.book_tickets self s user e qty (Some k))) w = Some (Ok x, w1) →
  resting (obs w2) t2 v2 → joint t2 v2 →
  order_of t2 (order_id x) = Some y →
  order_user_id y = order_user_id x → idempotency_key y = idempotency_key x →
  performs impl obs (get_db (λ s, BookingService.book_tickets self s user e2 qty2 (Some k))) w2
    (Effect (Ok y) t2 v2 []).
Proof using P Ook.
  intros Hr Hj Hf Hu Hq Hk Hrun Hr2 Hj2 Hy Hyu Hyk.
  destruct (book_tickets_performs w t v user e qty (Some k) Hr Hj Hf Hu Hq) as (w1' & Hrun' & _).
  rewrite Hrun in Hrun'. injection Hrun' as Hx _. symmetry in Hx.
  destruct (booked_under_key w t v user e qty k x Hj Hk Hx) as [Hxu Hxk].
  apply (request_performs o impl obs _ w2 t2 v2); [exact Hr2|exact Hj2|].
  apply (known_key_effects o); [exact (joint_api _ _ Hj2)|done|]. apply order_with_key_spec; [exact (joint_api _ _ Hj2)|].
  pose proof (order_of_id t2 (joint_api _ _ Hj2) _ _ Hy) as Hid.
  split_and!; congruence.
Qed.

(** The refusal of an order whose key the same user already has. *)
Lemma duplicate_key_refused t x x0 k :
  order_of t (order_id x0) = Some x0 → order_user_id x0 = order_user_id x →
  idempotency_key x0 = Some k → idempotency_key x = Some k →
  ∃ err, insert_error t (ROrder x) = Some err ∧ (err = IntegrityError ∨ err = DataError).
Proof using.
  intros Hx0%order_of_lookup Hu Hk0 Hk. unfold insert_error. change (check_row (ROrder x))
    with (api_check_row (ROrder x)).
  destruct (api_check_row (ROrder x)) as [err|] eqn:Hck.
  - exists err. split; [done|]. simpl in Hck. repeat case_match; simplify_eq; auto.
  - exists IntegrityError. rewrite bool_decide_eq_false_2; [by split; [|left]|].
    intros (_ & Hconf & _). specialize (Hconf _ _ Hx0). simpl in Hconf.
    rewrite Hk, Hk0 in Hconf. apply andb_false_iff in Hconf as [Hc|Hc];
      apply bool_decide_eq_false in Hc; congruence.
Qed.

(** A booking the database refuses after the seats were reserved answers
    the refusal and leaves the seats held, by a PENDING reservation no order of
    the user names; so does a second booking under an empty key, which the
    lookup skips and the unique index does not. *)
Theorem refused_booking_holds_seats w t v user e qty ev price x0 r :
  joint t v → fault (obs w) = NoFault → event_of t e = Some ev → price_cents ev = Some price →
  order_of t (order_id x0) = Some x0 → order_user_id x0 = user_id user →
  idempotency_key x0 = Some "" →
  (Spec.reserve (clock (obs w)) (uuid_draw o (S (S (draws (obs w))))) e
     (uuid_draw o (draws (obs w))) qty (reservation_ttl_seconds self)
     (optimistic_retry_attempts self) v).1 = Ok r →
  let out := booking (obs w) user e qty (Some "") t v in
  (answer out = Err IntegrityError ∨ answer out = Err DataError)
  ∧ api_after out = t ∧ sent out = []
  ∧ res_of (inv_after out) (res_id r) = Some r ∧ status r = ReservationStatus.PENDING
  ∧ quantity r = qty ∧ res_order_id r = uuid_draw o (draws (obs w)).
Proof using.
  intros Hj Hnet Hev Hprice Hx0 Hu Hk Hspec out.
  destruct (reserve_result (clock (obs w)) (uuid_draw o (S (S (draws (obs w))))) e
    (uuid_draw o (draws (obs w))) qty (reservation_ttl_seconds self)
    (optimistic_retry_attempts self) v (joint_inv _ _ Hj)) as [_ Hres].
  destruct (Hres r Hspec) as (Hid & Hin & Hord & Hev' & Hq & Hst & _).
  unfold out, booking, System.book, System.book_new. change (given (Some "")) with (@None string).
  cbn [mbind option_bind]. rewrite Hev, Hnet.
  set (spec := Spec.reserve _ _ _ _ _ _ _ _) in *.
  assert (Hremote : System.remote o NoFault reserve_status v spec = (Ok r, spec.2))
    by (unfold System.remote; cbn [through arrived]; by rewrite Hspec).
  rewrite Hremote, Hprice. cbn [price_field].
  destruct (duplicate_key_refused t (System.new_order (clock (obs w)) (uuid_draw o (draws (obs w)))
    user e (uuid_str (res_id r)) qty price (Some "")) x0 "" Hx0 Hu Hk eq_refl) as (err & Hins & Herr).
  rewrite Hins. cbn [answer api_after inv_after sent]. rewrite Hid.
  split_and!; try done. destruct Herr as [-> | ->]; auto.
Qed.

End contract.

(** ** A sample shop *)
Definition sample_ticket_event : Event :=
  mkEvent sample_event (Some "Recital") None (Some "Hall") (Some 0) (Some 10) (Some 2500)
    (uuid_of_N 7) (Some 0) (Some 0).

Definition shop_user : User :=
  mkUser (uuid_of_N 7) "ada@example.org" "hash" "Ada" ATTENDEE true (Some 0) (Some 0).

(** A user, an event at 2500 cents, and ten free seats. *)
Definition shop_rows : rows :=
  <[KEvent sample_event := REvent sample_ticket_event]> {[KUser (uuid_of_N 7) := RUser shop_user]}.
Definition shop_inventory : table := apply_operations [OpInitialize sample_event 10] ∅.

Definition shop_world : world :=
  set_api_db (Database shop_rows ∅ 0 0) (set_inv_db (Database shop_inventory ∅ 0 0) initial_world).

Lemma shop_joint : joint shop_rows shop_inventory.
Proof.
  split.
  - refine (insert_well_formed _ (REvent sample_ticket_event)
      (insert_well_formed ∅ (RUser shop_user) empty_well_formed _) _); vm_compute; reflexivity.
  - apply operations_consistent, empty_consistent.
  - intros id x Hx%order_of_lookup. unfold shop_rows in Hx.
    by rewrite lookup_insert_ne, lookup_singleton_ne in Hx.
Qed.

Lemma shop_rests : resting shop_world shop_rows shop_inventory.
Proof. by exists 0%nat, 0%nat, 0%nat, 0%nat. Qed.

(** The shop after a booking of three seats under the key [key]. *)
Definition sample_booking (key : string) : effect Order :=
  booking sample_oracle default_service shop_world shop_user sample_event 3 (Some key)
    shop_rows shop_inventory.
Definition booked_world (key : string) : world :=
  World (Database (inv_after (sample_booking key)) ∅ 0 0)
    (Database (api_after (sample_booking key)) ∅ 0 0) ∅ true [] true [] NoFault 0 10.

Lemma booked_joint key : joint (api_after (sample_booking key)) (inv_after (sample_booking key)).
Proof. apply book_joint, shop_joint. Qed.

Definition booked_order (key : string) : Order :=
  mkOrder (uuid_of_N 1000) (uuid_of_N 7) sample_event (uuid_str (uuid_of_N 1002)) 3 2500 7500
    OrderStatus.PENDING (Some key) (Some 0) (Some 0).

Lemma book_tickets_outcome_witness :
  performs (sys_exec sample_oracle) id
    (get_db (λ s, BookingService.book_tickets default_service s shop_user sample_event 3 (Some "k")))
    shop_world (sample_booking "k").
Proof.
  apply (book_tickets_outcome sample_oracle (sys_exec sample_oracle) id default_service shop_world
           shop_rows shop_inventory shop_user sample_event 3 (Some "k")).
  - apply shop_rests.
  - apply shop_joint.
  - by destruct (sample_lock_free sample_event).
  - apply sample_lock_usable.
  - reflexivity.
Defined.

Lemma cancel_order_outcome_witness :
  performs (sys_exec sample_oracle) id
    (get_db (λ s, BookingService.cancel_order s (uuid_of_N 1000) shop_user)) (booked_world "k")
    (cancellation sample_oracle (booked_world "k") (uuid_of_N 1000) shop_user
       (api_after (sample_booking "k")) (inv_after (sample_booking "k"))).
Proof.
  apply (cancel_order_outcome sample_oracle (sys_exec sample_oracle) id (booked_world "k")
           (api_after (sample_booking "k")) (inv_after (sample_booking "k"))
           (uuid_of_N 1000) shop_user).
  - by exists 0%nat, 0%nat, 0%nat, 0%nat.
  - apply booked_joint.
Defined.

Lemma booking_backed_witness :
  order_of (api_after (sample_booking "k")) (uuid_of_N 1000) = Some (booked_order "k").
Proof.
  apply (booking_backed sample_oracle id default_service shop_world shop_rows shop_inventory
           shop_user sample_event 3 (Some "k") (booked_order "k")).
  - apply shop_joint.
  - vm_compute. reflexivity.
  - vm_compute. reflexivity.
Defined.

(** The same order asked for again, of another event even, with Redis and the
    broker down. *)
Definition outage_replay : world :=
  World (Database (inv_after (sample_booking "k")) ∅ 0 0)
    (Database (api_after (sample_booking "k")) ∅ 0 0) ∅ false [] false [] NoFault 0 10.

Lemma outage_replay_rests :
  resting outage_replay (api_after (sample_booking "k")) (inv_after (sample_booking "k")).
Proof. exists 0%nat, 0%nat, 0%nat, 0%nat. split; reflexivity. Qed.

Lemma sample_booking_answer : answer (sample_booking "k") = Ok (booked_order "k").
Proof. vm_compute. reflexivity. Qed.

Lemma booked_order_stored :
  order_of (api_after (sample_booking "k")) (order_id (booked_order "k")) = Some (booked_order "k").
Proof. vm_compute. reflexivity. Qed.

Lemma booking_replay_witness :
  performs (sys_exec sample_oracle) id
    (get_db (λ s, BookingService.book_tickets default_service s shop_user (uuid_of_N 5) 9 (Some "k")))
    outage_replay
    (Effect (Ok (booked_order "k")) (api_after (sample_booking "k")) (inv_after (sample_booking "k")) []).
Proof.
  assert (Hfree : lock_free sample_event shop_world) by by destruct (sample_lock_free sample_event).
  destruct (book_tickets_performs sample_oracle (sys_exec sample_oracle) id default_service shop_world
    shop_rows shop_inventory shop_user sample_event 3 (Some "k")) as (w1 & Hrun & _);
    [apply shop_rests|apply shop_joint|exact Hfree|apply sample_lock_usable|reflexivity|].
  change (booking _ _ _ _ _ _ _ _ _) with (sample_booking "k") in Hrun.
  rewrite sample_booking_answer in Hrun.
  apply (booking_replay sample_oracle (sys_exec sample_oracle) id default_service shop_world w1 outage_replay
           shop_rows shop_inventory (api_after (sample_booking "k")) (inv_after (sample_booking "k"))
           shop_user sample_event 3 "k" (booked_order "k") (booked_order "k")).
  - apply shop_rests.
  - apply shop_joint.
  - exact Hfree.
  - apply sample_lock_usable.
  - reflexivity.
  - discriminate.
  - exact Hrun.
  - exact outage_replay_rests.
  - exact (booked_joint "k").
  - exact booked_order_stored.
  - reflexivity.
  - reflexivity.
Defined.

Lemma refused_booking_holds_seats_witness :
  api_after (booking sample_oracle default_service (booked_world "") shop_user sample_event 3 (Some "")
    (api_after (sample_booking "")) (inv_after (sample_booking "")))
  = api_after (sample_booking "").
Proof.
  apply (refused_booking_holds_seats sample_oracle id default_service (booked_world "")
           (api_after (sample_booking "")) (inv_after (sample_booking "")) shop_user sample_event 3
           sample_ticket_event 2500 (booked_order "")
           (mkReservation (uuid_of_N 1012) sample_event (uuid_of_N 1010) 3 ReservationStatus.PENDING
              600000000 (Some 0) (Some 0))).
  - apply booked_joint.
  - reflexivity.
  - vm_compute. reflexivity.
  - reflexivity.
  - vm_compute. reflexivity.
  - reflexivity.
  - reflexivity.
  - vm_compute. reflexivity.
Defined.
