(* ===== verification/WorkerCorrectness.v ===== *)
(** * Correctness of the workers

    What a message on the bus makes of the two databases and of the bus
    itself: the order worker against the effects of [SystemSpec], the payment,
    notification and event-sync handlers, and redelivered messages. *)
From S2P Require Import Prelude Effects Json Uuid Domain Orm OrmFacts Redis.
From S2P Require Import InventoryModels.
From S2P Require Import ApiModels Platform SessionRuns Kafka Pagination.
From S2P Require Import ApiRepositories ApiRuns.
From S2P Require Import InventoryRepository Locking InventoryService InventoryServicer.
From S2P Require Import InventorySpec InventoryInvariant InventoryRefinement.
From S2P Require Import InventoryCorrectness.
From S2P Require Import RpcCorrectness EventService BookingService SystemSpec.
From S2P Require Import SystemRuns.
From S2P Require Import BookingCorrectness Workers.

Section bodies.
Context (o : oracle) `{Ook : !OracleOk o}.
Implicit Types (t : rows) (v : table) (w : world).

(** What the order worker does in its session, given the outcome of the
    payment. *)
Definition settle_payment (id : uuid) (success : bool) (s : nat) : M unit :=
  order <- OrderStatusWorker.get_pending s id ;;
  match order with
  | None => Ret tt
  | Some order =>
      if success then
        Client.confirm_reservation (reservation_id order) ;;
        order <- OrderStatusWorker.close_order s id OrderStatus.CONFIRMED ;;
        publish (ticket_issued order).1.1 (ticket_issued order).1.2 (ticket_issued order).2
      else
        Client.release_reservation (reservation_id order) ;;
        order <- OrderStatusWorker.close_order s id OrderStatus.CANCELLED ;;
        publish (order_cancelled order).1.1 (order_cancelled order).1.2 (order_cancelled order).2
  end.

Definition settle_expiry (id : uuid) (s : nat) : M unit :=
  order <- OrderStatusWorker.get_pending s id ;;
  match order with
  | None => Ret tt
  | Some _ => _ <- OrderStatusWorker.close_order s id OrderStatus.EXPIRED ;; Ret tt
  end.

Lemma get_pending_run t s ss n q w id :
  coherent t ss → well_formed t → visible t ss = t →
  ∃ ss', run (sys_exec o) (OrderStatusWorker.get_pending s id) (in_session t s ss n q w)
         = Some (Ok (System.pending_order t id), in_session t s ss' n q w)
    ∧ extends t ss ss' ∧ (∀ x, System.pending_order t id = Some x → loaded ss' (ROrder x)).
Proof using.
  intros Hc Hw Hv. assert (Hvw : well_formed (visible t ss)) by by rewrite Hv.
  destruct (order_get_run o t s ss n q w Hc Hvw id) as (ss' & Hrun & He & Hl).
  rewrite Hv in Hrun, Hl. exists ss'. unfold OrderStatusWorker.get_pending, System.pending_order.
  rewrite run_bind, Hrun. split; [|split; [done|]].
  - simpl. destruct (order_of t id) as [x|]; [|done]. simpl. by repeat case_decide.
  - intros x (x' & Hx & Hd)%bind_Some. case_decide; [|done]. injection Hd as <-. by apply Hl.
Qed.

(** The worker's last steps, once the Inventory service has answered. *)
Lemma close_announce_run x st m t s ss n q v ni qi w (r : Reservation) :
  coherent t ss → visible t ss = t → well_formed t →
  loaded ss (ROrder x) → order_status x ≠ st →
  let out := System.settle (kafka_up w) (clock w) st m x (λ _, tt) t (Ok r, v) in
  ∃ ss' w',
    run (sys_exec o)
      (order <- OrderStatusWorker.close_order s (order_id x) st ;;
       publish (m order).1.1 (m order).1.2 (m order).2)
      (joint_world t s ss n q v ni qi w)
    = Some (answer out, joint_world (api_after out) s ss' n q (inv_after out) ni qi w')
    ∧ progressed (sent out) w w'.
Proof using.
  intros Hc Hv Hw Hl Hst out.
  destruct (settle_run o x st m (λ _, tt) t s ss n q v ni qi w r Hc Hv Hw Hl Hst)
    as (ss' & w' & Hrun & Hp).
  exists ss', w'. split; [|exact Hp]. refine (eq_trans _ Hrun).
  unfold OrderStatusWorker.close_order. rewrite run_bind_assoc. apply run_bind_ext.
  intros u1 w1. rewrite run_bind_assoc. apply run_bind_ext. intros u2 w2. apply run_bind_ext.
  intros y w3. symmetry. apply run_bind_unit.
Qed.

Lemma settle_payment_effects id success t v w :
  well_formed t → consistent v →
  effects o (settle_payment id success) t v w
    (System.paid o (fault w) (kafka_up w) (clock w) id success t v).
Proof using.
  intros Hw Hok s ss n q ni qi Hc Hv. unfold settle_payment, System.paid.
  destruct (get_pending_run t s ss n q (quiet v ni qi w) id Hc Hw Hv) as (ss1 & Hrun & [Hc1 Hv1 _] & Hl).
  rewrite Hv in Hv1. unfold joint_world at 1. rewrite run_bind, Hrun.
  destruct (System.pending_order t id) as [x|] eqn:Hx.
  2: { exists ss1, q, ni, qi, w. split; [done | apply progressed_refl]. }
  apply pending_order_of in Hx as (Hx & <- & Hst); [|done]. specialize (Hl x eq_refl).
  fold (joint_world t s ss1 n q v ni qi w).
  destruct success.
  - destruct (confirm_run o x t s ss1 n q v ni qi w Hok) as (ni2 & qi2 & w2 & Hcall & Hp).
    rewrite run_bind, Hcall. clear Hcall.
    destruct (System.confirm o (fault w) (clock w) x v) as [[r|err] v2]; cbn [fst snd].
    2: { by exists ss1, q, ni2, qi2, w2. }
    destruct Hp as [Hlog Hclock Hmails (Hf1 & Hf2 & Hf3)].
    destruct (close_announce_run x OrderStatus.CONFIRMED ticket_issued t s ss1 n q v2 ni2 qi2 w2 r)
      as (ss2 & w3 & Hcl & Hp3); [done|done|done|done|by rewrite Hst|].
    rewrite Hclock, Hf2 in Hcl, Hp3. exists ss2, q, ni2, qi2, w3.
    split; [exact Hcl | apply (progressed_then _ _ w2); [by split | exact Hp3]].
  - destruct (release_run o x t s ss1 n q v ni qi w Hok) as (ni2 & qi2 & w2 & Hcall & Hp).
    rewrite run_bind, Hcall. clear Hcall.
    destruct (System.release o (fault w) (clock w) x v) as [[r|err] v2]; cbn [fst snd].
    2: { by exists ss1, q, ni2, qi2, w2. }
    destruct Hp as [Hlog Hclock Hmails (Hf1 & Hf2 & Hf3)].
    destruct (close_announce_run x OrderStatus.CANCELLED order_cancelled t s ss1 n q v2 ni2 qi2 w2 r)
      as (ss2 & w3 & Hcl & Hp3); [done|done|done|done|by rewrite Hst|].
    rewrite Hclock, Hf2 in Hcl, Hp3. exists ss2, q, ni2, qi2, w3.
    split; [exact Hcl | apply (progressed_then _ _ w2); [by split | exact Hp3]].
Qed.

Lemma settle_expiry_effects id t v w :
  well_formed t →
  effects o (settle_expiry id) t v w (System.expired (clock w) id t v).
Proof using.
  intros Hw s ss n q ni qi Hc Hv. unfold settle_expiry, System.expired.
  destruct (get_pending_run t s ss n q (quiet v ni qi w) id Hc Hw Hv) as (ss1 & Hrun & [Hc1 Hv1 _] & Hl).
  rewrite Hv in Hv1. unfold joint_world at 1. rewrite run_bind, Hrun.
  destruct (System.pending_order t id) as [x|] eqn:Hx.
  2: { exists ss1, q, ni, qi, w. split; [done | apply progressed_refl]. }
  apply pending_order_of in Hx as (Hx & <- & Hst); [|done]. specialize (Hl x eq_refl).
  fold (joint_world t s ss1 n q v ni qi w).
  destruct (close_then_run o x OrderStatus.EXPIRED t s ss1 n q v ni qi w (λ _, Ret tt) Hc1 Hv1 Hw Hl)
    as (ss2 & Hcl); [by rewrite Hst|].
  exists ss2, q, ni, qi, w. split; [|apply progressed_refl]. refine (eq_trans _ Hcl).
  unfold OrderStatusWorker.close_order. rewrite run_bind_assoc. apply run_bind_ext.
  intros u1 w1. rewrite run_bind_assoc. by apply run_bind_ext.
Qed.
End bodies.

(** ** The order worker's messages *)
Lemma payment_message id now oid success ref :
  OrderStatusWorker._handle_message
    (wrap id EventType.PAYMENT_PROCESSED now (PaymentProcessedPayload oid success ref))
  = SessionFactory (settle_payment oid success).
Proof.
  change (OrderStatusWorker._handle_message _) with
    (order_id <- of_result (UUID (uuid_str oid)) ;; SessionFactory (settle_payment order_id success)).
  by rewrite UUID_str.
Qed.

Lemma expiry_message id now oid rid e :
  OrderStatusWorker._handle_message
    (wrap id EventType.RESERVATION_EXPIRED now (ReservationExpiredPayload rid oid e))
  = SessionFactory (settle_expiry oid).
Proof.
  change (OrderStatusWorker._handle_message _) with
    (order_id <- of_result (UUID (uuid_str oid)) ;; SessionFactory (settle_expiry order_id)).
  by rewrite UUID_str.
Qed.

(** A message of the order-status topic about order [oid]. *)
Inductive status_message (oid : uuid) : json → Prop :=
| payment_processed id now success ref :
    status_message oid
      (wrap id EventType.PAYMENT_PROCESSED now (PaymentProcessedPayload oid success ref))
| reservation_expired id now rid e :
    status_message oid
      (wrap id EventType.RESERVATION_EXPIRED now (ReservationExpiredPayload rid oid e)).

Lemma pending_order_status t id x st now :
  System.pending_order t id = Some x → st ≠ OrderStatus.PENDING → order_id x = id →
  System.pending_order (<[KOrder id := ROrder (with_status now st x)]> t) id = None.
Proof.
  intros _ Hst _. unfold System.pending_order. rewrite order_of_insert, decide_True by done.
  simpl. by rewrite decide_False.
Qed.

(** A settled order is PENDING no more, even if the announcement failed. *)
Lemma settle_closes {A} kafka now st m x (f : Order → A) t r v :
  st ≠ OrderStatus.PENDING →
  System.pending_order (api_after (System.settle kafka now st m x f t (Ok r, v))) (order_id x) = None.
Proof.
  intros Hst. unfold System.settle.
  destruct (announcing_after kafka (f (with_status now st x))
    (<[KOrder (order_id x) := ROrder (with_status now st x)]> t) v (m (with_status now st x))) as [-> _].
  unfold System.pending_order. rewrite order_of_insert, decide_True by done.
  simpl. by rewrite decide_False.
Qed.

Lemma settle_Ok {A} kafka now st m x (f : Order → A) t remote a :
  answer (System.settle kafka now st m x f t remote) = Ok a →
  kafka = true ∧ ∃ r, remote = (Ok r, remote.2).
Proof. destruct remote as [[r|err] v]; [|done]. simpl. unfold announcing. destruct kafka; [eauto|done]. Qed.

Lemma paid_closes o net kafka now id success t v :
  well_formed t → answer (System.paid o net kafka now id success t v) = Ok tt →
  System.pending_order (api_after (System.paid o net kafka now id success t v)) id = None.
Proof.
  intros Hw. unfold System.paid. destruct (System.pending_order t id) as [x|] eqn:Hx; [|done].
  apply pending_order_of in Hx as (_ & <- & _); [|done].
  destruct success; intros (_ & r & ->)%settle_Ok; by apply settle_closes.
Qed.

(** ** What the order worker promises *)
Section contract.
Context {W : Type} (o : oracle) (impl : handler sys_op W) (obs : W → world).
Context `{P : !Platform (sys_exec o) impl obs} `{Ook : !OracleOk o}.
Implicit Types (t : rows) (v : table).

(** The effect of a payment's outcome on order [oid], handled in [w]. *)
Definition payment (w : world) (oid : uuid) (success : bool) (t : rows) (v : table) : effect unit :=
  System.paid o (fault w) (kafka_up w) (clock w) oid success t v.

Lemma payment_performs w t v id now oid success ref :
  resting (obs w) t v → joint t v →
  performs impl obs
    (OrderStatusWorker._handle_message
       (wrap id EventType.PAYMENT_PROCESSED now (PaymentProcessedPayload oid success ref))) w
    (payment (obs w) oid success t v).
Proof using P Ook.
  intros Hr Hj. rewrite payment_message.
  apply (worker_performs o impl obs _ w t v); [done | by apply paid_joint |].
  apply settle_payment_effects; [apply Hj..].
Qed.

(** C14. A PAYMENT_PROCESSED message: ignored unless the order is PENDING; then
    the Inventory service is asked to confirm the reservation (to release it, if
    the payment failed).  If it answers, the order becomes CONFIRMED (CANCELLED)
    and the ticket (the cancellation) is announced, or, with the broker down,
    nothing is announced and the broker's error raised.  If it refuses or the
    request is lost, nothing changes and the error is raised; if only the reply
    is lost, the seats are moved, the order stays PENDING and the error is
    raised. *)
Theorem payment_processed_outcome w t v id now oid success ref :
  resting (obs w) t v → joint t v →
  performs impl obs
    (OrderStatusWorker._handle_message
       (wrap id EventType.PAYMENT_PROCESSED now (PaymentProcessedPayload oid success ref))) w
    (payment (obs w) oid success t v).
Proof using P Ook. apply payment_performs. Qed.

(** A RESERVATION_EXPIRED message makes a PENDING order EXPIRED and does
    nothing else. *)
Theorem reservation_expired_outcome w t v id now oid rid e :
  resting (obs w) t v → joint t v →
  performs impl obs
    (OrderStatusWorker._handle_message
       (wrap id EventType.RESERVATION_EXPIRED now (ReservationExpiredPayload rid oid e))) w
    (System.expired (clock (obs w)) oid t v).
Proof using P Ook.
  intros Hr Hj. rewrite expiry_message.
  apply (worker_performs o impl obs _ w t v); [done | by apply expired_joint |].
  apply settle_expiry_effects; [apply Hj..].
Qed.

(** A message about an order that is not PENDING does nothing. *)
Lemma status_message_ignored w t v oid m :
  resting (obs w) t v → joint t v → System.pending_order t oid = None → status_message oid m →
  performs impl obs (OrderStatusWorker._handle_message m) w (Effect (Ok tt) t v []).
Proof using P Ook.
  intros Hr Hj Hp [id now success ref|id now rid e].
  - rewrite payment_message. apply (worker_performs o impl obs _ w t v); [done..|].
    pose proof (settle_payment_effects o oid success t v (obs w) (joint_api _ _ Hj) (joint_inv _ _ Hj))
      as He. unfold System.paid in He. by rewrite Hp in He.
  - rewrite expiry_message. apply (worker_performs o impl obs _ w t v); [done..|].
    pose proof (settle_expiry_effects o oid t v (obs w) (joint_api _ _ Hj)) as He.
    unfold System.expired in He. by rewrite Hp in He.
Qed.

(** Redelivery is harmless: once a payment has been handled, any further
    message about the order changes nothing and announces nothing. *)
Theorem payment_redelivery w w2 t v oid success m :
  joint t v →
  let out := payment (obs w) oid success t v in
  answer out = Ok tt →
  resting (obs w2) (api_after out) (inv_after out) → status_message oid m →
  performs impl obs (OrderStatusWorker._handle_message m) w2
    (Effect (Ok tt) (api_after out) (inv_after out) []).
Proof using P Ook.
  intros Hj out Hok Hr Hm. apply (status_message_ignored w2 _ _ oid); [done| | |done].
  - by apply paid_joint.
  - by apply paid_closes; [apply Hj|].
Qed.

(** A broker that is down when the ticket is to be announced loses the
    announcement: the order is already CONFIRMED, so the redelivered message,
    handled with the broker up again, announces nothing. *)
Theorem lost_announcement w w2 t v x r m :
  joint t v → System.pending_order t (order_id x) = Some x →
  (System.confirm o (fault (obs w)) (clock (obs w)) x v).1 = Ok r →
  kafka_up (obs w) = false →
  let out := payment (obs w) (order_id x) true t v in
  answer out = Err KafkaError
  ∧ order_status <$> order_of (api_after out) (order_id x) = Some OrderStatus.CONFIRMED
  ∧ sent out = []
  ∧ (resting (obs w2) (api_after out) (inv_after out) → status_message (order_id x) m →
     performs impl obs (OrderStatusWorker._handle_message m) w2
       (Effect (Ok tt) (api_after out) (inv_after out) [])).
Proof using P Ook.
  intros Hj Hx Hcall Hk out.
  assert (Hout : out = System.settle false (clock (obs w)) OrderStatus.CONFIRMED ticket_issued x
    (λ _, tt) t (Ok r, (System.confirm o (fault (obs w)) (clock (obs w)) x v).2)).
  { unfold out, payment, System.paid. rewrite Hx, Hk.
    destruct (System.confirm o (fault (obs w)) (clock (obs w)) x v) as [c v']. simpl in Hcall. by subst c. }
  split_and!.
  - by rewrite Hout.
  - rewrite Hout. simpl. by rewrite order_of_insert, decide_True.
  - by rewrite Hout.
  - intros Hr Hm. apply (status_message_ignored w2 _ _ (order_id x)); [done| | |done].
    + by apply paid_joint.
    + rewrite Hout. by apply settle_closes.
Qed.

(** C35. A payment that succeeds after its reservation was released or expired
    is accepted.  Handling its PAYMENT_PROCESSED message, the network and the
    broker up and the order still PENDING, the order worker asks for a
    confirmation, is answered the reservation as it is, makes the order CONFIRMED
    and issues the ticket; the inventory is untouched, so no seat is held. *)
Theorem late_payment w t v id now ref x rid r :
  resting (obs w) t v → joint t v → System.pending_order t (order_id x) = Some x →
  reservation_id x = uuid_str rid → res_of v rid = Some r →
  status r = ReservationStatus.EXPIRED ∨ status r = ReservationStatus.RELEASED →
  fault (obs w) = NoFault → kafka_up (obs w) = true →
  let x' := with_status (clock (obs w)) OrderStatus.CONFIRMED x in
  performs impl obs
    (OrderStatusWorker._handle_message
       (wrap id EventType.PAYMENT_PROCESSED now (PaymentProcessedPayload (order_id x) true ref))) w
    (Effect (Ok tt) (<[KOrder (order_id x) := ROrder x']> t) v [ticket_issued x']).
Proof using P Ook.
  intros Hr Hj Hx Hrid Hres Hst Hnet Hk x'.
  pose proof (payment_performs w t v id now (order_id x) true ref Hr Hj) as Hp.
  unfold payment, System.paid in Hp. rewrite Hx, Hnet, Hk in Hp.
  assert (Hconf : System.confirm o NoFault (clock (obs w)) x v = (Ok r, v)).
  { unfold System.confirm, System.remote, by_text. rewrite Hrid, UUID_str.
    unfold Spec.confirm. rewrite Hres. rewrite decide_True by (by destruct Hst as [-> | ->]). done. }
  by rewrite Hconf in Hp.
Qed.
End contract.

(** ** The sample order, paid *)
Lemma booked_rests : resting (booked_world "k") (api_after (sample_booking "k")) (inv_after (sample_booking "k")).
Proof. by exists 0%nat, 0%nat, 0%nat, 0%nat. Qed.

Definition sample_payment_message : json :=
  wrap (uuid_of_N 1) EventType.PAYMENT_PROCESSED 0 (PaymentProcessedPayload (uuid_of_N 1000) true "t").
Definition sample_expiry_message : json :=
  wrap (uuid_of_N 1) EventType.RESERVATION_EXPIRED 0
    (ReservationExpiredPayload "r" (uuid_of_N 1000) sample_event).
Definition sample_payment : effect unit :=
  payment sample_oracle (booked_world "k") (uuid_of_N 1000) true (api_after (sample_booking "k"))
    (inv_after (sample_booking "k")).

(** A world at rest over the tables of an effect. *)
Definition after_effect {A} (up : bool) (out : effect A) : world :=
  World (Database (inv_after out) ∅ 0 0) (Database (api_after out) ∅ 0 0) ∅ true [] up [] NoFault 0 20.

Lemma after_effect_rests {A} up (out : effect A) :
  resting (after_effect up out) (api_after out) (inv_after out).
Proof. by exists 0%nat, 0%nat, 0%nat, 0%nat. Qed.

Lemma payment_processed_outcome_witness :
  performs (sys_exec sample_oracle) id (OrderStatusWorker._handle_message sample_payment_message)
    (booked_world "k") sample_payment.
Proof.
  apply (payment_processed_outcome sample_oracle (sys_exec sample_oracle) id (booked_world "k")
           (api_after (sample_booking "k")) (inv_after (sample_booking "k"))
           (uuid_of_N 1) 0 (uuid_of_N 1000) true "t").
  - apply booked_rests.
  - apply booked_joint.
Defined.

Lemma reservation_expired_outcome_witness :
  performs (sys_exec sample_oracle) id (OrderStatusWorker._handle_message sample_expiry_message)
    (booked_world "k")
    (System.expired 0 (uuid_of_N 1000) (api_after (sample_booking "k")) (inv_after (sample_booking "k"))).
Proof.
  apply (reservation_expired_outcome sample_oracle (sys_exec sample_oracle) id (booked_world "k")
           (api_after (sample_booking "k")) (inv_after (sample_booking "k"))
           (uuid_of_N 1) 0 (uuid_of_N 1000) "r" sample_event).
  - apply booked_rests.
  - apply booked_joint.
Defined.

Lemma payment_redelivery_witness :
  performs (sys_exec sample_oracle) id (OrderStatusWorker._handle_message sample_payment_message)
    (after_effect true sample_payment)
    (Effect (Ok tt) (api_after sample_payment) (inv_after sample_payment) []).
Proof.
  apply (payment_redelivery sample_oracle (sys_exec sample_oracle) id (booked_world "k")
           (after_effect true sample_payment) (api_after (sample_booking "k"))
           (inv_after (sample_booking "k")) (uuid_of_N 1000) true).
  - apply booked_joint.
  - vm_compute. reflexivity.
  - apply after_effect_rests.
  - constructor.
Defined.

(** The same order, paid for with the broker down. *)
Definition outage_world : world := after_effect false (sample_booking "k").

Lemma lost_announcement_witness :
  answer (payment sample_oracle outage_world (uuid_of_N 1000) true (api_after (sample_booking "k"))
    (inv_after (sample_booking "k"))) = Err KafkaError.
Proof.
  apply (lost_announcement sample_oracle (sys_exec sample_oracle) id outage_world outage_world
           (api_after (sample_booking "k")) (inv_after (sample_booking "k")) (booked_order "k")
           (mkReservation (uuid_of_N 1002) sample_event (uuid_of_N 1000) 3
              ReservationStatus.CONFIRMED 600000000 (Some 0) (Some 0)) sample_payment_message).
  - apply booked_joint.
  - vm_compute. reflexivity.
  - vm_compute. reflexivity.
  - reflexivity.
Defined.

(** The sample reservation, expired before the payment came through. *)
Definition expired_inventory : table :=
  (Spec.release 0 (uuid_of_N 1002) true (inv_after (sample_booking "k"))).2.

Lemma expired_joint_tables : joint (api_after (sample_booking "k")) expired_inventory.
Proof.
  destruct (booked_joint "k") as [Ha Hi Hl]. apply (joint_inventory _ (inv_after (sample_booking "k"))).
  - by split.
  - by apply release_keeps.
  - by apply release_kept.
Qed.

Definition late_world : world :=
  World (Database expired_inventory ∅ 0 0) (Database (api_after (sample_booking "k")) ∅ 0 0) ∅ true [] true []
    NoFault 0 20.

Lemma late_payment_witness :
  let confirmed := with_status 0 OrderStatus.CONFIRMED (booked_order "k") in
  performs (sys_exec sample_oracle) id (OrderStatusWorker._handle_message sample_payment_message) late_world
    (Effect (Ok tt) (<[KOrder (uuid_of_N 1000) := ROrder confirmed]> (api_after (sample_booking "k")))
       expired_inventory [ticket_issued confirmed]).
Proof.
  apply (late_payment sample_oracle (sys_exec sample_oracle) id late_world (api_after (sample_booking "k"))
           expired_inventory (uuid_of_N 1) 0 "t" (booked_order "k") (uuid_of_N 1002)
           (mkReservation (uuid_of_N 1002) sample_event (uuid_of_N 1000) 3
              ReservationStatus.EXPIRED 600000000 (Some 0) (Some 0))).
  - exists 0%nat, 0%nat, 0%nat, 0%nat. split; reflexivity.
  - exact expired_joint_tables.
  - vm_compute. reflexivity.
  - reflexivity.
  - vm_compute. reflexivity.
  - left. reflexivity.
  - reflexivity.
  - reflexivity.
Defined.
