(* ===== verification/BusCorrectness.v ===== *)
(** * Correctness of the other consumers

    The payment worker, the notification worker, the event-sync consumer and
    the reaper: what each makes of a message (a turn) and puts on the bus; and
    the consumer loop with its partitions and their committed offsets. *)
From S2P Require Import Prelude Effects Json Uuid Domain Orm OrmFacts Redis.
From S2P Require Import InventoryModels.
From S2P Require Import ApiModels Platform SessionRuns Kafka Pagination.
From S2P Require Import ApiRepositories ApiRuns.
From S2P Require Import InventoryRepository Locking InventoryService InventoryServicer.
From S2P Require Import InventorySpec InventoryInvariant InventoryRefinement.
From S2P Require Import InventoryCorrectness.
From S2P Require Import RpcCorrectness EventService BookingService SystemSpec.
From S2P Require Import SystemRuns.
From S2P Require Import BookingCorrectness Workers.

(** ** The consumer loop *)

(** A message handed over: its partition and its value. *)
Abbreviation delivery := (nat * json)%type.

Section consumer.
Context {W : Type} (impl : handler sys_op W) (client : AIOKafkaConsumer).
Context (handle : json → M unit) (stopping : list nat → bool).
Implicit Types (logs : list (list json)) (pos : list nat) (ds : list delivery).
Implicit Types ps : list partition.

(** The outcomes of the handler on [ms], in turn. *)
Fixpoint deliveries (ms : list json) (w : W) : option (list (result exn unit) * W) :=
  match ms with
  | [] => Some ([], w)
  | m :: ms =>
      '(r, w1) ← run impl (handle m) w;
      '(rs, w2) ← deliveries ms w1;
      Some (r :: rs, w2)
  end.

(** The next message of a consumer that stands at [pos]. *)
Definition arriving logs pos : option delivery :=
  i ← next_partition client pos;
  m ← (logs !! i) ≫= λ ms, (pos !! i) ≫= λ n, ms !! n;
  Some (i, m).

(** The messages the next [n] turns of the loop hand to the handler. *)
Fixpoint upcoming (n : nat) logs pos : list delivery :=
  match n with
  | O => []
  | S n =>
      match arriving logs pos with
      | Some d => if stopping pos then [] else d :: upcoming n logs (alter S d.1 pos)
      | None => []
      end
  end.

(** Where a consumer stands once it has read [ds]. *)
Definition reached pos ds : list nat := foldl (λ pos d, alter S d.1 pos) pos ds.

(** The messages of [ds] from partition [i]. *)
Definition of_partition (i : nat) ds : list json := (filter (λ d, d.1 = i) ds).*2.

(** The last of the messages [ds] whose handler succeeded and whose commit was
    accepted. *)
Fixpoint last_commit pos ds (rs : list (result exn unit)) : option nat :=
  match ds, rs with
  | d :: ds, r :: rs =>
      match last_commit (alter S d.1 pos) ds rs with
      | Some j => Some (S j)
      | None =>
          if is_ok r && bool_decide (commit_error client (alter S d.1 pos) = None)
          then Some 0%nat else None
      end
  | _, _ => None
  end.

(** The group's offset on partition [i], which [p] was: where the consumer
    stood there at that last commit. *)
Definition group_offset pos ds rs (i : nat) (p : partition) : nat :=
  match last_commit pos ds rs with
  | Some j => (position p + length (of_partition i (take (S j) ds)))%nat
  | None => Kafka.committed p
  end.

Lemma reached_lookup pos ds i :
  reached pos ds !! i = (λ n, (n + length (of_partition i ds))%nat) <$> pos !! i.
Proof using.
  unfold reached, of_partition. revert pos. induction ds as [|d ds IH]; intros pos; simpl.
  - destruct (pos !! i); simpl; [by rewrite Nat.add_0_r | done].
  - rewrite IH, filter_cons. destruct (decide (d.1 = i)) as [->|Hd].
    + rewrite list_lookup_alter_eq. destruct (pos !! i) as [k|]; simpl; [|done].
      by rewrite Nat.add_succ_r.
    + by rewrite list_lookup_alter_ne.
Qed.

(** They are, on each partition, its next messages in order. *)
Lemma upcoming_in_order n logs pos i ms k :
  logs !! i = Some ms → pos !! i = Some k →
  of_partition i (upcoming n logs pos) `prefix_of` drop k ms.
Proof using.
  intros Hms. revert pos k. induction n as [|n IH]; intros pos k Hk; simpl; [apply prefix_nil|].
  destruct (arriving logs pos) as [[j m]|] eqn:Ha; [|apply prefix_nil].
  destruct (stopping pos); [apply prefix_nil|]. unfold of_partition. rewrite filter_cons. simpl.
  destruct (decide (j = i)) as [->|Hj].
  - unfold arriving in Ha. destruct (next_partition client pos) as [i'|]; [|done]. simpl in Ha.
    destruct (logs !! i' ≫= _) as [m'|] eqn:Hm; [|done]. simplify_eq/=.
    rewrite Hms in Hm. simpl in Hm. rewrite Hk in Hm. simpl in Hm.
    rewrite (drop_S _ _ _ Hm). apply prefix_cons, IH. by rewrite list_lookup_alter_eq, Hk.
  - apply IH. by rewrite list_lookup_alter_ne.
Qed.

(** There are [n] of them unless no more come or the loop is told to stop. *)
Lemma upcoming_all n logs pos (ds := upcoming n logs pos) :
  (length ds ≤ n)%nat
  ∧ ((length ds < n)%nat → arriving logs (reached pos ds) = None ∨ stopping (reached pos ds) = true).
Proof using.
  subst ds. revert pos. induction n as [|n IH]; intros pos; simpl; [lia|].
  destruct (arriving logs pos) as [d|] eqn:Ha; [|simpl; auto with lia].
  destruct (stopping pos) eqn:Hs; [simpl; auto with lia|].
  destruct (IH (alter S d.1 pos)) as [Hle Hlt]. simpl. split; [lia|]. intros ?. apply Hlt. lia.
Qed.

Lemma last_commit_bound pos ds rs j :
  last_commit pos ds rs = Some j → (j < length rs)%nat ∧ (j < length ds)%nat.
Proof using.
  revert pos rs j. induction ds as [|d ds IH]; intros pos [|r rs] j Hj; simplify_eq/=.
  destruct (last_commit (alter S d.1 pos) ds rs) as [k|] eqn:Hk; simplify_eq.
  - apply IH in Hk. lia.
  - case_match; simplify_eq. lia.
Qed.

(** A message handled with success, its commit accepted, is not after it. *)
Lemma last_commit_success pos ds rs j :
  length rs = length ds → rs !! j = Some (Ok tt) →
  commit_error client (reached pos (take (S j) ds)) = None →
  ∃ k, last_commit pos ds rs = Some k ∧ (j ≤ k)%nat.
Proof using.
  revert pos rs j. induction ds as [|d ds IH]; intros pos [|r rs] [|j] Hlen Hj Hc; simplify_eq/=.
  - destruct (last_commit _ ds rs) as [k|]; [exists (S k); split; [done | lia]|].
    rewrite bool_decide_eq_true_2 by done. by exists 0%nat.
  - destruct (IH (alter S d.1 pos) rs j) as (k & -> & Hk); [done..|]. exists (S k). split; [done | lia].
Qed.

(** It is such a message. *)
Lemma last_commit_sound pos ds rs k :
  last_commit pos ds rs = Some k →
  rs !! k = Some (Ok tt) ∧ commit_error client (reached pos (take (S k) ds)) = None.
Proof using.
  revert pos rs k. induction ds as [|d ds IH]; intros pos [|r rs] k Hk; simplify_eq/=.
  destruct (last_commit (alter S d.1 pos) ds rs) as [j|] eqn:Hj; simplify_eq; [exact (IH _ _ _ Hj)|].
  destruct r as [[]|]; simpl in *; [|done]. case_bool_decide; simplify_eq. done.
Qed.

Lemma of_partition_app i ds1 ds2 :
  of_partition i (ds1 ++ ds2) = of_partition i ds1 ++ of_partition i ds2.
Proof using. unfold of_partition. by rewrite filter_app, fmap_app. Qed.

(** Where a message is among those of its partition. *)
Lemma of_partition_lookup ds k i m :
  ds !! k = Some (i, m) → of_partition i ds !! length (of_partition i (take k ds)) = Some m.
Proof using.
  intros Hk.
  assert (of_partition i ds = of_partition i (take k ds) ++ of_partition i ((i, m) :: drop (S k) ds))
    as -> by by rewrite <- of_partition_app, take_drop_middle.
  rewrite lookup_app_r, Nat.sub_diag by done. unfold of_partition at 1.
  by rewrite filter_cons_True.
Qed.

Lemma of_partition_take_le i ds j k :
  (j ≤ k)%nat → (length (of_partition i (take j ds)) ≤ length (of_partition i (take k ds)))%nat.
Proof using.
  intros Hjk. rewrite <- (take_drop j (take k ds)), take_take, Nat.min_l by done.
  rewrite of_partition_app, length_app. lia.
Qed.

(** The turn of the loop that hands over [d], the handler's outcome being [r]. *)
Definition settle (r : result exn unit) (ps : list partition) : list partition :=
  if is_ok r && bool_decide (commit_error client (position <$> ps) = None)
  then commit_position <$> ps else ps.

Lemma next_message_arriving ps :
  next_message client ps
  = (λ d, (d.2, alter advance_position d.1 ps)) <$> arriving (messages <$> ps) (position <$> ps).
Proof using.
  unfold next_message, arriving. destruct (next_partition client _) as [i|]; simpl; [|done].
  rewrite !list_lookup_fmap. destruct (ps !! i) as [p|] eqn:Hp; simpl; [|done].
  destruct (messages p !! position p); simpl; [|done]. do 2 f_equal. rewrite list_insert_alter.
  apply list_alter_ext; [|done]. intros x Hx. by simplify_eq.
Qed.

Lemma settle_fmap {A} (f : partition → A) r ps :
  (∀ p, f (commit_position p) = f p) → f <$> settle r ps = f <$> ps.
Proof using.
  intros Hf. unfold settle. case_match; [|done]. rewrite <- list_fmap_compose.
  apply list_fmap_ext. intros ? p _. apply Hf.
Qed.

Lemma advance_messages i ps : messages <$> alter advance_position i ps = messages <$> ps.
Proof using. rewrite (list_fmap_alter _ _ id); [by apply list_alter_id | by apply Forall_true]. Qed.

Lemma advance_positions i ps : position <$> alter advance_position i ps = alter S i (position <$> ps).
Proof using. apply list_fmap_alter. by apply Forall_true. Qed.

Lemma run_turn handler m ps w :
  run impl (_process client handler m ps) w
  = ('(r, w1) ← run impl (handler m) w; Some (Ok (settle r ps), w1)).
Proof using.
  unfold _process. rewrite run_bind, run_attempt, run_bind.
  destruct (run impl (handler m) w) as [[[[]|e] w1]|]; [|done..]. unfold settle, commit. simpl.
  by destruct (commit_error client _).
Qed.

(** What a loop that has handed [ds] over, with the outcomes [rs], leaves of
    the partitions [ps]. *)
Definition resumable ps ds rs (ps' : list partition) : Prop :=
  ∀ i, (λ p', (messages p', Kafka.committed p')) <$> ps' !! i
       = (λ p, (messages p, group_offset (position <$> ps) ds rs i p)) <$> ps !! i.

Lemma resumable_nil ps i : resumable ps [] [] (alter advance_position i ps).
Proof using.
  intros j. rewrite list_lookup_alter. destruct (decide _) as [->|]; [|done].
  by destruct (ps !! j).
Qed.

Lemma of_partition_cons i d ds :
  length (of_partition i (d :: ds))
  = ((if decide (d.1 = i) then 1 else 0) + length (of_partition i ds))%nat.
Proof using. unfold of_partition. rewrite filter_cons. by destruct (decide _). Qed.

Lemma settle_lookup r ps i :
  settle r ps !! i
  = (λ p, if is_ok r && bool_decide (commit_error client (position <$> ps) = None)
          then commit_position p else p) <$> ps !! i.
Proof using.
  unfold settle. case_match; [apply list_lookup_fmap|]. by destruct (ps !! i).
Qed.

Lemma advance_lookup i j ps :
  alter advance_position i ps !! j
  = (λ p, if decide (i = j) then advance_position p else p) <$> ps !! j.
Proof using.
  rewrite list_lookup_alter. destruct (decide _) as [->|]; [done|]. by destruct (ps !! j).
Qed.

Lemma resumable_cons d ds r rs ps ps' :
  resumable (settle r (alter advance_position d.1 ps)) ds rs ps' →
  resumable ps (d :: ds) (r :: rs) ps'.
Proof using.
  intros H i. rewrite (H i). clear H. rewrite settle_fmap by done.
  rewrite settle_lookup, advance_lookup, advance_positions.
  destruct (ps !! i) as [p|]; [|done]. unfold group_offset. simpl.
  do 2 f_equal.
  { by repeat case_match. }
  destruct (last_commit _ ds rs) as [j|]; simpl.
  - rewrite of_partition_cons. repeat case_match; simpl; lia.
  - destruct (_ && _); rewrite ?of_partition_cons; destruct (decide _); simpl; lia.
Qed.

Lemma consume_run n ps w rs w' :
  let ds := upcoming n (messages <$> ps) (position <$> ps) in
  deliveries ds.*2 w = Some (rs, w') →
  ∃ ps', run impl (consume client handle stopping n ps) w = Some (Ok ps', w') ∧ resumable ps ds rs ps'.
Proof using.
  revert ps w rs w'. induction n as [|n IH]; intros ps w rs w' ds Hd; subst ds; simpl in *.
  { simplify_eq. exists ps. split; [done|]. intros i. by destruct (ps !! i). }
  rewrite next_message_arriving. destruct (arriving _ _) as [d|]; simpl in *.
  2: { simplify_eq. exists ps. split; [done|]. intros i. by destruct (ps !! i). }
  destruct (stopping _); simpl in *.
  { simplify_eq. eexists. split; [done | apply resumable_nil]. }
  rewrite run_bind, run_turn.
  destruct (run impl (handle d.2) w) as [[r w1]|]; simpl in *; [|done].
  destruct (deliveries _ w1) as [[rs' w2]|] eqn:Hd'; simpl in *; [|done]. simplify_eq.
  destruct (IH (settle r (alter advance_position d.1 ps)) w1 rs' w') as (ps' & Hrun & Hps').
  - by rewrite !settle_fmap, advance_messages, advance_positions.
  - exists ps'. split; [done|]. rewrite !settle_fmap, advance_messages, advance_positions in Hps' by done.
    by apply resumable_cons.
Qed.
End consumer.

Section consumer_contract.
Context {W : Type} (impl : handler sys_op W) (client : AIOKafkaConsumer).
Context (handle : json → M unit) (stopping : list nat → bool).

Lemma deliveries_length ms w rs w' :
  deliveries impl handle ms w = Some (rs, w') → length rs = length ms.
Proof using.
  revert w rs w'. induction ms as [|m ms IH]; intros w rs w' Hd; [by simplify_eq/=|].
  simpl in Hd. destruct (run impl (handle m) w) as [[r w1]|]; [|done]. cbn [mbind option_bind] in Hd.
  destruct (deliveries impl handle ms w1) as [[rs' w2]|] eqn:Hd'; [|done]. simplify_eq/=.
  f_equal. by eapply IH.
Qed.

Lemma resumable_partition pos ds rs ps ps' i p :
  pos = position <$> ps → resumable client ps ds rs ps' → ps !! i = Some p →
  ∃ p', ps' !! i = Some p' ∧ messages p' = messages p
    ∧ Kafka.committed p' = group_offset client pos ds rs i p.
Proof using.
  intros -> Hps Hp. specialize (Hps i). rewrite Hp in Hps.
  destruct (ps' !! i) as [p'|]; simplify_eq/=. by exists p'.
Qed.

Lemma partition_in_order n ps i p :
  ps !! i = Some p →
  of_partition i (upcoming client stopping n (messages <$> ps) (position <$> ps))
    `prefix_of` drop (position p) (messages p).
Proof using. intros Hp. apply upcoming_in_order; by rewrite list_lookup_fmap, Hp. Qed.

(** C23. The consumer loop hands the messages of its partitions to the handler,
    those of one partition in order, each once, as many as asked for unless no
    more come or it is told to stop; it goes on after a failure of the handler
    or of the commit, and never fails itself.  The group's offset on every
    partition is then where the consumer stood after the last message handled
    with success whose commit was accepted: a restart redelivers exactly what
    came after that one, failed messages and the one dropped by the stop
    included. *)
Theorem consumer_at_least_once n ps w rs w' :
  let pos := position <$> ps in
  let ds := upcoming client stopping n (messages <$> ps) pos in
  deliveries impl handle ds.*2 w = Some (rs, w') →
  ∃ ps', run impl (consume client handle stopping n ps) w = Some (Ok ps', w')
    ∧ (length ds ≤ n)%nat
    ∧ ((length ds < n)%nat →
       arriving client (messages <$> ps) (reached pos ds) = None ∨ stopping (reached pos ds) = true)
    ∧ (∀ i p, ps !! i = Some p →
       of_partition i ds `prefix_of` drop (position p) (messages p)
       ∧ ∃ p', ps' !! i = Some p' ∧ messages p' = messages p
           ∧ position (restart p')
             = match last_commit client pos ds rs with
               | Some j => (position p + length (of_partition i (take (S j) ds)))%nat
               | None => Kafka.committed p
               end)
    ∧ (∀ j, last_commit client pos ds rs = Some j →
       rs !! j = Some (Ok tt) ∧ commit_error client (reached pos (take (S j) ds)) = None)
    ∧ (∀ j, rs !! j = Some (Ok tt) → commit_error client (reached pos (take (S j) ds)) = None →
       ∃ k, last_commit client pos ds rs = Some k ∧ (j ≤ k)%nat).
Proof using.
  intros pos ds Hd. destruct (consume_run impl client handle stopping n ps w rs w' Hd) as (ps' & Hrun & Hps).
  destruct (upcoming_all client stopping n (messages <$> ps) pos) as [Hle Hlt].
  exists ps'. split_and!; [done.. | | |].
  - intros i p Hp. split.
    + by apply partition_in_order.
    + by eapply resumable_partition.
  - by apply last_commit_sound.
  - intros j. apply last_commit_success. apply deliveries_length in Hd. by rewrite length_fmap in Hd.
Qed.

(** Of the messages handed over before one that succeeds, on this partition or
    on another, none is delivered again, its handler failed or not: that commit
    passes its offset. *)
Theorem failed_message_lost n ps w rs w' i a m p j :
  let pos := position <$> ps in
  let ds := upcoming client stopping n (messages <$> ps) pos in
  deliveries impl handle ds.*2 w = Some (rs, w') →
  ds !! i = Some (a, m) → ps !! a = Some p →
  (i < j)%nat → rs !! j = Some (Ok tt) → commit_error client (reached pos (take (S j) ds)) = None →
  ∃ ps' p' off, run impl (consume client handle stopping n ps) w = Some (Ok ps', w')
    ∧ ps' !! a = Some p' ∧ messages p' !! off = Some m ∧ (off < position (restart p'))%nat.
Proof using.
  intros pos ds Hd Hi Hp Hij Hj Hc.
  destruct (consume_run impl client handle stopping n ps w rs w' Hd) as (ps' & Hrun & Hps).
  destruct (resumable_partition pos ds rs ps ps' a p) as (p' & Hp' & Hm & Hk); [done..|].
  destruct (last_commit_success client pos ds rs j) as (k & Hlast & Hjk); [|done..|].
  { apply deliveries_length in Hd. by rewrite length_fmap in Hd. }
  pose proof (of_partition_lookup ds i a m Hi) as Ha.
  pose proof (partition_in_order n ps a p Hp) as Hpre. fold pos ds in Hpre.
  exists ps', p', (position p + length (of_partition a (take i ds)))%nat.
  split_and!; [done..| |].
  - rewrite Hm, <- lookup_drop. destruct Hpre as [l ->]. by apply lookup_app_l_Some.
  - simpl. rewrite Hk. unfold group_offset. rewrite Hlast.
    assert (length (of_partition a (take (S i) ds)) = S (length (of_partition a (take i ds)))) as HS.
    { rewrite (take_S_r _ _ _ Hi), of_partition_app, length_app, of_partition_cons, decide_True by done.
      unfold of_partition. simpl. lia. }
    pose proof (of_partition_take_le a ds (S i) (S k) ltac:(lia)). lia.
Qed.
End consumer_contract.

(** ** Payment worker *)
Definition payment_done (oid : uuid) (success : bool) (ref : string) : announcement :=
  (EventType.PAYMENT_PROCESSED, uuid_str oid, PaymentProcessedPayload oid success ref).

Lemma order_message id now oid e u q c r :
  PaymentWorker._handle_message
    (wrap id EventType.ORDER_CREATED now (OrderCreatedPayload oid e u q c r))
  = (charge <- PaymentWorker._mock_charge ;;
     publish EventType.PAYMENT_PROCESSED (uuid_str oid)
       (PaymentProcessedPayload oid charge.1 charge.2)).
Proof.
  change (PaymentWorker._handle_message _) with
    (order_id <- of_result (UUID (uuid_str oid)) ;;
     charge <- PaymentWorker._mock_charge ;;
     publish EventType.PAYMENT_PROCESSED (uuid_str order_id)
       (PaymentProcessedPayload order_id charge.1 charge.2)).
  by rewrite UUID_str.
Qed.

(** The world after the mock charge: some time later, three draws on. *)
Definition charged (o : oracle) (w : world) : world :=
  advance 3 (set_clock (clock w + PaymentWorker.charge_latency (random_draw o (draws w))) w).

Definition charge_outcome (o : oracle) (w : world) : bool * string :=
  (PaymentWorker.charge_succeeds (random_draw o (S (draws w))),
   PaymentWorker.transaction_ref (uuid_draw o (S (S (draws w))))).

Lemma mock_charge_run o w :
  run (sys_exec o) PaymentWorker._mock_charge w = Some (Ok (charge_outcome o w), charged o w).
Proof. done. Qed.

Lemma payment_worker_run o w id now oid e u q c r :
  let charge := charge_outcome o w in
  run (sys_exec o) (PaymentWorker._handle_message
      (wrap id EventType.ORDER_CREATED now (OrderCreatedPayload oid e u q c r))) w
  = Some (if kafka_up w then
            (Ok tt, log_record (record_of (clock (charged o w)) (uuid_draw o (draws (charged o w)))
                      (payment_done oid charge.1 charge.2)) (next_draw (charged o w)))
          else (Err KafkaError, next_draw (charged o w))).
Proof.
  intros charge. rewrite order_message, run_bind, mock_charge_run. cbv iota beta.
  exact (run_publish o _ _ _ (charged o w)).
Qed.

(** The charge takes between 50 and 200 milliseconds. *)
Lemma charge_latency_bounds d :
  0 ≤ d < 2 ^ 53 → 50000 ≤ PaymentWorker.charge_latency d < 200000.
Proof.
  intros [Hd0 Hd1]. unfold PaymentWorker.charge_latency.
  pose proof (Z.div_pos (150000 * d) (2 ^ 53) ltac:(lia) ltac:(lia)).
  pose proof (Z.div_lt_upper_bound (150000 * d) (2 ^ 53) 150000 ltac:(lia) ltac:(lia)). lia.
Qed.

Section payment.
Context {W : Type} (o : oracle) (impl : handler sys_op W) (obs : W → world).
Context `{P : !Platform (sys_exec o) impl obs} `{Ook : !OracleOk o}.

(** Each ORDER_CREATED message is charged once and answered by exactly one
    PAYMENT_PROCESSED message carrying the order and the outcome, within 0.2
    seconds; with the broker down the message fails.  No table changes. *)
Theorem payment_worker_outcome w id now oid e u q c r :
  let charge := charge_outcome o (obs w) in
  ∃ w' n, run impl (PaymentWorker._handle_message
      (wrap id EventType.ORDER_CREATED now (OrderCreatedPayload oid e u q c r))) w
    = Some (if kafka_up (obs w) then Ok tt else Err KafkaError, w')
    ∧ kafka_log (obs w') = kafka_log (obs w)
        ++ (if kafka_up (obs w)
            then [record_of (clock (obs w')) (uuid_draw o n) (payment_done oid charge.1 charge.2)]
            else [])
    ∧ clock (obs w) + 50000 ≤ clock (obs w') < clock (obs w) + 200000
    ∧ api_db (obs w') = api_db (obs w) ∧ inv_db (obs w') = inv_db (obs w)
    ∧ mails (obs w') = mails (obs w) ∧ fault (obs w') = fault (obs w)
    ∧ kafka_up (obs w') = kafka_up (obs w).
Proof using P Ook.
  intros charge.
  pose proof (payment_worker_run o (obs w) id now oid e u q c r) as Hrun.
  pose proof (charge_latency_bounds _ (random_draw_range (o := o) (draws (obs w)))) as Hl.
  destruct (kafka_up (obs w)) eqn:Hk;
    destruct (runs_to_doc (impl := impl) _ w _ _ Hrun) as (w' & Hrun' & Hobs);
    exists w', (draws (charged o (obs w))); rewrite Hobs; split; try done; simpl;
    rewrite ?app_nil_r; split_and!; done || lia.
Qed.
End payment.

(** ** Notification worker *)
Section notification.
Context (o : oracle) `{Ook : !OracleOk o}.

(** The user an order's messages go to. *)
Definition addressee (t : rows) (oid : uuid) : option User :=
  order_of t oid ≫= λ x, user_of t (order_user_id x).

Lemma recipient_effects oid t v w :
  well_formed t →
  effects o (λ s, NotificationWorker.recipient s oid) t v w (Effect (Ok (addressee t oid)) t v []).
Proof using.
  intros Hw s ss n q ni qi Hc Hv. unfold NotificationWorker.recipient, addressee.
  assert (Hvw : well_formed (visible t ss)) by by rewrite Hv.
  destruct (order_get_run o t s ss n q (quiet v ni qi w) Hc Hvw oid) as (ss1 & Hrun & [Hc1 Hv1 _] & _).
  rewrite Hv in Hrun, Hv1. unfold joint_world at 1. rewrite run_bind, Hrun.
  cbn [mbind option_bind answer sent api_after inv_after]. destruct (order_of t oid) as [x|].
  2: { exists ss1, q, ni, qi, w. split; [done | apply progressed_refl]. }
  assert (Hvw1 : well_formed (visible t ss1)) by by rewrite Hv1.
  destruct (user_get_run o t s ss1 n q (quiet v ni qi w) Hc1 Hvw1 (order_user_id x))
    as (ss2 & Hrun2 & _ & _).
  rewrite Hv1 in Hrun2. exists ss2, q, ni, qi, w. split; [exact Hrun2 | apply progressed_refl].
Qed.

(** The subject of the e-mail about an event type. *)
Definition subject_of (e : EventType.t) : option string :=
  match e with
  | EventType.TICKET_ISSUED => Some "Your tickets are confirmed!"
  | EventType.ORDER_CANCELLED => Some "Your order was cancelled"
  | _ => None
  end.

(** The messages of the notification topic. *)
Inductive notification_message (oid : uuid) : EventType.t → json → Prop :=
| ticket_message id now u e :
    notification_message oid EventType.TICKET_ISSUED
      (wrap id EventType.TICKET_ISSUED now (TicketIssuedPayload oid u e))
| cancelled_message id now r :
    notification_message oid EventType.ORDER_CANCELLED
      (wrap id EventType.ORDER_CANCELLED now (OrderCancelledPayload oid r)).

Definition notify (oid : uuid) (e : EventType.t) (user : option User) : M unit :=
  match user, subject_of e with
  | Some u, Some subject => NotificationWorker._send_mock_email (email u) subject oid
  | _, _ => Ret tt
  end.

Lemma notification_program oid e m w :
  notification_message oid e m →
  run (sys_exec o) (NotificationWorker._handle_message m) w
  = run (sys_exec o) (user <- SessionFactory (λ s, NotificationWorker.recipient s oid) ;;
                      notify oid e user) w.
Proof using.
  intros [id now u e'|id now r].
  - change (NotificationWorker._handle_message _) with
      (order_id <- of_result (UUID (uuid_str oid)) ;;
       user <- SessionFactory (λ s, NotificationWorker.recipient s order_id) ;;
       match user with
       | None => Ret tt
       | Some user => NotificationWorker._send_mock_email (email user) "Your tickets are confirmed!" order_id
       end).
    rewrite (bind_of_result_Ok _ oid) by apply UUID_str. apply run_bind_ext. by intros [].
  - change (NotificationWorker._handle_message _) with
      (order_id <- of_result (UUID (uuid_str oid)) ;;
       user <- SessionFactory (λ s, NotificationWorker.recipient s order_id) ;;
       match user with
       | None => Ret tt
       | Some user => NotificationWorker._send_mock_email (email user) "Your order was cancelled" order_id
       end).
    rewrite (bind_of_result_Ok _ oid) by apply UUID_str. apply run_bind_ext. by intros [].
Qed.
End notification.

Definition notices (t : rows) (oid : uuid) (e : EventType.t) : list mail :=
  match addressee t oid, subject_of e with
  | Some u, Some subject => [MailRecord (email u) subject oid]
  | _, _ => []
  end.

(** The notification worker in the documented world. *)
Lemma notification_run o `{Ook : !OracleOk o} w t v oid e m :
  resting w t v → joint t v → notification_message oid e m →
  ∃ w1, run (sys_exec o) (NotificationWorker._handle_message m) w
        = Some (Ok tt, match notices t oid e with m :: _ => log_mail m w1 | [] => w1 end)
    ∧ resting w1 t v ∧ progressed [] w w1.
Proof.
  intros Hr Hj Hm.
  destruct (worker_performs o (sys_exec o) id (λ s, NotificationWorker.recipient s oid) w t v
    (Effect (Ok (addressee t oid)) t v []) Hr Hj) as (w1 & Hrun & Hrest & _ & Hp).
  { apply recipient_effects, Hj. }
  exists w1. split; [|done].
  rewrite (notification_program o oid e m w Hm), run_bind, Hrun. cbn [answer].
  unfold notices, notify. destruct (addressee t oid); [|done]. by destruct (subject_of e).
Qed.

Section notification_contract.
Context {W : Type} (o : oracle) (impl : handler sys_op W) (obs : W → world).
Context `{P : !Platform (sys_exec o) impl obs} `{Ook : !OracleOk o}.

(** A TICKET_ISSUED or ORDER_CANCELLED message sends its one e-mail to the
    user of the order, and nothing if the order or the user is unknown; the
    databases and the bus are left alone. *)
Theorem notification_outcome w t v oid e m :
  resting (obs w) t v → joint t v → notification_message oid e m →
  ∃ w', run impl (NotificationWorker._handle_message m) w = Some (Ok tt, w')
    ∧ resting (obs w') t v
    ∧ mails (obs w') = mails (obs w) ++ notices t oid e
    ∧ kafka_log (obs w') = kafka_log (obs w).
Proof using P Ook.
  intros Hr Hj Hm.
  destruct (notification_run o (obs w) t v oid e m Hr Hj Hm) as (w1 & Hdoc & Hrest & Hp).
  destruct Hp as [([|] & Hlen & Hlog) Hclock Hmails _]; [|done]. simpl in Hlog. rewrite app_nil_r in Hlog.
  destruct (runs_to_doc (impl := impl) _ w _ _ Hdoc) as (w' & Hrun' & Hobs).
  exists w'. rewrite Hobs. split; [done|]. unfold notices.
  destruct (addressee t oid); [destruct (subject_of e)|]; simpl; rewrite ?app_nil_r;
    rewrite <- ?Hmails; by split_and!.
Qed.
End notification_contract.

(** ** Event synchronisation *)
Definition done {A} (r : result exn A) : result exn unit :=
  match r with Ok _ => Ok tt | Err e => Err e end.

Lemma initialize_kept e n v : kept v (Spec.initialize e n v).2.
Proof.
  unfold Spec.initialize. destruct (inv_of v e); [apply kept_refl|].
  destruct (write_row _ v) as [v'|err] eqn:Hw; [|apply kept_refl].
  apply write_row_Ok in Hw as [_ ->]. simpl. intros id r Hr. exists r. split; [|done].
  unfold res_of. by rewrite lookup_insert_ne.
Qed.

Lemma adjust_kept e n v : kept v (Spec.adjust e n v).2.
Proof.
  unfold Spec.adjust. destruct (inv_of v e); [|apply kept_refl]. case_decide; [apply kept_refl|].
  destruct (write_row _ v) as [v'|err] eqn:Hw; [|apply kept_refl].
  apply write_row_Ok in Hw as [_ ->]. simpl. intros id r Hr. exists r. split; [|done].
  unfold res_of. by rewrite lookup_insert_ne.
Qed.

(** The joint invariant after an operation of the inventory alone. *)
Lemma joint_operation t v op :
  joint t v → kept v (apply_operation op v) → joint t (apply_operation op v).
Proof. intros Hj Hk. apply (joint_inventory t v); [done| |done]. apply operation_consistent, Hj. Qed.

Lemma created_message service id now e n :
  EventSync._handle_message service
    (wrap id EventType.EVENT_CREATED now (EventCreatedPayload e n))
  = (_ <- Service.initialize_inventory e n ;; Ret tt).
Proof.
  change (EventSync._handle_message _ _) with
    (event_id <- of_result (UUID (uuid_str e)) ;; _ <- Service.initialize_inventory event_id n ;; Ret tt).
  by rewrite (bind_of_result_Ok _ e) by apply UUID_str.
Qed.

Lemma updated_message service id now e n :
  EventSync._handle_message service
    (wrap id EventType.EVENT_UPDATED now (EventUpdatedPayload e n))
  = (_ <- Service.adjust_capacity service e n ;; Ret tt).
Proof.
  change (EventSync._handle_message _ _) with
    (event_id <- of_result (UUID (uuid_str e)) ;; _ <- Service.adjust_capacity service event_id n ;; Ret tt).
  by rewrite (bind_of_result_Ok _ e) by apply UUID_str.
Qed.

Section sync.
Context {W : Type} (o : oracle) (impl : handler sys_op W) (obs : W → world).
Context `{P : !Platform (sys_exec o) impl obs} `{Ook : !OracleOk o}.
Variable self : InventoryService.

(** A call of the Inventory service, as an operation of the whole system. *)
Lemma serves_performs {A} (p : M A) w t v spec r :
  resting (obs w) t v → joint t spec.2 →
  (∀ n q, obs w = quiet v n q (obs w) → serves impl obs p w spec r (obs w)) →
  performs impl obs (_ <- p ;; Ret tt) w (Effect (done spec.1) t spec.2 []).
Proof using P.
  intros Hr Hj Hs. destruct Hr as (n & q & ni & qi & Ha & Hi).
  destruct (Hs ni qi (quiet_self v ni qi _ Hi)) as (ni' & qi' & d & w' & Hrun & Hobs).
  exists w'. rewrite run_bind, Hrun. cbn [answer api_after inv_after sent].
  split; [by destruct spec.1|]. rewrite Hobs. split; [|split; [done | by apply progressed_nil]].
  by exists n, q, ni', qi'.
Qed.

Lemma created_performs w t v e n :
  resting (obs w) t v → joint t v →
  performs impl obs (_ <- Service.initialize_inventory e n ;; Ret tt) w
    (Effect (done (Spec.initialize e n v).1) t (Spec.initialize e n v).2 []).
Proof using P.
  intros Hr Hj. apply (serves_performs _ w t v _ (redis (obs w))); [done| |].
  - apply (joint_operation t v (OpInitialize e n)); [done | apply initialize_kept].
  - intros ni qi Hw. eapply scope_serves; eauto using initialize_atomic.
    apply initialize_implements, Hj.
Qed.

Lemma updated_performs w t v e n :
  resting (obs w) t v → joint t v → lock_free e (obs w) → lock_usable (lock self) →
  performs impl obs (_ <- Service.adjust_capacity self e n ;; Ret tt) w
    (Effect (done (Spec.adjust e n v).1) t (Spec.adjust e n v).2 []).
Proof using P.
  intros Hr Hj Hf Hu.
  apply (serves_performs _ w t v _ (delete (lock_key (event_resource e)) (redis (obs w)))); [done| |].
  - apply (joint_operation t v (OpAdjust e n)); [done | apply adjust_kept].
  - intros ni qi Hw. eapply locked_serves; eauto using adjust_atomic.
    intros w1 _ _. apply adjust_implements, Hj.
Qed.

(** C40. The event-sync consumer, the event's lock being free: EVENT_CREATED gives
    an event unknown to the inventory its seats and leaves a known one as it is;
    EVENT_UPDATED sets the capacity of a known event and fails for an unknown
    one.  A number the column refuses fails and changes nothing; neither message
    touches an order or a reservation. *)
Theorem event_sync_outcome w t v id now e n :
  resting (obs w) t v → joint t v → lock_free e (obs w) → lock_usable (lock self) →
  performs impl obs (EventSync._handle_message self
      (wrap id EventType.EVENT_CREATED now (EventCreatedPayload e n))) w
    (Effect (done (Spec.initialize e n v).1) t (Spec.initialize e n v).2 [])
  ∧ performs impl obs (EventSync._handle_message self
      (wrap id EventType.EVENT_UPDATED now (EventUpdatedPayload e n))) w
    (Effect (done (Spec.adjust e n v).1) t (Spec.adjust e n v).2 []).
Proof using P.
  intros Hr Hj Hf Hu. rewrite created_message, updated_message. split.
  - by apply created_performs.
  - by apply updated_performs.
Qed.
End sync.

(** ** The reaper *)
Definition expiry_announcement (r : Reservation) : announcement :=
  (EventType.RESERVATION_EXPIRED, uuid_str (res_event_id r),
   ReservationExpiredPayload (uuid_str (res_id r)) (res_order_id r) (res_event_id r)).

Lemma kept_trans v1 v2 v3 : kept v1 v2 → kept v2 v3 → kept v1 v3.
Proof.
  intros H12 H23 id r Hr. destruct (H12 id r Hr) as (r2 & Hr2 & ? & ? & ?).
  destruct (H23 id r2 Hr2) as (r3 & Hr3 & ? & ? & ?). exists r3. split_and!; congruence.
Qed.

Lemma release_all_kept now ids v xs v' :
  consistent v → Spec.release_all now ids v = Ok (xs, v') → kept v v'.
Proof.
  revert v xs v'. induction ids as [|id ids IH]; intros v xs v' Hc H; simpl in H.
  { injection H as <- <-. apply kept_refl. }
  pose proof (release_kept now id true v Hc) as Hk.
  pose proof (release_keeps v Hc now id true) as [Hc1 _].
  destruct (Spec.release now id true v) as [[x|err] v1]; [|done]. simpl in *.
  destruct (Spec.release_all now ids v1) as [[ys v2]|err] eqn:Hall; [|done]. simpl in H.
  injection H as _ <-. eapply kept_trans; [exact Hk | by eapply IH].
Qed.

Lemma sweep_kept now ids v : consistent v → kept v (Spec.sweep now ids v).2.
Proof.
  intros Hc. unfold Spec.sweep. destruct (Spec.release_all now ids v) as [[xs v']|err] eqn:H.
  - by eapply release_all_kept.
  - apply kept_refl.
Qed.

(** A release moves no capacity. *)
Lemma release_capacities now id ex v e :
  consistent v →
  total_capacity <$> inv_of (Spec.release now id ex v).2 e = total_capacity <$> inv_of v e.
Proof.
  intros Hc. unfold Spec.release. destruct (res_of v id) as [r|]; [|done]. case_decide; [done|].
  unfold Spec.transition. destruct (inv_of v (res_event_id r)) as [i|] eqn:Hi.
  - destruct (inventory_row_ok v Hc _ i Hi) as [_ Hid].
    set (f := λ i, if decide (status r = ReservationStatus.PENDING) then _ else _).
    assert (Hf : inv_event_id (f i) = inv_event_id i ∧ total_capacity (f i) = total_capacity i)
      by (unfold f; by case_decide).
    unfold write_row. destruct (inv_check_row (RInv _)); [done|]. cbn [then_].
    destruct (inv_check_row (RRes _)); [done|]. cbn [then_ committed snd inv_key_of res_id stamp_updated set_status].
    change (inv_event_id (updated_inventory f i)) with (inv_event_id (f i)).
    rewrite inv_of_rewrite, (proj1 Hf), Hid. case_decide; [subst e|done]. rewrite Hi. simpl. by rewrite (proj2 Hf).
  - unfold write_row. cbn [then_]. destruct (inv_check_row (RRes _)); [done|].
    cbn [then_ committed snd]. unfold inv_of. by rewrite lookup_insert_ne.
Qed.

Lemma release_all_capacities now ids v xs v' e :
  consistent v → Spec.release_all now ids v = Ok (xs, v') →
  total_capacity <$> inv_of v' e = total_capacity <$> inv_of v e.
Proof.
  revert v xs v'. induction ids as [|id ids IH]; intros v xs v' Hc H; simpl in H; [by injection H as _ <-|].
  pose proof (release_capacities now id true v e Hc) as Hk.
  pose proof (release_keeps v Hc now id true) as [Hc1 _].
  destruct (Spec.release now id true v) as [[x|err] v1]; [|done]. simpl in *.
  destruct (Spec.release_all now ids v1) as [[ys v2]|err] eqn:Hall; [|done]. simpl in H.
  injection H as _ <-. rewrite <- Hk. by eapply IH.
Qed.

Lemma announced_app ms1 ms2 w1 w2 w3 :
  clock w2 = clock w1 → announced ms1 w1 w2 → announced ms2 w2 w3 → announced (ms1 ++ ms2) w1 w3.
Proof.
  intros Hc (ids1 & Hl1 & Hlog1) (ids2 & Hl2 & Hlog2). exists (ids1 ++ ids2).
  rewrite !length_app, Hl1, Hl2. split; [done|].
  by rewrite Hlog2, Hlog1, Hc, zip_with_app, (assoc_L (++)).
Qed.

Lemma progressed_app ms1 ms2 w1 w2 w3 :
  progressed ms1 w1 w2 → progressed ms2 w2 w3 → progressed (ms1 ++ ms2) w1 w3.
Proof.
  intros [Hl1 Hc1 Hm1 (Hr1 & Hk1 & Hf1)] [Hl2 Hc2 Hm2 (Hr2 & Hk2 & Hf2)].
  split; [by eapply announced_app | congruence.. | split_and!; congruence].
Qed.

Lemma for_each_cons {A C} (f : A → M C) x xs :
  for_each f (x :: xs) = (y <- f x ;; ys <- for_each f xs ;; Ret (y :: ys)).
Proof. done. Qed.

(** Publishing the expiries one after the other. *)
Lemma announce_run o xs w :
  let failed := negb (kafka_up w) && negb (bool_decide (xs = [])) in
  ∃ w', run (sys_exec o) (_ <- for_each Reaper.announce xs ;; Ret tt) w
        = Some (if failed then Err KafkaError else Ok tt, w')
    ∧ progressed (if kafka_up w then expiry_announcement <$> xs else []) w w'
    ∧ api_db w' = api_db w ∧ inv_db w' = inv_db w.
Proof.
  destruct (kafka_up w) eqn:Hk; simpl.
  - revert w Hk. induction xs as [|x xs IH]; intros w Hk.
    { exists w. split; [done|]. split; [apply progressed_refl | done]. }
    rewrite for_each_cons, run_bind_assoc, run_bind.
    change (Reaper.announce x) with (publish (expiry_announcement x).1.1
      (expiry_announcement x).1.2 (expiry_announcement x).2).
    rewrite run_publish, Hk. cbv iota beta.
    set (w1 := log_record _ _).
    destruct (IH w1 Hk) as (w' & Hrun & Hp & Ha & Hi). exists w'.
    rewrite run_bind_assoc. rewrite run_bind in Hrun |- *. split; [|split; [|done]].
    + by destruct (run _ (for_each _ _) _) as [[[]?]|].
    + apply (progressed_app [_] _ w w1); [|done]. apply progressed_draw.
      exact (progressed_log _ (expiry_announcement x) (next_draw w)).
  - destruct xs as [|x xs].
    { exists w. split; [done|]. split; [apply progressed_refl | done]. }
    exists (next_draw w). split; [|split; [by apply progressed_nil | done]].
    rewrite for_each_cons, run_bind_assoc, run_bind.
    change (Reaper.announce x) with (publish (expiry_announcement x).1.1
      (expiry_announcement x).1.2 (expiry_announcement x).2).
    by rewrite run_publish, Hk.
Qed.

Section reaper.
Context {W : Type} (o : oracle) (impl : handler sys_op W) (obs : W → world).
Context `{P : !Platform (sys_exec o) impl obs} `{Ook : !OracleOk o}.

(** A PENDING reservation past its expiry. *)
Definition overdue (now : Z) (v : table) (id : uuid) : Prop :=
  ∃ x, res_of v id = Some x ∧ status x = ReservationStatus.PENDING ∧ expires_at x < now.

(** C24. A turn of the reaper, no event's record being within a hundred of the
    largest version.  It expires as many overdue reservations as there are, up to
    a hundred, each once; it announces exactly those, each once and in the order
    it expired them, after the one commit; every other reservation, every
    capacity and every order is as it was, and the counters follow the seats.
    With the broker down the seats are back but no order hears of it: the turn
    raises, which ends the loop, and the next turn finds those reservations
    EXPIRED already. *)
Theorem reaper_turn w t v :
  resting (obs w) t v → joint t v → versions_below v (Z.of_nat Service.sweep_limit) →
  ∃ xs v' w',
    run impl Reaper.sweep_once w
    = Some (if kafka_up (obs w) || bool_decide (xs = []) then Ok tt else Err KafkaError, w')
    ∧ resting (obs w') t v' ∧ joint t v'
    ∧ progressed (if kafka_up (obs w) then expiry_announcement <$> xs else []) (obs w) (obs w')
    ∧ NoDup (res_id <$> xs)
    ∧ length xs = Nat.min Service.sweep_limit (expired_count (clock (obs w)) v)
    ∧ Forall (λ x, overdue (clock (obs w)) v (res_id x) ∧ res_of v' (res_id x) = Some x
                   ∧ status x = ReservationStatus.EXPIRED) xs
    ∧ ((expired_count (clock (obs w)) v ≤ Service.sweep_limit)%nat →
       ∀ id, overdue (clock (obs w)) v id → id ∈ res_id <$> xs)
    ∧ (∀ id, id ∉ res_id <$> xs → res_of v' id = res_of v id)
    ∧ (∀ e, total_capacity <$> inv_of v' e = total_capacity <$> inv_of v e).
Proof using P Ook.
  intros Hr Hj Hver. destruct Hr as (n & q & ni & qi & Ha & Hi).
  pose proof (quiet_self v ni qi _ Hi) as Hw. pose proof (joint_inv _ _ Hj) as Hc.
  set (now := clock (obs w)) in *. set (ids := found_ids o now Service.sweep_limit qi v).
  destruct (sweep_found o v qi now Hc Hver)
    as (xs & v' & Hsw & Hids & Hc' & Hlen & Hnd & Hall & Hout). fold ids in Hsw, Hids.
  destruct (sweep_serves o impl obs w v ni qi (obs w) Hc Hw) as (ni' & qi' & d & w1 & Hrun & Hobs).
  fold now ids in Hrun, Hobs. pose proof (sweep_kept now ids v Hc) as Hk.
  rewrite Hsw in Hrun, Hobs, Hk. cbn [fst snd] in Hrun, Hobs, Hk.
  destruct (announce_run o xs (obs w1)) as (w2 & Hrun2 & Hp & Ha2 & Hi2).
  destruct (runs_to_doc (impl := impl) _ w1 _ _ Hrun2) as (w' & Hrun' & Hobs').
  exists xs, v', w'. unfold Reaper.sweep_once. rewrite run_bind, Hrun, Hrun', Hobs'.
  replace (kafka_up (obs w1)) with (kafka_up (obs w)) in * by by rewrite Hobs.
  split_and!; try done.
  - by destruct (kafka_up (obs w)), (bool_decide (xs = [])).
  - exists n, q, ni', qi'. rewrite Ha2, Hi2, Hobs. done.
  - by apply (joint_inventory t v).
  - apply (progressed_then _ _ (obs w1)); [|done]. rewrite Hobs. by apply progressed_nil.
  - pose proof (found_ids_pending o now Service.sweep_limit qi v Hc) as Hpend. fold ids in Hpend.
    rewrite <- Hids, Forall_fmap in Hpend. rewrite Forall_forall in Hall, Hpend |- *.
    intros x Hx. destruct (Hall x Hx) as (Hst & _ & Hx' & _). split; [exact (Hpend x Hx) | done].
  - intros Hlim id (x & Hx & Hst & Hexp). rewrite Hids.
    destruct (reservation_row_ok v Hc id x Hx) as [_ Hid]. by apply (found_ids_all o _ _ _ v id x).
  - intros e. unfold Spec.sweep in Hsw.
    destruct (Spec.release_all now ids v) as [[ys v2]|err] eqn:Hall'; [|done]. injection Hsw as _ <-.
    by eapply release_all_capacities.
Qed.
End reaper.

(** ** Sample messages *)
Definition sample_consumer (m : json) : M unit :=
  match m with JNull => Raise (KeyError "event_type") | _ => Ret tt end.
Definition sample_partitions : list partition :=
  [Partition [JInt 1; JNull; JInt 2] 0 0; Partition [JInt 3; JInt 4] 0 0].

(** The two partitions in turn; the second commit is refused. *)
Definition sample_client : AIOKafkaConsumer := {|
  next_partition pos :=
    match pos with
    | [m; n] => if (m <=? n)%nat then Some 0%nat else Some 1%nat
    | _ => None
    end;
  commit_error pos := if bool_decide (pos = [1; 1]%nat) then Some KafkaError else None;
|}.

(** The loop is told to stop before the fifth message. *)
Definition stopped_at (n : nat) (pos : list nat) : bool := (n <=? foldr Nat.add 0 pos)%nat.

(** The first commit holds, the second is refused, the third message fails, the
    fourth is committed, the fifth is dropped. *)
Lemma consumer_at_least_once_witness :
  ∃ ps', run (sys_exec sample_oracle)
           (consume sample_client sample_consumer (stopped_at 4) 6 sample_partitions)
           initial_world = Some (Ok ps', initial_world)
    ∧ ∃ p', ps' !! 0%nat = Some p' ∧ position (restart p') = 2%nat.
Proof.
  destruct (consumer_at_least_once (sys_exec sample_oracle) sample_client sample_consumer
              (stopped_at 4) 6 sample_partitions initial_world
              [Ok tt; Ok tt; Err (KeyError "event_type"); Ok tt] initial_world)
    as (ps' & Hrun & _ & _ & Hp & _).
  - reflexivity.
  - exists ps'. split; [exact Hrun|].
    destruct (Hp 0%nat (Partition [JInt 1; JNull; JInt 2] 0 0) eq_refl) as (_ & p' & Hp' & _ & Hr).
    exists p'. split; [exact Hp' | exact Hr].
Defined.

Lemma failed_message_lost_witness :
  ∃ ps' p' off, run (sys_exec sample_oracle)
           (consume sample_client sample_consumer (λ _, false) 4 sample_partitions)
           initial_world = Some (Ok ps', initial_world)
    ∧ ps' !! 0%nat = Some p' ∧ messages p' !! off = Some JNull ∧ (off < position (restart p'))%nat.
Proof.
  apply (failed_message_lost (sys_exec sample_oracle) sample_client sample_consumer (λ _, false) 4
           sample_partitions initial_world [Ok tt; Ok tt; Err (KeyError "event_type"); Ok tt]
           initial_world 2 0 JNull (Partition [JInt 1; JNull; JInt 2] 0 0) 3).
  - reflexivity.
  - reflexivity.
  - reflexivity.
  - lia.
  - reflexivity.
  - reflexivity.
Defined.

Lemma payment_worker_outcome_witness :
  ∃ w' n, run (sys_exec sample_oracle) (PaymentWorker._handle_message
      (wrap (uuid_of_N 1) EventType.ORDER_CREATED 0
         (OrderCreatedPayload (uuid_of_N 2) (uuid_of_N 3) (uuid_of_N 4) 1 100 "r"))) initial_world
    = Some (Ok tt, w')
    ∧ kafka_log w' = [record_of (clock w') (uuid_draw sample_oracle n)
                        (payment_done (uuid_of_N 2) true "mock_txn_000000000000")].
Proof.
  destruct (payment_worker_outcome sample_oracle (sys_exec sample_oracle) id initial_world
              (uuid_of_N 1) 0 (uuid_of_N 2) (uuid_of_N 3) (uuid_of_N 4) 1 100 "r")
    as (w' & n & Hrun & Hlog & _).
  exists w', n. split; [exact Hrun | exact Hlog].
Defined.

Definition sample_ticket : json :=
  wrap (uuid_of_N 1) EventType.TICKET_ISSUED 0
    (TicketIssuedPayload (uuid_of_N 1000) (uuid_of_N 7) sample_event).

Lemma notification_outcome_witness :
  ∃ w', run (sys_exec sample_oracle) (NotificationWorker._handle_message sample_ticket)
          (booked_world "k") = Some (Ok tt, w')
    ∧ resting w' (api_after (sample_booking "k")) (inv_after (sample_booking "k"))
    ∧ mails w' = [MailRecord "ada@example.org" "Your tickets are confirmed!" (uuid_of_N 1000)]
    ∧ kafka_log w' = [].
Proof.
  apply (notification_outcome sample_oracle (sys_exec sample_oracle) id (booked_world "k")
           (api_after (sample_booking "k")) (inv_after (sample_booking "k")) (uuid_of_N 1000)
           EventType.TICKET_ISSUED sample_ticket).
  - by exists 0%nat, 0%nat, 0%nat, 0%nat.
  - apply booked_joint.
  - constructor.
Defined.

Lemma event_sync_outcome_witness :
  performs (sys_exec sample_oracle) id (EventSync._handle_message default_service
      (wrap (uuid_of_N 1) EventType.EVENT_UPDATED 0 (EventUpdatedPayload sample_event 25))) shop_world
    (Effect (Ok tt) shop_rows (Spec.adjust sample_event 25 shop_inventory).2 []).
Proof.
  apply (event_sync_outcome sample_oracle (sys_exec sample_oracle) id default_service shop_world
           shop_rows shop_inventory (uuid_of_N 1) 0 sample_event 25).
  - apply shop_rests.
  - apply shop_joint.
  - by destruct (sample_lock_free sample_event).
  - apply sample_lock_usable.
Defined.

(** The sample booking, an hour later. *)
Definition overdue_world : world := set_clock (3600 * second) (booked_world "k").

Lemma reaper_turn_witness :
  ∃ xs v' w',
    run (sys_exec sample_oracle) Reaper.sweep_once overdue_world = Some (Ok tt, w')
    ∧ progressed (expiry_announcement <$> xs) overdue_world w' ∧ length xs = 1%nat
    ∧ Forall (λ x, res_of v' (res_id x) = Some x ∧ status x = ReservationStatus.EXPIRED) xs.
Proof.
  destruct (reaper_turn sample_oracle (sys_exec sample_oracle) id overdue_world
           (api_after (sample_booking "k")) (inv_after (sample_booking "k")))
    as (xs & v' & w' & Hrun & _ & _ & Hp & _ & Hlen & Hall & _).
  - exists 0%nat, 0%nat, 0%nat, 0%nat. split; reflexivity.
  - exact (booked_joint "k").
  - apply versions_below_check. vm_compute. reflexivity.
  - exists xs, v', w'. split; [exact Hrun|]. split; [exact Hp|]. split.
    + rewrite Hlen. vm_compute. reflexivity.
    + eapply Forall_impl; [exact Hall|]. by intros x (_ & ? & ?).
Defined.
