(* ===== verification/EventCorrectness.v ===== *)
(** * Correctness of events

    [EventService] against its atomic effects: creation, partial update and
    deletion, who may do them, the constraints that refuse them, and the
    lifecycle messages that carry the seats to the Inventory service. *)
From S2P Require Import Prelude Effects Json Uuid Domain Orm OrmFacts Redis.
From S2P Require Import InventoryModels.
From S2P Require Import ApiModels Platform SessionRuns Kafka Pagination.
From S2P Require Import ApiRepositories ApiRuns.
From S2P Require Import InventoryRepository Locking InventoryService InventoryServicer.
From S2P Require Import InventorySpec InventoryInvariant InventoryRefinement.
From S2P Require Import InventoryCorrectness.
From S2P Require Import RpcCorrectness EventService BookingService SystemSpec.
From S2P Require Import SystemRuns.
From S2P Require Import BookingCorrectness.

(** ** Effects *)
Definition event_created (e : Event) : announcement :=
  (EventType.EVENT_CREATED, uuid_str (event_id e),
   EventCreatedPayload (event_id e) (default 0 (total_seats e))).

Definition event_updated (e : Event) : announcement :=
  (EventType.EVENT_UPDATED, uuid_str (event_id e),
   EventUpdatedPayload (event_id e) (default 0 (total_seats e))).

Definition not_yours : exn := AuthorizationError "You do not have permission to modify this event".

Module Events.
Section operations.
Variables (kafka : bool) (now : Z).

Definition new_event (id : uuid) (d : EventCreate) (organizer : User) : Event :=
  mkEvent id (Some (new_title d)) (new_description d) (Some (new_venue d)) (Some (new_starts_at d))
    (Some (new_total_seats d)) (Some (new_price_cents d)) (user_id organizer) (Some now) (Some now).

Definition create (id : uuid) (d : EventCreate) (organizer : User) (t : rows) (v : table)
    : effect Event :=
  let e := new_event id d organizer in
  match insert_error t (REvent e) with
  | Some err => Effect (Err err) t v []
  | None => announcing kafka e (<[KEvent id := REvent e]> t) v (event_created e)
  end.

(** [e], changed to [e'] by a commit: its [updated_at] moves if anything did. *)
Definition modified (e e' : Event) : Event :=
  if decide (e = e') then e
  else mkEvent (event_id e') (title e') (description e') (venue e') (starts_at e') (total_seats e')
         (price_cents e') (organizer_id e') (event_created_at e') (Some now).

Definition update (id : uuid) (d : EventUpdate) (user : User) (t : rows) (v : table)
    : effect Event :=
  match event_of t id with
  | None => Effect (Err (no_event id)) t v []
  | Some e =>
      if may_modify e user then
        match change_error now (REvent e) (REvent (apply_update d e)) with
        | Some err => Effect (Err err) t v []
        | None =>
            let e' := modified e (apply_update d e) in
            let t' := <[KEvent id := REvent e']> t in
            if seats_changed d e then announcing kafka e' t' v (event_updated e')
            else Effect (Ok e') t' v []
        end
      else Effect (Err not_yours) t v []
  end.

Definition delete (id : uuid) (user : User) (t : rows) (v : table) : effect unit :=
  match event_of t id with
  | None => Effect (Err (no_event id)) t v []
  | Some e =>
      if may_modify e user then
        if bool_decide (map_Forall (λ _ r, KEvent id ∉ api_references r) t)
        then Effect (Ok tt) (base.delete (KEvent id) t) v []
        else Effect (Err IntegrityError) t v []
      else Effect (Err not_yours) t v []
  end.
End operations.
End Events.

(** ** The effects keep the databases tied *)
Lemma joint_rows t t' v :
  joint t v → well_formed t' → (∀ id, order_of t' id = order_of t id) → joint t' v.
Proof.
  intros [_ Hc Hl] Hw Ho. split; [done..|]. intros id x. rewrite Ho. apply Hl.
Qed.

Lemma order_of_event t id e id' : order_of (<[KEvent id := REvent e]> t) id' = order_of t id'.
Proof. unfold order_of. by rewrite lookup_insert_ne. Qed.

Lemma create_joint kafka now id d organizer t v :
  joint t v →
  let out := Events.create kafka now id d organizer t v in joint (api_after out) (inv_after out).
Proof.
  intros Hj out. unfold out, Events.create. destruct (insert_error t _) eqn:Hins; [done|].
  match goal with |- context [announcing kafka ?e ?t' v ?m] =>
    destruct (announcing_after kafka e t' v m) as [-> ->] end.
  apply (joint_rows t); [done| |intros; apply order_of_event].
  exact (insert_well_formed t _ (joint_api _ _ Hj) Hins).
Qed.

Lemma modified_id now e e' : event_id e' = event_id e → event_id (Events.modified now e e') = event_id e.
Proof. unfold Events.modified. by case_decide. Qed.

(** An update the database accepts keeps the rows well formed. *)
Lemma modified_well_formed t now d e :
  well_formed t → event_of t (event_id e) = Some e →
  change_error now (REvent e) (REvent (apply_update d e)) = None →
  well_formed (<[KEvent (event_id e) := REvent (Events.modified now e (apply_update d e))]> t).
Proof.
  intros Hw He%event_of_lookup Hck. unfold change_error, Events.modified in *.
  case_decide as Hd; case_decide as Hd'; try congruence.
  - rewrite insert_id by done. done.
  - by apply (update_well_formed t _ (REvent e)).
Qed.

Lemma update_joint kafka now id d user t v :
  joint t v →
  let out := Events.update kafka now id d user t v in joint (api_after out) (inv_after out).
Proof.
  intros Hj out. unfold out, Events.update. destruct (event_of t id) as [e|] eqn:He; [|done].
  destruct (may_modify e user); [|done]. destruct (change_error _ _ _) eqn:Hck; [done|].
  assert (Hid : event_id e = id) by (by apply (event_of_id t (joint_api _ _ Hj) id)).
  subst id.
  assert (Hj' : joint (<[KEvent (event_id e) := REvent (Events.modified now e (apply_update d e))]> t) v).
  { apply (joint_rows t); [done| |intros; apply order_of_event].
    apply modified_well_formed; [apply Hj | done | done]. }
  destruct (seats_changed d e); [|done].
  match goal with |- context [announcing kafka ?e ?t' v ?m] =>
    destruct (announcing_after kafka e t' v m) as [-> ->] end. done.
Qed.

Lemma delete_joint id user t v :
  joint t v → let out := Events.delete id user t v in joint (api_after out) (inv_after out).
Proof.
  intros Hj out. unfold out, Events.delete. destruct (event_of t id) as [e|]; [|done].
  destruct (may_modify e user); [|done]. case_bool_decide as Hfree; [|done].
  apply (joint_rows t); [done| |].
  - apply delete_well_formed; [apply Hj | done].
  - intros id'. cbn [api_after]. unfold order_of. by rewrite lookup_delete_ne.
Qed.

(** ** The bodies have these effects *)
Section bodies.
Context (o : oracle) `{Ook : !OracleOk o}.
Implicit Types (t : rows) (v : table) (w : world).

Lemma create_effects d organizer t v w :
  well_formed t →
  effects o (λ s, EventService.create s d organizer) t v w
    (Events.create (kafka_up w) (clock w) (uuid_draw o (draws w)) d organizer t v).
Proof using.
  intros Hw s ss n q ni qi Hc Hv. unfold EventService.create, Events.create.
  rewrite run_bind. change (run _ uuid4 _) with
    (Some (Ok (X := exn) (uuid_draw o (draws w)), joint_world t s ss n q v ni qi (next_draw w))).
  cbv iota beta. set (id := uuid_draw o (draws w)).
  pose proof (add_run o t s ss n q (quiet v ni qi (next_draw w)) Hc as_event REvent
    (mkEvent id (Some (new_title d)) (new_description d) (Some (new_venue d)) (Some (new_starts_at d))
       (Some (new_total_seats d)) (Some (new_price_cents d)) (user_id organizer) None None)
    ltac:(done) ltac:(by eexists)) as Hadd.
  cbv zeta in Hadd.
  change (inserted_row _ (REvent _)) with (REvent (Events.new_event (clock w) id d organizer)) in Hadd.
  rewrite Hv in Hadd. unfold joint_world. rewrite run_bind. unfold EventRepository.add. rewrite Hadd.
  set (e := Events.new_event (clock w) id d organizer).
  destruct (insert_error t (REvent e)) as [err|] eqn:Hins.
  { exists empty_session, q, ni, qi, (next_draw w). split; [done|]. by apply progressed_nil. }
  cbn [as_event]. cbv iota beta.
  destruct (with_new_coherent t ss (REvent e) Hc) as (Hc1 & Hv1 & Ho1). rewrite Hv in Hv1.
  destruct (run_api_commit o t s (with_new ss (REvent e)) n q (quiet v ni qi (next_draw w)) Hc1)
    as (ss2 & Hcm & _ & _ & Ho2). rewrite Hv1 in Hcm. rewrite run_bind, Hcm. cbv iota beta.
  unfold BaseRepository.instance. rewrite !run_bind. erewrite run_api_instance by (by rewrite Ho2).
  cbn [as_event]. cbv iota beta.
  destruct (announcing_run o e (event_created e) (<[KEvent id := REvent e]> t) s ss2 n q v ni qi (next_draw w))
    as (w' & Ha & Hp).
  exists ss2, q, ni, qi, w'. split; [exact Ha | by apply progressed_draw].
Qed.

Lemma owner_run (e : Event) user w :
  run (sys_exec o) (EventService._require_owner_or_admin e user) w
  = Some (if may_modify e user then Ok tt else Err not_yours, w).
Proof using.
  unfold EventService._require_owner_or_admin, may_modify. by repeat case_bool_decide.
Qed.

Lemma event_service_get_run t s ss n q w id :
  coherent t ss → well_formed t → visible t ss = t →
  ∃ ss', run (sys_exec o) (EventService.get s id) (in_session t s ss n q w)
         = Some (match event_of t id with Some e => Ok e | None => Err (no_event id) end,
                 in_session t s ss' n q w)
    ∧ coherent t ss' ∧ visible t ss' = t
    ∧ (∀ e, event_of t id = Some e → loaded ss' (REvent e)).
Proof using.
  intros Hc Hw Hv. assert (Hvw : well_formed (visible t ss)) by by rewrite Hv.
  destruct (event_get_run o t s ss n q w Hc Hvw id) as (ss' & Hrun & [Hc' Hv' _] & Hl).
  rewrite Hv in Hrun, Hl, Hv'. exists ss'. unfold EventService.get. rewrite run_bind, Hrun.
  split; [|done]. by destruct (event_of t id).
Qed.

(** An accepted update that changes the seats leaves them a number. *)
Lemma changed_seats now d e :
  seats_changed d e = true →
  total_seats (Events.modified now e (apply_update d e))
  = Some (default 0 (total_seats (Events.modified now e (apply_update d e)))).
Proof using.
  unfold seats_changed. intros Hs.
  assert (Hn : ∃ n, upd_total_seats d = Some (Some n)).
  { destruct (upd_total_seats d) as [[n|]|]; simpl in Hs; try done. by exists n. }
  destruct Hn as [n Hn]. unfold Events.modified. case_decide as Heq.
  - rewrite Heq. simpl. by rewrite Hn.
  - simpl. by rewrite Hn.
Qed.

Lemma without_coherent t ss k :
  coherent t ss → coherent t (without ss k) ∧ visible t (without ss k) = base.delete k (visible t ss).
Proof using.
  intros Hc. assert (Hv : visible t (without ss k) = base.delete k (visible t ss))
    by apply apply_overlay_delete.
  split; [|done]. split; [done..|]. intros k' l c. rewrite Hv. unfold without. simpl.
  rewrite !lookup_delete. case_decide; [done | apply Hc].
Qed.

(** Writing the fields of a loaded event, committing, reading it back. *)
Lemma change_event_run {A} e d t s ss n q v ni qi w (k : Event → M A) :
  coherent t ss → visible t ss = t → loaded ss (REvent e) →
  let prog :=
    (api_write s (KEvent (event_id e)) (on_event (apply_update d)) ;; api_commit s ;;
     event <- BaseRepository.instance as_event s (KEvent (event_id e)) ;; k event) in
  match change_error (clock w) (REvent e) (REvent (apply_update d e)) with
  | Some err =>
      run (sys_exec o) prog (joint_world t s ss n q v ni qi w)
      = Some (Err err, joint_world t s empty_session n q v ni qi w)
  | None =>
      let e' := Events.modified (clock w) e (apply_update d e) in
      ∃ ss', run (sys_exec o) prog (joint_world t s ss n q v ni qi w)
        = run (sys_exec o) (k e')
            (joint_world (<[KEvent (event_id e) := REvent e']> t) s ss' n q v ni qi w)
  end.
Proof using.
  intros Hc Hv Hl prog.
  pose proof (run_api_change o t s ss n q (quiet v ni qi w) (REvent e) (on_event (apply_update d))
    (event <- BaseRepository.instance as_event s (KEvent (event_id e)) ;; k event) Hc Hl) as Hch.
  change (clock (quiet v ni qi w)) with (clock w) in Hch.
  specialize (Hch ltac:(simpl; unfold merge_event; rewrite !col_loaded; by destruct e)).
  cbv zeta in Hch. change (on_event (apply_update d) (REvent e)) with (REvent (apply_update d e)) in Hch.
  destruct (change_error (clock w) (REvent e) (REvent (apply_update d e))); [exact Hch|].
  rewrite Hv in Hch. destruct Hch as (ss' & Hrun & _ & _ & Ho & _).
  assert (Hnew : changed_row (clock w) (REvent e) (REvent (apply_update d e))
    = REvent (Events.modified (clock w) e (apply_update d e))).
  { unfold changed_row, Events.modified. repeat case_decide; done || congruence. }
  rewrite Hnew in Hrun, Ho. exists ss'. unfold prog. refine (eq_trans Hrun _).
  unfold BaseRepository.instance, joint_world. rewrite !run_bind.
  by erewrite run_api_instance by exact Ho.
Qed.

Lemma update_effects id d user t v w :
  well_formed t →
  effects o (λ s, EventService.update s id d user) t v w
    (Events.update (kafka_up w) (clock w) id d user t v).
Proof using.
  intros Hw s ss n q ni qi Hc Hv. unfold EventService.update, Events.update.
  destruct (event_service_get_run t s ss n q (quiet v ni qi w) id Hc Hw Hv)
    as (ss1 & Hrun & Hc1 & Hv1 & Hl).
  unfold joint_world at 1. rewrite run_bind, Hrun. destruct (event_of t id) as [e|] eqn:He.
  2: { exists ss1, q, ni, qi, w. split; [done | apply progressed_refl]. }
  rewrite run_bind, owner_run. destruct (may_modify e user).
  2: { exists ss1, q, ni, qi, w. split; [done | apply progressed_refl]. }
  cbv iota beta zeta. assert (Hid : event_id e = id) by by apply (event_of_id t Hw id). subst id.
  pose proof (change_event_run e d t s ss1 n q v ni qi w (λ event,
    _ <- (if seats_changed d e then
            seats <- of_result (int_field (total_seats event)) ;;
            publish EventType.EVENT_UPDATED (uuid_str (event_id event))
              (EventUpdatedPayload (event_id event) seats)
          else Ret tt) ;; Ret event) Hc1 Hv1 (Hl e eq_refl)) as Hch.
  cbv zeta in Hch. destruct (change_error _ _ _) as [err|] eqn:Hck.
  { exists empty_session, q, ni, qi, w. split; [exact Hch | apply progressed_refl]. }
  destruct Hch as (ss2 & Hch). set (e' := Events.modified _ _ _) in *.
  destruct (seats_changed d e) eqn:Hs.
  - destruct (announcing_run o e' (event_updated e') (<[KEvent (event_id e) := REvent e']> t) s ss2 n q
      v ni qi w) as (w' & Ha & Hp).
    exists ss2, q, ni, qi, w'. split; [|exact Hp]. refine (eq_trans Hch _). refine (eq_trans _ Ha).
    unfold e' at 1. rewrite (changed_seats (clock w) d e Hs). done.
  - exists ss2, q, ni, qi, w. split; [exact Hch | apply progressed_refl].
Qed.

Lemma delete_effects id user t v w :
  well_formed t →
  effects o (λ s, EventService.delete s id user) t v w (Events.delete id user t v).
Proof using.
  intros Hw s ss n q ni qi Hc Hv. unfold EventService.delete, Events.delete.
  destruct (event_service_get_run t s ss n q (quiet v ni qi w) id Hc Hw Hv)
    as (ss1 & Hrun & Hc1 & Hv1 & _).
  unfold joint_world at 1. rewrite run_bind, Hrun. destruct (event_of t id) as [e|] eqn:He.
  2: { exists ss1, q, ni, qi, w. split; [done | apply progressed_refl]. }
  rewrite run_bind, owner_run. destruct (may_modify e user).
  2: { exists ss1, q, ni, qi, w. split; [done | apply progressed_refl]. }
  cbv iota beta. assert (Hid : event_id e = id) by by apply (event_of_id t Hw id).
  unfold EventRepository.delete, BaseRepository.delete. cbn [api_key_of]. rewrite Hid.
  rewrite run_bind_assoc.
  rewrite (run_api_remove o t s ss1 n q (quiet v ni qi w) (KEvent id) (api_commit s) Hc1), Hv1.
  case_bool_decide as Hfree.
  - destruct (without_coherent t ss1 (KEvent id) Hc1) as [Hc2 Hv2]. rewrite Hv1 in Hv2.
    destruct (run_api_commit o t s (without ss1 (KEvent id)) n q (quiet v ni qi w) Hc2)
      as (ss3 & Hcm & _). rewrite Hv2 in Hcm.
    exists ss3, q, ni, qi, w. split; [exact Hcm | apply progressed_refl].
  - exists empty_session, q, ni, qi, w. split; [done | apply progressed_refl].
Qed.
End bodies.

(** ** What event management promises *)
Section contract.
Context {W : Type} (o : oracle) (impl : handler sys_op W) (obs : W → world).
Context `{P : !Platform (sys_exec o) impl obs} `{Ook : !OracleOk o}.
Implicit Types (t : rows) (v : table).

(** Creating an event stores the row the body describes, owned by the
    caller, and announces its seats once; a row the database refuses is not
    stored and not announced. *)
Theorem event_create_outcome w t v d organizer :
  resting (obs w) t v → joint t v →
  performs impl obs (get_db (λ s, EventService.create s d organizer)) w
    (Events.create (kafka_up (obs w)) (clock (obs w)) (uuid_draw o (draws (obs w))) d organizer t v).
Proof using P.
  intros Hr Hj. apply (request_performs o impl obs _ w t v); [done | by apply create_joint |].
  apply create_effects, Hj.
Qed.


(** Only the organizer of an event or an administrator may delete it, and
    only while no order refers to it; the deletion is announced to nobody, so
    the inventory of the event stays. *)
Theorem event_delete_outcome w t v id user :
  resting (obs w) t v → joint t v →
  performs impl obs (get_db (λ s, EventService.delete s id user)) w
    (Events.delete id user t v).
Proof using P.
  intros Hr Hj. apply (request_performs o impl obs _ w t v); [done | by apply delete_joint |].
  apply delete_effects, Hj.
Qed.
End contract.


(** ** Sample requests *)
Definition sample_create : EventCreate := mkEventCreate "Play" None "Stage" 0 40 1500.
Definition organizer : User :=
  mkUser (uuid_of_N 7) "ada@example.org" "hash" "Ada" ORGANIZER true (Some 0) (Some 0).

Lemma event_create_outcome_witness :
  performs (sys_exec sample_oracle) id (get_db (λ s, EventService.create s sample_create organizer))
    shop_world
    (Events.create true 0 (uuid_of_N 1000) sample_create organizer shop_rows shop_inventory).
Proof.
  apply (event_create_outcome sample_oracle (sys_exec sample_oracle) id shop_world shop_rows
           shop_inventory sample_create organizer).
  - apply shop_rests.
  - apply shop_joint.
Defined.

(** The venue set to null. *)
Definition sample_update : EventUpdate := mkEventUpdate None None (Some None) None (Some (Some 5)) None.


Lemma event_delete_outcome_witness :
  performs (sys_exec sample_oracle) id (get_db (λ s, EventService.delete s sample_event organizer))
    shop_world
    (Effect (Ok tt) (base.delete (KEvent sample_event) shop_rows) shop_inventory []).
Proof.
  apply (event_delete_outcome sample_oracle (sys_exec sample_oracle) id shop_world shop_rows
           shop_inventory sample_event organizer).
  - apply shop_rests.
  - apply shop_joint.
Defined.
