(* ===== verification/Checkout.v ===== *)
(** * From a booked order to a ticket

    The message pipeline put together: the payment worker, the order worker
    and the notification worker, each fed the record the one before it has put
    on the bus. *)
From S2P Require Import Prelude Effects Json Uuid Domain Orm OrmFacts Redis.
From S2P Require Import InventoryModels.
From S2P Require Import ApiModels Platform SessionRuns Kafka Pagination.
From S2P Require Import ApiRepositories ApiRuns.
From S2P Require Import InventoryRepository Locking InventoryService InventoryServicer.
From S2P Require Import InventorySpec InventoryInvariant InventoryRefinement.
From S2P Require Import InventoryCorrectness.
From S2P Require Import RpcCorrectness EventService BookingService SystemSpec.
From S2P Require Import SystemRuns.
From S2P Require Import BookingCorrectness Workers WorkerCorrectness BusCorrectness.

(** The settled order, its reservation and the message, for a payment that
    succeeded or failed. *)
Definition settled_status (success : bool) : OrderStatus.t :=
  if success then OrderStatus.CONFIRMED else OrderStatus.CANCELLED.
Definition settled_reservation (success : bool) : ReservationStatus.t :=
  if success then ReservationStatus.CONFIRMED else ReservationStatus.RELEASED.
Definition settled_event (success : bool) : EventType.t :=
  if success then EventType.TICKET_ISSUED else EventType.ORDER_CANCELLED.
Definition settled_message (success : bool) (x : Order) : announcement :=
  if success then ticket_issued x else order_cancelled x.

(** The Inventory service's side of a settlement that meets no obstacle. *)
Lemma settle_reservation o now (success : bool) x rid r i v :
  consistent v → capacity_respected v →
  reservation_id x = uuid_str rid → res_of v rid = Some r →
  status r = ReservationStatus.PENDING →
  inv_of v (res_event_id r) = Some i → version i + 1 ≤ int32_max →
  ∃ r' v', (if success then System.confirm o NoFault now x v else System.release o NoFault now x v)
           = (Ok r', v')
    ∧ status <$> res_of v' rid = Some (settled_reservation success).
Proof.
  intros Hc Hcap Hrid Hr Hst Hi Hv.
  pose proof (confirm_pending now v rid r i Hc Hcap Hr Hst Hi Hv) as Hconf.
  pose proof (release_pending now v rid false r i Hc Hr Hst Hi Hv) as Hrel.
  cbv zeta in Hconf, Hrel.
  unfold System.confirm, System.release, System.remote, by_text. rewrite Hrid, UUID_str, Hconf, Hrel.
  destruct success; eexists _, _; (split; [done|]); simpl; unfold res_of; by rewrite lookup_insert_eq.
Qed.

(** A payment that meets no obstacle settles the order. *)
Lemma paid_settles o now success x rid r i t v :
  joint t v → capacity_respected v → System.pending_order t (order_id x) = Some x →
  reservation_id x = uuid_str rid → res_of v rid = Some r →
  status r = ReservationStatus.PENDING →
  inv_of v (res_event_id r) = Some i → version i + 1 ≤ int32_max →
  let x' := with_status now (settled_status success) x in
  ∃ v', System.paid o NoFault true now (order_id x) success t v
        = Effect (Ok tt) (<[KOrder (order_id x) := ROrder x']> t) v' [settled_message success x']
    ∧ status <$> res_of v' rid = Some (settled_reservation success).
Proof.
  intros Hj Hcap Hx Hrid Hr Hst Hi Hv x'.
  destruct (settle_reservation o now success x rid r i v (joint_inv _ _ Hj) Hcap Hrid Hr Hst Hi Hv)
    as (r' & v' & Hcall & Hst').
  exists v'. split; [|done]. unfold System.paid. rewrite Hx. by destruct success; rewrite Hcall.
Qed.

Lemma settled_notification success x id now :
  notification_message (order_id x) (settled_event success)
    (wrap id (settled_message success x).1.1 now (settled_message success x).2).
Proof. destruct success; constructor. Qed.

Section checkout.
Context {W : Type} (o : oracle) (impl : handler sys_op W) (obs : W → world).
Context `{P : !Platform (sys_exec o) impl obs} `{Ook : !OracleOk o}.
Implicit Types (t : rows) (v : table).

(** The order worker on the record of a payment. *)
Lemma settlement_run w t v x rid r i success id now ref :
  resting w t v → joint t v → capacity_respected v →
  System.pending_order t (order_id x) = Some x →
  reservation_id x = uuid_str rid → res_of v rid = Some r →
  status r = ReservationStatus.PENDING →
  inv_of v (res_event_id r) = Some i → version i + 1 ≤ int32_max →
  fault w = NoFault → kafka_up w = true →
  let x' := with_status (clock w) (settled_status success) x in
  ∃ v' w' mid,
    run (sys_exec o) (OrderStatusWorker._handle_message
      (wrap id EventType.PAYMENT_PROCESSED now (PaymentProcessedPayload (order_id x) success ref))) w
    = Some (Ok tt, w')
    ∧ resting w' (<[KOrder (order_id x) := ROrder x']> t) v'
    ∧ joint (<[KOrder (order_id x) := ROrder x']> t) v'
    ∧ kafka_log w' = kafka_log w ++ [record_of (clock w) mid (settled_message success x')]
    ∧ mails w' = mails w
    ∧ status <$> res_of v' rid = Some (settled_reservation success).
Proof using Ook.
  intros Hr Hj Hcap Hx Hrid Hres Hst Hi Hv Hnet Hk x'.
  destruct (paid_settles o (clock w) success x rid r i t v Hj Hcap Hx Hrid Hres Hst Hi Hv)
    as (v' & Hpaid & Hst').
  destruct (worker_performs o (sys_exec o) Datatypes.id (settle_payment (order_id x) success) w t v
    (System.paid o (fault w) (kafka_up w) (clock w) (order_id x) success t v) Hr)
    as (w' & Hrun & Hrest & Hj' & [(ids & Hlen & Hlog) _ Hmails _]).
  { by apply paid_joint. }
  { apply settle_payment_effects; [apply Hj..]. }
  rewrite Hnet, Hk, Hpaid in *. cbn [answer api_after inv_after sent] in *.
  destruct ids as [|mid [|]]; [done| |done]. exists v', w', mid.
  rewrite payment_message. by split_and!.
Qed.

(** With the parts up, the ORDER_CREATED message of a PENDING order whose
    reservation is PENDING goes through the three workers: the payment worker
    announces the charge, the order worker settles order and reservation by its
    outcome and announces it, the notification worker mails the user. *)
Lemma checkout_run w t v x rid r i user id now :
  resting (obs w) t v → joint t v → capacity_respected v →
  System.pending_order t (order_id x) = Some x →
  reservation_id x = uuid_str rid → res_of v rid = Some r →
  status r = ReservationStatus.PENDING →
  inv_of v (res_event_id r) = Some i → version i + 1 ≤ int32_max →
  user_of t (order_user_id x) = Some user →
  fault (obs w) = NoFault → kafka_up (obs w) = true →
  let success := (charge_outcome o (obs w)).1 in
  ∃ payment settlement w1 w2 w3 t' v',
    run impl (PaymentWorker._handle_message
      (wrap id (order_created x).1.1 now (order_created x).2)) w = Some (Ok tt, w1)
    ∧ kafka_log (obs w1) = kafka_log (obs w) ++ [payment]
    ∧ rec_topic payment = Topic.value (TOPIC_FOR_EVENT_TYPE EventType.PAYMENT_PROCESSED)
    ∧ resting (obs w1) t v
    ∧ run impl (OrderStatusWorker._handle_message (rec_value payment)) w1 = Some (Ok tt, w2)
    ∧ kafka_log (obs w2) = kafka_log (obs w1) ++ [settlement]
    ∧ rec_topic settlement = Topic.value (TOPIC_FOR_EVENT_TYPE (settled_event success))
    ∧ resting (obs w2) t' v'
    ∧ run impl (NotificationWorker._handle_message (rec_value settlement)) w2 = Some (Ok tt, w3)
    ∧ mails (obs w3) = mails (obs w)
        ++ [MailRecord (email user) (default "" (subject_of (settled_event success))) (order_id x)]
    ∧ resting (obs w3) t' v'
    ∧ order_status <$> order_of t' (order_id x) = Some (settled_status success)
    ∧ status <$> res_of v' rid = Some (settled_reservation success).
Proof using P Ook.
  intros Hr Hj Hcap Hx Hrid Hres Hst Hi Hv Huser Hnet Hk success.
  pose proof (payment_worker_run o (obs w) id now (order_id x) (order_event_id x) (order_user_id x)
    (order_quantity x) (total_price_cents x) (reservation_id x)) as Hrun1. rewrite Hk in Hrun1.
  destruct (runs_to_doc (impl := impl) _ w _ _ Hrun1) as (w1 & Hrun1' & Hobs1).
  assert (Hrest1 : resting (obs w1) t v) by by rewrite Hobs1.
  destruct (settlement_run (obs w1) t v x rid r i success (uuid_draw o (draws (charged o (obs w))))
    (clock (charged o (obs w))) (charge_outcome o (obs w)).2 Hrest1 Hj Hcap Hx Hrid Hres Hst Hi Hv)
    as (v2 & d2 & mid & Hrun2 & Hrest2 & Hj2 & Hlog2 & Hmails2 & Hst2);
    [by rewrite Hobs1..|].
  destruct (runs_to_doc (impl := impl) _ w1 _ _ Hrun2) as (w2 & Hrun2' & Hobs2).
  set (x' := with_status (clock (obs w1)) (settled_status success) x) in *.
  destruct (notification_run o (obs w2) (<[KOrder (order_id x) := ROrder x']> t) v2 (order_id x)
    (settled_event success) (wrap mid (settled_message success x').1.1 (clock (obs w1))
                               (settled_message success x').2))
    as (d3 & Hrun3 & Hrest3 & [_ _ Hmails3 _]); [by rewrite Hobs2 | done | apply (settled_notification success x')|].
  destruct (runs_to_doc (impl := impl) _ w2 _ _ Hrun3) as (w3 & Hrun3' & Hobs3).
  assert (Hnot : notices (<[KOrder (order_id x) := ROrder x']> t) (order_id x) (settled_event success)
    = [MailRecord (email user) (default "" (subject_of (settled_event success))) (order_id x)]).
  { unfold notices, addressee. rewrite order_of_insert, decide_True by done. simpl.
    unfold user_of in *. rewrite lookup_insert_ne by done. rewrite Huser. by destruct success. }
  rewrite Hnot in Hobs3.
  exists (record_of (clock (charged o (obs w))) (uuid_draw o (draws (charged o (obs w))))
            (payment_done (order_id x) success (charge_outcome o (obs w)).2)),
    (record_of (clock (obs w1)) mid (settled_message success x')),
    w1, w2, w3, (<[KOrder (order_id x) := ROrder x']> t), v2.
  rewrite Hobs3, Hobs2, Hlog2. split_and!; try done.
  - by rewrite Hobs1.
  - by destruct success.
  - unfold record_of. by destruct (settled_message success x') as [[? ?] ?] eqn:Heq.
  - simpl. rewrite Hmails3, Hobs2, Hmails2. by rewrite Hobs1.
  - by rewrite order_of_insert, decide_True.
Qed.
End checkout.
