(* ===== verification/Listings.v ===== *)
(** * Correctness of the listings

    The paged listings of the API, [EventRepository.search] and
    [OrderRepository.list_for_user]: a count and an ordered [SELECT] with
    [LIMIT] and [OFFSET].  Each page is a window of a sorted list of the rows
    asked for; when the order has no ties that list is the same for every
    request, and the pages put together are all of it. *)
From S2P Require Import Prelude Effects Json Uuid Domain Orm OrmFacts Redis.
From S2P Require Import InventoryModels.
From S2P Require Import ApiModels Platform SessionRuns Kafka Pagination.
From S2P Require Import ApiRepositories ApiRuns.
From S2P Require Import InventoryRepository Locking InventoryService InventoryServicer.
From S2P Require Import InventorySpec InventoryInvariant InventoryRefinement.
From S2P Require Import InventoryCorrectness.
From S2P Require Import RpcCorrectness EventService BookingService SystemSpec.
From S2P Require Import SystemRuns BookingCorrectness.

(** ** Rows of one kind *)
Section views.
Context {T : Type} (view : api_row → option T).

Lemma omap_take rows k :
  Forall (λ r, is_Some (view r)) rows → omap view (take k rows) = take k (omap view rows).
Proof using.
  intros Hv. revert k. induction Hv as [|r rows [x Hx] _ IH]; intros [|k]; try done.
  simpl. rewrite Hx. simpl. f_equal. apply IH.
Qed.

Lemma omap_drop rows k :
  Forall (λ r, is_Some (view r)) rows → omap view (drop k rows) = drop k (omap view rows).
Proof using.
  intros Hv. revert k. induction Hv as [|r rows [x Hx] Hrows IH]; intros [|k]; try done.
  simpl. rewrite Hx. simpl. apply IH.
Qed.

Lemma omap_length rows :
  Forall (λ r, is_Some (view r)) rows → length (omap view rows) = length rows.
Proof using. induction 1 as [|r rows [x Hx] _ IH]; [done|]. simpl. rewrite Hx. simpl. f_equal. exact IH. Qed.

Lemma omap_sorted (key : api_row → Z) (rank : T → Z) rows :
  (∀ r x, view r = Some x → rank x = key r) →
  StronglySorted (sorted_by key) rows → StronglySorted (λ x y, rank x ≤ rank y) (omap view rows).
Proof using.
  intros Hr. induction 1 as [|r rows _ IH Hall]; [constructor|]. simpl.
  destruct (view r) as [x|] eqn:Hx; [|done]. constructor; [done|].
  apply Forall_forall. intros y Hy. apply list_elem_of_omap in Hy as (r' & Hr' & Hy).
  rewrite Forall_forall in Hall. specialize (Hall _ Hr'). unfold sorted_by in Hall.
  by rewrite (Hr _ _ Hx), (Hr _ _ Hy).
Qed.
End views.

(** ** A listing *)
Section listing.
Context {T : Type} (view : api_row → option T) (asked : api_row → bool) (key : api_row → Z).

(** The body both repositories and their services share. *)
Definition listed (s : nat) (pg : PaginationParams) : M (Page T) :=
  total <- api_count s asked ;;
  l <- of_result (bind_bigint (limit pg)) ;;
  o <- of_result (bind_bigint (offset pg)) ;;
  rows <- api_select s (Query asked (Some key) (Some l) o) ;;
  Ret (Pagination.create (omap view rows) total pg).

(** What is asked for, and how it is ranked. *)
Definition selected (t : rows) : list T :=
  omap view (filter (λ r, asked r = true) (map_to_list t).*2).

Variable rank : T → Z.
Hypothesis Hview : ∀ r, asked r = true → is_Some (view r).
Hypothesis Hrank : ∀ r x, view r = Some x → rank x = key r.

Definition ranked : relation T := λ x y, rank x ≤ rank y.
#[local] Instance ranked_dec : RelDecision ranked.
Proof using. intros x y. unfold ranked. apply _. Defined.
#[local] Instance ranked_trans : Transitive ranked.
Proof using. intros x y z. unfold ranked. lia. Qed.
#[local] Instance ranked_total : Total ranked.
Proof using. intros x y. unfold ranked. lia. Qed.
#[local] Instance sorted_by_trans : Transitive (sorted_by key).
Proof using. intros x y z. unfold sorted_by. lia. Qed.
#[local] Instance sorted_by_total : Total (sorted_by key).
Proof using. intros x y. unfold sorted_by. lia. Qed.

(** An order in which the rows may be listed. *)
Definition listing (t : rows) (l : list T) : Prop := l ≡ₚ selected t ∧ StronglySorted ranked l.

(** Without ties there is one. *)
Definition the_listing (t : rows) : list T := merge_sort ranked (selected t).

Lemma the_listing_ok t : listing t (the_listing t).
Proof using. split; [apply merge_sort_Permutation | apply (StronglySorted_merge_sort _)]. Qed.

Lemma listing_unique t l : NoDup (rank <$> selected t) → listing t l → l = the_listing t.
Proof using.
  intros Hnd [Hp Hs]. destruct (the_listing_ok t) as [Hp' Hs'].
  apply (StronglySorted_unique_strong ranked); [|done|done|by rewrite Hp, Hp'].
  intros x y Hx Hy Hxy Hyx. rewrite Hp in Hx. rewrite Hp' in Hy.
  apply list_elem_of_lookup in Hx as [i Hi], Hy as [j Hj].
  assert (i = j) as ->; [|congruence].
  eapply NoDup_lookup; [exact Hnd|..]; rewrite list_lookup_fmap; [by rewrite Hi|].
  rewrite Hj. simpl. f_equal. unfold ranked in *. lia.
Qed.

(** *** Running it *)
Section runs.
Context (o : oracle) `{Ook : !OracleOk o}.

Lemma filter_asked_view rows : Forall (λ r, is_Some (view r)) (filter (λ r, asked r = true) rows).
Proof using Hview. apply Forall_forall. intros r [Hr _]%list_elem_of_filter. by apply Hview. Qed.

(** The page a query gives, and the count, whatever order the server scans in. *)
Lemma run_query_window n t pg :
  ∃ l, listing t l
    ∧ omap view (run_query (api_scan o) n t
        (Query asked (Some key) (Some (Z.to_nat (limit pg))) (Z.to_nat (offset pg)))) = window pg l
    ∧ length l = length (filter (λ r, asked r = true) (map_to_list t).*2).
Proof using Hview Hrank Ook.
  set (rs := filter (λ r, asked r = true) (api_scan o n t)).
  assert (Hperm : merge_sort (sorted_by key) rs ≡ₚ filter (λ r, asked r = true) (map_to_list t).*2).
  { rewrite merge_sort_Permutation. unfold rs. by rewrite (api_scan_perm (o := o) n t). }
  assert (Hall : Forall (λ r, is_Some (view r)) (merge_sort (sorted_by key) rs)).
  { rewrite merge_sort_Permutation. apply filter_asked_view. }
  exists (omap view (merge_sort (sorted_by key) rs)). split; [split|split].
  - unfold selected. by rewrite Hperm.
  - by eapply omap_sorted, (StronglySorted_merge_sort _).
  - unfold run_query, window. cbn [q_order q_where q_offset q_limit]. fold rs.
    rewrite omap_take, omap_drop; [done | done | by apply Forall_drop].
  - rewrite omap_length by done. by rewrite Hperm.
Qed.

(** The server takes the page's numbers: the first row is within its bigints. *)
Definition addressable (pg : PaginationParams) : Prop :=
  pagination_valid pg = true ∧ int64_ok (offset pg) = true.

Lemma bind_limit pg : pagination_valid pg = true → bind_bigint (limit pg) = Ok (Z.to_nat (limit pg)).
Proof using.
  intros Hp%valid_spec. unfold bind_bigint, limit.
  replace (int64_ok (page_size pg)) with true; [done|]. symmetry. unfold int64_ok. zify_bools. lia.
Qed.

Lemma listed_run t s ss n q w pg :
  coherent t ss → well_formed (visible t ss) → addressable pg →
  ∃ ss' l, listing (visible t ss) l
    ∧ run (sys_exec o) (listed s pg) (in_session t s ss n q w)
      = Some (Ok (Pagination.create (window pg l) (Z.of_nat (length l)) pg),
              in_session t s ss' n (S (S q)) w).
Proof using Hview Hrank Ook.
  intros Hc Hw [Hp Ho]. unfold listed. rewrite run_bind, run_api_count by done.
  rewrite run_bind, run_of_result, bind_limit by done. cbv iota beta.
  rewrite run_bind, run_of_result. unfold bind_bigint. rewrite Ho. cbv iota beta.
  destruct (run_api_select o t s ss n (S q) w
    (Query asked (Some key) (Some (Z.to_nat (limit pg))) (Z.to_nat (offset pg))) Hc Hw)
    as (ss' & Hrun & _ & _).
  destruct (run_query_window (S q) (visible t ss) pg) as (l & Hl & Hwin & Hlen).
  exists ss', l. split; [done|]. rewrite run_bind, Hrun. cbn [run]. by rewrite Hwin, Hlen.
Qed.
End runs.

Section contract.
Context {W : Type} (o : oracle) (impl : handler sys_op W) (obs : W → world).
Context `{P : !Platform (sys_exec o) impl obs} `{Ook : !OracleOk o}.

(** A page, asked for in a request's session. *)
Lemma page_run w t v pg :
  resting (obs w) t v → well_formed t → addressable pg →
  ∃ w' l, listing t l
    ∧ run impl (get_db (λ s, listed s pg)) w
      = Some (Ok (Pagination.create (window pg l) (Z.of_nat (length l)) pg), w')
    ∧ resting (obs w') t v ∧ kafka_log (obs w') = kafka_log (obs w).
Proof using Hview Hrank P Ook.
  intros (n & q & ni & qi & Hw)%resting_idle Hwf Hpg.
  destruct (listed_run o t n empty_session (S n) q (quiet v ni qi (obs w)) pg) as (ss' & l & Hl & Hrun);
    [apply coherent_empty | by rewrite visible_empty | done |].
  rewrite visible_empty in Hl. apply (get_db_run o (λ s, listed s pg)) in Hrun. rewrite <- Hw in Hrun.
  destruct (runs_to_doc (impl := impl) _ w _ _ Hrun) as (w' & Hrun' & Hobs).
  exists w', l. split; [done|]. split; [done|]. rewrite Hobs. split; [|done].
  by exists (S n), (S (S q)), ni, qi.
Qed.

(** Page [i + 1] of the listing, of [sz] rows a page. *)
Definition page_params (sz : Z) (i : nat) : PaginationParams := mkPaginationParams (Z.of_nat i + 1) sz.
Definition page_of (l : list T) (sz : Z) (i : nat) : Page T :=
  Pagination.create (window (page_params sz i) l) (Z.of_nat (length l)) (page_params sz i).
Definition pages_of (l : list T) (sz : Z) : nat := Z.to_nat (total_pages (page_of l sz 0)).

Lemma page_addressable l sz i :
  1 ≤ sz ≤ 100 → Z.of_nat (length l) < 2 ^ 63 → (i < pages_of l sz)%nat →
  addressable (page_params sz i).
Proof using.
  intros Hsz Hlen Hi. unfold pages_of, page_of, Pagination.create in Hi. cbn [page page_size page_params] in Hi.
  destruct (total_pages_bounds l (Z.of_nat (length l)) sz ltac:(lia)) as [_ Hlast].
  set (n := Z.of_nat (length l)) in *.
  change (total_pages _) with (total_pages (mkPage l n 1 sz)) in Hi.
  assert (0 < n) by (apply Z.nle_gt; intros Hn; assert (n = 0) as Hz by lia;
    revert Hi; unfold total_pages; simpl; rewrite Hz, (proj2 (Z.leb_gt sz 0)), Z.div_small by lia; lia).
  specialize (Hlast ltac:(done)). split; [apply valid_spec; simpl; lia|].
  unfold int64_ok, offset. simpl. apply andb_true_intro. rewrite !Z.leb_le. nia.
Qed.

(** Without ties every request shows a window of the one listing, and the
    pages put together are all of it. *)
Lemma browse t sz :
  NoDup (rank <$> selected t) → 1 ≤ sz ≤ 100 → Z.of_nat (length (selected t)) < 2 ^ 63 →
  well_formed t →
  let l := the_listing t in
  (∀ i w v, (i < pages_of l sz)%nat → resting (obs w) t v →
     ∃ w', run impl (get_db (λ s, listed s (page_params sz i))) w = Some (Ok (page_of l sz i), w')
       ∧ resting (obs w') t v)
  ∧ mjoin ((λ i, items (page_of l sz i)) <$> seq 0 (pages_of l sz)) = l.
Proof using Hview Hrank P Ook.
  intros Hnd Hsz Hlen Hw l. destruct (the_listing_ok t) as [Hp _]. fold l in Hp.
  split.
  - intros i w v Hi Hr.
    destruct (page_run w t v (page_params sz i) Hr Hw) as (w' & l' & Hl & Hrun & Hr' & _).
    { eapply page_addressable; [done| |exact Hi]. by rewrite Hp. }
    apply listing_unique in Hl as ->; [|done]. by exists w'.
  - apply (pages_cover l sz). lia.
Qed.
End contract.
End listing.

Lemma run_get_db_ext {A S} (h : handler sys_op S) (b1 b2 : nat → M A) w :
  (∀ s w, run h (b1 s) w = run h (b2 s) w) → run h (get_db b1) w = run h (get_db b2) w.
Proof.
  intros Hb. unfold get_db. rewrite !run_bind. destruct (run h (trigger _) w) as [[[s|e] w1]|]; [|done..].
  by rewrite !run_try_finally, !run_try_except, Hb.
Qed.

(** ** The catalogue *)
Section catalogue.
Context `{Col : Collation}.
Variable params : EventSearchParams.

Definition start (e : Event) : Z := from_option id 0 (starts_at e).

(** The events a search asks for, and their listing by start. *)
Definition matching : rows → list Event := selected as_event (EventRepository._apply_filters params).
Definition catalogue : rows → list Event :=
  the_listing as_event (EventRepository._apply_filters params) start.

Lemma filters_view r : EventRepository._apply_filters params r = true → is_Some (as_event r).
Proof using. by destruct r. Qed.

Lemma start_rank r e : as_event r = Some e → start e = EventRepository.by_start r.
Proof using. destruct r; try done. by intros [= ->]. Qed.

Lemma run_search {S} (h : handler sys_op S) s pg w :
  run h (EventService.search s params pg) w
  = run h (listed as_event (EventRepository._apply_filters params) EventRepository.by_start s pg) w.
Proof using.
  unfold EventService.search, EventRepository.search, listed.
  do 4 (rewrite run_bind_assoc; apply run_bind_ext; intros). done.
Qed.

Context {W : Type} (o : oracle) (impl : handler sys_op W) (obs : W → world).
Context `{P : !Platform (sys_exec o) impl obs} `{Ook : !OracleOk o}.

(** A page of a search shows a window of some listing of the matching events
    by their start, and their number; nothing changes. *)
Lemma search_page w t v pg :
  resting (obs w) t v → well_formed t → addressable pg →
  ∃ w' l, listing as_event (EventRepository._apply_filters params) start t l
    ∧ run impl (get_db (λ s, EventService.search s params pg)) w
      = Some (Ok (Pagination.create (window pg l) (Z.of_nat (length l)) pg), w')
    ∧ resting (obs w') t v ∧ kafka_log (obs w') = kafka_log (obs w).
Proof using P Ook.
  intros Hr Hw Hpg. rewrite (run_get_db_ext impl _ _ w (λ s w1, run_search impl s pg w1)).
  by apply (page_run _ _ _ start filters_view start_rank o impl obs).
Qed.

(** C25. Browsing the catalogue.  While no two matching events start at the same
    instant, searching page by page, whatever order the server scans its tables
    in and whatever else happens between the requests as long as the catalogue
    stays, shows every matching event exactly once, by start; each page says
    how many there are. *)
Theorem search_pages t sz :
  NoDup (start <$> matching t) → 1 ≤ sz ≤ 100 → Z.of_nat (length (matching t)) < 2 ^ 63 →
  well_formed t →
  let l := catalogue t in
  (∀ i w v, (i < pages_of l sz)%nat → resting (obs w) t v →
     ∃ w', run impl (get_db (λ s, EventService.search s params (page_params sz i))) w
           = Some (Ok (page_of l sz i), w')
       ∧ resting (obs w') t v)
  ∧ mjoin ((λ i, items (page_of l sz i)) <$> seq 0 (pages_of l sz)) = l
  ∧ l ≡ₚ matching t ∧ StronglySorted (λ e1 e2, start e1 ≤ start e2) l.
Proof using P Ook.
  intros Hnd Hsz Hlen Hw l.
  destruct (browse _ _ EventRepository.by_start start filters_view start_rank o impl obs t sz Hnd Hsz Hlen Hw)
    as [Hrun Hall]. split_and!.
  - intros i w v Hi Hr. destruct (Hrun i w v Hi Hr) as (w' & Hw' & Hr'). exists w'. split; [|done].
    refine (eq_trans (run_get_db_ext impl _ _ w _) Hw'). intros s w1. apply run_search.
  - exact Hall.
  - apply the_listing_ok.
  - apply the_listing_ok.
Qed.
End catalogue.

(** ** The orders of a user *)
Section orders.
Variable user : User.

Definition placed (x : Order) : Z := - from_option id 0 (order_created_at x).
Definition orders_of : rows → list Order := selected as_order (OrderRepository.of_user (user_id user)).
Definition history_of : rows → list Order :=
  the_listing as_order (OrderRepository.of_user (user_id user)) placed.

Lemma of_user_view r : OrderRepository.of_user (user_id user) r = true → is_Some (as_order r).
Proof using. by destruct r. Qed.

Lemma placed_rank r x : as_order r = Some x → placed x = OrderRepository.newest_first r.
Proof using. destruct r; try done. by intros [= ->]. Qed.

Lemma run_list_orders {S} (h : handler sys_op S) s pg w :
  run h (BookingService.list_orders s user pg) w
  = run h (listed as_order (OrderRepository.of_user (user_id user)) OrderRepository.newest_first s pg) w.
Proof using.
  unfold BookingService.list_orders, OrderRepository.list_for_user, listed.
  do 4 (rewrite run_bind_assoc; apply run_bind_ext; intros). done.
Qed.

Context {W : Type} (o : oracle) (impl : handler sys_op W) (obs : W → world).
Context `{P : !Platform (sys_exec o) impl obs} `{Ook : !OracleOk o}.

(** The pages of a user's orders: theirs and no one else's, newest first, each
    exactly once. *)
Theorem order_pages t sz :
  NoDup (placed <$> orders_of t) → 1 ≤ sz ≤ 100 → Z.of_nat (length (orders_of t)) < 2 ^ 63 →
  well_formed t →
  let l := history_of t in
  (∀ i w v, (i < pages_of l sz)%nat → resting (obs w) t v →
     ∃ w', run impl (get_db (λ s, BookingService.list_orders s user (page_params sz i))) w
           = Some (Ok (page_of l sz i), w')
       ∧ resting (obs w') t v)
  ∧ mjoin ((λ i, items (page_of l sz i)) <$> seq 0 (pages_of l sz)) = l
  ∧ (∀ x, x ∈ l ↔ order_of t (order_id x) = Some x ∧ order_user_id x = user_id user)
  ∧ StronglySorted (λ x1 x2, placed x1 ≤ placed x2) l.
Proof using P Ook.
  intros Hnd Hsz Hlen Hw l.
  destruct (browse _ _ OrderRepository.newest_first placed of_user_view placed_rank o impl obs t sz
    Hnd Hsz Hlen Hw) as [Hrun Hall].
  destruct (the_listing_ok as_order (OrderRepository.of_user (user_id user)) placed t) as [Hp Hs].
  split_and!.
  - intros i w v Hi Hr. destruct (Hrun i w v Hi Hr) as (w' & Hw' & Hr'). exists w'. split; [|done].
    refine (eq_trans (run_get_db_ext impl _ _ w _) Hw'). intros s w1. apply run_list_orders.
  - exact Hall.
  - intros x. unfold l, history_of. rewrite Hp. unfold selected. rewrite list_elem_of_omap.
    setoid_rewrite list_elem_of_filter. split.
    + intros (r & [Hr Hin] & Hx). destruct r as [?|?|x']; [done..|]. injection Hx as <-.
      apply bool_decide_eq_true in Hr.
      apply list_elem_of_fmap in Hin as ([k r] & Heq & Hin%elem_of_map_to_list). cbn [snd] in Heq. subst r.
      split; [|done]. apply order_of_lookup. pose proof (wf_key _ Hw _ _ Hin) as Hk. by subst k.
    + intros [Hx%order_of_lookup Hu]. exists (ROrder x). split; [|done].
      split; [simpl; by apply bool_decide_eq_true|].
      apply list_elem_of_fmap. exists (KOrder (order_id x), ROrder x). split; [done|].
      by apply elem_of_map_to_list.
  - exact Hs.
Qed.
End orders.

(** ** Two events that start together *)
#[local] Existing Instance sample_collation.

(** A server that scans the other way round from some query on. *)
Definition turning_oracle : oracle := {|
  inv_scan _ t := (map_to_list t).*2;
  api_scan n t := if (n <? 2)%nat then (map_to_list t).*2 else reverse (map_to_list t).*2;
  uuid_draw n := uuid_of_N (1000 + N.of_nat n);
  random_draw _ := 2 ^ 52;
  rpc_details _ := "Unexpected error";
  salt_draw n := pretty (Z.of_nat n);
|}.

#[global] Instance turning_oracle_ok : OracleOk turning_oracle.
Proof. split; intros; simpl; try done. case_match; [done | by rewrite reverse_Permutation]. Qed.

Definition matinee (n : N) : Event :=
  mkEvent (uuid_of_N n) (Some "Play") None (Some "Stage") (Some 0) (Some 10) (Some 1500)
    (user_id shop_user) (Some 0) (Some 0).
Definition two_matinees : rows :=
  <[KEvent (uuid_of_N 1) := REvent (matinee 1)]>
  (<[KEvent (uuid_of_N 2) := REvent (matinee 2)]>
  (<[KUser (user_id shop_user) := RUser shop_user]> ∅)).
Definition matinee_world : world := set_api_db (Database two_matinees ∅ 0 0) initial_world.
Definition everything : EventSearchParams := mkEventSearchParams None None None None.

Definition browse_page (i : nat) : M (Page Event) :=
  get_db (λ s, EventService.search s everything (page_params 1 i)).

(** The order of a search is not total: of two events that start at the same
    instant, a client that asks for the two pages one after the other, nothing
    changing in between, can be shown the same one twice and never the other. *)
Theorem tied_events_skipped :
  ∃ e w1 w2,
    run (sys_exec turning_oracle) (browse_page 0) matinee_world
    = Some (Ok (mkPage [e] 2 1 1), w1)
    ∧ run (sys_exec turning_oracle) (browse_page 1) w1 = Some (Ok (mkPage [e] 2 2 1), w2)
    ∧ resting w1 two_matinees ∅ ∧ resting w2 two_matinees ∅.
Proof.
  exists (matinee 2), (set_api_db (Database two_matinees ∅ 1 2) initial_world),
    (set_api_db (Database two_matinees ∅ 2 4) initial_world).
  split; [vm_compute; reflexivity|]. split; [vm_compute; reflexivity|].
  split; by eexists _, _, _, _.
Qed.

(** Two events of one evening. *)
Definition early : Event := matinee 1.
Definition late : Event :=
  mkEvent (uuid_of_N 2) (Some "Play") None (Some "Stage") (Some 7200) (Some 10) (Some 1500)
    (user_id shop_user) (Some 0) (Some 0).
Definition evening : rows :=
  <[KEvent (uuid_of_N 1) := REvent early]>
  (<[KEvent (uuid_of_N 2) := REvent late]>
  (<[KUser (user_id shop_user) := RUser shop_user]> ∅)).

Lemma evening_well_formed : well_formed evening.
Proof.
  refine (insert_well_formed _ (REvent early) (insert_well_formed _ (REvent late)
    (insert_well_formed ∅ (RUser shop_user) empty_well_formed _) _) _); vm_compute; reflexivity.
Qed.

Lemma search_pages_witness :
  (∀ i w v, (i < 2)%nat → resting w evening v →
     ∃ w', run (sys_exec turning_oracle) (browse_page i) w
           = Some (Ok (page_of (catalogue everything evening) 1 i), w')
       ∧ resting w' evening v)
  ∧ mjoin ((λ i, items (page_of (catalogue everything evening) 1 i)) <$> seq 0 2) = [early; late].
Proof.
  destruct (search_pages everything turning_oracle (sys_exec turning_oracle) id evening 1)
    as (Hrun & Hall & _).
  - by apply (bool_decide_unpack _).
  - lia.
  - by vm_compute.
  - apply evening_well_formed.
  - split; [exact Hrun | exact Hall].
Defined.

Lemma order_pages_witness :
  mjoin ((λ i, items (page_of (history_of shop_user evening) 1 i)) <$> seq 0 0) = [].
Proof.
  destruct (order_pages shop_user turning_oracle (sys_exec turning_oracle) id evening 1)
    as (_ & Hall & _).
  - by apply (bool_decide_unpack _).
  - lia.
  - by vm_compute.
  - apply evening_well_formed.
  - exact Hall.
Defined.
