(* ===== verification/AuthCorrectness.v ===== *)
(** * Correctness of accounts and tokens

    What registration, login, refresh and logout answer and leave behind: a
    login's access token is accepted as its user's, token types do not mix, a
    refresh token is good for one use, and where that use is not atomic. *)
From S2P Require Import Prelude Effects Interleaving Json Uuid Domain Orm Redis.
From S2P Require Import InventoryModels.
From S2P Require Import ApiModels Platform SessionRuns OrmFacts ApiRepositories.
From S2P Require Import ApiRuns.
From S2P Require Import Security AuthService Http.

(** ** Tokens *)
Section tokens.
Context `{C : Crypto} {Cok : CryptoOk C}.
Variables (o : oracle) (settings : Settings).

Definition lifetime (ty : token_type) : Z :=
  match ty with
  | access => access_token_expire_minutes settings * minute
  | refresh => refresh_token_expire_days settings * day
  end.

(** The token of a user, of a type, created at an instant. *)
Definition issued (uid : uuid) (ty : token_type) (created : Z) (jti : uuid) : string :=
  jwt_encode
    (claims (uuid_str uid) (token_type_value ty) (JTime created) (JTime (created + lifetime ty))
       (uuid_str jti))
    (jwt_secret_key settings) (jwt_algorithm settings).

Definition issued_claims (uid : uuid) (ty : token_type) (created : Z) (jti : uuid) : json :=
  claims (uuid_str uid) (token_type_value ty) (JInt (numeric_date created))
    (JInt (numeric_date (created + lifetime ty))) (uuid_str jti).

(** What [decode_token] answers at an instant. *)
Definition decoded (now : Z) (token : string) (expected_type : token_type) : result exn json :=
  match jwt_decode now token (jwt_secret_key settings) (jwt_algorithm settings) with
  | Err ExpiredSignatureError => Err (AuthenticationError "Token has expired")
  | Err InvalidTokenError => Err (AuthenticationError "Invalid token")
  | Ok payload =>
      match dict_get payload "type" JNull with
      | Err e => Err e
      | Ok typ =>
          if is_text typ (token_type_value expected_type) then Ok payload
          else Err (AuthenticationError
                      ("Expected a " +s token_type_value expected_type +s " token"))
      end
  end.

Lemma run_decode token ty w :
  run (sys_exec o) (decode_token settings token ty) w = Some (decoded (clock w) token ty, w).
Proof using.
  unfold decode_token, datetime_now. rewrite run_bind, run_trigger. simpl (sys_exec _ _ Now _).
  cbv iota beta. unfold decoded. destruct (jwt_decode _ _ _ _) as [payload|[]]; [|done..].
  destruct (dict_get payload "type" JNull) as [typ|e]; [|done]. simpl.
  by destruct (is_text _ _).
Qed.

Lemma numeric_date_bounds t : numeric_date t * second ≤ t < numeric_date t * second + second.
Proof using.
  unfold numeric_date, second. pose proof (Z.div_mod t 1000000 ltac:(lia)).
  pose proof (Z.mod_pos_bound t 1000000 ltac:(lia)). lia.
Qed.

Lemma decoded_issued uid ty ty' created jti now :
  created ≤ now → now + second ≤ created + lifetime ty →
  decoded now (issued uid ty created jti) ty'
  = if decide (ty = ty') then Ok (issued_claims uid ty created jti)
    else Err (AuthenticationError ("Expected a " +s token_type_value ty' +s " token")).
Proof using Cok.
  intros Hfrom Huntil. unfold decoded, issued. rewrite jwt_decode_encode.
  pose proof (numeric_date_bounds (created + lifetime ty)) as Hexp.
  pose proof (numeric_date_bounds created) as Hiat.
  rewrite (proj2 (Z.leb_gt _ _)) by lia. rewrite (proj2 (Z.ltb_ge _ _)) by lia.
  unfold claims at 1. simpl. destruct ty, ty'; simpl; done.
Qed.

Lemma run_create_token uid ty w :
  run (sys_exec o) (_create_token settings (uuid_str uid) ty (lifetime ty)) w
  = Some (Ok (issued uid ty (clock w) (uuid_draw o (draws w))), next_draw w).
Proof using. done. Qed.

Definition session_key (jti : uuid) : string := "refresh:" +s uuid_str jti.

Record settings_ok : Prop := {
  access_lives : 1 ≤ access_token_expire_minutes settings;
  refresh_lives : 1 ≤ refresh_token_expire_days settings;
}.

Lemma lifetime_positive ty : settings_ok → second ≤ lifetime ty.
Proof using. intros [? ?]. destruct ty; unfold lifetime, minute, day, second; lia. Qed.

(** The world after tokens have been issued for [uid]. *)
Definition token_world (uid : uuid) (w : world) : world :=
  set_redis (<[session_key (uuid_draw o (S (draws w))) :=
                 (RStr (uuid_str uid),
                  Some (clock w + refresh_token_expire_days settings * 86400 * second))]> (redis w))
    (next_draw (next_draw w)).

Definition tokens_of (uid : uuid) (w : world) : TokenResponse :=
  mkTokenResponse (issued uid access (clock w) (uuid_draw o (draws w)))
    (issued uid refresh (clock w) (uuid_draw o (S (draws w)))).

Lemma run_issue_tokens uid w :
  settings_ok → redis_up w = true →
  run (sys_exec o) (AuthService._issue_tokens settings uid) w
  = Some (Ok (tokens_of uid w), token_world uid w).
Proof using Cok.
  intros Hs Hup. unfold AuthService._issue_tokens, create_access_token, create_refresh_token.
  rewrite run_bind.
  change (access_token_expire_minutes settings * minute) with (lifetime access).
  change (refresh_token_expire_days settings * day) with (lifetime refresh).
  rewrite run_create_token, run_bind, run_create_token, run_bind, run_decode.
  cbn [clock next_draw].
  rewrite decoded_issued; [|lia | pose proof (lifetime_positive refresh Hs); lia].
  rewrite decide_True by done. unfold issued_claims. simpl. by rewrite Hup.
Qed.

(** [AuthService.refresh] of a token the service issued. *)
Lemma run_refresh uid created jti w :
  settings_ok → redis_up w = true →
  created ≤ clock w → clock w + second ≤ created + lifetime refresh →
  run (sys_exec o) (AuthService.refresh settings (issued uid refresh created jti)) w
  = match redis_get (clock w) (redis w) (session_key jti) with
    | None => Some (Err (AuthenticationError "Refresh token has been revoked or has expired"), w)
    | Some _ =>
        let w' := set_redis (delete (session_key jti) (redis w)) w in
        Some (Ok (tokens_of uid w'), token_world uid w')
    end.
Proof using Cok.
  intros Hs Hup Hfrom Huntil. unfold AuthService.refresh.
  rewrite run_bind, run_decode, decoded_issued by done. rewrite decide_True by done.
  rewrite (bind_of_result_Ok _ (JStr (uuid_str jti))) by reflexivity.
  rewrite (bind_of_result_Ok _ (JStr (uuid_str uid))) by reflexivity.
  rewrite (bind_of_result_Ok _ (session_key jti)) by reflexivity.
  unfold call at 1. rewrite run_call_bind. cbn [sys_exec redis_exec]. rewrite Hup.
  replace (set_redis (redis w) w) with w by by destruct w.
  destruct (redis_get (clock w) (redis w) (session_key jti)) as [v|] eqn:Hv; [|done].
  unfold call. rewrite run_call_bind. cbn [sys_exec redis_exec]. rewrite Hup, Hv.
  rewrite (bind_of_result_Ok _ uid) by apply UUID_str. by rewrite run_issue_tokens.
Qed.

(** [get_current_user] of a token of the service. *)
Lemma run_current_user t s ss n q w uid ty created jti :
  coherent t ss → well_formed (visible t ss) →
  created ≤ clock w → clock w + second ≤ created + lifetime ty →
  ∃ ss', run (sys_exec o) (get_current_user settings s (issued uid ty created jti))
           (in_session t s ss n q w)
    = Some (match ty with
            | access =>
                match user_of (visible t ss) uid with
                | Some u => if is_active u then Ok u
                            else Err (AuthenticationError "User not found or inactive")
                | None => Err (AuthenticationError "User not found or inactive")
                end
            | refresh => Err (AuthenticationError "Expected a access token")
            end, in_session t s ss' n q w)
    ∧ extends t ss ss'.
Proof using Cok.
  intros Hc Hw Hfrom Huntil. unfold get_current_user. rewrite run_bind, run_decode.
  change (clock (in_session t s ss n q w)) with (clock w).
  rewrite decoded_issued by done. destruct ty.
  2: { exists ss. split; [done | by apply extends_refl]. }
  rewrite decide_True by done.
  rewrite (bind_of_result_Ok _ (JStr (uuid_str uid))) by reflexivity.
  rewrite (bind_of_result_Ok _ uid) by apply UUID_str.
  destruct (user_get_run o t s ss n q w Hc Hw uid) as (ss' & Hrun & He & _).
  exists ss'. split; [|done]. rewrite run_bind, Hrun.
  destruct (user_of (visible t ss) uid) as [u|]; [|done]. by destruct (is_active u).
Qed.

(** [login], by what the tables hold for the address. *)
Lemma run_login t s ss n q w address pw :
  settings_ok → redis_up w = true → coherent t ss → well_formed (visible t ss) →
  `{OracleOk o} →
  ∃ ss', run (sys_exec o) (AuthService.login settings s address pw) (in_session t s ss n q w)
    = Some match user_with_email (visible t ss) address with
           | None => (Err (AuthenticationError "Incorrect email or password"),
                      in_session t s ss' n (S q) w)
           | Some u =>
               match verify_password pw (hashed_password u) with
               | Err e => (Err e, in_session t s ss' n (S q) w)
               | Ok false => (Err (AuthenticationError "Incorrect email or password"),
                              in_session t s ss' n (S q) w)
               | Ok true =>
                   if is_active u then
                     (Ok (tokens_of (user_id u) w),
                      in_session t s ss' n (S q) (token_world (user_id u) w))
                   else (Err (AuthenticationError "This account has been deactivated"),
                         in_session t s ss' n (S q) w)
               end
           end
    ∧ extends t ss ss'.
Proof using Cok.
  intros Hs Hup Hc Hw Ook. unfold AuthService.login.
  destruct (get_by_email_run o t s ss n q w Hc Hw address) as (ss' & Hrun & He).
  exists ss'. split; [|done]. rewrite run_bind, Hrun.
  destruct (user_with_email _ _) as [u|]; [|done].
  destruct (verify_password pw (hashed_password u)) as [[]|e]; [|done|done].
  simpl (bind (of_result _) _). destruct (is_active u); [|done].
  simpl (negb _). cbv iota. by rewrite (run_issue_tokens _ (in_session t s ss' n (S q) w)).
Qed.

(** [register]: the row it writes, or why it does not. *)
Definition new_user (id : uuid) (address hashed full_name : string) (now : Z) : User :=
  mkUser id address hashed full_name ATTENDEE true (Some now) (Some now).

Definition registered (t : rows) (now : Z) (id : uuid) (salt address pw full_name : string)
    : result exn User * rows :=
  match user_with_email t address with
  | Some _ => (Err (ValidationError "An account with this email already exists"), t)
  | None =>
      match hashpw pw salt with
      | Err e => (Err e, t)
      | Ok h =>
          let u := new_user id address h full_name now in
          match insert_error t (RUser u) with
          | Some e => (Err e, t)
          | None => (Ok u, <[KUser id := RUser u]> t)
          end
      end
  end.

Lemma registered_well_formed t now id salt address pw full_name :
  well_formed t → well_formed (registered t now id salt address pw full_name).2.
Proof using.
  intros Hw. unfold registered. destruct (user_with_email t address); [done|].
  destruct (hashpw pw salt) as [h|e]; [|done].
  destruct (insert_error t _) eqn:Hi; [done|]. exact (insert_well_formed t _ Hw Hi).
Qed.

Lemma order_of_registered t now id salt address pw full_name id' :
  order_of (registered t now id salt address pw full_name).2 id' = order_of t id'.
Proof using.
  unfold registered. repeat case_match; try done. unfold order_of. simpl.
  by rewrite lookup_insert_ne.
Qed.

(** [register] in a session that shows the stored rows. *)
Lemma run_register_body t s ss n q w address pw full_name :
  coherent t ss → visible t ss = t → well_formed t → `{OracleOk o} →
  let spec := registered t (clock w) (uuid_draw o (S (draws w))) (salt_draw o (draws w))
                address pw full_name in
  ∃ ss' d, run (sys_exec o) (AuthService.register s address pw full_name) (in_session t s ss n q w)
    = Some (spec.1, in_session spec.2 s ss' n (S q) (advance d w)).
Proof using.
  intros Hc Hv Hw Ook spec.
  assert (Hvw : well_formed (visible t ss)) by by rewrite Hv.
  destruct (get_by_email_run o t s ss n q w Hc Hvw address) as (ss1 & Hrun & [Hc1 Hv1 _]).
  rewrite Hv in *. unfold spec, registered, AuthService.register. rewrite run_bind, Hrun.
  destruct (user_with_email t address) as [x|]; [by exists ss1, 0%nat|].
  set (id := uuid_draw o (S (draws w))).
  assert (Hhash : run (sys_exec o) (hash_password pw) (in_session t s ss1 n (S q) w)
    = Some (hashpw pw (salt_draw o (draws w)), in_session t s ss1 n (S q) (next_draw w)))
    by apply run_of_result.
  rewrite run_bind, Hhash.
  destruct (hashpw pw (salt_draw o (draws w))) as [h|e]; [|by exists ss1, 1%nat].
  set (x := mkUser id address h full_name ATTENDEE true None None).
  pose proof (add_run o t s ss1 n (S q) (next_draw (next_draw w)) Hc1 as_user RUser x
    ltac:(done) ltac:(by eexists)) as Hadd. cbv zeta in Hadd.
  change (inserted_row _ (RUser x)) with (RUser (new_user id address h full_name (clock w))) in Hadd.
  rewrite Hv1 in Hadd. set (new := new_user id address h full_name (clock w)) in *.
  rewrite run_bind.
  change (run (sys_exec o) uuid4 (in_session t s ss1 n (S q) (next_draw w)))
    with (Some (Ok (X := exn) id, in_session t s ss1 n (S q) (next_draw (next_draw w)))).
  cbv iota beta. rewrite run_bind. unfold UserRepository.add. fold x. rewrite Hadd.
  destruct (insert_error t (RUser new)) as [e|]; [by exists empty_session, 2%nat|].
  destruct (with_new_coherent t ss1 (RUser new) Hc1) as (Hc2 & Hv2 & _). rewrite Hv1 in Hv2.
  destruct (run_api_commit o t s (with_new ss1 (RUser new)) n (S q) (next_draw (next_draw w)) Hc2)
    as (ss2 & Hcm & _). rewrite Hv2 in Hcm.
  exists ss2, 2%nat. cbn [as_user]. cbv iota beta. by rewrite run_bind, Hcm.
Qed.

Lemma run_register t n q w address pw full_name :
  well_formed t → `{OracleOk o} →
  let spec := registered t (clock w) (uuid_draw o (S (draws w))) (salt_draw o (draws w))
                address pw full_name in
  ∃ d, run (sys_exec o) (get_db (λ s, AuthService.register s address pw full_name)) (api_idle t n q w)
    = Some (spec.1, api_idle spec.2 (S n) (S q) (advance d w)).
Proof using.
  intros Hw Ook spec.
  destruct (run_register_body t n empty_session (S n) q w address pw full_name (coherent_empty t)
    (visible_empty t) Hw Ook) as (ss & d & Hrun).
  exists d. by eapply (get_db_run o).
Qed.
End tokens.

(** ** What the endpoints promise *)
Section contract.
Context `{C : Crypto} {Cok : CryptoOk C}.
Context {W : Type} (o : oracle) (impl : handler sys_op W) (obs : W → world).
Context `{P : !Platform (sys_exec o) impl obs} `{Ook : !OracleOk o}.
Variable settings : Settings.
Hypothesis Hsettings : settings_ok settings.

(** The API's tables in [w], no session being open. *)
Definition tables_at (w : W) (t : rows) : Prop :=
  ∃ n q, api_db (obs w) = Database t ∅ n q ∧ well_formed t.

Lemma tables_idle w t : tables_at w t → ∃ n q, obs w = api_idle t n q (obs w) ∧ well_formed t.
Proof using.
  intros (n & q & Hdb & Hw). exists n, q. split; [|done].
  unfold api_idle. rewrite <- Hdb. by destruct (obs w).
Qed.

(** Registration creates an ATTENDEE with the hash of the password, unless
    the address is taken (ValidationError), bcrypt refuses the password, or a
    constraint of the table refuses the row; then nothing is written. *)
Theorem register_outcome w t address pw full_name :
  tables_at w t →
  let spec := registered t (clock (obs w)) (uuid_draw o (S (draws (obs w))))
                (salt_draw o (draws (obs w))) address pw full_name in
  ∃ w', run impl (get_db (λ s, AuthService.register s address pw full_name)) w
        = Some (spec.1, w') ∧ tables_at w' spec.2.
Proof using P Ook.
  intros (n & q & Hobs & Hw)%tables_idle spec.
  destruct (run_register o t n q (obs w) address pw full_name Hw Ook) as (d & Hrun).
  rewrite <- Hobs in Hrun. destruct (runs_to_doc (impl := impl) _ w _ _ Hrun) as (w' & Hw' & Hobs').
  exists w'. split; [exact Hw'|]. exists (S n), (S q). rewrite Hobs'. split; [done|].
  by apply registered_well_formed.
Qed.

(** What becomes of a registration that the schema lets through, its address no
    longer than an address may be and its identifier fresh: refused if the
    address is taken; failing in bcrypt if the password, which may have 128
    characters, has more than 72 bytes; otherwise a user who can log in. *)
Theorem valid_registration w t address pw full_name :
  tables_at w t → register_valid pw full_name = true → (String.length address <= 255)%nat →
  t !! KUser (uuid_draw o (S (draws (obs w)))) = None →
  ∃ r w' t', run impl (get_db (λ s, AuthService.register s address pw full_name)) w = Some (r, w')
    ∧ tables_at w' t'
    ∧ match user_with_email t address with
      | Some _ => r = Err (ValidationError "An account with this email already exists") ∧ t' = t
      | None =>
          if (String.length pw <=? 72)%nat
          then ∃ u, r = Ok u ∧ t' = <[KUser (user_id u) := RUser u]> t
                 ∧ email u = address ∧ role u = ATTENDEE ∧ is_active u = true
                 ∧ checkpw pw (hashed_password u) = Ok true
          else r = Err (ValueError "password cannot be longer than 72 bytes") ∧ t' = t
      end.
Proof using P Ook Cok.
  intros Ht Hvalid Haddr Hfresh.
  destruct (register_outcome w t address pw full_name Ht) as (w' & Hrun & Ht').
  eexists _, w', _. split; [exact Hrun|]. split; [exact Ht'|]. clear Hrun Ht'.
  destruct Ht as (_ & _ & _ & Hw). unfold registered.
  destruct (user_with_email t address) as [u|] eqn:Hu; [done|].
  destruct (String.length pw <=? 72)%nat eqn:Hlen.
  - apply Nat.leb_le in Hlen. destruct (hashpw_short pw (salt_draw o (draws (obs w))) Hlen) as (h & Hh & Hlen').
    rewrite Hh. set (u := new_user _ _ _ _ _).
    assert (Hi : insert_error t (RUser u) = None).
    { apply insert_error_None. split_and!.
      - unfold register_valid in Hvalid. rewrite !andb_true_iff, !Nat.leb_le in Hvalid. cbn.
        unfold fits. rewrite !(proj2 (Nat.leb_le _ _)) by lia. done.
      - done.
      - intros k [u'| |] Hk; try done. apply bool_decide_eq_false. intros He.
        enough (user_with_email t address = Some u') by congruence.
        apply user_with_email_spec; [done|]. split; [|done].
        pose proof (wf_key _ Hw _ _ Hk) as <-. unfold user_of. by rewrite (Hk : t !! KUser (user_id u') = _).
      - by apply Forall_nil. }
    rewrite Hi. exists u. split_and!; try done. simpl. by eapply checkpw_hash.
  - apply Nat.leb_gt in Hlen. by rewrite (hashpw_long _ _ Hlen).
Qed.

(** A user's access token, accepted while it lives and only as one. *)
Definition authenticates (w : W) (token : string) (ty : token_type) (uid : uuid) : Prop :=
  ∀ w2 t2, tables_at w2 t2 →
    clock (obs w) ≤ clock (obs w2) →
    clock (obs w2) + second ≤ clock (obs w) + lifetime settings ty →
    ∃ w3, run impl (get_db (λ s, get_current_user settings s token)) w2
          = Some (match ty with
                  | access =>
                      match user_of t2 uid with
                      | Some u => if is_active u then Ok u
                                  else Err (AuthenticationError "User not found or inactive")
                      | None => Err (AuthenticationError "User not found or inactive")
                      end
                  | refresh => Err (AuthenticationError "Expected a access token")
                  end, w3).

Lemma issued_authenticates w uid ty jti :
  authenticates w (issued settings uid ty (clock (obs w)) jti) ty uid.
Proof using P Cok.
  intros w2 t2 (n & q & Hobs & Hw)%tables_idle Hfrom Huntil.
  pose proof (visible_empty t2) as Hv0.
  destruct (run_current_user o settings t2 n empty_session (S n) q (obs w2) uid ty
              (clock (obs w)) jti (coherent_empty t2)) as (ss & Hrun & _); [|done..|].
  { by rewrite Hv0. }
  apply (get_db_run o (λ s, get_current_user settings s _)) in Hrun. rewrite <- Hobs, Hv0 in Hrun.
  destruct (runs_to_doc (impl := impl) _ w2 _ _ Hrun) as (w3 & Hw3 & _). by exists w3.
Qed.

(** C27. A user who logs in with the registered password gets a pair of tokens;
    while it lives, the access token authenticates that user as the tables then
    show them, refused if they are gone or deactivated, and the refresh token
    never passes for an access token. *)
Theorem login_authenticates w t u pw salt :
  tables_at w t → redis_up (obs w) = true →
  user_of t (user_id u) = Some u → is_active u = true →
  hashpw pw salt = Ok (hashed_password u) →
  ∃ tk w1, run impl (get_db (λ s, AuthService.login settings s (email u) pw)) w = Some (Ok tk, w1)
    ∧ tables_at w1 t
    ∧ authenticates w (access_token tk) access (user_id u)
    ∧ authenticates w (refresh_token tk) refresh (user_id u).
Proof using P Cok Ook Hsettings.
  intros (n & q & Hobs & Hw)%tables_idle Hup Hu Hact Hh.
  pose proof (visible_empty t) as Hv0.
  destruct (run_login o settings t n empty_session (S n) q (obs w) (email u) pw Hsettings Hup
              (coherent_empty t)) as (ss & Hrun & _); [by rewrite Hv0 | done |].
  rewrite Hv0, (proj2 (user_with_email_spec t Hw (email u) u)) in Hrun by done.
  unfold verify_password in Hrun. rewrite (checkpw_hash _ _ _ Hh), Hact in Hrun.
  apply (get_db_run o (λ s, AuthService.login settings s _ _)) in Hrun. rewrite <- Hobs in Hrun.
  destruct (runs_to_doc (impl := impl) _ w _ _ Hrun) as (w1 & Hw1 & Hobs1).
  exists (tokens_of o settings (user_id u) (obs w)), w1. split; [exact Hw1|].
  split; [exists (S n), (S q); by rewrite Hobs1|].
  split; apply issued_authenticates.
Qed.

(** A refresh token that Redis still knows. *)
Definition live_session (w : W) (uid : uuid) (created : Z) (jti : uuid) : Prop :=
  is_Some (redis_get (clock (obs w)) (redis (obs w)) (session_key jti))
  ∧ created ≤ clock (obs w) ∧ clock (obs w) + second ≤ created + lifetime settings refresh.

Lemma refresh_step w uid created jti :
  redis_up (obs w) = true →
  created ≤ clock (obs w) → clock (obs w) + second ≤ created + lifetime settings refresh →
  let tok := issued settings uid refresh created jti in
  match redis_get (clock (obs w)) (redis (obs w)) (session_key jti) with
  | None =>
      ∃ w', run impl (AuthService.refresh settings tok) w
            = Some (Err (AuthenticationError "Refresh token has been revoked or has expired"), w')
        ∧ obs w' = obs w
  | Some _ =>
      let w0 := set_redis (delete (session_key jti) (redis (obs w))) (obs w) in
      ∃ w', run impl (AuthService.refresh settings tok) w = Some (Ok (tokens_of o settings uid w0), w')
        ∧ obs w' = token_world o settings uid w0
  end.
Proof using P Cok Hsettings.
  intros Hup Hfrom Huntil tok.
  pose proof (run_refresh o settings uid created jti (obs w) Hsettings Hup Hfrom Huntil) as Hrun.
  fold tok in Hrun.
  destruct (redis_get _ _ _); by apply (runs_to_doc (impl := impl)) in Hrun.
Qed.

(** A refresh token is good for one use: refreshing with a token Redis
    knows gives a new pair and forgets the old token, so that a second refresh
    with it is refused, while the new refresh token is live. *)
Theorem refresh_rotates w uid created jti :
  redis_up (obs w) = true → live_session w uid created jti →
  uuid_draw o (S (draws (obs w))) ≠ jti →
  let tok := issued settings uid refresh created jti in
  ∃ tk w1, run impl (AuthService.refresh settings tok) w = Some (Ok tk, w1)
    ∧ (∃ jti', refresh_token tk = issued settings uid refresh (clock (obs w1)) jti'
               ∧ live_session w1 uid (clock (obs w1)) jti')
    ∧ (∀ w2, redis (obs w2) = redis (obs w1) → redis_up (obs w2) = true →
         created ≤ clock (obs w2) → clock (obs w2) + second ≤ created + lifetime settings refresh →
         ∃ w3, run impl (AuthService.refresh settings tok) w2
               = Some (Err (AuthenticationError "Refresh token has been revoked or has expired"), w3)
           ∧ obs w3 = obs w2).
Proof using P Cok Hsettings.
  intros Hup ([v Hv] & Hfrom & Huntil) Hfresh tok.
  pose proof (refresh_step w uid created jti Hup Hfrom Huntil) as Hstep. cbv zeta in Hstep.
  rewrite Hv in Hstep. destruct Hstep as (w1 & Hrun & Hobs).
  eexists _, w1. split; [exact Hrun|]. rewrite Hobs. split.
  - eexists. split; [done|]. split_and!; [| by rewrite Hobs |].
    + eexists. rewrite Hobs. unfold redis_get, token_world. simpl. rewrite lookup_insert_eq.
      pose proof (refresh_lives _ Hsettings). unfold live, second.
      rewrite (proj2 (Z.ltb_lt _ _)) by nia. done.
    + rewrite Hobs. pose proof (lifetime_positive settings refresh Hsettings). lia.
  - intros w2 Hred Hup2 Hfrom2 Huntil2.
    pose proof (refresh_step w2 uid created jti Hup2 Hfrom2 Huntil2) as Hstep. cbv zeta in Hstep.
    rewrite Hred in Hstep. unfold redis_get, token_world in Hstep. simpl in Hstep.
    rewrite lookup_insert_ne, lookup_delete_eq in Hstep; [exact Hstep|].
    unfold session_key. intros Heq. apply Hfresh. apply (inj (String.append "refresh:")) in Heq.
    by apply uuid_str_inj.
Qed.

(** Logging out forgets the refresh token, and succeeds whatever token it
    is given; refreshing with the token is refused from then on. *)
Theorem logout_revokes w uid created jti :
  redis_up (obs w) = true →
  created ≤ clock (obs w) → clock (obs w) + second ≤ created + lifetime settings refresh →
  let tok := issued settings uid refresh created jti in
  ∃ w1, run impl (AuthService.logout settings tok) w = Some (Ok tt, w1)
    ∧ obs w1 = set_redis (delete (session_key jti) (redis (obs w))) (obs w)
    ∧ ∃ w2, run impl (AuthService.refresh settings tok) w1
            = Some (Err (AuthenticationError "Refresh token has been revoked or has expired"), w2).
Proof using P Cok Hsettings.
  intros Hup Hfrom Huntil tok.
  assert (Hrun : run (sys_exec o) (AuthService.logout settings tok) (obs w)
    = Some (Ok tt, set_redis (delete (session_key jti) (redis (obs w))) (obs w))).
  { unfold AuthService.logout. rewrite run_bind, run_attempt, run_decode.
    unfold tok. rewrite decoded_issued by done. rewrite decide_True by done.
    rewrite (bind_of_result_Ok _ (JStr (uuid_str jti))) by reflexivity.
    rewrite (bind_of_result_Ok _ (session_key jti)) by reflexivity.
    unfold call. rewrite run_call_bind. cbn [sys_exec redis_exec]. rewrite Hup.
    by destruct (redis_get _ _ _). }
  apply (runs_to_doc (impl := impl)) in Hrun as (w1 & Hrun & Hobs).
  exists w1. split; [done|]. split; [done|].
  pose proof (refresh_step w1 uid created jti) as Hstep. rewrite Hobs in Hstep. cbn zeta in Hstep.
  specialize (Hstep Hup Hfrom Huntil). unfold redis_get in Hstep. simpl in Hstep.
  rewrite lookup_delete_eq in Hstep. destruct Hstep as (w2 & Hrun2 & _). by exists w2.
Qed.
End contract.

(** ** A sample account *)
Definition sample_password : string := "correct horse".
Definition sample_user : User :=
  mkUser (uuid_of_N 7) "ada@example.org" (sample_hash sample_password) "Ada" ATTENDEE true
    (Some 0) (Some 0).
Definition sample_rows : rows := {[KUser (uuid_of_N 7) := RUser sample_user]}.

Lemma sample_rows_ok : well_formed sample_rows.
Proof. apply (insert_well_formed ∅ (RUser sample_user) empty_well_formed). vm_compute. reflexivity. Qed.

Definition account_world : world := api_idle sample_rows 0 0 initial_world.

Lemma account_tables : tables_at id account_world sample_rows.
Proof. exists 0%nat, 0%nat. split; [done | apply sample_rows_ok]. Qed.

Lemma default_settings_ok : settings_ok default_settings.
Proof. split; simpl; lia. Qed.

Lemma register_outcome_witness :
  let spec := registered (C := sample_crypto) sample_rows 0 (uuid_of_N 1001) "0"
                "grace@example.org" "a password" "Grace" in
  ∃ w', run (sys_exec sample_oracle)
          (get_db (λ s, AuthService.register (C := sample_crypto) s "grace@example.org" "a password" "Grace"))
          account_world = Some (spec.1, w')
        ∧ tables_at id w' spec.2.
Proof.
  apply (register_outcome (C := sample_crypto) sample_oracle (sys_exec sample_oracle) id
           account_world sample_rows "grace@example.org" "a password" "Grace").
  apply account_tables.
Defined.

(** Eighty characters pass the schema and fail in bcrypt. *)
Lemma long_password_fails :
  register_valid (String.concat "" (replicate 80 "p")) "Grace" = true
  ∧ ∃ w', run (sys_exec sample_oracle)
      (get_db (λ s, AuthService.register (C := sample_crypto) s "grace@example.org"
                      (String.concat "" (replicate 80 "p")) "Grace")) account_world
    = Some (Err (ValueError "password cannot be longer than 72 bytes"), w').
Proof. split; [done|]. eexists. vm_compute. reflexivity. Qed.

Lemma login_authenticates_witness :
  ∃ tk w1, run (sys_exec sample_oracle)
      (get_db (λ s, AuthService.login (C := sample_crypto) default_settings s "ada@example.org"
                      sample_password)) account_world = Some (Ok tk, w1)
    ∧ tables_at id w1 sample_rows
    ∧ authenticates (C := sample_crypto) (sys_exec sample_oracle) id default_settings account_world
        (access_token tk) access (uuid_of_N 7)
    ∧ authenticates (C := sample_crypto) (sys_exec sample_oracle) id default_settings account_world
        (refresh_token tk) refresh (uuid_of_N 7).
Proof.
  apply (login_authenticates (C := sample_crypto) (Cok := sample_crypto_ok) sample_oracle
           (sys_exec sample_oracle) id default_settings default_settings_ok
           account_world sample_rows sample_user sample_password "").
  - apply account_tables.
  - reflexivity.
  - vm_compute. reflexivity.
  - reflexivity.
  - reflexivity.
Defined.

(** The account's session, as a login at 0 leaves it. *)
Definition sample_jti : uuid := uuid_of_N 500.
Definition session_world : world :=
  set_redis {[session_key sample_jti := (RStr (uuid_str (uuid_of_N 7)), None)]} account_world.
Definition sample_refresh_token : string :=
  issued (C := sample_crypto) default_settings (uuid_of_N 7) refresh 0 sample_jti.

Lemma refresh_rotates_witness :
  ∃ tk w1, run (sys_exec sample_oracle)
      (AuthService.refresh (C := sample_crypto) default_settings sample_refresh_token) session_world
      = Some (Ok tk, w1)
    ∧ (∃ jti', refresh_token tk = issued (C := sample_crypto) default_settings (uuid_of_N 7) refresh
                                    (clock w1) jti'
               ∧ live_session id default_settings w1 (uuid_of_N 7) (clock w1) jti')
    ∧ (∀ w2, redis w2 = redis w1 → redis_up w2 = true →
         0 ≤ clock w2 → clock w2 + second ≤ 0 + lifetime default_settings refresh →
         ∃ w3, run (sys_exec sample_oracle)
                 (AuthService.refresh (C := sample_crypto) default_settings sample_refresh_token) w2
               = Some (Err (AuthenticationError "Refresh token has been revoked or has expired"), w3)
           ∧ w3 = w2).
Proof.
  apply (refresh_rotates (C := sample_crypto) (Cok := sample_crypto_ok) sample_oracle
           (sys_exec sample_oracle) id default_settings default_settings_ok
           session_world (uuid_of_N 7) 0 sample_jti).
  - reflexivity.
  - split; [|split; vm_compute; discriminate]. exists (RStr (uuid_str (uuid_of_N 7))).
    vm_compute. reflexivity.
  - vm_compute. discriminate.
Defined.

Lemma logout_revokes_witness :
  ∃ w1, run (sys_exec sample_oracle)
      (AuthService.logout (C := sample_crypto) default_settings sample_refresh_token) session_world
      = Some (Ok tt, w1)
    ∧ w1 = set_redis (delete (session_key sample_jti) (redis session_world)) session_world
    ∧ ∃ w2, run (sys_exec sample_oracle)
              (AuthService.refresh (C := sample_crypto) default_settings sample_refresh_token) w1
            = Some (Err (AuthenticationError "Refresh token has been revoked or has expired"), w2).
Proof.
  apply (logout_revokes (C := sample_crypto) (Cok := sample_crypto_ok) sample_oracle
           (sys_exec sample_oracle) id default_settings default_settings_ok
           session_world (uuid_of_N 7) 0 sample_jti).
  - reflexivity.
  - vm_compute. discriminate.
  - vm_compute. discriminate.
Defined.

(** ** The rotation is not atomic *)
Definition two_refreshes : pool sys_op exn TokenResponse :=
  [AuthService.refresh (C := sample_crypto) default_settings sample_refresh_token;
   AuthService.refresh (C := sample_crypto) default_settings sample_refresh_token].

(** Both read the session before either deletes it. *)
Definition refresh_schedule : list nat := [0; 0; 1; 1]%nat ++ replicate 7 0%nat ++ replicate 7 1%nat.

(** The refresh token is read and deleted in two commands, so it is not
    single-use when two requests present it at once: both can be answered with
    a new pair, and both new refresh tokens are live. *)
Theorem refresh_race :
  ∃ tk1 tk2 w', pool_steps (sys_exec sample_oracle) (λ _ _, False)
      (two_refreshes, session_world) ([Ret tk1; Ret tk2], w')
    ∧ refresh_token tk1 ≠ refresh_token tk2
    ∧ size (redis w') = 2%nat.
Proof.
  destruct (run_schedule (sys_exec sample_oracle) refresh_schedule (two_refreshes, session_world))
    as [[ts w']|] eqn:Hrun; [|vm_compute in Hrun; discriminate].
  apply (run_schedule_sound _ (λ _ _, False)) in Hrun as Hsteps.
  assert (Hts : match ts with
                | [Ret tk1; Ret tk2] => refresh_token tk1 ≠ refresh_token tk2 ∧ size (redis w') = 2%nat
                | _ => False
                end).
  { vm_compute in Hrun. injection Hrun as <- <-. split; [discriminate | reflexivity]. }
  clear Hrun. destruct ts as [|[tk1| |] [|[tk2| |] [|]]]; try contradiction.
  destruct Hts as [Hne Hsize]. exists tk1, tk2, w'. exact (conj Hsteps (conj Hne Hsize)).
Qed.
