(* ===== verification/SystemHistory.v ===== *)
(** * Histories of the whole system

    The atomic effects of the earlier files as steps of one transition system
    over both databases: requests, messages of the bus (delivered once, again,
    late or never) and the Inventory service's own operations, in any order
    and with any failures of the network and the broker.  What every reachable
    state satisfies, and how orders move. *)
From S2P Require Import Prelude Effects Json Uuid Domain Orm OrmFacts Redis.
From S2P Require Import InventoryModels.
From S2P Require Import ApiModels Platform SessionRuns Kafka Pagination.
From S2P Require Import ApiRepositories ApiRuns.
From S2P Require Import InventoryRepository Locking InventoryService InventoryServicer.
From S2P Require Import InventorySpec InventoryInvariant InventoryRefinement.
From S2P Require Import InventoryCorrectness.
From S2P Require Import RpcCorrectness Security AuthService EventService.
From S2P Require Import BookingService SystemSpec.
From S2P Require Import SystemRuns BookingCorrectness Workers WorkerCorrectness.
From S2P Require Import BusCorrectness.
From S2P Require Import EventCorrectness AuthCorrectness.

(** The rows of the API service and of the Inventory service. *)
Definition state : Type := rows * table.

Definition after {A} (out : effect A) : state := (api_after out, inv_after out).

(** ** Steps *)
Section steps.
Context `{C : Crypto}.
(** Whether an organizer may cut an event's seats below those in use. *)
Variables (o : oracle) (cuts : bool).

Inductive step : state → state → Prop :=
| step_register now id salt address pw full_name t v :
    step (t, v) ((registered t now id salt address pw full_name).2, v)
| step_create kafka now id d organizer t v :
    step (t, v) (after (Events.create kafka now id d organizer t v))
| step_update kafka now id d user t v :
    step (t, v) (after (Events.update kafka now id d user t v))
| step_delete id user t v :
    step (t, v) (after (Events.delete id user t v))
| step_book net kafka now self oid rid user e q key t v :
    step (t, v) (after (System.book o net kafka now self oid rid user e q key t v))
| step_cancel net kafka now id user t v :
    step (t, v) (after (System.cancel o net kafka now id user t v))
| step_paid net kafka now id success t v :
    step (t, v) (after (System.paid o net kafka now id success t v))
| step_expired now id t v :
    step (t, v) (after (System.expired now id t v))
| step_initialize e n t v :
    0 ≤ n → step (t, v) (t, (Spec.initialize e n v).2)
| step_adjust e n t v :
    cuts = true ∨ keeps_capacity (OpAdjust e n) v → step (t, v) (t, (Spec.adjust e n v).2)
| step_sweep now ids t v :
    step (t, v) (t, (Spec.sweep now ids v).2).

(** From databases that are in order: empty ones, or what a deployment has put
    there (no operation makes a user an organizer). *)
Inductive reachable : state → Prop :=
| reachable_start t v : joint t v → capacity_respected v → reachable (t, v)
| reachable_step s s' : reachable s → step s s' → reachable s'.
End steps.

(** ** The databases stay tied *)
Section invariant.
Context `{C : Crypto}.
Variables (o : oracle).

Lemma empty_joint : joint ∅ ∅.
Proof using.
  split; [apply empty_well_formed | apply empty_consistent |].
  intros id x. unfold order_of. by rewrite lookup_empty.
Qed.

Lemma step_joint cuts s s' : step o cuts s s' → joint s.1 s.2 → joint s'.1 s'.2.
Proof using.
  intros Hs. destruct Hs; cbn [fst snd after]; intros Hj.
  - apply (joint_rows t); [done | apply registered_well_formed, Hj | apply order_of_registered].
  - by apply create_joint.
  - by apply update_joint.
  - by apply delete_joint.
  - by apply book_joint.
  - by apply cancel_joint.
  - by apply paid_joint.
  - by apply expired_joint.
  - apply (joint_operation t v (OpInitialize e n)); [done | apply initialize_kept].
  - apply (joint_operation t v (OpAdjust e n)); [done | apply adjust_kept].
  - apply (joint_inventory t v); [done | | by apply sweep_kept, Hj].
    unfold Spec.sweep. destruct (Spec.release_all now ids v) as [[xs v']|err] eqn:Hall; [|apply Hj].
    by apply (release_all_safe now ids v xs v'), Hall; apply Hj.
Qed.

Lemma steps_joint cuts s s' : rtc (step o cuts) s s' → joint s.1 s.2 → joint s'.1 s'.2.
Proof using. induction 1; [done|]. eauto using step_joint. Qed.

Lemma reachable_joint cuts s : reachable o cuts s → joint s.1 s.2.
Proof using. induction 1; [done | by eapply step_joint]. Qed.

Lemma reachable_rtc cuts s s' : reachable o cuts s → rtc (step o cuts) s s' → reachable o cuts s'.
Proof using. intros Hr Hs. induction Hs; [done|]. eauto using reachable_step. Qed.
End invariant.

(** ** No event is oversold *)
Section capacity.
Context `{C : Crypto}.
Variables (o : oracle).

Lemma remote_capacity {A} net status v (spec : result exn A * table) :
  (capacity_respected v → capacity_respected spec.2) → capacity_respected v →
  capacity_respected (System.remote o net status v spec).2.
Proof using. unfold System.remote. simpl. destruct (arrived net); auto. Qed.

Lemma by_text_capacity {A} (f : uuid → result exn A * table) text v :
  (∀ id, capacity_respected v → capacity_respected (f id).2) → capacity_respected v →
  capacity_respected (by_text f text v).2.
Proof using. unfold by_text. destruct (UUID text); auto. Qed.

Lemma settle_inventory {A} kafka now st m x (f : Order → A) t remote :
  inv_after (System.settle kafka now st m x f t remote) = remote.2.
Proof using.
  destruct remote as [[r|err] v]; simpl; [|done]. by apply announcing_after.
Qed.

Lemma release_capacity net now x v :
  consistent v → capacity_respected v → capacity_respected (System.release o net now x v).2.
Proof using.
  intros Hc. apply remote_capacity, by_text_capacity. intros id. by apply release_keeps.
Qed.

Lemma confirm_capacity net now x v :
  consistent v → capacity_respected v → capacity_respected (System.confirm o net now x v).2.
Proof using.
  intros Hc. apply remote_capacity, by_text_capacity. intros id. by apply confirm_keeps.
Qed.

Lemma book_capacity net kafka now self oid rid user e q key t v :
  consistent v → capacity_respected v →
  capacity_respected (inv_after (System.book o net kafka now self oid rid user e q key t v)).
Proof using.
  intros Hc Hcap. unfold System.book. destruct (given key ≫= _); [done|].
  unfold System.book_new. destruct (event_of t e); [|done].
  pose proof (remote_capacity net reserve_status v
    (Spec.reserve now rid e oid q (reservation_ttl_seconds self) (optimistic_retry_attempts self) v)
    (reserve_capacity v Hc _ _ _ _ _ _ _) Hcap) as Hcap'.
  destruct (System.remote _ _ _ _ _) as [[r|err] v']; [|done]. simpl in Hcap'.
  destruct (price_field _); [|done]. destruct (insert_error _ _); [done|].
  match goal with |- context [announcing kafka ?e ?t' v' ?m] =>
    by destruct (announcing_after kafka e t' v' m) as [_ ->] end.
Qed.

Lemma events_inventory kafka now t v :
  (∀ id d u, inv_after (Events.create kafka now id d u t v) = v)
  ∧ (∀ id d u, inv_after (Events.update kafka now id d u t v) = v)
  ∧ (∀ id u, inv_after (Events.delete id u t v) = v).
Proof using.
  split_and!; intros; [unfold Events.create|unfold Events.update|unfold Events.delete];
    repeat case_match; try done; by apply announcing_after.
Qed.

Lemma step_capacity s s' :
  step o false s s' → joint s.1 s.2 → capacity_respected s.2 → capacity_respected s'.2.
Proof using.
  intros Hs. destruct Hs; cbn [fst snd after]; intros Hj Hcap; pose proof (joint_inv _ _ Hj) as Hc.
  - done.
  - by rewrite (proj1 (events_inventory kafka now t v)).
  - by rewrite (proj1 (proj2 (events_inventory kafka now t v))).
  - by rewrite (proj2 (proj2 (events_inventory false 0 t v))).
  - by apply book_capacity.
  - unfold System.cancel. destruct (order_for t id _) as [x|]; [|done].
    case_goal; [done|]. rewrite settle_inventory. by apply release_capacity.
  - unfold System.paid. destruct (System.pending_order t id) as [x|]; [|done].
    destruct success; rewrite settle_inventory; [by apply confirm_capacity | by apply release_capacity].
  - unfold System.expired. by destruct (System.pending_order t id).
  - by apply (operation_capacity v Hc (OpInitialize e n)).
  - apply (operation_capacity v Hc (OpAdjust e n)); [|done]. by destruct H.
  - by apply (proj2 (sweep_keeps now ids v Hc)).
Qed.

Lemma reachable_capacity s : reachable o false s → capacity_respected s.2.
Proof using.
  induction 1 as [t v _ Hcap|s s' Hr IH Hs]; [exact Hcap|].
  eapply step_capacity; [exact Hs | by eapply reachable_joint | exact IH].
Qed.
End capacity.

(** ** How an order moves *)
Definition may_become (a b : OrderStatus.t) : Prop :=
  match a, b with
  | OrderStatus.PENDING, _ => True
  | OrderStatus.CONFIRMED, (OrderStatus.CONFIRMED | OrderStatus.CANCELLED) => True
  | _, _ => a = b
  end.

(** All of an order but its status and its [updated_at]. *)
Definition same_order (x y : Order) : Prop :=
  order_id y = order_id x ∧ order_user_id y = order_user_id x
  ∧ order_event_id y = order_event_id x ∧ reservation_id y = reservation_id x
  ∧ order_quantity y = order_quantity x ∧ unit_price_cents y = unit_price_cents x
  ∧ total_price_cents y = total_price_cents x ∧ idempotency_key y = idempotency_key x
  ∧ order_created_at y = order_created_at x.

Definition orders_move (t t' : rows) : Prop :=
  ∀ id x, order_of t id = Some x →
    ∃ y, order_of t' id = Some y ∧ same_order x y ∧ may_become (order_status x) (order_status y).

Section orders.
Context `{C : Crypto}.
Variables (o : oracle).

Lemma may_become_refl a : may_become a a.
Proof using. by destruct a. Qed.

Lemma orders_still t t' : (∀ id, order_of t' id = order_of t id) → orders_move t t'.
Proof using. intros H id x Hx. exists x. rewrite H. split_and!; auto using may_become_refl. by split_and!. Qed.

Lemma orders_status t now st x :
  order_of t (order_id x) = Some x → may_become (order_status x) st →
  orders_move t (<[KOrder (order_id x) := ROrder (with_status now st x)]> t).
Proof using.
  intros Hx Hst id y Hy. rewrite order_of_insert. case_decide as Heq.
  - subst id. rewrite Hx in Hy. injection Hy as <-. eexists. by split_and!.
  - exists y. split_and!; auto using may_become_refl. by split_and!.
Qed.

Lemma settle_orders {A} kafka now st m x (f : Order → A) t remote :
  order_of t (order_id x) = Some x → may_become (order_status x) st →
  orders_move t (api_after (System.settle kafka now st m x f t remote)).
Proof using.
  intros Hx Hst. destruct remote as [[r|err] v]; simpl; [|by apply orders_still].
  match goal with |- context [announcing kafka ?a ?t' v ?m] =>
    destruct (announcing_after kafka a t' v m) as [-> _] end. by apply orders_status.
Qed.

(** A booking adds an order under a new identifier. *)
Lemma book_orders net kafka now self oid rid user e q key t v :
  orders_move t (api_after (System.book o net kafka now self oid rid user e q key t v)).
Proof using.
  unfold System.book. destruct (given key ≫= _); [by apply orders_still|].
  unfold System.book_new. destruct (event_of t e); [|by apply orders_still].
  destruct (System.remote _ _ _ _ _) as [[r|err] v']; [|by apply orders_still].
  destruct (price_field _) as [price|]; [|by apply orders_still].
  destruct (insert_error _ _) eqn:Hins; [by apply orders_still|].
  match goal with |- context [announcing kafka ?e ?t' v' ?m] =>
    destruct (announcing_after kafka e t' v' m) as [-> _] end.
  intros id x Hx. exists x. apply insert_error_None in Hins as (_ & Hnew & _).
  change (key_of _) with (KOrder oid) in Hnew.
  rewrite order_of_insert, decide_False.
  - split_and!; auto using may_become_refl. by split_and!.
  - intros <-. apply order_of_lookup in Hx. congruence.
Qed.

Lemma step_orders cuts s s' : step o cuts s s' → joint s.1 s.2 → orders_move s.1 s'.1.
Proof using.
  intros Hs. destruct Hs; cbn [fst snd after]; intros Hj; pose proof (joint_api _ _ Hj) as Hw.
  - apply orders_still, order_of_registered.
  - apply orders_still. unfold Events.create. destruct (insert_error _ _); [done|]. intros id'.
    match goal with |- context [announcing kafka ?a ?t' v ?m] =>
      destruct (announcing_after kafka a t' v m) as [-> _] end. apply order_of_event.
  - apply orders_still. unfold Events.update. intros id'. repeat case_match; try done;
      try match goal with |- context [announcing kafka ?a ?t' v ?m] =>
        destruct (announcing_after kafka a t' v m) as [-> _] end; apply order_of_event.
  - apply orders_still. unfold Events.delete. intros id'. repeat case_match; try done.
    cbn [api_after]. unfold order_of. by rewrite lookup_delete_ne.
  - apply book_orders.
  - unfold System.cancel. destruct (order_for t id _) as [x|] eqn:Hx; [|by apply orders_still].
    destruct (BookingService.already_closed (order_status x)) eqn:Hcl; [by apply orders_still|]. apply order_for_of in Hx; [|done].
    apply settle_orders; [done|]. by destruct (order_status x).
  - unfold System.paid. destruct (System.pending_order t id) as [x|] eqn:Hx; [|by apply orders_still].
    apply pending_order_of in Hx as (Hx & _ & Hst); [|done].
    destruct success; apply settle_orders; rewrite ?Hst; done.
  - unfold System.expired. destruct (System.pending_order t id) as [x|] eqn:Hx; [|by apply orders_still].
    apply pending_order_of in Hx as (Hx & <- & Hst); [|done]. apply orders_status; rewrite ?Hst; done.
  - by apply orders_still.
  - by apply orders_still.
  - by apply orders_still.
Qed.
End orders.

Lemma may_become_trans a b c : may_become a b → may_become b c → may_become a c.
Proof. by destruct a, b, c. Qed.

Lemma orders_move_trans t1 t2 t3 : orders_move t1 t2 → orders_move t2 t3 → orders_move t1 t3.
Proof.
  intros H12 H23 id x Hx. destruct (H12 id x Hx) as (y & Hy & Hxy & Hst).
  destruct (H23 id y Hy) as (z & Hz & Hyz & Hst'). exists z.
  split; [done|]. split; [|by eapply may_become_trans].
  unfold same_order in *. destruct_and!. split_and!; congruence.
Qed.

(** ** What every history keeps *)
Section histories.
Context `{C : Crypto}.
Variables (o : oracle).

(** Orders and reservations correspond, and the counters are the seats. *)
Definition databases_agree (t : rows) (v : table) : Prop :=
  (∀ id x, order_of t id = Some x →
     order_id x = id ∧
     ∃ rid r, reservation_id x = uuid_str rid ∧ res_of v rid = Some r
       ∧ res_order_id r = id ∧ res_event_id r = order_event_id x ∧ quantity r = order_quantity x)
  ∧ (∀ e i, inv_of v e = Some i →
       reserved_count i = seats_held e ReservationStatus.PENDING v
       ∧ confirmed_count i = seats_held e ReservationStatus.CONFIRMED v).

Lemma reachable_agree cuts t v : reachable o cuts (t, v) → databases_agree t v.
Proof using.
  intros Hr. pose proof (reachable_joint o cuts _ Hr) as [Hw Hc Hl]. cbn [fst snd] in *. split.
  - intros id x Hx. pose proof (order_of_id t Hw id x Hx) as Hid. split; [done|].
    destruct (Hl id x Hx) as (rid & r & ? & ? & ? & ?). exists rid, r. by rewrite <- Hid.
  - intros e i Hi. split; [by apply reserved_is_held | by apply confirmed_is_held].
Qed.

(** Unless an organizer cuts the seats of an event below those in use. *)
Lemma reachable_not_oversold t v e i :
  reachable o false (t, v) → inv_of v e = Some i →
  seats_held e ReservationStatus.PENDING v + seats_held e ReservationStatus.CONFIRMED v
  ≤ total_capacity i.
Proof using.
  intros Hr Hi. apply sold_within_capacity; [|by apply (reachable_capacity o (t, v))|done].
  apply (reachable_joint o false (t, v) Hr).
Qed.

Lemma steps_move_orders cuts s s' :
  reachable o cuts s → rtc (step o cuts) s s' → orders_move s.1 s'.1.
Proof using.
  intros Hr Hs. revert Hr. induction Hs as [s|s s1 s' Hstep _ IH]; intros Hr.
  - by apply orders_still.
  - apply (orders_move_trans _ s1.1).
    + by eapply step_orders; [|eapply reachable_joint].
    + apply IH. by eapply reachable_step.
Qed.

End histories.

(** ** A short history *)
#[local] Existing Instance sample_crypto.

Definition ada : User :=
  new_user (uuid_of_N 7) "ada@example.org" (sample_hash "a password") "Ada" 0.
Definition registered_rows : rows :=
  (registered ∅ 0 (uuid_of_N 7) "0" "ada@example.org" "a password" "Ada").2.
Definition listed : effect Event :=
  Events.create true 0 sample_event sample_create ada registered_rows ∅.
Definition stocked : table := (Spec.initialize sample_event 40 (inv_after listed)).2.
Definition sold : effect Order :=
  System.book sample_oracle NoFault true 0 default_service (uuid_of_N 8) (uuid_of_N 9) ada
    sample_event 6 None (api_after listed) stocked.
Lemma sold_reachable cuts : reachable sample_oracle cuts (after sold).
Proof.
  eapply reachable_step; [|apply step_book]. unfold stocked.
  eapply reachable_step; [|by apply step_initialize].
  refine (reachable_step _ _ (registered_rows, ∅) (after listed) _ (step_create _ _ _ _ _ _ _ _ _)).
  refine (reachable_step _ _ (∅, ∅) _ _ (step_register _ _ _ _ _ _ _ _ _ _)).
  apply reachable_start; [apply empty_joint|]. intros e i. unfold inv_of. by rewrite lookup_empty.
Qed.

(** An organizer who cuts the seats of an event below those in use
    oversells it: the Inventory service accepts any capacity. *)
Theorem capacity_cut_oversells :
  ∃ t v e i, reachable sample_oracle true (t, v) ∧ inv_of v e = Some i
    ∧ total_capacity i < seats_held e ReservationStatus.PENDING v.
Proof.
  exists (api_after sold), (Spec.adjust sample_event 1 (inv_after sold)).2, sample_event,
    (mkEventInventory sample_event 1 6 0 3).
  split.
  - eapply reachable_step; [apply sold_reachable|]. apply step_adjust. by left.
  - vm_compute. by split.
Qed.
