(* ===== verification/HttpCorrectness.v ===== *)
(** * Correctness of the routes

    Every route that reads or writes the tables, from the bearer token to the
    response: the caller it finds, the roles it asks for, the effect of the
    service behind it, the rendering of the answer and the status of an error. *)
From S2P Require Import Prelude Effects Json Uuid Domain Orm OrmFacts Redis.
From S2P Require Import InventoryModels.
From S2P Require Import ApiModels Platform SessionRuns Kafka Pagination.
From S2P Require Import ApiRepositories ApiRuns.
From S2P Require Import InventoryRepository Locking InventoryService InventoryServicer.
From S2P Require Import InventorySpec InventoryInvariant InventoryRefinement.
From S2P Require Import InventoryCorrectness.
From S2P Require Import RpcCorrectness Security AuthService EventService.
From S2P Require Import BookingService SystemSpec.
From S2P Require Import SystemRuns BookingCorrectness EventCorrectness AuthCorrectness.
From S2P Require Import Http.

(** ** Effects of a route *)

(** The effect with its answer mapped. *)
Definition with_answer {A B} (f : result exn A → result exn B) (out : effect A) : effect B :=
  Effect (f (answer out)) (api_after out) (inv_after out) (sent out).

Definition rendering {A B} (render : A → result exn B) : effect A → effect B :=
  with_answer (λ r, match r with Ok a => render a | Err e => Err e end).

(** The response of a route to an answer of its service. *)
Definition response_to {A} (status : Z) (render : A → body) (r : result exn A)
    : result exn Response :=
  match r with
  | Ok a => Ok (mkResponse status (render a) ∅)
  | Err e => match _ERROR_STATUS_MAP e with Some code => Ok (_handler code e) | None => Err e end
  end.

Definition responding {A} (status : Z) (render : A → body) : effect A → effect Response :=
  with_answer (response_to status render).

(** Nothing happens unless [who] is a user. *)
Definition gate {A} (who : result exn User) (t : rows) (v : table) (out : User → effect A)
    : effect A :=
  match who with Ok u => out u | Err e => Effect (Err e) t v [] end.

Definition reading {A} (r : result exn A) (t : rows) (v : table) : effect A := Effect r t v [].

(** ** The caller *)
Definition inactive : exn := AuthenticationError "User not found or inactive".

Section callers.
Context `{C : Crypto}.
Variable settings : Settings.

(** The user a bearer token names. *)
Definition bearer (now : Z) (token : string) : result exn uuid :=
  match decoded settings now token access with
  | Err e => Err e
  | Ok payload =>
      match dict_item payload "sub" with Err e => Err e | Ok sub => json_uuid sub end
  end.

(** That user, as the tables show it. *)
Definition caller (now : Z) (token : string) (t : rows) : result exn User :=
  match bearer now token with
  | Err e => Err e
  | Ok uid =>
      match user_of t uid with
      | Some u => if is_active u then Ok u else Err inactive
      | None => Err inactive
      end
  end.

Definition not_organizer : exn :=
  AuthorizationError ("Requires one of roles: " +s join_roles [ORGANIZER; ADMIN]).

Definition organizing (who : result exn User) : result exn User :=
  match who with
  | Ok u => if decide (role u ∈ [ORGANIZER; ADMIN]) then Ok u else Err not_organizer
  | Err e => Err e
  end.

Lemma caller_active now token t u :
  caller now token t = Ok u → is_active u = true ∧ ∃ uid, bearer now token = Ok uid ∧ user_of t uid = Some u.
Proof using.
  unfold caller. destruct (bearer now token) as [uid|]; [|done].
  destruct (user_of t uid) as [u'|] eqn:Hu; [|done]. destruct (is_active u') eqn:Ha; [|done].
  intros [= <-]. eauto.
Qed.
End callers.

(** ** Requests *)
Inductive api_request : Type :=
| PostRegister (address password full_name : string)
| GetEvent (id : uuid)
| CreateEvent (d : EventCreate)
| UpdateEvent (id : uuid) (d : EventUpdate)
| DeleteEvent (id : uuid)
| PostOrder (e : uuid) (quantity : Z) (idempotency_key : option string)
| GetOrder (id : uuid)
| CancelOrder (id : uuid).

(** What the declared schemas let through, and the event's lock free. *)
Definition request_ok (rq : api_request) (w : world) : Prop :=
  match rq with
  | PostOrder e q _ => quantity_valid q = true ∧ lock_free e w
  | _ => True
  end.

Section routes.
Context `{C : Crypto} `{Collation}.
Variables (settings : Settings) (self : InventoryService).

(** The route of a request that carries [token]. *)
Definition route (token : string) (rq : api_request) : M Response :=
  match rq with
  | PostRegister a p n => post_register a p n
  | GetEvent id => Http.get_event id
  | CreateEvent d => Http.create_event settings token d
  | UpdateEvent id d => Http.update_event settings token id d
  | DeleteEvent id => Http.delete_event settings token id
  | PostOrder e q key => post_order settings self token e q key
  | GetOrder id => Http.get_order settings token id
  | CancelOrder id => Http.cancel_order settings token id
  end.

Variable o : oracle.

Definition registration (w : world) (a p n : string) (t : rows) (v : table) : effect User :=
  let spec := registered t (clock w) (uuid_draw o (S (draws w))) (salt_draw o (draws w)) a p n in
  Effect spec.1 spec.2 v [].

(** What the request does, started in [w] over the tables [t] and [v]. *)
Definition routed (w : world) (token : string) (rq : api_request) (t : rows) (v : table)
    : effect Response :=
  let user := caller settings (clock w) token t in
  match rq with
  | PostRegister a p n => responding 201 AUser (rendering user_read (registration w a p n t v))
  | GetEvent id =>
      responding 200 AnEvent (rendering event_read
        (reading (match event_of t id with Some e => Ok e | None => Err (no_event id) end) t v))
  | CreateEvent d =>
      responding 201 AnEvent (gate (organizing user) t v (λ u, rendering event_read
        (Events.create (kafka_up w) (clock w) (uuid_draw o (draws w)) d u t v)))
  | UpdateEvent id d =>
      responding 200 AnEvent (gate (organizing user) t v (λ u, rendering event_read
        (Events.update (kafka_up w) (clock w) id d u t v)))
  | DeleteEvent id =>
      responding 204 (λ _, Nothing) (gate (organizing user) t v (λ u, Events.delete id u t v))
  | PostOrder e q key =>
      responding 201 AnOrder (gate user t v (λ u, rendering order_read
        (booking o self w u e q key t v)))
  | GetOrder id =>
      responding 200 AnOrder (gate user t v (λ u, rendering order_read
        (reading (match order_for t id (user_id u) with
                  | Some x => Ok x | None => Err (no_order id) end) t v)))
  | CancelOrder id =>
      responding 200 AnOrder (gate user t v (λ u, rendering order_read
        (cancellation o w id u t v)))
  end.
End routes.

(** ** Bodies *)
Section bodies.
Context `{C : Crypto} {Col : Collation}.
Variable settings : Settings.
Context (o : oracle) `{Ook : !OracleOk o}.
Implicit Types (t : rows) (v : table) (w : world).

Lemma effects_ext {A} (b1 b2 : nat → M A) t v w out :
  (∀ s w', run (sys_exec o) (b1 s) w' = run (sys_exec o) (b2 s) w') →
  effects o b2 t v w out → effects o b1 t v w out.
Proof using.
  intros Hb He s ss n q ni qi Hc Hv.
  destruct (He s ss n q ni qi Hc Hv) as (ss' & q' & ni' & qi' & w' & Hrun & Hp).
  exists ss', q', ni', qi', w'. by rewrite Hb.
Qed.

Lemma run_rendered {A B} (render : A → result exn B) (p : M A) w :
  run (sys_exec o) (rendered render p) w
  = match run (sys_exec o) p w with
    | Some (Ok a, w') => Some (render a, w')
    | Some (Err e, w') => Some (Err e, w')
    | None => None
    end.
Proof using.
  unfold rendered. rewrite run_bind.
  destruct (run (sys_exec o) p w) as [[[a|e] w']|]; [apply run_of_result | done | done].
Qed.

Lemma rendered_effects {A B} (render : A → result exn B) (body : nat → M A) t v w out :
  effects o body t v w out → effects o (λ s, rendered render (body s)) t v w (rendering render out).
Proof using.
  intros He s ss n q ni qi Hc Hv.
  destruct (He s ss n q ni qi Hc Hv) as (ss' & q' & ni' & qi' & w' & Hrun & Hp).
  exists ss', q', ni', qi', w'. split; [|exact Hp]. rewrite run_rendered, Hrun.
  unfold rendering, with_answer. cbn [answer api_after inv_after sent]. by destruct (answer out).
Qed.

(** [get_current_user], of any token. *)
Lemma run_caller token t s ss n q w :
  coherent t ss → well_formed (visible t ss) →
  ∃ ss', run (sys_exec o) (get_current_user settings s token) (in_session t s ss n q w)
    = Some (caller settings (clock w) token (visible t ss), in_session t s ss' n q w)
    ∧ extends t ss ss'.
Proof using.
  intros Hc Hw. unfold get_current_user, caller, bearer. rewrite run_bind, run_decode.
  change (clock (in_session t s ss n q w)) with (clock w).
  assert (Hid : ∀ e : exn, ∃ ss', Some (Err (X := exn) (A := User) e, in_session t s ss n q w)
    = Some (Err e, in_session t s ss' n q w) ∧ extends t ss ss').
  { intros e. exists ss. split; [done | by apply extends_refl]. }
  destruct (decoded settings (clock w) token access) as [payload|e]; [|apply Hid].
  rewrite run_bind, run_of_result. destruct (dict_item payload "sub") as [sub|e]; [|apply Hid].
  rewrite run_bind, run_of_result. destruct (json_uuid sub) as [uid|e]; [|apply Hid].
  destruct (user_get_run o t s ss n q w Hc Hw uid) as (ss' & Hrun & He & _).
  exists ss'. split; [|done]. rewrite run_bind, Hrun.
  destruct (user_of (visible t ss) uid) as [u|]; [|done]. by destruct (is_active u).
Qed.

Lemma gate_effects {A} token (body : nat → User → M A) t v w (out : User → effect A) :
  well_formed t →
  (∀ u, effects o (λ s, body s u) t v w (out u)) →
  effects o (λ s, user <- get_current_user settings s token ;; body s user) t v w
    (gate (caller settings (clock w) token t) t v out).
Proof using.
  intros Hw Hb s ss n q ni qi Hc Hv.
  assert (Hvw : well_formed (visible t ss)) by by rewrite Hv.
  destruct (run_caller token t s ss n q (quiet v ni qi w) Hc Hvw) as (ss1 & Hrun & [Hc1 Hv1 _]).
  rewrite Hv in Hrun, Hv1. change (clock (quiet v ni qi w)) with (clock w) in Hrun.
  unfold joint_world at 1. rewrite run_bind, Hrun.
  destruct (caller settings (clock w) token t) as [u|e].
  - by apply Hb.
  - exists ss1, q, ni, qi, w. split; [done | apply progressed_refl].
Qed.

Lemma organizer_effects {A} token (body : nat → User → M A) t v w (out : User → effect A) :
  well_formed t →
  (∀ u, effects o (λ s, body s u) t v w (out u)) →
  effects o (λ s, user <- OrganizerUser settings s token ;; body s user) t v w
    (gate (organizing (caller settings (clock w) token t)) t v out).
Proof using.
  intros Hw Hb.
  apply (effects_ext _ (λ s, user <- get_current_user settings s token ;;
                             user <- require_roles [ORGANIZER; ADMIN] user ;; body s user)).
  { intros s w'. unfold OrganizerUser. by rewrite run_bind_assoc. }
  replace (gate (organizing _) t v out) with
    (gate (caller settings (clock w) token t) t v
       (λ u, gate (organizing (Ok u)) t v out)).
  2: { by destruct (caller settings (clock w) token t). }
  apply gate_effects; [done|]. intros u s ss n q ni qi Hc Hv. unfold require_roles, organizing.
  case_decide; [by apply Hb|].
  exists ss, q, ni, qi, w. split; [done | apply progressed_refl].
Qed.

Lemma register_effects a p n t v w :
  well_formed t →
  effects o (λ s, AuthService.register s a p n) t v w (registration o w a p n t v).
Proof using Ook.
  intros Hw s ss m q ni qi Hc Hv.
  destruct (run_register_body o t s ss m q (quiet v ni qi w) a p n Hc Hv Hw Ook) as (ss' & d & Hrun).
  exists ss', (S q), ni, qi, (advance d w). split; [exact Hrun | by apply progressed_nil].
Qed.

Lemma get_event_effects id t v w :
  well_formed t →
  effects o (λ s, EventService.get s id) t v w
    (reading (match event_of t id with Some e => Ok e | None => Err (no_event id) end) t v).
Proof using.
  intros Hw s ss n q ni qi Hc Hv.
  destruct (event_service_get_run o t s ss n q (quiet v ni qi w) id Hc Hw Hv) as (ss' & Hrun & _).
  exists ss', q, ni, qi, w. split; [exact Hrun | apply progressed_refl].
Qed.

Lemma get_order_effects id u t v w :
  well_formed t →
  effects o (λ s, BookingService.get_order s id u) t v w
    (reading (match order_for t id (user_id u) with
              | Some x => Ok x | None => Err (no_order id) end) t v).
Proof using Ook.
  intros Hw s ss n q ni qi Hc Hv.
  assert (Hvw : well_formed (visible t ss)) by by rewrite Hv.
  destruct (get_for_user_run o t s ss n q (quiet v ni qi w) Hc Hvw id (user_id u))
    as (ss' & Hrun & _). rewrite Hv in Hrun.
  exists ss', (S q), ni, qi, w. split; [|apply progressed_refl].
  unfold BookingService.get_order, joint_world. rewrite run_bind, Hrun.
  by destruct (order_for t id (user_id u)).
Qed.
End bodies.

(** ** Refusals *)

(** Nothing has happened. *)
Definition untouched {A} (t : rows) (v : table) (out : effect A) : Prop :=
  api_after out = t ∧ inv_after out = v ∧ sent out = [].

(** The status a lost reply is reported with is the runtime's own. *)
Definition runtime_fault (f : rpc_fault) : Prop :=
  match f with
  | LostReply code => _ERROR_STATUS_MAP (domain_error code "") = None
  | _ => True
  end.

(** An error that has a status of its own was raised before anything was done. *)
Definition quiet_refusals {A} (t : rows) (v : table) (out : effect A) : Prop :=
  ∀ e code, answer out = Err e → _ERROR_STATUS_MAP e = Some code → untouched t v out.

(** Errors that answer 500. *)
Definition unhandled (r : exn) : Prop := _ERROR_STATUS_MAP r = None.

Lemma user_read_unhandled u e : user_read u = Err e → unhandled e.
Proof. unfold user_read. case_match; by intros [= <-]. Qed.
Lemma event_read_unhandled x e : event_read x = Err e → unhandled e.
Proof. unfold event_read. repeat case_match; by intros [= <-]. Qed.
Lemma order_read_unhandled x e : order_read x = Err e → unhandled e.
Proof. unfold order_read. repeat case_match; by intros [= <-]. Qed.

Section refusals.
Implicit Types (t : rows) (v : table).

Lemma untouched_quiet {A} t v (out : effect A) : untouched t v out → quiet_refusals t v out.
Proof. by intros H e code _ _. Qed.

Lemma reading_quiet {A} (r : result exn A) t v : quiet_refusals t v (reading r t v).
Proof. by apply untouched_quiet. Qed.

Lemma gate_quiet {A} who t v (out : User → effect A) :
  (∀ u, quiet_refusals t v (out u)) → quiet_refusals t v (gate who t v out).
Proof. intros Ho. destruct who as [u|e]; [apply Ho | by apply untouched_quiet]. Qed.

Lemma rendering_quiet {A B} (render : A → result exn B) t v (out : effect A) :
  (∀ a e, render a = Err e → unhandled e) →
  quiet_refusals t v out → quiet_refusals t v (rendering render out).
Proof.
  intros Hr Hq e code. unfold rendering, with_answer. cbn [answer].
  destruct (answer out) as [a|e'] eqn:Ha; [|intros [= <-]; by apply Hq].
  intros Hre Hm. apply Hr in Hre. unfold unhandled in Hre. congruence.
Qed.

Lemma announcing_quiet {A} kafka (a : A) t v t' v' m :
  quiet_refusals t v (announcing kafka a t' v' m).
Proof. intros e code. unfold announcing. by destruct kafka; simpl; intros [= <-]. Qed.

(** The response of a route whose refusals are quiet. *)
Lemma responding_quiet {A} status (render : A → body) t v (out : effect A) r :
  status < 400 → quiet_refusals t v out →
  answer (responding status render out) = Ok r → 400 ≤ status_code r →
  untouched t v (responding status render out).
Proof.
  intros Hs Hq. unfold responding, with_answer, response_to. cbn [answer].
  destruct (answer out) as [a|e] eqn:Ha; [intros [= <-]; simpl; lia|].
  destruct (_ERROR_STATUS_MAP e) as [code|] eqn:Hm; [|done]. intros _ _.
  exact (Hq e code Ha Hm).
Qed.

Lemma database_errors_unhandled t r e :
  insert_error t r = Some e → unhandled e.
Proof.
  unfold insert_error. destruct (check_row r) as [err|] eqn:Hck.
  - intros [= <-]. destruct r; simpl in Hck; repeat case_match; by simplify_eq.
  - case_bool_decide; by intros [= <-].
Qed.

Lemma change_errors_unhandled now r r' e : change_error now r r' = Some e → unhandled e.
Proof.
  unfold change_error. case_decide; [done|]. intros Hck.
  destruct (updated_row now r') as [u|x|y]; simpl in Hck; repeat case_match; by simplify_eq.
Qed.

Lemma events_quiet kafka now t v :
  (∀ id d u, quiet_refusals t v (Events.create kafka now id d u t v))
  ∧ (∀ id d u, quiet_refusals t v (Events.update kafka now id d u t v))
  ∧ (∀ id u, quiet_refusals t v (Events.delete id u t v)).
Proof.
  split_and!; intros; [unfold Events.create|unfold Events.update|unfold Events.delete].
  - destruct (insert_error t _); [by apply untouched_quiet | apply announcing_quiet].
  - destruct (event_of t id) as [e|]; [|by apply untouched_quiet].
    destruct (may_modify e u); [|by apply untouched_quiet].
    destruct (change_error _ _ _); [by apply untouched_quiet|].
    destruct (seats_changed d e); [apply announcing_quiet | done].
  - destruct (event_of t id) as [e|]; [|by apply untouched_quiet].
    destruct (may_modify e u); [|by apply untouched_quiet]. case_bool_decide; [done|].
    by apply untouched_quiet.
Qed.

(** A call of the Inventory service that is refused. *)
Definition atomic_refusal {A} (v : table) (spec : result exn A * table) : Prop :=
  ∀ e, spec.1 = Err e → spec.2 = v.

Lemma committed_refusal {A} v (r : result exn (A * table)) : atomic_refusal v (committed v r).
Proof. intros e. by destruct r as [[a v']|e']. Qed.

Lemma reserve_refusal now rid e oid q ttl k v : atomic_refusal v (Spec.reserve now rid e oid q ttl k v).
Proof.
  unfold Spec.reserve. destruct (q <=? 0); [done|]. case_decide; [done|].
  destruct (inv_of v e) as [i|]; [|done]. destruct (available i <? q); [done|].
  apply committed_refusal.
Qed.

Lemma release_refusal now id ex v : atomic_refusal v (Spec.release now id ex v).
Proof.
  unfold Spec.release. destruct (res_of v id); [|done]. case_decide; [done|]. apply committed_refusal.
Qed.

Lemma by_text_refusal {A} (f : uuid → result exn A * table) text v :
  (∀ id, atomic_refusal v (f id)) → atomic_refusal v (by_text f text v).
Proof. intros Hf. unfold by_text. by destruct (UUID text). Qed.

Lemma remote_refusal {A} o net status v (spec : result exn A * table) e code :
  runtime_fault net → atomic_refusal v spec →
  (System.remote o net status v spec).1 = Err e → _ERROR_STATUS_MAP e = Some code →
  (System.remote o net status v spec).2 = v.
Proof.
  intros Hf Ha. unfold System.remote. destruct net as [|c|c]; simpl.
  - destruct spec.1 as [a|e'] eqn:Hs; [done|]. intros _ _. by apply (Ha e').
  - done.
  - intros [= <-]. simpl in Hf. congruence.
Qed.

Lemma booking_quiet o self w user e q key t v :
  runtime_fault (fault w) → quiet_refusals t v (booking o self w user e q key t v).
Proof.
  intros Hf. unfold booking, System.book. destruct (given key ≫= _); [by apply untouched_quiet|].
  unfold System.book_new. destruct (event_of t e) as [ev|]; [|by apply untouched_quiet].
  set (spec := Spec.reserve _ _ _ _ _ _ _ _).
  pose proof (λ err code, remote_refusal o (fault w) reserve_status v spec err code Hf
    (reserve_refusal _ _ _ _ _ _ _ _)) as Hrem.
  destruct (System.remote o (fault w) reserve_status v spec) as [[r|err] v']; cbn [fst snd] in Hrem.
  2: { intros err' code [= <-] Hm. by rewrite (Hrem err code eq_refl Hm). }
  destruct (price_field (price_cents ev)) as [price|err] eqn:Hp.
  2: { intros err' code [= <-]. unfold price_field in Hp. by destruct (price_cents ev); simplify_eq. }
  destruct (insert_error t _) as [err|] eqn:Hins; [|apply announcing_quiet].
  intros err' code [= <-] Hm. apply database_errors_unhandled in Hins. unfold unhandled in Hins. congruence.
Qed.

Lemma cancellation_quiet o w id user t v :
  runtime_fault (fault w) → quiet_refusals t v (cancellation o w id user t v).
Proof.
  intros Hf. unfold cancellation, System.cancel.
  destruct (order_for t id (user_id user)) as [x|]; [|by apply untouched_quiet].
  case_goal; [by apply untouched_quiet|].
  pose proof (λ err code, remote_refusal o (fault w) not_found_status v
    (by_text (λ id, Spec.release (clock w) id false v) (reservation_id x) v) err code Hf
    (by_text_refusal _ _ _ (λ id, release_refusal _ id _ v))) as Hrem.
  fold (System.release o (fault w) (clock w) x v) in Hrem.
  destruct (System.release o (fault w) (clock w) x v) as [[r|err] v']; cbn [fst snd] in Hrem.
  - apply announcing_quiet.
  - intros err' code [= <-] Hm. by rewrite (Hrem err code eq_refl Hm).
Qed.
(** ** Authorization *)

(** A refusal leaves everything as it was and answers no success. *)
Definition refused (t : rows) (v : table) (out : effect Response) : Prop :=
  untouched t v out ∧ ∀ x, answer out = Ok x → ¬ status_code x < 400.

Lemma refused_response {A} status (render : A → body) t v (out : effect A) e :
  answer out = Err e → untouched t v out → refused t v (responding status render out).
Proof.
  intros Ha Hu. split; [exact Hu|]. intros x. unfold responding, with_answer, response_to.
  cbn [answer]. rewrite Ha. destruct (_ERROR_STATUS_MAP e) as [code|] eqn:Hm; [|done].
  intros [= <-]. simpl. destruct e; simpl in Hm; simplify_eq; lia.
Qed.

Lemma gate_refused {A} status (render : A → body) who t v (out : User → effect A) e :
  who = Err e → refused t v (responding status render (gate who t v out)).
Proof. intros ->. by eapply refused_response. Qed.

Lemma rendering_refused {A B} status (f : B → body) (render : A → result exn B) t v (out : effect A) e :
  answer out = Err e → untouched t v out → refused t v (responding status f (rendering render out)).
Proof. intros Ha Hu. eapply refused_response; [|exact Hu]. simpl. by rewrite Ha. Qed.
End refusals.

(** The routes that ask for a bearer token, and what they ask of its user. *)
Definition protected (rq : api_request) : bool :=
  match rq with PostRegister _ _ _ | GetEvent _ => false | _ => true end.

Definition manages (u : User) : Prop := role u ∈ [ORGANIZER; ADMIN].

Definition allowed (u : User) (rq : api_request) (t : rows) : Prop :=
  match rq with
  | PostRegister _ _ _ | GetEvent _ | PostOrder _ _ _ => True
  | CreateEvent _ => manages u
  | UpdateEvent id _ | DeleteEvent id =>
      manages u ∧ ∃ e, event_of t id = Some e ∧ (role u = ADMIN ∨ organizer_id e = user_id u)
  | GetOrder id | CancelOrder id =>
      ∃ x, order_of t id = Some x ∧ order_user_id x = user_id u
  end.

Lemma may_modify_spec e u : may_modify e u = true ↔ role u = ADMIN ∨ organizer_id e = user_id u.
Proof. unfold may_modify. by rewrite orb_true_iff, !bool_decide_eq_true. Qed.

Lemma order_for_owner t id uid x :
  order_for t id uid = Some x → order_of t id = Some x ∧ order_user_id x = uid.
Proof. intros (x' & Hx & Hd)%bind_Some. case_decide; [|done]. by injection Hd as <-. Qed.

Section routed.
Context `{C : Crypto}.
Variables (settings : Settings) (self : InventoryService) (o : oracle) (w : world) (token : string).
Implicit Types (t : rows) (v : table).

Lemma routed_quiet rq t v r :
  runtime_fault (fault w) → answer (routed settings self o w token rq t v) = Ok r → 400 ≤ status_code r →
  untouched t v (routed settings self o w token rq t v).
Proof.
  intros Hf. destruct (events_quiet (kafka_up w) (clock w) t v) as (Hcr & Hup & Hde).
  destruct rq; cbn [routed]; (apply responding_quiet; [lia|]).
  - apply rendering_quiet; [apply user_read_unhandled|]. intros e code. unfold registration, registered.
    repeat case_match; simpl; intros; by simplify_eq.
  - apply rendering_quiet; [apply event_read_unhandled | apply reading_quiet].
  - apply gate_quiet. intros u. apply rendering_quiet; [apply event_read_unhandled | apply Hcr].
  - apply gate_quiet. intros u. apply rendering_quiet; [apply event_read_unhandled | apply Hup].
  - apply gate_quiet. intros u. apply Hde.
  - apply gate_quiet. intros u. apply rendering_quiet; [apply order_read_unhandled | by apply booking_quiet].
  - apply gate_quiet. intros u. apply rendering_quiet; [apply order_read_unhandled | apply reading_quiet].
  - apply gate_quiet. intros u. apply rendering_quiet; [apply order_read_unhandled | by apply cancellation_quiet].
Qed.

(** A change of an event by a user who may make it, or a refusal. *)
Lemma change_allowed {A} status (render : A → body) id t v (out : User → effect A) :
  (∀ u, (∃ e, event_of t id = Some e ∧ may_modify e u = true)
        ∨ ((∃ err, answer (out u) = Err err) ∧ untouched t v (out u))) →
  let user := caller settings (clock w) token t in
  refused t v (responding status render (gate (organizing user) t v out))
  ∨ ∃ u, user = Ok u ∧ manages u
      ∧ ∃ e, event_of t id = Some e ∧ (role u = ADMIN ∨ organizer_id e = user_id u).
Proof.
  intros Hout user. destruct user as [u|e]; [|left; by eapply gate_refused].
  unfold organizing. case_decide as Hm; [|left; by eapply gate_refused].
  destruct (Hout u) as [(e & He & Hmay%may_modify_spec)|[[err Herr] Hu]]; [right; eauto 6|].
  left. by eapply refused_response.
Qed.

(** An order's owner, or a refusal. *)
Lemma order_allowed {A B} status (f : B → body) (render : A → result exn B) id t v (out : User → effect A) :
  (∀ u, order_for t id (user_id u) = None →
     (∃ err, answer (out u) = Err err) ∧ untouched t v (out u)) →
  let user := caller settings (clock w) token t in
  refused t v (responding status f (gate user t v (λ u, rendering render (out u))))
  ∨ ∃ u, user = Ok u ∧ ∃ x, order_of t id = Some x ∧ order_user_id x = user_id u.
Proof.
  intros Hout user. destruct user as [u|e]; [|left; by eapply gate_refused].
  destruct (order_for t id (user_id u)) as [x|] eqn:Hx; [right; eauto using order_for_owner|].
  left. destruct (Hout u Hx) as [[err Herr] Hu]. by eapply rendering_refused.
Qed.

Lemma routed_allowed rq t v :
  protected rq = true →
  refused t v (routed settings self o w token rq t v)
  ∨ ∃ u, caller settings (clock w) token t = Ok u ∧ allowed u rq t.
Proof.
  intros Hp. destruct rq as [| |d|id d|id|e q key|id|id]; try done; cbn [routed allowed].
  - destruct (caller settings (clock w) token t) as [u|e]; [|left; by eapply gate_refused].
    unfold organizing. case_decide as Hm; [right; eauto | left; by eapply gate_refused].
  - apply change_allowed. intros u. unfold Events.update.
    destruct (event_of t id) as [e|]; [|right; split; [by eexists|done]].
    destruct (may_modify e u) eqn:Hm; [left; eauto | right; split; [by eexists|done]].
  - apply change_allowed. intros u. unfold Events.delete.
    destruct (event_of t id) as [e|]; [|right; split; [by eexists|done]].
    destruct (may_modify e u) eqn:Hm; [left; eauto | right; split; [by eexists|done]].
  - destruct (caller settings (clock w) token t) as [u|err]; [right; eauto | left; by eapply gate_refused].
  - apply order_allowed. intros u Hu. unfold reading. rewrite Hu. split; [by eexists|done].
  - apply order_allowed. intros u Hu. unfold cancellation, System.cancel. rewrite Hu.
    split; [by eexists|done].
Qed.
End routed.

(** ** What the routes promise *)
Section contract.
Context `{C : Crypto} {Col : Collation}.
Context {W : Type} (o : oracle) (impl : handler sys_op W) (obs : W → world).
Context `{P : !Platform (sys_exec o) impl obs} `{Ook : !OracleOk o}.
Variables (settings : Settings) (self : InventoryService).
Hypothesis Hlock : lock_usable (lock self).
Implicit Types (t : rows) (v : table).

Lemma respond_performs {A} status (render : A → body) (p : M A) w out :
  performs impl obs p w out → performs impl obs (respond status render p) w (responding status render out).
Proof using.
  intros (w' & Hrun & Hrest & Hj & Hp). exists w'. split; [|done]. unfold respond.
  rewrite run_bind, run_attempt, Hrun. unfold responding, with_answer, response_to. cbn [answer].
  destruct (answer out) as [a|e]; [done|]. by destruct (_ERROR_STATUS_MAP e).
Qed.

Lemma route_performs {A} status (render : A → body) (body : nat → M A) w t v out :
  resting (obs w) t v → joint (api_after out) (inv_after out) → effects o body t v (obs w) out →
  performs impl obs (respond status render (get_db body)) w (responding status render out).
Proof using P.
  intros Hr Hj He. apply respond_performs. by apply (request_performs o impl obs _ w t v).
Qed.

Lemma gate_joint {A} who t v (out : User → effect A) :
  joint t v → (∀ u, joint (api_after (out u)) (inv_after (out u))) →
  joint (api_after (gate who t v out)) (inv_after (gate who t v out)).
Proof using. intros Hj Ho. by destruct who; simpl. Qed.

Lemma registration_joint w a p n t v :
  joint t v → let out := registration o w a p n t v in joint (api_after out) (inv_after out).
Proof using.
  intros Hj out. apply (joint_rows t); [done | apply registered_well_formed, Hj | apply order_of_registered].
Qed.

Lemma request_performs_all w t v token rq :
  resting (obs w) t v → joint t v → request_ok rq (obs w) →
  performs impl obs (route settings self token rq) w (routed settings self o (obs w) token rq t v).
Proof using P Ook Hlock.
  intros Hr Hj Hok. pose proof (joint_api _ _ Hj) as Hw. pose proof (joint_inv _ _ Hj) as Hc.
  destruct rq; cbn [request_ok] in Hok; unfold route, routed.
  - eapply route_performs; [done|by apply registration_joint|].
    by apply rendered_effects, register_effects.
  - eapply route_performs; [done|done|]. apply rendered_effects. by apply get_event_effects.
  - eapply route_performs; [done| |].
    + apply gate_joint; [done|]. intros u. by apply create_joint.
    + apply organizer_effects; [done|]. intros u. by apply rendered_effects, create_effects.
  - eapply route_performs; [done| |].
    + apply gate_joint; [done|]. intros u. by apply update_joint.
    + apply organizer_effects; [done|]. intros u. by apply rendered_effects, update_effects.
  - eapply route_performs; [done| |].
    + apply gate_joint; [done|]. intros u. by apply delete_joint.
    + apply organizer_effects; [done|]. intros u. by apply delete_effects.
  - destruct Hok as [Hq Hf]. eapply route_performs; [done| |].
    + apply gate_joint; [done|]. intros u. by apply book_joint.
    + apply gate_effects; [done|]. intros u. apply rendered_effects.
      apply book_tickets_effects; try done. by apply quantity_int32.
  - eapply route_performs; [done| |].
    + by apply gate_joint.
    + apply gate_effects; [done|]. intros u. by apply rendered_effects, get_order_effects.
  - eapply route_performs; [done| |].
    + apply gate_joint; [done|]. intros u. by apply cancel_joint.
    + apply gate_effects; [done|]. intros u. by apply rendered_effects, cancel_order_effects.
Qed.
(** C16. The route of a registration, and each that reads, creates, changes,
    deletes or cancels one event or order, answers the response of its service's
    effect, and has that effect and no other on both databases and the bus: a
    request whose token names no active user is answered 401 and does nothing,
    one that needs an organizer 403; the errors of the service get the status of
    their kind, and the others are left to the server. *)
Theorem request_outcome w t v token rq :
  resting (obs w) t v → joint t v → request_ok rq (obs w) →
  performs impl obs (route settings self token rq) w (routed settings self o (obs w) token rq t v).
Proof using P Ook Hlock. apply request_performs_all. Qed.

Lemma route_run w t v token rq r w' :
  resting (obs w) t v → joint t v → request_ok rq (obs w) →
  run impl (route settings self token rq) w = Some (r, w') →
  let out := routed settings self o (obs w) token rq t v in
  r = answer out ∧ resting (obs w') (api_after out) (inv_after out)
  ∧ progressed (sent out) (obs w) (obs w').
Proof using P Ook Hlock.
  intros Hr Hj Hok Hrun out.
  destruct (request_performs_all w t v token rq Hr Hj Hok) as (w1 & Hrun1 & Hrest & _ & Hp).
  rewrite Hrun in Hrun1. by injection Hrun1 as -> ->.
Qed.

(** C18. A request refused with an error status of the program has done nothing:
    both databases are as they were and nothing was announced, whatever the
    broker does and whichever message the network loses. *)
Theorem refused_request_changes_nothing w t v token rq r w' :
  resting (obs w) t v → joint t v → request_ok rq (obs w) → runtime_fault (fault (obs w)) →
  run impl (route settings self token rq) w = Some (Ok r, w') → 400 ≤ status_code r →
  resting (obs w') t v ∧ kafka_log (obs w') = kafka_log (obs w).
Proof using P Ook Hlock.
  intros Hr Hj Hok Hf Hrun Hst.
  destruct (route_run w t v token rq _ w' Hr Hj Hok Hrun) as (Ha & Hrest & Hp).
  destruct (routed_quiet settings self o (obs w) token rq t v r Hf (eq_sym Ha) Hst) as (Ht & Hv & Hs).
  rewrite Ht, Hv in Hrest. rewrite Hs in Hp. split; [done|].
  destruct Hp as [([|] & Hlen & Hlog) _ _ _]; [|done]. by rewrite Hlog, app_nil_r.
Qed.

(** C17. Nobody gets past the routes without the right to: a request for which
    there is an answer of success, a row changed or a message sent carries, its
    route being protected, a live access token of an active user with the role
    the route asks for, who is an administrator or the event's organizer where an
    event is changed, and the order's owner where an order is read or cancelled. *)
Theorem routes_authorize w t v token rq r w' :
  resting (obs w) t v → joint t v → request_ok rq (obs w) → protected rq = true →
  run impl (route settings self token rq) w = Some (r, w') →
  (∃ x, r = Ok x ∧ status_code x < 400) ∨ ¬ resting (obs w') t v
  ∨ kafka_log (obs w') ≠ kafka_log (obs w) →
  ∃ uid u, bearer settings (clock (obs w)) token = Ok uid ∧ user_of t uid = Some u
    ∧ is_active u = true ∧ allowed u rq t.
Proof using P Ook Hlock.
  intros Hr Hj Hok Hpr Hrun Hdone.
  destruct (route_run w t v token rq _ w' Hr Hj Hok Hrun) as (Ha & Hrest & Hp).
  destruct (routed_allowed settings self o (obs w) token rq t v Hpr) as [Hquiet|(u & Hu & Hall)].
  - destruct Hquiet as [(Ht & Hv & Hs) Herr]. exfalso. rewrite Ht, Hv in Hrest. rewrite Hs in Hp.
    destruct Hdone as [(x & -> & Hst)|[Hn|Hn]]; [by apply (Herr x) | done |].
    apply Hn. destruct Hp as [([|] & Hlen & Hlog) _ _ _]; [|done]. by rewrite Hlog, app_nil_r.
  - destruct (caller_active _ _ _ _ _ Hu) as (Hact & uid & Hb & Hut). by exists uid, u.
Qed.
End contract.

(** ** Requests to the sample shop *)
#[local] Existing Instance sample_collation.

Definition shop_token : string :=
  issued (C := sample_crypto) default_settings (uuid_of_N 7) access 0 (uuid_of_N 500).

Definition shop_route (rq : api_request) : M Response :=
  route (C := sample_crypto) default_settings default_service shop_token rq.
Definition shop_routed (rq : api_request) : effect Response :=
  routed (C := sample_crypto) default_settings default_service sample_oracle shop_world shop_token rq
    shop_rows shop_inventory.

Definition sample_order : api_request := PostOrder sample_event 3 (Some "k").

Lemma sample_order_ok : request_ok sample_order shop_world.
Proof. split; [reflexivity|]. by destruct (sample_lock_free sample_event). Qed.

Lemma shop_route_runs rq :
  request_ok rq shop_world →
  ∃ w', run (sys_exec sample_oracle) (shop_route rq) shop_world = Some (answer (shop_routed rq), w').
Proof.
  intros Hok. destruct (request_performs_all (C := sample_crypto) sample_oracle (sys_exec sample_oracle) id
    default_settings default_service sample_lock_usable shop_world shop_rows shop_inventory shop_token rq
    shop_rests shop_joint Hok) as (w' & Hrun & _). by exists w'.
Qed.

Lemma request_outcome_witness :
  performs (sys_exec sample_oracle) id (shop_route sample_order) shop_world (shop_routed sample_order).
Proof.
  apply (request_outcome (C := sample_crypto) sample_oracle (sys_exec sample_oracle) id
           default_settings default_service sample_lock_usable shop_world shop_rows shop_inventory).
  - apply shop_rests.
  - apply shop_joint.
  - apply sample_order_ok.
Defined.

(** An attendee may not create events. *)
Definition sample_creation : api_request :=
  CreateEvent (mkEventCreate "Recital" None "Hall" 0 10 2500).

Lemma refused_request_changes_nothing_witness :
  ∃ w', run (sys_exec sample_oracle) (shop_route sample_creation) shop_world
        = Some (Ok (_handler 403 not_organizer), w')
    ∧ resting w' shop_rows shop_inventory ∧ kafka_log w' = [].
Proof.
  destruct (shop_route_runs sample_creation I) as (w' & Hrun).
  replace (answer (shop_routed sample_creation)) with
    (Ok (X := exn) (_handler 403 not_organizer)) in Hrun by (vm_compute; reflexivity).
  exists w'. split; [exact Hrun|].
  apply (refused_request_changes_nothing (C := sample_crypto) sample_oracle (sys_exec sample_oracle) id
           default_settings default_service sample_lock_usable shop_world shop_rows shop_inventory
           shop_token sample_creation (_handler 403 not_organizer) w').
  - apply shop_rests.
  - apply shop_joint.
  - exact I.
  - exact I.
  - exact Hrun.
  - simpl. lia.
Defined.

Lemma routes_authorize_witness :
  ∃ uid u, bearer (C := sample_crypto) default_settings 0 shop_token = Ok uid
    ∧ user_of shop_rows uid = Some u ∧ is_active u = true ∧ allowed u sample_order shop_rows.
Proof.
  destruct (shop_route_runs sample_order sample_order_ok) as (w' & Hrun).
  apply (routes_authorize (C := sample_crypto) sample_oracle (sys_exec sample_oracle) id
           default_settings default_service sample_lock_usable shop_world shop_rows shop_inventory
           shop_token sample_order (answer (shop_routed sample_order)) w').
  - apply shop_rests.
  - apply shop_joint.
  - apply sample_order_ok.
  - reflexivity.
  - exact Hrun.
  - left. exists (mkResponse 201 (AnOrder (mkOrderRead (uuid_of_N 1000) sample_event 3 2500 7500
      OrderStatus.PENDING (uuid_str (uuid_of_N 1002)) 0 0)) ∅).
    split; [vm_compute; reflexivity | simpl; lia].
Defined.
