(* ===== verification/AppCorrectness.v ===== *)
(** * Correctness of the application

    A route behind the middleware of [create_app]: the rate limiter decides
    whether the request reaches it, the context and the limiter sign the
    response, and an exception without a handler becomes a bare 500. *)
From S2P Require Import Prelude Effects Json Uuid Domain Orm Redis InventoryModels.
From S2P Require Import ApiModels.
From S2P Require Import Platform ApiRepositories ApiRuns Locking InventoryService.
From S2P Require Import InventorySpec.
From S2P Require Import InventoryCorrectness RpcCorrectness.
From S2P Require Import Security EventService BookingService SystemSpec SystemRuns.
From S2P Require Import BookingCorrectness.
From S2P Require Import AuthCorrectness Http Routing RateLimitCorrectness.
From S2P Require Import HttpCorrectness.

(** ** The middleware *)
Section middleware.
Variables (o : oracle) (cors_headers : Request → gmap string string) (limit : Z).

(** The client has made [n] requests in the window. *)
Definition visits (request : Request) (n : nat) (w : world) : Prop :=
  let key := key_at request (clock w) in
  match n with
  | O => redis_get (clock w) (redis w) key = None
  | S _ => ∃ ex, redis w !! key = Some (RInt (Z.of_nat n), Some ex) ∧ clock w < ex
  end.

(** The world the limiter hands on. *)
Definition counted_in (request : Request) (n : nat) (ex : Z) (w : world) : world :=
  set_redis (<[key_at request (clock w) := (RInt (Z.of_nat n), Some ex)]> (redis w)) w.

Lemma run_dispatch request n call_next w :
  path request ∉ _EXEMPT_PATHS → redis_up w = true → visits request n w →
  ∃ ex, run (sys_exec o) (dispatch limit request call_next) w
        = run (sys_exec o) (limited limit (Z.of_nat (S n)) call_next) (counted_in request (S n) ex w).
Proof using.
  intros Hp Hup Hv. destruct n as [|n].
  - exists (clock w + window_length). by apply run_first.
  - destruct Hv as (ex & Hk & Hl). exists ex.
    rewrite (run_later o limit request call_next w (Z.of_nat (S n)) ex) by (done || lia).
    unfold counted_in. by replace (Z.of_nat (S n) + 1) with (Z.of_nat (S (S n))) by lia.
Qed.

Lemma run_down request call_next w :
  path request ∉ _EXEMPT_PATHS → redis_up w = false →
  run (sys_exec o) (dispatch limit request call_next) w = Some (Err RedisError, w).
Proof using.
  intros Hp Hup. unfold dispatch. rewrite decide_False by done.
  unfold datetime_now. rewrite run_bind, run_trigger. cbn [sys_exec]. cbv iota.
  unfold count_request, call. rewrite run_bind, run_call_bind. cbn [sys_exec redis_exec].
  rewrite Hup. by destruct w.
Qed.

(** What the middleware adds to a response of the route. *)
Definition signed (request : Request) (fresh : uuid) (n : Z) (r : Response) : Response :=
  set_header "X-RateLimit-Remaining" (pretty (Z.max 0 (limit - n)))
    (set_header "X-RateLimit-Limit" (pretty limit)
       (set_header "X-Request-ID" (default (uuid_str fresh) (x_request_id request))
          (with_headers (cors_headers request) r))).

Lemma run_app request n p w :
  path request ∉ _EXEMPT_PATHS → redis_up w = true → visits request n w →
  ∃ ex, let w1 := counted_in request (S n) ex w in
    run (sys_exec o) (app cors_headers limit request p) w
    = if limit <? Z.of_nat (S n) then Some (Ok too_many, w1)
      else match run (sys_exec o) p (next_draw w1) with
           | Some (Ok r, w') => Some (Ok (signed request (uuid_draw o (draws w)) (Z.of_nat (S n)) r), w')
           | Some (Err _, w') => Some (Ok internal_error, w')
           | None => None
           end.
Proof using.
  intros Hp Hup Hv. unfold app, server_errors.
  destruct (run_dispatch request n (RequestContext.dispatch request (cors cors_headers request p)) w
    Hp Hup Hv) as (ex & Hd).
  exists ex. rewrite run_try_except, Hd. set (w1 := counted_in request (S n) ex w). unfold limited.
  destruct (limit <? Z.of_nat (S n)); [done|].
  unfold RequestContext.dispatch, uuid4. rewrite !run_bind, run_trigger.
  change (sys_exec o _ Uuid4 w1) with (Some (uuid_draw o (draws w), next_draw w1)). cbv iota beta zeta.
  unfold cors. rewrite !run_bind.
  by destruct (run (sys_exec o) p (next_draw w1)) as [[[r|e] w']|].
Qed.
End middleware.

(** The limiter's counters are not locks. *)
Lemma counter_is_no_lock request now e : key_at request now ≠ lock_key (event_resource e).
Proof. unfold key_at, rate_key, lock_key. simpl. discriminate. Qed.

Lemma request_ok_entered request n ex rq w :
  request_ok rq w → request_ok rq (next_draw (counted_in request n ex w)).
Proof.
  destruct rq; try done. intros [Hq [Hup Hf]]. split; [done|]. split; [done|].
  unfold redis_get in *. simpl. rewrite lookup_insert_ne by apply counter_is_no_lock. exact Hf.
Qed.

(** The path operation of a request. *)
Definition endpoint_of (rq : api_request) : endpoint :=
  match rq with
  | PostRegister _ _ _ => Eregister
  | GetEvent _ => Eget_event
  | CreateEvent _ => Ecreate_event
  | UpdateEvent _ _ => Eupdate_event
  | DeleteEvent _ => Edelete_event
  | PostOrder _ _ _ => Ebook_tickets
  | GetOrder _ => Eget_order
  | CancelOrder _ => Ecancel_order
  end.

(** No route that touches the tables has a path the limiter exempts. *)
Lemma own_path_counted request rq r id :
  r ∈ app_routes → rt_endpoint r = endpoint_of rq → path request = path_of r id →
  path request ∉ _EXEMPT_PATHS.
Proof.
  intros Hr He -> Hp. apply exempt_probe in Hp; [|done]. rewrite He in Hp. by destruct rq.
Qed.

(** ** The application *)
Section contract.
Context `{C : Crypto} {Col : Collation}.
Context {W : Type} (o : oracle) (impl : handler sys_op W) (obs : W → world).
Context `{P : !Platform (sys_exec o) impl obs} `{Ook : !OracleOk o}.
Variables (settings : Settings) (self : InventoryService).
Hypothesis Hlock : lock_usable (lock self).
Variable cors_headers : Request → gmap string string.
Implicit Types (t : rows) (v : table).

(** What a request that is its client's number [n] of the window does. *)
Definition served (w : world) (request : Request) (n : Z) (token : string) (rq : api_request)
    (t : rows) (v : table) : effect Response :=
  let limit := rate_limit_per_minute settings in
  if negb (redis_up w) then Effect (Ok internal_error) t v []
  else if limit <? n then Effect (Ok too_many) t v []
  else with_answer
         (λ r, Ok match r with
                  | Ok x => signed cors_headers limit request (uuid_draw o (draws w)) n x
                  | Err _ => internal_error
                  end)
         (routed settings self o (next_draw w) token rq t v).

Definition handle (request : Request) (token : string) (rq : api_request) : M Response :=
  app cors_headers (rate_limit_per_minute settings) request (route settings self token rq).

(** The request at the documented platform. *)
Lemma served_doc w request n token rq t v :
  resting w t v → joint t v → path request ∉ _EXEMPT_PATHS →
  (redis_up w = true → request_ok rq w ∧ visits request n w) →
  performs (sys_exec o) id (handle request token rq) w (served w request (Z.of_nat (S n)) token rq t v).
Proof using Ook Hlock.
  intros Hr Hj Hp Hup. unfold performs, served, handle, id.
  destruct (redis_up w) eqn:Hred; cbn [negb].
  2: { exists w. unfold app, server_errors. rewrite run_try_except, run_down by done.
       split; [done|]. split; [done|]. split; [done | apply progressed_refl]. }
  destruct (Hup eq_refl) as [Hok Hv].
  destruct (run_app o cors_headers (rate_limit_per_minute settings) request n
    (route settings self token rq) w Hp Hred Hv) as (ex & Hrun). cbv zeta in Hrun.
  set (w1 := counted_in request (S n) ex w) in *. rewrite Hrun.
  destruct (rate_limit_per_minute settings <? Z.of_nat (S n)).
  { exists w1. split; [done|]. split; [exact Hr|]. split; [done | by apply progressed_nil]. }
  destruct (request_performs_all o (sys_exec o) id settings self Hlock (next_draw w1) t v token rq)
    as (w' & Hroute & Hrest & Hj' & Hpr); [exact Hr | done | by apply request_ok_entered |].
  exists w'. rewrite Hroute. unfold id in *.
  change (routed settings self o (next_draw w1) token rq t v)
    with (routed settings self o (next_draw w) token rq t v) in *.
  unfold with_answer. cbn [answer api_after inv_after sent].
  split; [by destruct (answer (routed settings self o (next_draw w) token rq t v))|].
  split; [exact Hrest|]. split; [exact Hj'|].
  apply (progressed_then _ _ (next_draw w1)); [by apply progressed_nil | exact Hpr].
Qed.

Lemma served_performs w request n token rq t v :
  resting (obs w) t v → joint t v → path request ∉ _EXEMPT_PATHS →
  (redis_up (obs w) = true → request_ok rq (obs w) ∧ visits request n (obs w)) →
  performs impl obs (handle request token rq) w
    (served (obs w) request (Z.of_nat (S n)) token rq t v).
Proof using P Ook Hlock.
  intros Hr Hj Hp Hup.
  destruct (served_doc (obs w) request n token rq t v Hr Hj Hp Hup) as (s' & Hrun & Hpost).
  destruct (runs_to_doc (impl := impl) _ w _ _ Hrun) as (w' & Hrun' & Hobs).
  exists w'. split; [exact Hrun'|]. rewrite Hobs. exact Hpost.
Qed.

(** C19. A request to the application: with Redis down it is answered 500 and
    does nothing; beyond the quota of its client's window it is answered 429 and
    does nothing; otherwise it has the effect of its route, and the response of
    the route carries the request's identifier and the quota that is left; an
    exception nothing handles becomes a 500 without either. *)
Theorem served_request w request n token rq t v :
  resting (obs w) t v → joint t v → path request ∉ _EXEMPT_PATHS →
  (redis_up (obs w) = true → request_ok rq (obs w) ∧ visits request n (obs w)) →
  performs impl obs (handle request token rq) w
    (served (obs w) request (Z.of_nat (S n)) token rq t v).
Proof using P Ook Hlock. apply served_performs. Qed.
End contract.

(** ** The first request of a visitor of the sample shop *)
Definition shop_visit : Request := mkRequest "/api/v1/orders" (Some "10.0.0.1") (Some "r-1").
Definition no_cors (_ : Request) : gmap string string := ∅.

Lemma shop_visit_counted : path shop_visit ∉ _EXEMPT_PATHS.
Proof.
  unfold _EXEMPT_PATHS. rewrite !not_elem_of_cons.
  repeat (split; [discriminate|]). apply not_elem_of_nil.
Qed.

Lemma served_request_witness :
  performs (sys_exec sample_oracle) id
    (handle (C := sample_crypto) default_settings default_service no_cors shop_visit shop_token sample_order)
    shop_world
    (served (C := sample_crypto) sample_oracle default_settings default_service no_cors shop_world
       shop_visit 1 shop_token sample_order shop_rows shop_inventory).
Proof.
  apply (served_request (C := sample_crypto) sample_oracle (sys_exec sample_oracle) id default_settings
           default_service sample_lock_usable no_cors shop_world shop_visit 0 shop_token sample_order
           shop_rows shop_inventory).
  - apply shop_rests.
  - apply shop_joint.
  - apply shop_visit_counted.
  - intros _. split; [apply sample_order_ok | reflexivity].
Defined.
