(* ===== verification/Visits.v ===== *)
(** * Requests that leave the tables alone

    Logging in, refreshing and logging out, the listings and the probes: what
    they read and what they write to Redis is the matter of [AuthCorrectness]
    and [Listings]; here, that through the whole application each of them is
    always answered, and that both databases, the bus and the mail box are as
    they were. *)
From S2P Require Import Prelude Effects Json Uuid Domain Orm OrmFacts Redis.
From S2P Require Import InventoryModels ApiModels Platform SessionRuns Kafka.
From S2P Require Import Pagination ApiRepositories ApiRuns.
From S2P Require Import InventorySpec InventoryService SystemSpec SystemRuns.
From S2P Require Import BookingCorrectness.
From S2P Require Import Security AuthService EventService BookingService Http.
From S2P Require Import HttpCorrectness AppCorrectness.

(** ** Reading programs *)

(** Operations that write no row and send nothing. *)
Definition reads_rows {B} (op : orm_op api_key api_row B) : bool :=
  match op with
  | Get _ _ | Select _ _ | Count _ _ | Attrs _ _ | Rollback _ | Execute _ => true
  | _ => false
  end.

Definition reads_only {B} (op : sys_op B) : bool :=
  match op with
  | ApiDb op => reads_rows op
  | RedisCmd _ | Now | Sleep _ | Uuid4 | Random53 | Gensalt => true
  | _ => false
  end.

Abbreviation reads := (ops (λ B (op : sys_op B), reads_only op = true)).

(** The world is the same, but for what a session has loaded, Redis, the clock
    and the draws. *)
Record aside (w w' : world) : Prop := {
  aside_rows : tbl (api_db w') = tbl (api_db w);
  aside_sessions : dom (sessions (api_db w')) = dom (sessions (api_db w));
  aside_inventory : inv_db w' = inv_db w;
  aside_log : kafka_log w' = kafka_log w;
  aside_mails : mails w' = mails w;
}.

#[global] Instance aside_preorder : PreOrder aside.
Proof. split; [done|]. intros w1 w2 w3 [] []. split; congruence. Qed.

Lemma put_session_dom s ss ss' (db : database api_key api_row) :
  sessions db !! s = Some ss → dom (sessions (put_session s ss' db)) = dom (sessions db).
Proof.
  intros Hs. simpl. rewrite dom_insert_L. apply elem_of_dom_2 in Hs. set_solver.
Qed.

Section reads.
Context (o : oracle).

Lemma api_reads {B} (op : orm_op api_key api_row B) now db :
  reads_rows op = true →
  ∃ b db', orm_exec (api_scan o) now B op db = Some (b, db')
    ∧ tbl db' = tbl db ∧ dom (sessions db') = dom (sessions db).
Proof using.
  destruct op as [|s|s k|s q|s p|s k f|s k|s r|s k|s|s|s|s]; try done; intros _; simpl;
    try (by eexists _, _);
    (destruct (sessions db !! s) as [ss|] eqn:Hs; [|by eexists _, _]).
  - destruct (objs ss !! k) as [[l c]|]; [by eexists _, _|].
    destruct (apply_overlay _ _ !! k); eexists _, _; (split; [done|]); [|done].
    split; [done | by eapply put_session_dom].
  - eexists _, _. split; [done|]. split; [done | by eapply (put_session_dom s)].
  - by eexists _, _.
  - eexists _, _. split; [done|]. split; [done | by eapply put_session_dom].
Qed.

Lemma reads_step {B} (op : sys_op B) w :
  reads_only op = true → ∃ b w', sys_exec o B op w = Some (b, w') ∧ aside w w'.
Proof using.
  destruct op as [| |B op| | | | | | | | |]; try done; simpl; intros Hr; try (by eexists _, _).
  - destruct (api_reads op (clock w) (api_db w) Hr) as (b & db' & -> & Ht & Hd).
    eexists _, _. split; [done|]. by split.
  - destruct (redis_exec _ _ _ _ _) as [b r]. by eexists _, _.
Qed.

Lemma run_reads {A} (p : M A) w :
  reads p → ∃ r w', run (sys_exec o) p w = Some (r, w') ∧ aside w w'.
Proof using.
  intros Hp. revert w. induction Hp as [a|e|B op k Ha _ IH]; intros w; [by eexists _, _..|].
  destruct (reads_step op w Ha) as (b & w1 & Hop & Hw1).
  destruct (IH b w1) as (r & w' & Hrun & Hw'). exists r, w'. simpl. rewrite Hop.
  split; [done | by etrans].
Qed.
End reads.

(** ** Harmless programs *)
Definition harmless {A} (o : oracle) (p : M A) : Prop :=
  ∀ w t v, resting w t v →
    ∃ r w', run (sys_exec o) p w = Some (r, w') ∧ resting w' t v
      ∧ kafka_log w' = kafka_log w ∧ mails w' = mails w.

Section harmless.
Context (o : oracle).

Lemma reads_harmless {A} (p : M A) : reads p → harmless o p.
Proof using.
  intros Hp w t v (n & q & ni & qi & Ha & Hi).
  destruct (run_reads o p w Hp) as (r & w' & Hrun & [Ht Hd Hinv Hl Hm]).
  exists r, w'. split; [done|]. split; [|done]. rewrite Ha in Ht, Hd. simpl in Ht, Hd.
  destruct (api_db w') as [t' ss n' q'] eqn:Hdb. simpl in Ht, Hd. subst t'.
  rewrite dom_empty_L in Hd. apply dom_empty_inv_L in Hd as ->.
  exists n', q', ni, qi. split; [done|]. by rewrite Hinv.
Qed.

(** A session that only reads, closed again. *)
Lemma get_db_harmless {A} (body : nat → M A) : (∀ s, reads (body s)) → harmless o (get_db body).
Proof using.
  intros Hb w t v (n & q & ni & qi & Ha & Hi). unfold get_db. rewrite run_bind, run_trigger.
  cbn [sys_exec orm_exec]. rewrite Ha. cbn [tbl sessions next_sid n_queries]. cbv iota beta.
  set (w1 := set_api_db _ w). rewrite run_try_finally.
  destruct (run_reads o (try_except (body n) (λ e, api_rollback n ;; Raise e)) w1)
    as (r & w2 & Hrun & [Ht Hd Hinv Hl Hm]).
  { apply ops_try_except; [apply Hb|]. intros e. solve_ops. }
  rewrite Hrun, run_trigger. cbn [sys_exec orm_exec]. cbv iota beta.
  exists r, (set_api_db (with_sessions (api_db w2) (delete n (sessions (api_db w2)))) w2).
  split; [done|]. split; [|done].
  exists (next_sid (api_db w2)), (n_queries (api_db w2)), ni, qi. simpl in Ht, Hd. split.
  - unfold with_sessions. simpl. rewrite Ht. f_equal. apply dom_empty_inv_L.
    rewrite dom_delete_L, Hd, dom_insert_L. set_solver.
  - simpl. by rewrite Hinv.
Qed.

Lemma harmless_bind {A C} (p : M A) (f : A → M C) :
  harmless o p → (∀ a, harmless o (f a)) → harmless o (bind p f).
Proof using.
  intros Hp Hf w t v Hr. rewrite run_bind.
  destruct (Hp w t v Hr) as ([a|e] & w1 & -> & Hr1 & Hl1 & Hm1); [|by eexists _, _].
  destruct (Hf a w1 t v Hr1) as (r & w' & -> & Hr' & Hl' & Hm').
  exists r, w'. split; [done|]. split; [done|]. split; congruence.
Qed.

Lemma harmless_attempt {A} (p : M A) : harmless o p → harmless o (attempt p).
Proof using.
  intros Hp w t v Hr. rewrite run_attempt. destruct (Hp w t v Hr) as (r & w' & -> & H). by eexists _, _.
Qed.

Lemma harmless_try_except {A} (p : M A) hd :
  harmless o p → (∀ e, harmless o (hd e)) → harmless o (try_except p hd).
Proof using.
  intros Hp Hh. apply harmless_bind; [by apply harmless_attempt|].
  intros [a|e]; [apply reads_harmless; constructor | apply Hh].
Qed.
End harmless.

Ltac harmless_step :=
  match goal with
  | |- harmless _ (get_db _) => apply get_db_harmless; intros; solve_ops
  | |- harmless _ (match ?x with _ => _ end) => destruct x
  | |- harmless _ (bind _ _) => apply harmless_bind; [|intros]
  | |- harmless _ (attempt _) => apply harmless_attempt
  | |- harmless _ (try_except _ _) => apply harmless_try_except; [|intros]
  | |- harmless _ (call _) => apply reads_harmless; solve_ops
  | |- harmless _ (trigger _) => apply reads_harmless, ops_trigger
  | |- harmless _ (of_result _) => apply reads_harmless, ops_of_result
  | |- harmless _ (Ret _) => apply reads_harmless, ops_ret
  | |- harmless _ (Raise _) => apply reads_harmless, ops_raise
  | |- harmless _ ?p => let f := get_head p in progress unfold f
  end.
Ltac solve_harmless := repeat (first [assumption | harmless_step]); try done.

(** ** The requests *)
Inductive visit : Type :=
| PostLogin (username password : string)
| PostRefresh (refresh_token : string)
| PostLogout (refresh_token : string)
| SearchEvents (page page_size : Z) (q venue : option string)
| ListOrders (page page_size : Z)
| Liveness
| Readiness (started : bool).

Section visits.
Context `{C : Crypto} {Col : Collation}.
Variables (settings : Settings) (cors_headers : Request → gmap string string) (str_exn : exn → string).

(** The route of a visit that carries the access token [token]. *)
Definition visit_route (token : string) (v : visit) : M Response :=
  match v with
  | PostLogin username password => post_login settings username password
  | PostRefresh refresh_token => post_refresh settings refresh_token
  | PostLogout refresh_token => post_logout settings refresh_token
  | SearchEvents page page_size q venue => search_events page page_size q venue
  | ListOrders page page_size => Http.list_orders settings token page page_size
  | Liveness => liveness
  | Readiness started => readiness str_exn started
  end.

Definition receive (request : Request) (token : string) (v : visit) : M Response :=
  app cors_headers (rate_limit_per_minute settings) request (visit_route token v).

Lemma login_reads s username password : reads (AuthService.login settings s username password).
Proof using. solve_ops. Qed.

Lemma visit_route_harmless o token v : harmless o (visit_route token v).
Proof using.
  pose proof login_reads as Hl.
  destruct v; unfold visit_route, post_login, post_refresh, post_logout, search_events, Http.list_orders,
    liveness, readiness; solve_harmless.
Qed.

Lemma dispatch_harmless o request call_next :
  harmless o call_next → harmless o (dispatch (rate_limit_per_minute settings) request call_next).
Proof using. intros Hp. solve_harmless. Qed.

Lemma context_harmless o request call_next :
  harmless o call_next → harmless o (RequestContext.dispatch request (cors cors_headers request call_next)).
Proof using. intros Hp. solve_harmless. Qed.

Context {W : Type} (o : oracle) (impl : handler sys_op W) (obs : W → world).
Context `{P : !Platform (sys_exec o) impl obs}.

(** Whatever the state of Redis, the tokens and the parameters, the application
    answers a visit, and has then written no row, reserved no seat, announced
    nothing and mailed nobody; no session is left open. *)
Theorem visits_answered w t v request token vt :
  resting (obs w) t v →
  ∃ response w', run impl (receive request token vt) w = Some (Ok response, w')
    ∧ resting (obs w') t v
    ∧ kafka_log (obs w') = kafka_log (obs w) ∧ mails (obs w') = mails (obs w).
Proof using P.
  intros Hr.
  destruct (dispatch_harmless o request _ (context_harmless o request _ (visit_route_harmless o token vt))
    (obs w) t v Hr) as (r & w1 & Hrun & Hpost).
  assert (Happ : ∃ response, run (sys_exec o) (receive request token vt) (obs w) = Some (Ok response, w1)).
  { unfold receive, app, server_errors. rewrite run_try_except, Hrun. destruct r; by eexists. }
  destruct Happ as [response Happ].
  destruct (runs_to_doc (impl := impl) _ w _ _ Happ) as (w' & Hrun' & Hobs).
  exists response, w'. rewrite Hobs. by split.
Qed.
End visits.

(** A wrong password, given to the sample shop. *)
#[local] Existing Instance sample_crypto.
#[local] Existing Instance sample_collation.

Lemma visits_answered_witness :
  ∃ response w',
    run (sys_exec sample_oracle)
      (receive default_settings no_cors (λ _, "") shop_visit "" (PostLogin "ada@example.org" "a guess")) shop_world
    = Some (Ok response, w')
    ∧ resting w' shop_rows shop_inventory ∧ kafka_log w' = [] ∧ mails w' = [].
Proof.
  apply (visits_answered default_settings no_cors (λ _, "") sample_oracle (sys_exec sample_oracle) id
           shop_world shop_rows shop_inventory shop_visit "" (PostLogin "ada@example.org" "a guess")).
  apply shop_rests.
Defined.
