(* ===== verification/RateLimitConcurrency.v ===== *)
(** * The rate limiter under concurrency

    A client's requests handled at the same time, their commands to Redis
    interleaved in any way with each other's and with whatever else happens:
    within one window no more than the quota get through.  The routes are the
    application's; none of them names a counter of the limiter. *)
From S2P Require Import Prelude Effects Interleaving Json Uuid Domain Orm Redis.
From S2P Require Import InventoryModels ApiModels.
From S2P Require Import Platform Pagination ApiRepositories Locking InventoryService.
From S2P Require Import Security AuthService EventService BookingService.
From S2P Require Import Http RateLimitCorrectness HttpCorrectness AppCorrectness.
From S2P Require Import Visits.

Section quota.
Variables (o : oracle) (limit : Z) (identifier : string) (win : Z).

Definition counter : string := rate_key identifier win.
Definition starts : Z := win * window_length.
Definition ends : Z := (win + 1) * window_length.

(** The counter is left alone while time passes. *)
Definition untouched (w w' : world) : Prop :=
  redis w' !! counter = redis w !! counter ∧ clock w ≤ clock w'.

(** An operation of a request's handler. *)
Definition apart (B : Type) (op : sys_op B) : Prop :=
  ∀ w b w', sys_exec o B op w = Some (b, w') → untouched w w'.

(** An operation during which time does not run backwards. *)
Definition onward (B : Type) (op : sys_op B) : Prop :=
  ∀ w b w', sys_exec o B op w = Some (b, w') → clock w ≤ clock w'.

(** ** What a request knows of the counter *)

(** A request that has not been counted, has been counted as number [n], or has
    outlived the window. *)
Inductive turn := Fresh | Counted (n : Z) | Late.

(** The counter stands at [c], and lives to the end of the window. *)
Definition stands (c : Z) (w : world) : Prop :=
  ∃ ex, redis w !! counter = Some (RInt c, ex) ∧ from_option (λ e, ends ≤ e) True ex.

Definition in_order (w : world) : Prop :=
  starts ≤ clock w
  ∧ (clock w < ends →
     redis_get (clock w) (redis w) counter = None ∨ ∃ c, 1 ≤ c ∧ stands c w).

Definition knows (l : turn) (w : world) : Prop :=
  match l with
  | Fresh => True
  | Counted n => clock w < ends → ∃ c, 1 ≤ n ≤ c ∧ stands c w
  | Late => ends ≤ clock w
  end.

Definition distinct (l1 l2 : turn) : Prop :=
  match l1, l2 with Counted n, Counted m => n ≠ m | _, _ => True end.

Lemma distinct_sym l1 l2 : distinct l1 l2 → distinct l2 l1.
Proof using. destruct l1, l2; simpl; auto. Qed.

Lemma get_none_later w w' :
  untouched w w' → redis_get (clock w) (redis w) counter = None →
  redis_get (clock w') (redis w') counter = None.
Proof using.
  intros [Hk Hc]. unfold redis_get. rewrite Hk. destruct (redis w !! counter) as [[v ex]|]; [|done].
  destruct ex as [e|]; simpl; [|done]. destruct (Z.ltb_spec (clock w) e); [done|].
  by rewrite (proj2 (Z.ltb_ge _ _)) by lia.
Qed.

Lemma stands_later c w w' : untouched w w' → stands c w → stands c w'.
Proof using. intros [Hk _] (ex & H & He). exists ex. by rewrite Hk. Qed.

Lemma in_order_later w w' : untouched w w' → in_order w → in_order w'.
Proof using.
  intros Hu [Hs Hw]. pose proof Hu as [_ Hc]. split; [lia|]. intros He.
  destruct Hw as [Hn|(c & Hp & Hst)]; [lia|left|right].
  - by eapply get_none_later.
  - exists c. split; [done|]. by eapply stands_later.
Qed.

Lemma knows_later l w w' : untouched w w' → knows l w → knows l w'.
Proof using.
  intros Hu. pose proof Hu as [_ Hc]. destruct l as [|n|]; simpl; [done| |lia].
  intros H He. destruct H as (c & Hn & Hst); [lia|]. exists c. split; [done|]. by eapply stands_later.
Qed.

(** The end of the window has passed: nothing is claimed of the counter. *)
Lemma knows_over l w w' : ends ≤ clock w → clock w ≤ clock w' → knows l w → knows l w'.
Proof using. intros He Hc. destruct l; simpl; intros; lia. Qed.

Lemma stands_unique c c' w : stands c w → stands c' w → c = c'.
Proof using. intros (? & H & _) (? & H' & _). congruence. Qed.

Lemma stands_live c w : clock w < ends → stands c w →
  redis_get (clock w) (redis w) counter = Some (RInt c).
Proof using.
  intros He (ex & H & Hex). unfold redis_get. rewrite H. destruct ex as [e|]; simpl in *; [|done].
  by rewrite (proj2 (Z.ltb_lt _ _)) by lia.
Qed.

(** ** One request among others *)
Abbreviation wp := (Interleaving.wp (X:=exn) (sys_exec o) in_order knows distinct).

Lemma wp_apart {A} (p : M A) l : ops apart p → wp p l (λ _ l', l' = l).
Proof using.
  induction 1 as [a|e|B op k Hop _ IH]; simpl; [done..|].
  intros s b s' HJ Hl Hx. apply Hop in Hx. exists l. split_and!; [|by eapply knows_later| |apply IH].
  - by eapply in_order_later.
  - intros lo Hd Hlo. split; [done|]. by eapply knows_later.
Qed.

Lemma wp_late {A} (p : M A) : ops onward p → wp p Late (λ _ l', l' = Late).
Proof using.
  induction 1 as [a|e|B op k Hop _ IH]; simpl; [done..|].
  intros s b s' [HJ _] Hl Hx. apply Hop in Hx. exists Late. simpl. split_and!; [|lia| |apply IH].
  - split; [lia|]. lia.
  - intros lo Hd Hlo. split; [done|]. by eapply knows_over.
Qed.

Lemma apart_onward B op : apart B op → onward B op.
Proof using. intros H w b w' Hx. by apply H in Hx as [_ ?]. Qed.

Lemma onward_redis {B} (op : redis_op B) : onward _ (RedisCmd op).
Proof using.
  intros w b w' H. simpl in H. destruct (redis_exec _ _ _ _ _) as [b' r]. by injection H as <- <-.
Qed.

Lemma onward_now : onward _ Now.
Proof using. by intros w b w' [= <- <-]. Qed.

(** A command to Redis outside the window. *)
Lemma over_redis s s' l :
  starts ≤ clock s → ends ≤ clock s → clock s' = clock s →
  in_order s' ∧ guarantee knows distinct l Late s s'.
Proof using.
  intros Hs He Hc. split; [split; lia|]. intros lo _ Hlo. split; [by destruct lo|].
  eapply knows_over; [exact He|lia|exact Hlo].
Qed.

(** A new number, above those the others have. *)
Lemma counted_next s c r :
  starts ≤ clock s → clock s < ends → 1 ≤ c →
  (∀ c', stands c' s → c' < c) →
  stands c (set_redis r s) →
  in_order (set_redis r s) ∧ knows (Counted c) (set_redis r s)
  ∧ guarantee knows distinct Fresh (Counted c) s (set_redis r s).
Proof using.
  intros Hs He Hc Hlt Hst. split_and!.
  - split; [done|]. intros _. right. by exists c.
  - intros _. exists c. split; [lia|done].
  - intros lo _ Hlo. destruct lo as [|n|]; simpl in *; [done| |lia].
    destruct (Hlo He) as (c' & Hn & Hst'). apply Hlt in Hst'. split; [lia|]. intros _.
    exists c. split; [lia|done].
Qed.

(** Counting: the number is the request's own. *)
Lemma wp_incr Q :
  Q (Ok (Err RedisError)) Fresh →
  (∀ c l', l' = Counted c ∨ l' = Late → Q (Ok (Ok c)) l') →
  wp (trigger (RedisCmd (Incr counter))) Fresh Q.
Proof using.
  intros Herr Hok. apply wp_trigger. intros s b s' [Hs Hw] _ Hx. simpl in Hx.
  assert (Hsame : b = Err RedisError → s' = s → ∃ l', in_order s' ∧ knows l' s'
    ∧ guarantee knows distinct Fresh l' s s' ∧ Q (Ok b) l').
  { intros -> ->. exists Fresh. by split_and!. }
  destruct (redis_up s); [|injection Hx as <- <-; apply Hsame; [done|by destruct s]].
  destruct (Z.lt_ge_cases (clock s) ends) as [He|He].
  - destruct (Hw He) as [Hn|(c & Hc & Hst)].
    + rewrite Hn in Hx. injection Hx as <- <-. exists (Counted 1).
      assert (Hgo := counted_next s 1 (<[counter := (RInt 1, None)]> (redis s))).
      destruct Hgo as (? & ? & ?); [done..| | |].
      * intros c Hst. by rewrite (stands_live _ _ He Hst) in Hn.
      * exists None. simpl. by rewrite lookup_insert_eq.
      * split_and!; [done..|]. apply Hok. by left.
    + rewrite (stands_live _ _ He Hst) in Hx. injection Hx as <- <-. exists (Counted (c + 1)).
      destruct (counted_next s (c + 1)
        (<[counter := (RInt (c + 1), from_option snd None (redis s !! counter))]> (redis s)))
        as (? & ? & ?); [done|done|lia| | |].
      * intros c' Hst'. rewrite (stands_unique _ _ _ Hst' Hst). lia.
      * destruct Hst as (ex & Hk & Hex). exists ex. simpl. by rewrite lookup_insert_eq, Hk.
      * split_and!; [done..|]. apply Hok. by left.
  - destruct (redis_get (clock s) (redis s) counter) as [[?|n]|];
      injection Hx as <- <-; [apply Hsame; [done|by destruct s]| |];
      (edestruct (over_redis s) as [? ?]; [exact Hs|exact He| |exists Late; split_and!;
         [eassumption|exact He|eassumption|apply Hok; by right]]; done).
Qed.

(** The expiry a first request sets outlives the window. *)
Lemma wp_expire c l Q :
  l = Counted c ∨ l = Late → (∀ r, Q (Ok r) l) →
  wp (trigger (RedisCmd (Expire counter 60))) l Q.
Proof using.
  intros Hl HQ. apply wp_trigger. intros s b s' HJ Hk Hx. exists l.
  assert (Hu : in_order s' ∧ knows l s' ∧ guarantee knows distinct l l s s');
    [|by destruct Hu as (? & ? & ?); split_and!].
  simpl in Hx. destruct (redis_up s); [|injection Hx as <- <-].
  2: { replace (set_redis (redis s) s) with s by by destruct s. by split_and!. }
  destruct HJ as [Hs Hw]. destruct (Z.lt_ge_cases (clock s) ends) as [He|He].
  - destruct (Hw He) as [Hn|(c' & Hc & Hst)].
    + rewrite Hn in Hx. injection Hx as <- <-. replace (set_redis (redis s) s) with s by by destruct s.
      by split_and!.
    + rewrite (stands_live _ _ He Hst) in Hx. injection Hx as <- <-. set (s' := set_redis _ s).
      assert (Hst' : stands c' s').
      { exists (Some (clock s + 60 * second)). unfold s'. simpl. rewrite lookup_insert_eq. split; [done|].
        simpl. unfold starts, ends, window_length in *. lia. }
      assert (Hkn : ∀ lo, knows lo s → knows lo s').
      { intros [|n|]; simpl; [done| |done]. intros H _. destruct (H He) as (c2 & Hn & Hst2).
        rewrite (stands_unique _ _ _ Hst2 Hst) in Hn. by exists c'. }
      split_and!; [|by apply Hkn|intros lo ? ?; auto].
      split; [done|]. intros _. right. by exists c'.
  - assert (Hcl : clock s' = clock s) by (destruct (redis_get _ _ _); by injection Hx as <- <-).
    split_and!; [split; lia| |].
    + eapply knows_over; [exact He|lia|exact Hk].
    + intros lo Hd Hlo. split; [done|]. eapply knows_over; [exact He|lia|exact Hlo].
Qed.
(** What a request that is let through knows: its number is within the quota. *)
Definition post (r : result exn Response) (l : turn) : Prop :=
  match r with
  | Ok _ => admitted r = true → l = Late ∨ ∃ n, l = Counted n ∧ n ≤ limit
  | Err _ => True
  end.

Lemma onward_ops {A} (p : M A) : ops apart p → ops onward p.
Proof using. apply ops_mono, apart_onward. Qed.

Lemma onward_counting key : ops onward (count_request key).
Proof using. solve_ops; apply onward_redis. Qed.

Lemma onward_limited n call_next : ops apart call_next → ops onward (limited limit n call_next).
Proof using. intros Hc%onward_ops. unfold limited. solve_ops. Qed.

(** A request that has its number. *)
Lemma wp_limited n l call_next :
  l = Counted n ∨ l = Late → ops apart call_next → wp (limited limit n call_next) l post.
Proof using.
  intros Hl Hc. destruct Hl as [->| ->].
  - unfold limited. destruct (Z.ltb_spec limit n).
    + intros Had%bool_decide_eq_true. simpl in Had. rewrite lookup_singleton_ne in Had by done.
      by destruct Had.
    + apply wp_bind. eapply wp_mono; [|by apply wp_apart]. intros [r|e] l' ->; [|done].
      intros _. right. by exists n.
  - eapply wp_mono; [|by apply wp_late, onward_limited]. intros [r|e] l' ->; [|done]. by left.
Qed.

Lemma wp_count key call_next :
  key = counter → ops apart call_next →
  wp (current <- count_request key ;; limited limit current call_next) Fresh post.
Proof using.
  intros -> Hc. unfold count_request, call. apply wp_bind, wp_bind, wp_bind, wp_incr; [done|].
  intros c l Hl. cbn [of_result]. apply wp_bind.
  destruct (c =? 1); [|by apply wp_limited].
  apply wp_bind, wp_bind, (wp_expire c); [done|]. intros [b|e]; [|done]. by apply wp_limited.
Qed.

Lemma wp_dispatch request call_next :
  path request ∉ _EXEMPT_PATHS → identifier_of request = identifier → ops apart call_next →
  wp (dispatch limit request call_next) Fresh post.
Proof using.
  intros Hp Hid Hc. unfold dispatch. rewrite decide_False by done.
  apply wp_bind, wp_trigger. intros s b s' HJ _ [= <- <-].
  destruct (Z.lt_ge_cases (clock s) ends) as [He|He].
  - exists Fresh. split_and!; [done..|]. apply wp_count; [|done]. unfold counter. f_equal; [done|].
    destruct HJ as [Hs _]. unfold starts, ends, window_length, second in *. unfold window_of, second.
    symmetry. apply (Z.div_unique _ _ _ (clock s - win * 60000000)); lia.
  - exists Late. split_and!; [done|done|by intros lo|].
    eapply wp_mono; [|apply wp_late, ops_bind; [apply onward_counting|intros n; by apply onward_limited]].
    intros [r|e] l' ->; [|done]. by left.
Qed.

(** ** The routes *)

(** The operations of a route: they name other keys of Redis. *)
Definition elsewhere (B : Type) (op : sys_op B) : Prop :=
  match op with
  | RedisCmd op =>
      match op with
      | SetNxPx k _ _ | SetEx k _ _ | Del k | Incr k | Expire k _ => k ≠ counter
      | RGet _ | Ping => True
      | EvalScript script => ∀ now db, (script now db).2 !! counter = db !! counter
      end
  | Sleep us => 0 ≤ us
  | _ => True
  end.

Lemma redis_elsewhere {B} (op : redis_op B) now up db :
  elsewhere _ (RedisCmd op) → (redis_exec now up _ op db).2 !! counter = db !! counter.
Proof using.
  intros He. destruct op as [| | | | | | |script]; simpl in *; destruct up; try done;
    try (rewrite <- (He now db); by destruct (script now db));
    repeat case_match; simpl; by rewrite ?lookup_insert_ne, ?lookup_delete_ne by done.
Qed.

Lemma elsewhere_apart B op : elsewhere B op → apart B op.
Proof using.
  intros He w b w' Hx.
  destruct op as [B op|B op|B op| | | | | | | | |]; simpl in *;
    try (injection Hx as <- <-; split; simpl; [done|lia]).
  - destruct (orm_exec _ _ _ _ _) as [[? ?]|]; [|done]. injection Hx as <- <-. split; simpl; [done|lia].
  - destruct (orm_exec _ _ _ _ _) as [[? ?]|]; [|done]. injection Hx as <- <-. split; simpl; [done|lia].
  - destruct (redis_exec _ _ _ _ _) as [b' r] eqn:Hr. injection Hx as <- <-. split; simpl; [|lia].
    replace r with (redis_exec (clock w) (redis_up w) _ op (redis w)).2 by by rewrite Hr.
    by apply redis_elsewhere.
  - destruct (kafka_up w); injection Hx as <- <-; split; simpl; done || lia.
Qed.

Abbreviation strays := (ops elsewhere).

Lemma refresh_key_elsewhere jti key : refresh_key jti = Ok key → key ≠ counter.
Proof using. destruct jti; simpl; try done. by intros [= <-]. Qed.

Section routes.
Context `{Cr : Crypto} {Col : Collation}.
Variables (settings : Settings) (self : InventoryService) (str_exn : exn → string).
Hypothesis patient : 0 ≤ retry_delay_us (lock self).

Lemma with_key {A} jti (f : string → M A) :
  (∀ key, key ≠ counter → strays (f key)) → strays (key <- of_result (refresh_key jti) ;; f key).
Proof using. intros Hf. destruct jti; simpl; try constructor. by apply Hf. Qed.

Lemma try_acquire_strays resource token n :
  strays (try_acquire (lock self) (lock_key resource) token n).
Proof using patient. induction n; solve_ops. Qed.

Lemma release_strays resource token : strays (release_lock (lock_key resource) token).
Proof using.
  solve_ops. intros now db. unfold release_script.
  repeat case_match; simpl; by rewrite ?lookup_delete_ne by done.
Qed.

Lemma reserve_strays s e order q ttl max n :
  strays (InventoryRepository.reserve_attempts s e order q ttl max n).
Proof using. induction n; solve_ops. Qed.

#[local] Hint Resolve try_acquire_strays release_strays reserve_strays : ops.

Ltac solve_strays :=
  repeat (first [assumption | solve [eauto with ops] | apply with_key; intros | ops_step]); try done.

(** None of the routes touches the counter. *)
Lemma route_strays token rq : strays (route settings self token rq).
Proof using patient. destruct rq; unfold route; solve_strays. Qed.

Lemma visit_strays token v : strays (visit_route settings str_exn token v).
Proof using. destruct v; unfold visit_route; solve_strays. Qed.

Variable cors_headers : Request → gmap string string.

Lemma context_strays request p :
  strays p → strays (RequestContext.dispatch request (cors cors_headers request p)).
Proof using. intros Hp. solve_ops. Qed.

Lemma wp_app request p :
  path request ∉ _EXEMPT_PATHS → identifier_of request = identifier → strays p →
  wp (app cors_headers limit request p) Fresh post.
Proof using.
  intros Hp Hid Hs. unfold app, server_errors, try_except. apply wp_bind, wp_attempt.
  eapply wp_mono; [|apply wp_dispatch; [done..|]].
  - intros [r|e] l Hl; [exact Hl|]. intros Had%bool_decide_eq_true. simpl in Had.
    rewrite lookup_empty in Had. by destruct Had.
  - eapply ops_mono; [apply elsewhere_apart|]. by apply context_strays.
Qed.
End routes.
End quota.

(** ** Counting those let through *)

(** A request that has been answered, and not by the limiter. *)
Definition let_through (t : M Response) : bool :=
  match t with Ret r => admitted (Ok r) | _ => false end.

(** How many have been. *)
Definition answered (ts : list (M Response)) : nat :=
  length (filter (λ t, let_through t = true) ts).

Definition number (limit : Z) (l : turn) : option Z :=
  match l with Counted n => if bool_decide (n ≤ limit) then Some n else None | _ => None end.

(** Distinct numbers between 1 and the quota are no more than the quota. *)
Lemma numbers_bounded limit (ns : list Z) :
  0 ≤ limit → NoDup ns → Forall (λ n, 1 ≤ n ≤ limit) ns → Z.of_nat (length ns) ≤ limit.
Proof.
  intros Hl Hnd Hns. assert (Hsub : ns ⊆+ seqZ 1 limit).
  { apply NoDup_submseteq; [done|]. intros n Hn. rewrite Forall_forall in Hns.
    apply elem_of_seqZ. specialize (Hns n Hn). lia. }
  apply submseteq_length in Hsub. rewrite length_seqZ in Hsub. lia.
Qed.

Lemma numbers_distinct limit (ls : list turn) :
  (∀ i j li lj, i ≠ j → ls !! i = Some li → ls !! j = Some lj → distinct li lj) →
  NoDup (omap (number limit) ls).
Proof.
  induction ls as [|l ls IH]; intros Hd; simpl; [constructor|].
  assert (Htl : NoDup (omap (number limit) ls)).
  { apply IH. intros i j li lj Hij Hi Hj. apply (Hd (S i) (S j)); [lia|done..]. }
  destruct (number limit l) as [n|] eqn:Hn; [|done]. constructor; [|done].
  intros (l' & Hin & Hl')%list_elem_of_omap. apply list_elem_of_lookup_1 in Hin as [j Hj].
  specialize (Hd O (S j) l l' ltac:(lia) eq_refl Hj).
  destruct l as [|m|], l' as [|m'|]; simpl in *; try done. repeat case_bool_decide; congruence.
Qed.

Lemma let_through_numbered limit (ts : list (M Response)) (ls : list turn) :
  Forall2 (λ t l, let_through t = true → is_Some (number limit l)) ts ls →
  (answered ts ≤ length (omap (number limit) ls))%nat.
Proof.
  unfold answered. induction 1 as [|t l ts ls Ht _ IH]; [done|]. rewrite filter_cons.
  change (omap (number limit) (l :: ls))
    with (match number limit l with
          | Some n => n :: omap (number limit) ls
          | None => omap (number limit) ls
          end).
  case_decide as Hd; [destruct (Ht Hd) as [n ->]|destruct (number limit l)]; cbn [length]; lia.
Qed.

(** ** The requests of a window *)
Section window.
Context `{Cr : Crypto} {Col : Collation} {W : Type}.
Context (o : oracle) (impl : handler sys_op W) (obs : W → world).
Context `{P : !Platform (sys_exec o) impl obs}.
Variables (settings : Settings) (self : InventoryService).
Variables (cors_headers : Request → gmap string string) (str_exn : exn → string).
Hypothesis patient : 0 ≤ retry_delay_us (lock self).
Variables (identifier : string) (win : Z).

(** A request of the client, to any of the routes the limiter counts. *)
Definition of_client (t : M Response) : Prop :=
  ∃ request token,
    (path request ∉ _EXEMPT_PATHS) ∧ identifier_of request = identifier
    ∧ ((∃ rq, t = handle settings self cors_headers request token rq)
       ∨ (∃ v, t = receive settings cors_headers str_exn request token v)).

Abbreviation quota := (rate_limit_per_minute settings).

Lemma wp_of_client t :
  of_client t →
  Interleaving.wp (X:=exn) (sys_exec o) (in_order identifier win) (knows identifier win) distinct
    t Fresh (post quota).
Proof using patient.
  intros (request & token & Hp & Hid & [[rq ->]|[v ->]]); apply wp_app; try done.
  - by apply route_strays.
  - by apply visit_strays.
Qed.

(** C32. No more than the quota get through, however a client's requests
    interleave.  Any number of them, to any routes, handled at once, each
    operation of each at any moment, in a world that does anything but write
    their counter: while the window lasts at most [rate_limit_per_minute] of
    them are answered by their routes. *)
Theorem concurrent_quota ts ts' w w' :
  0 ≤ quota →
  window_of (clock (obs w)) = win →
  redis_get (clock (obs w)) (redis (obs w)) (counter identifier win) = None →
  Forall of_client ts →
  pool_steps impl (λ v v', untouched identifier win (obs v) (obs v')) (ts, w) (ts', w') →
  window_of (clock (obs w')) = win →
  Z.of_nat (answered ts') ≤ quota.
Proof using P patient.
  intros Hlim Hwin Hnone Hts Hsteps Hwin'. apply platform_steps in Hsteps.
  pose proof (window_bounds (clock (obs w))) as Hb. pose proof (window_bounds (clock (obs w'))) as Hb'.
  rewrite Hwin in Hb. rewrite Hwin' in Hb'.
  eapply (pool_ok_steps _ _ (in_order identifier win) (knows identifier win) distinct
            (in_order_later identifier win) (λ s s' l Hu, knows_later identifier win l s s' Hu)
            distinct_sym (post quota)) in Hsteps as (_ & ls & Hlen & Hthr & Hdis).
  2: { split; [split; [cbn [snd]; unfold starts; lia|by left]|]. exists ((λ _, Fresh) <$> ts).
       split; [by rewrite length_fmap|]. split.
       - intros i p l Hp Hl. apply list_lookup_fmap_Some in Hl as (t & -> & _). split; [done|].
         by apply wp_of_client, (Forall_lookup_1 _ _ _ _ Hts Hp).
       - intros i j li lj _ Hi Hj. by apply list_lookup_fmap_Some in Hi as (t & -> & _). }
  simpl in *. etrans; [apply inj_le, let_through_numbered|].
  - apply Forall2_same_length_lookup_2; [done|]. intros i t l Ht Hl Hthru.
    destruct (Hthr i t l Ht Hl) as [Hk Hq]. destruct t as [r| |]; try done.
    destruct (Hq Hthru) as [->|(n & -> & Hn)]; [simpl in Hk; unfold ends in Hk; lia|].
    simpl. rewrite bool_decide_eq_true_2 by done. by eexists.
  - apply numbers_bounded; [done|by apply numbers_distinct|].
    apply Forall_forall. intros n (l & Hin & Hl)%list_elem_of_omap.
    apply list_elem_of_lookup_1 in Hin as [i Hi].
    destruct (lookup_lt_is_Some_2 ts' i) as [t Ht]; [rewrite <- Hlen; by eapply lookup_lt_Some|].
    destruct (Hthr i t l Ht Hi) as [Hk _]. destruct l as [|m|]; simpl in *; try done.
    case_bool_decide; [|done]. injection Hl as <-. destruct Hk as (c & Hc & _); [unfold ends; lia|lia].
Qed.
End window.

(** ** Two searches at once, and a quota of one *)
#[local] Existing Instance sample_crypto.
#[local] Existing Instance sample_collation.

Definition strict_settings : Settings := mkSettings "secret" "HS256" 30 7 1.

Definition searching : M Response :=
  receive strict_settings no_cors (λ _, "") shop_visit "" (SearchEvents 1 20 None None).

Definition rush : list (M Response) * world :=
  run_rounds (sys_exec sample_oracle) 30 ([searching; searching], initial_world).

Example rush_answers :
  (λ t : M Response, match t with Ret r => Some (status_code r) | _ => None end) <$> rush.1
  = [Some 200; Some 429].
Proof. vm_compute. reflexivity. Qed.

Lemma concurrent_quota_witness :
  (0 ≤ rate_limit_per_minute strict_settings) ∧ Z.of_nat (answered rush.1) ≤ 1.
Proof.
  split; [done|].
  apply (concurrent_quota sample_oracle (sys_exec sample_oracle) id strict_settings default_service
           no_cors (λ _, "") ltac:(done) "10.0.0.1" 0 [searching; searching] rush.1 initial_world rush.2).
  - done.
  - reflexivity.
  - reflexivity.
  - assert (Hs : of_client strict_settings default_service no_cors (λ _, "") "10.0.0.1" searching).
    { exists shop_visit, "". split; [apply shop_visit_counted|]. split; [reflexivity|].
      right. by eexists. }
    by repeat constructor.
  - rewrite <- surjective_pairing. apply run_rounds_sound.
  - vm_compute. reflexivity.
Defined.
