(* ===== verification/SystemCalls.v ===== *)
(** * The programs make the steps

    Every request to the application, every message handled by a worker and
    every sweep, started at rest, comes to rest again, and what it did to the two
    databases is a step of [SystemHistory] or nothing; so what holds of
    histories holds of every run of the programs. *)
From S2P Require Import Prelude Effects Json Uuid Domain Orm OrmFacts Redis.
From S2P Require Import InventoryModels ApiModels Platform SessionRuns Kafka.
From S2P Require Import Pagination.
From S2P Require Import ApiRepositories ApiRuns InventoryRepository Locking.
From S2P Require Import InventoryService.
From S2P Require Import InventoryServicer InventorySpec InventoryInvariant.
From S2P Require Import InventoryRefinement InventoryCorrectness RpcCorrectness.
From S2P Require Import Security.
From S2P Require Import AuthService EventService BookingService SystemSpec SystemRuns.
From S2P Require Import BookingCorrectness Workers WorkerCorrectness BusCorrectness.
From S2P Require Import EventCorrectness AuthCorrectness SystemHistory Http.
From S2P Require Import RateLimitCorrectness HttpCorrectness AppCorrectness Visits.

(** A request (of those that may change the tables, or of the others), a
    message or a sweep. *)
Inductive call : Type :=
| Serve (request : Request) (token : string) (rq : api_request)
| Visit (request : Request) (token : string) (vt : visit)
| PaymentProcessed (id : uuid) (now : Z) (order : uuid) (success : bool) (ref : string)
| ReservationExpired (id : uuid) (now : Z) (rid : string) (order e : uuid)
| EventCreated (id : uuid) (now : Z) (e : uuid) (seats : Z)
| EventUpdated (id : uuid) (now : Z) (e : uuid) (seats : Z)
| SweepExpired.

Section calls.
Context `{C : Crypto} {Col : Collation}.
Variables (settings : Settings) (self : InventoryService).
Variables (cors_headers : Request → gmap string string) (str_exn : exn → string).
Hypothesis Hlock : lock_usable (lock self).

(** The call, its answer set aside. *)
Definition program (c : call) : M unit :=
  match c with
  | Serve request token rq => _ <- handle settings self cors_headers request token rq ;; Ret tt
  | Visit request token vt =>
      _ <- receive settings cors_headers str_exn request token vt ;; Ret tt
  | PaymentProcessed id now oid ok ref =>
      OrderStatusWorker._handle_message
        (wrap id EventType.PAYMENT_PROCESSED now (PaymentProcessedPayload oid ok ref))
  | ReservationExpired id now rid oid e =>
      OrderStatusWorker._handle_message
        (wrap id EventType.RESERVATION_EXPIRED now (ReservationExpiredPayload rid oid e))
  | EventCreated id now e n =>
      EventSync._handle_message self (wrap id EventType.EVENT_CREATED now (EventCreatedPayload e n))
  | EventUpdated id now e n =>
      EventSync._handle_message self (wrap id EventType.EVENT_UPDATED now (EventUpdatedPayload e n))
  | SweepExpired => _ <- Service.sweep_expired_reservations ;; Ret tt
  end.

(** What the schemas and the payloads guarantee, the limiter's counter in good
    order, and the event's lock free. *)
Definition call_ok (c : call) (w : world) : Prop :=
  match c with
  | Serve request _ rq =>
      (path request ∉ _EXEMPT_PATHS)
      ∧ (redis_up w = true → request_ok rq w ∧ ∃ n, visits request n w)
  | EventCreated _ _ _ n => 0 ≤ n
  | EventUpdated _ _ e _ => lock_free e w
  | _ => True
  end.

(** The call does not cut an event's seats below those in use. *)
Definition keeps_seats (c : call) (v : table) : Prop :=
  match c with EventUpdated _ _ e n => keeps_capacity (OpAdjust e n) v | _ => True end.

Context {W : Type} (o : oracle) (impl : handler sys_op W) (obs : W → world).
Context `{P : !Platform (sys_exec o) impl obs} `{Ook : !OracleOk o}.
(** Whether the seats may be cut. *)
Variable cuts : bool.

(** [p], started in [w] over the databases [s], makes steps. *)
Definition makes_steps (p : M unit) (w : W) (s : state) : Prop :=
  ∃ r w' s', run impl p w = Some (r, w') ∧ resting (obs w') s'.1 s'.2 ∧ rtc (step o cuts) s s'.

Lemma performs_makes_steps {A} (p : M A) w s out :
  performs impl obs p w out → rtc (step o cuts) s (after out) →
  makes_steps (_ <- p ;; Ret tt) w s.
Proof using.
  intros (w' & Hrun & Hrest & _) Hstep. unfold makes_steps. rewrite run_bind, Hrun.
  destruct (answer out) as [a|e]; [exists (Ok tt), w', (after out) | exists (Err e), w', (after out)];
    (split; [done|]); by split.
Qed.

Lemma message_makes_step (p : M unit) w s out :
  performs impl obs p w out → step o cuts s (after out) → makes_steps p w s.
Proof using.
  intros (w' & Hrun & Hrest & _) Hstep. exists (answer out), w', (after out).
  split; [done|]. split; [exact Hrest | by apply rtc_once].
Qed.

(** What a route does is a step, or nothing. *)
Lemma gate_steps {A} who t v (out : User → effect A) :
  (∀ u, rtc (step o cuts) (t, v) (after (out u))) → rtc (step o cuts) (t, v) (after (gate who t v out)).
Proof using. intros Ho. by destruct who; [apply Ho|]. Qed.

Lemma routed_steps w token rq t v :
  rtc (step o cuts) (t, v) (after (routed settings self o w token rq t v)).
Proof using.
  destruct rq; try apply rtc_refl; cbn [routed];
    try match goal with |- context [gate ?who t v ?out] =>
      refine (gate_steps who t v out _); intros u end;
    try apply rtc_refl; apply (rtc_once (R := step o cuts)).
  - apply step_register.
  - apply step_create.
  - apply step_update.
  - apply step_delete.
  - apply step_book.
  - apply step_cancel.
Qed.

Lemma served_steps w request n token rq t v :
  rtc (step o cuts) (t, v) (after (served o settings self cors_headers w request n token rq t v)).
Proof using.
  unfold served. destruct (negb (redis_up w)); [apply rtc_refl|].
  destruct (_ <? _); [apply rtc_refl | apply routed_steps].
Qed.

Lemma request_makes_steps w t v request token rq :
  resting (obs w) t v → joint t v → call_ok (Serve request token rq) (obs w) →
  makes_steps (program (Serve request token rq)) w (t, v).
Proof using P Ook Hlock.
  intros Hr Hj [Hp Hup].
  assert (Hn : ∃ n, redis_up (obs w) = true → request_ok rq (obs w) ∧ visits request n (obs w)).
  { destruct (redis_up (obs w)); [|by exists 0%nat].
    destruct (Hup eq_refl) as (Hok & n & Hv). by exists n. }
  destruct Hn as [n Hn]. eapply performs_makes_steps; [|apply served_steps].
  by apply (served_performs o impl obs settings self Hlock cors_headers w request n).
Qed.

Lemma sweep_makes_steps w t v :
  resting (obs w) t v → joint t v → makes_steps (program SweepExpired) w (t, v).
Proof using P Ook.
  intros Hr Hj. destruct Hr as (n & q & ni & qi & Ha & Hi).
  pose proof (quiet_self v ni qi _ Hi) as Hw.
  destruct (sweep_serves o impl obs w v ni qi (obs w) (joint_inv _ _ Hj) Hw)
    as (ni' & qi' & d & w1 & Hrun & Hobs).
  unfold makes_steps, program. rewrite run_bind, Hrun.
  match type of Hrun with _ = Some ((Spec.sweep ?now ?ids v).1, _) =>
    exists (done (Spec.sweep now ids v).1), w1, (t, (Spec.sweep now ids v).2);
    split; [by destruct (Spec.sweep now ids v).1|];
    split; [rewrite Hobs; by exists n, q, ni', qi' | apply rtc_once, step_sweep]
  end.
Qed.

(** Every call, started at rest, makes steps. *)
Lemma call_makes_steps c w t v :
  resting (obs w) t v → joint t v → call_ok c (obs w) → cuts = true ∨ keeps_seats c v →
  makes_steps (program c) w (t, v).
Proof using P Ook Hlock.
  intros Hr Hj Hok Hkeep. pose proof (joint_api _ _ Hj) as Hw. pose proof (joint_inv _ _ Hj) as Hc.
  destruct c; cbn [call_ok keeps_seats] in Hok, Hkeep; try (by apply sweep_makes_steps).
  - by apply request_makes_steps.
  - destruct (visits_answered settings cors_headers str_exn o impl obs w t v request token vt Hr)
      as (response & w' & Hrun & Hr' & _).
    exists (Ok tt), w', (t, v). cbn [program]. rewrite run_bind, Hrun.
    split; [done|]. split; [done | apply rtc_refl].
  - cbn [program]. rewrite payment_message.
    eapply message_makes_step; [|apply step_paid].
    apply (worker_performs o impl obs _ w t v); [done | by apply paid_joint |].
    by apply settle_payment_effects.
  - cbn [program]. rewrite expiry_message.
    eapply message_makes_step; [|apply step_expired].
    apply (worker_performs o impl obs _ w t v); [done | by apply expired_joint |].
    by apply settle_expiry_effects.
  - cbn [program]. rewrite created_message.
    eapply message_makes_step; [by apply (created_performs o impl obs)|].
    by apply (step_initialize o cuts e seats t v).
  - cbn [program]. rewrite updated_message.
    eapply message_makes_step; [by apply (updated_performs o impl obs self)|].
    by apply (step_adjust o cuts e seats t v).
Qed.

(** ** Runs of the system *)

(** A call, or anything else (the clock, the network, the broker, Redis) moving
    between two calls as it likes. *)
Inductive turn : W * state → W * state → Prop :=
| turn_world w w' s : resting (obs w') s.1 s.2 → turn (w, s) (w', s)
| turn_call c w s r w' s' :
    call_ok c (obs w) → cuts = true ∨ keeps_seats c s.2 →
    run impl (program c) w = Some (r, w') → resting (obs w') s'.1 s'.2 → turn (w, s) (w', s').

(** The databases at rest and in order. *)
Definition started (ws : W * state) : Prop :=
  resting (obs ws.1) ws.2.1 ws.2.2 ∧ joint ws.2.1 ws.2.2 ∧ capacity_respected ws.2.2.

(** What the system comes to from there. *)
Definition history (ws : W * state) : Prop := ∃ ws0, started ws0 ∧ rtc turn ws0 ws.

Lemma resting_unique w t v t' v' : resting w t v → resting w t' v' → t = t' ∧ v = v'.
Proof using.
  intros (n & q & ni & qi & Ha & Hi) (n' & q' & ni' & qi' & Ha' & Hi').
  rewrite Ha in Ha'. rewrite Hi in Hi'. by simplify_eq.
Qed.

Lemma turn_steps ws ws' :
  turn ws ws' → resting (obs ws.1) ws.2.1 ws.2.2 → joint ws.2.1 ws.2.2 →
  resting (obs ws'.1) ws'.2.1 ws'.2.2 ∧ rtc (step o cuts) ws.2 ws'.2.
Proof using P Ook Hlock.
  intros [w w' s Hr|c w s r w' s' Hok Hk Hrun Hr'] Hr0 Hj; [done|]. split; [done|].
  destruct (call_makes_steps c w s.1 s.2 Hr0 Hj Hok Hk) as (r1 & w1 & s1 & Hrun1 & Hr1 & Hs).
  cbn [fst snd] in *. rewrite Hrun in Hrun1. injection Hrun1 as <- <-.
  destruct (resting_unique _ _ _ _ _ Hr' Hr1) as [Ht Hv].
  destruct s, s', s1. simpl in *. by subst.
Qed.

Lemma turns_steps ws ws' :
  rtc turn ws ws' → resting (obs ws.1) ws.2.1 ws.2.2 → reachable o cuts ws.2 →
  resting (obs ws'.1) ws'.2.1 ws'.2.2 ∧ rtc (step o cuts) ws.2 ws'.2.
Proof using P Ook Hlock.
  induction 1 as [ws|ws ws1 ws' Ht _ IH]; intros Hr Hre; [done|].
  destruct (turn_steps ws ws1 Ht Hr (reachable_joint o cuts _ Hre)) as [Hr1 Hs1].
  destruct (IH Hr1 (reachable_rtc o cuts _ _ Hre Hs1)) as [Hr' Hs'].
  split; [done | by etrans].
Qed.

(** The databases of a history are at rest, in a reachable state. *)
Lemma history_reachable ws :
  history ws → resting (obs ws.1) ws.2.1 ws.2.2 ∧ reachable o cuts ws.2.
Proof using P Ook Hlock.
  intros (ws0 & (Hr & Hj & Hc) & Hts).
  assert (Hre : reachable o cuts ws0.2) by (destruct ws0 as [w0 [t0 v0]]; by apply reachable_start).
  destruct (turns_steps ws0 ws Hts Hr Hre) as [Hr' Hs]. split; [done | by eapply reachable_rtc].
Qed.

(** C6. The programs refine the transition system: the databases of every run
    of requests, messages and sweeps are a state reachable in it, so its
    invariants hold of them; and in every such run any call terminates and
    leaves the databases at rest, so the run can go on. *)
Theorem runs_are_histories w s :
  history (w, s) →
  reachable o cuts s
  ∧ ∀ c, call_ok c (obs w) → cuts = true ∨ keeps_seats c s.2 →
      ∃ r w' s', run impl (program c) w = Some (r, w') ∧ turn (w, s) (w', s').
Proof using P Ook Hlock.
  intros [Hr Hre]%history_reachable. split; [done|]. intros c Hok Hk.
  destruct (call_makes_steps c w s.1 s.2 Hr (reachable_joint o cuts _ Hre) Hok Hk)
    as (r & w' & s' & Hrun & Hr' & _).
  exists r, w', s'. split; [done|]. by eapply turn_call.
Qed.

(** C7. In every run, whatever was lost, repeated or late: every order names a
    reservation of its own, of its event and its size, and the counters of
    every event are the seats its reservations hold. *)
Theorem system_invariant w t v : history (w, (t, v)) → databases_agree t v.
Proof using P Ook Hlock. intros [_ Hre]%history_reachable. by eapply reachable_agree. Qed.

(** C9. Orders are never lost or rewritten: in any run an order keeps
    everything but its status, which only moves from PENDING to CONFIRMED,
    CANCELLED or EXPIRED and from CONFIRMED to CANCELLED. *)
Theorem order_lifecycle ws ws' :
  history ws → rtc turn ws ws' → orders_move ws.2.1 ws'.2.1.
Proof using P Ook Hlock.
  intros [Hr Hre]%history_reachable Hts. destruct (turns_steps ws ws' Hts Hr Hre) as [_ Hs].
  by apply (steps_move_orders o cuts).
Qed.
End calls.

(** C8. No event is oversold in any run in which no organizer cuts the seats of
    an event below those in use: the seats of its PENDING and CONFIRMED
    reservations never exceed its capacity. *)
Theorem system_never_oversold `{C : Crypto} {Col : Collation} settings self cors_headers str_exn {W : Type}
    (o : oracle) (impl : handler sys_op W) (obs : W → world) `{P : !Platform (sys_exec o) impl obs}
    `{Ook : !OracleOk o} w t v e i :
  lock_usable (lock self) →
  history settings self cors_headers str_exn impl obs false (w, (t, v)) → inv_of v e = Some i →
  seats_held e ReservationStatus.PENDING v + seats_held e ReservationStatus.CONFIRMED v
  ≤ total_capacity i.
Proof.
  intros Hlock Hh Hi. eapply history_reachable in Hh as [_ Hre]; [|done..].
  by eapply reachable_not_oversold.
Qed.

(** ** A run of the sample shop *)
#[local] Existing Instance sample_crypto.
#[local] Existing Instance sample_collation.

Definition shop_history : bool → world * state → Prop :=
  history default_settings default_service no_cors (λ _, "") (sys_exec sample_oracle) id.
Definition shop_turn : bool → world * state → world * state → Prop :=
  turn default_settings default_service no_cors (λ _, "") (sys_exec sample_oracle) id.

Lemma shop_in_order cuts : shop_history cuts (shop_world, (shop_rows, shop_inventory)).
Proof.
  eexists. split; [|apply rtc_refl]. split; [apply shop_rests|]. split; [apply shop_joint|].
  apply operations_capacity; [apply empty_consistent | vm_compute; by split |].
  intros e i. unfold inv_of. by rewrite lookup_empty.
Qed.

(** A visitor's booking. *)
Definition shop_sale : effect Response :=
  served sample_oracle default_settings default_service no_cors shop_world shop_visit 1 shop_token
    sample_order shop_rows shop_inventory.

Lemma shop_sale_turn cuts :
  ∃ w', shop_turn cuts (shop_world, (shop_rows, shop_inventory)) (w', after shop_sale).
Proof.
  destruct (served_performs sample_oracle (sys_exec sample_oracle) id default_settings default_service
    sample_lock_usable no_cors shop_world shop_visit 0 shop_token sample_order shop_rows shop_inventory)
    as (w' & Hrun & Hrest & _).
  - apply shop_rests.
  - apply shop_joint.
  - apply shop_visit_counted.
  - intros _. split; [apply sample_order_ok | reflexivity].
  - exists w'. apply (turn_call _ _ _ _ _ _ _ (Serve shop_visit shop_token sample_order) _ _
      (match answer shop_sale with Ok _ => Ok tt | Err e => Err e end)).
    + split; [apply shop_visit_counted|]. intros _. split; [apply sample_order_ok | by exists 0%nat].
    + by right.
    + unfold program. rewrite run_bind, Hrun. change (served _ _ _ _ _ _ _ _ _ _ _) with shop_sale.
      by destruct (answer shop_sale).
    + exact Hrest.
Qed.

Lemma shop_sale_history cuts : ∃ w', shop_history cuts (w', after shop_sale).
Proof.
  destruct (shop_sale_turn cuts) as [w' Ht]. exists w'.
  destruct (shop_in_order cuts) as (ws & Hs & Hts). exists ws. split; [done|].
  by eapply rtc_r.
Qed.

Lemma runs_are_histories_witness :
  reachable sample_oracle true (shop_rows, shop_inventory)
  ∧ ∀ c, call_ok c shop_world → true = true ∨ keeps_seats c shop_inventory →
      ∃ r w' s', run (sys_exec sample_oracle) (program default_settings default_service no_cors (λ _, "") c)
                   shop_world = Some (r, w')
        ∧ shop_turn true (shop_world, (shop_rows, shop_inventory)) (w', s').
Proof.
  apply (runs_are_histories default_settings default_service no_cors (λ _, "") sample_lock_usable sample_oracle
           (sys_exec sample_oracle) id true shop_world (shop_rows, shop_inventory)).
  apply shop_in_order.
Defined.

Lemma system_invariant_witness : databases_agree (api_after shop_sale) (inv_after shop_sale).
Proof.
  destruct (shop_sale_history true) as [w' Hh].
  apply (system_invariant default_settings default_service no_cors (λ _, "") sample_lock_usable sample_oracle
           (sys_exec sample_oracle) id true w' _ _ Hh).
Defined.

Lemma order_lifecycle_witness : orders_move shop_rows (api_after shop_sale).
Proof.
  destruct (shop_sale_turn true) as [w' Ht].
  apply (order_lifecycle default_settings default_service no_cors (λ _, "") sample_lock_usable sample_oracle
           (sys_exec sample_oracle) id true (shop_world, (shop_rows, shop_inventory)) (w', after shop_sale)).
  - apply shop_in_order.
  - by apply rtc_once.
Defined.

Lemma system_never_oversold_witness :
  seats_held sample_event ReservationStatus.PENDING (inv_after shop_sale)
  + seats_held sample_event ReservationStatus.CONFIRMED (inv_after shop_sale) ≤ 10.
Proof.
  destruct (shop_sale_history false) as [w' Hh].
  apply (system_never_oversold default_settings default_service no_cors (λ _, "") sample_oracle
           (sys_exec sample_oracle) id w' (api_after shop_sale) (inv_after shop_sale) sample_event
           (mkEventInventory sample_event 10 3 0 2)).
  - apply sample_lock_usable.
  - exact Hh.
  - vm_compute. reflexivity.
Defined.
