(* ===== verification/ProcessCorrectness.v ===== *)
(** * Correctness of the processes

    A worker is its consumer's loop between the opening and the closing of its
    connections: it uses a connection only while it is open, it closes what its
    cleanup guards whatever its handlers raise, and a refused connection ends it
    before it reads a message, leaving open what was opened before the guard. *)
From S2P Require Import Prelude Effects Json Uuid Domain Orm Redis InventoryModels.
From S2P Require Import ApiModels.
From S2P Require Import Platform Kafka ApiRepositories InventoryRepository.
From S2P Require Import Locking InventoryService InventoryServicer Workers.
From S2P Require Import Processes.
From S2P Require Import Security AuthService EventService BookingService Http.
From S2P Require Import HttpCorrectness AppCorrectness Visits.

(** ** The connections a program uses *)
Abbreviation uses s := (ops (λ B (op : sys_op B), usable s op = true)).

(** ** What the workers use *)
Section handlers.
Context (s : gset connection).

Lemma usable_in (c : connection) {B} (op : sys_op B) :
  needs op = Some c → c ∈ s → usable s op = true.
Proof using. intros Hn Hs. unfold usable. rewrite Hn. by apply bool_decide_eq_true. Qed.

Lemma payment_uses m : KafkaProducer ∈ s → uses s (PaymentWorker._handle_message m).
Proof using. intros Hs. solve_ops. by eapply usable_in. Qed.

Lemma order_status_uses m :
  KafkaProducer ∈ s → GrpcChannel ∈ s → uses s (OrderStatusWorker._handle_message m).
Proof using. intros Hk Hg. solve_ops; by eapply usable_in. Qed.

Lemma notification_uses m : uses s (NotificationWorker._handle_message m).
Proof using. solve_ops. Qed.

Lemma try_acquire_uses l key token k : RedisPool ∈ s → uses s (try_acquire l key token k).
Proof using.
  intros Hr. induction k as [|k IH]; cbn [try_acquire]; [constructor|]. solve_ops. by eapply usable_in.
Qed.

Lemma event_sync_uses service m : RedisPool ∈ s → uses s (EventSync._handle_message service m).
Proof using.
  intros Hr. pose proof (λ l key token k, try_acquire_uses l key token k Hr) as Hacq.
  solve_ops; by eapply usable_in.
Qed.

Lemma reaper_uses interval turns : KafkaProducer ∈ s → uses s (Reaper.loop interval turns).
Proof using.
  intros Hk. induction turns as [|turns IH]; cbn [Reaper.loop]; [constructor|].
  solve_ops; by eapply usable_in.
Qed.

Lemma consume_uses client handler stopping fuel ps :
  (∀ m, uses s (handler m)) → uses s (consume client handler stopping fuel ps).
Proof using.
  intros Hh. revert ps. induction fuel as [|fuel IH]; intros ps; simpl; [constructor|].
  destruct (next_message client ps) as [[m ps']|]; [|constructor].
  destruct (stopping _); [constructor|]. apply ops_bind; [|intros; apply IH].
  unfold _process. apply ops_bind; [|intros []; constructor].
  apply ops_attempt, ops_bind; [apply Hh | intros; apply ops_of_result].
Qed.
End handlers.

(** ** Lives of the processes *)
Section lives.
Context {W : Type} (h : handler sys_op W) (refusal : connection → option exn).
Abbreviation run_process := (run (proc_exec h refusal)).

(** What a program comes to, in a process that holds the connections [s]. *)
Definition within {A} (s : gset connection) (out : option (result exn A * W))
    : option (result exn A * process W) :=
  match out with Some (r, w) => Some (r, Process w s false) | None => None end.

Lemma run_lift {A} (p : M A) w s :
  uses s p → run_process (lift p) (Process w s false) = within s (run h p w).
Proof using.
  intros Hp. revert w. induction Hp as [a|e|B op k Ha _ IH]; intros w; [done..|]. simpl.
  destruct (h B op w) as [[b w']|]; [|done]. rewrite Ha. apply IH.
Qed.

Lemma run_connect c w s m :
  run_process (connect c) (Process w s m)
  = Some match refusal c with
         | Some e => (Err e, Process w s m)
         | None => (Ok tt, Process w ({[c]} ∪ s) m)
         end.
Proof using. unfold connect. simpl. by destruct (refusal c). Qed.

Lemma run_disconnect c w s m :
  run_process (disconnect c) (Process w s m) = Some (Ok tt, Process w (s ∖ {[c]}) m).
Proof using. done. Qed.

(** Connections closed in any order are closed. *)
Lemma run_guarded {A} (p : P A) (cleanup : P unit) w s s' out :
  run_process p (Process w s false) = within s out →
  (∀ w', run_process cleanup (Process w' s false) = Some (Ok tt, Process w' s' false)) →
  run_process (try_finally p cleanup) (Process w s false) = within s' out.
Proof using.
  intros Hp Hc. rewrite run_try_finally, Hp. destruct out as [[r w']|]; [|done]. simpl. by rewrite Hc.
Qed.

Lemma run_opened {A} c (p : P A) w s out :
  refusal c = None → run_process p (Process w ({[c]} ∪ s) false) = within s out →
  run_process (connect c ;; p) (Process w s false) = within s out.
Proof using. intros Hc Hp. by rewrite run_bind, run_connect, Hc. Qed.

(** What starting the connections [cs] one after the other comes to, in a process
    that holds [held], before it goes on as [k] says: the first that is refused
    ends it, with what it held by then still open. *)
Fixpoint opening {A} (held : gset connection) (cs : list connection) (w : W)
    (k : option (result exn A * process W)) : option (result exn A * process W) :=
  match cs with
  | [] => k
  | c :: cs =>
      match refusal c with
      | Some e => Some (Err e, Process w held false)
      | None => opening ({[c]} ∪ held) cs w k
      end
  end.

(** [loop], behind a connection that may be refused. *)
Definition behind {A} (guarded : option connection) (w : W) (loop : option (result exn A * W))
    : option (result exn A * W) :=
  match guarded ≫= refusal with Some e => Some (Err e, w) | None => loop end.

Lemma run_opening {A} c (p : P A) held cs w k :
  run_process p (Process w ({[c]} ∪ held) false) = opening ({[c]} ∪ held) cs w k →
  run_process (connect c ;; p) (Process w held false) = opening held (c :: cs) w k.
Proof using. intros Hp. rewrite run_bind, run_connect. simpl. by destruct (refusal c). Qed.

Section workers.
Variables (client : AIOKafkaConsumer) (stopping : list nat → bool) (fuel : nat).
Variable ps : list partition.

(** The consumer's loop, as the environment runs it, once it is connected. *)
Definition loop_of (c : BaseKafkaConsumer) (w : W) : option (result exn (list partition) * W) :=
  behind (Some KafkaConsumer) w (run h (consume client (on_message c) stopping fuel ps) w).

Lemma consumer_run_closes c w s :
  KafkaConsumer ∉ s → (∀ m, uses ({[KafkaConsumer]} ∪ s) (on_message c m)) →
  run_process (consumer_run c client stopping fuel ps) (Process w s false) = within s (loop_of c w).
Proof using.
  intros Hs Hu. unfold consumer_run, loop_of, behind. rewrite run_bind, run_connect. simpl.
  destruct (refusal KafkaConsumer); [done|]. eapply run_guarded.
  - by apply run_lift, consume_uses.
  - intros w'. rewrite run_disconnect. do 3 f_equal; set_solver.
Qed.

Lemma payment_worker_closes w :
  run_process (run_payment_worker client stopping fuel ps) (Process w ∅ false)
  = opening ∅ [KafkaProducer] w (within ∅ (loop_of PaymentWorker.consumer w)).
Proof using.
  apply run_opening. cbn [opening]. eapply run_guarded.
  - apply consumer_run_closes; [set_solver|]. intros m. apply payment_uses. set_solver.
  - intros w'. unfold KafkaEventProducer.stop. rewrite run_disconnect. do 3 f_equal; set_solver.
Qed.

Lemma order_status_worker_closes w :
  run_process (run_order_status_worker client stopping fuel ps) (Process w ∅ false)
  = opening ∅ [GrpcChannel; KafkaProducer] w (within ∅ (loop_of OrderStatusWorker.consumer w)).
Proof using.
  apply run_opening, run_opening. cbn [opening]. eapply run_guarded.
  - apply consumer_run_closes; [set_solver|]. intros m. apply order_status_uses; set_solver.
  - intros w'. rewrite run_bind. unfold KafkaEventProducer.stop, InventoryClient.stop.
    rewrite !run_disconnect. do 3 f_equal; set_solver.
Qed.

Lemma notification_worker_closes w s :
  KafkaConsumer ∉ s →
  run_process (run_notification_worker client stopping fuel ps) (Process w s false)
  = within s (loop_of NotificationWorker.consumer w).
Proof using. intros Hs. apply consumer_run_closes; [done|]. intros m. apply notification_uses. Qed.

Lemma event_sync_closes service w :
  run_process (run_event_sync_consumer client stopping fuel ps service) (Process w {[RedisPool]} false)
  = within {[RedisPool]} (loop_of (EventSync.consumer service) w).
Proof using. apply consumer_run_closes; [set_solver|]. intros m. apply event_sync_uses. set_solver. Qed.
End workers.

Lemma reaper_closes interval turns w s :
  KafkaProducer ∉ s →
  run_process (run_reservation_reaper interval turns) (Process w s false)
  = opening s [KafkaProducer] w (within s (run h (Reaper.loop interval turns) w)).
Proof using.
  intros Hs. apply run_opening. cbn [opening]. eapply run_guarded.
  - apply run_lift, reaper_uses. set_solver.
  - intros w'. unfold KafkaEventProducer.stop. rewrite run_disconnect. do 3 f_equal; set_solver.
Qed.

(** *** The servers *)
Lemma lifespan_closes {A} (requests : M A) w :
  uses ({[GrpcChannel]} ∪ ({[KafkaProducer]} ∪ ({[RedisPool]} ∪ ∅))) requests →
  run_process (lifespan (lift requests)) (Process w ∅ false)
  = opening ∅ [RedisPool; KafkaProducer; GrpcChannel] w (within ∅ (run h requests w)).
Proof using.
  intros Hu. apply run_opening, run_opening, run_opening. cbn [opening]. eapply run_guarded.
  - by apply run_lift.
  - intros w'. unfold InventoryClient.stop, KafkaEventProducer.stop.
    rewrite !run_bind, run_disconnect. cbv iota beta. rewrite run_bind, run_disconnect. cbv iota beta.
    rewrite run_bind, run_disconnect. cbv iota beta. rewrite run_disconnect. do 3 f_equal; set_solver.
Qed.

Lemma serve_closes {A} (calls : M A) w :
  (∀ c, refusal c = None) → uses ({[GrpcServer]} ∪ ({[RedisPool]} ∪ ∅)) calls →
  run_process (serve (lift calls)) (Process w ∅ false)
  = within ∅ (match run h calls w with Some (_, w') => Some (Ok tt, w') | None => None end).
Proof using.
  intros Hopen Hu. unfold serve. rewrite run_bind, run_connect, Hopen, run_bind, run_connect, Hopen.
  rewrite run_bind, run_attempt, run_lift by done. destruct (run h calls w) as [[r w']|]; [|done].
  cbn [within]. rewrite run_bind, run_disconnect. cbv iota beta. rewrite run_disconnect.
  do 3 f_equal; set_solver.
Qed.

Lemma inventory_worker_main_closes {A} (tasks : P A) w out :
  (∀ c, refusal c = None) →
  run_process tasks (Process w ({[RedisPool]} ∪ ∅) false) = within ({[RedisPool]} ∪ ∅) out →
  run_process (inventory_worker_main tasks) (Process w ∅ false) = within ∅ out.
Proof using.
  intros Hopen Ht. apply run_opened; [done|]. eapply run_guarded; [exact Ht|].
  intros w'. rewrite run_disconnect. do 3 f_equal; set_solver.
Qed.
End lives.

(** The services built from one set of settings differ in nothing but the
    delay of the lock's retries, which the workers do not read. *)
Lemma services_agree st :
  lock_retry_delay_us st = retry_delay_us default_lock ↔ worker_service st = server_service st.
Proof.
  unfold worker_service, server_service. split; [by intros -> |]. intros H. by injection H.
Qed.

Lemma default_services : server_service default_inventory_settings = default_service
  ∧ worker_service default_inventory_settings = default_service.
Proof. done. Qed.

(** *** Requests *)
Section requests.
Context `{C : Crypto} {Col : Collation}.
Variables (settings : Settings) (self : InventoryService).
Variables (cors_headers : Request → gmap string string) (str_exn : exn → string).
Context (s : gset connection) (Hr : RedisPool ∈ s) (Hk : KafkaProducer ∈ s) (Hg : GrpcChannel ∈ s).

Lemma reserve_attempts_uses n e ord q ttl m k : uses s (reserve_attempts n e ord q ttl m k).
Proof using. induction k as [|k IH]; cbn [reserve_attempts]; solve_ops. Qed.

Lemma reserve_seats_uses e ord q : uses s (Client.reserve_seats self e ord q).
Proof using Hr Hg.
  pose proof (λ l key token k, try_acquire_uses s l key token k Hr) as Hacq.
  pose proof reserve_attempts_uses as Hatt.
  solve_ops; by eapply usable_in.
Qed.

Lemma route_uses token rq : uses s (route settings self token rq).
Proof using Hr Hk Hg.
  pose proof reserve_seats_uses as Hres.
  destruct rq; solve_ops; by eapply usable_in.
Qed.

Lemma handle_uses request token rq :
  uses s (handle settings self cors_headers request token rq).
Proof using Hr Hk Hg.
  unfold handle. pose proof (route_uses token rq) as Hroute.
  generalize dependent (route settings self token rq). intros p Hp. solve_ops; by eapply usable_in.
Qed.

Lemma visit_route_uses token vt : uses s (visit_route settings str_exn token vt).
Proof using Hr. destruct vt; solve_ops; by eapply usable_in. Qed.

Lemma receive_uses request token vt :
  uses s (receive settings cors_headers str_exn request token vt).
Proof using Hr.
  unfold receive. pose proof (visit_route_uses token vt) as Hroute.
  generalize dependent (visit_route settings str_exn token vt). intros p Hp.
  solve_ops; by eapply usable_in.
Qed.
End requests.

(** ** What the processes promise *)
Section contract.
Context `{C : Crypto} {Col : Collation}.
Context {W : Type} (h : handler sys_op W) (refusal : connection → option exn).
Variables (settings : Settings) (service : InventoryService).
Variables (cors_headers : Request → gmap string string) (str_exn : exn → string).
Variables (client : AIOKafkaConsumer) (stopping : list nat → bool) (fuel : nat).
Variable ps : list partition.

(** The requests that reach the application while it is up. *)
Definition requests (rqs : list (Request * string * (api_request + visit))) : M (list Response) :=
  for_each (λ '(request, token, rq),
    match rq with
    | inl rq => handle settings service cors_headers request token rq
    | inr vt => receive settings cors_headers str_exn request token vt
    end) rqs.

(** [program], started with the connections [s], opens [unguarded] one after the
    other, then [guarded], if it has one, behind its cleanup; it comes to what
    [loop] comes to, holds [s] again, and has used no connection that was not
    open. *)
Definition closes {A} (program : P A) (s : gset connection) (unguarded : list connection)
    (guarded : option connection) (loop : M A) : Prop :=
  ∀ w, run (proc_exec h refusal) program (Process w s false)
       = opening refusal s unguarded w (within s (behind refusal guarded w (run h loop w))).

End contract.

(** ** The payment worker on a message *)
#[local] Existing Instance sample_crypto.
#[local] Existing Instance sample_collation.

(** One partition, whose commits are accepted. *)
Definition one_partition : AIOKafkaConsumer :=
  {| next_partition _ := Some 0%nat; commit_error _ := None |}.

