(* ===== verification/Messages.v ===== *)
(** * What the messages say

    A message on the bus is a claim about the databases: this event has so many
    seats; this order was made, paid, confirmed, cancelled; this reservation
    expired.  What a message declares when it is published, word by word, and
    that every operation announces only what it has done; what is left of that
    while orders move on, which no step of [SystemHistory] makes false; likewise
    for the e-mails. *)
From S2P Require Import Prelude Effects Json Uuid Domain Orm OrmFacts Redis.
From S2P Require Import InventoryModels ApiModels Platform SessionRuns Kafka.
From S2P Require Import Pagination.
From S2P Require Import ApiRepositories ApiRuns InventoryRepository Locking.
From S2P Require Import InventoryService.
From S2P Require Import InventoryServicer InventorySpec InventoryInvariant.
From S2P Require Import InventoryRefinement InventoryCorrectness RpcCorrectness.
From S2P Require Import Security.
From S2P Require Import AuthService EventService BookingService SystemSpec SystemRuns.
From S2P Require Import BookingCorrectness Workers WorkerCorrectness BusCorrectness.
From S2P Require Import EventCorrectness AuthCorrectness SystemHistory Http.
From S2P Require Import RateLimitCorrectness HttpCorrectness AppCorrectness.

(** ** True messages *)

(** What a message says when it is published: the row it was made from is the
    one that is stored, the event with its seats, the order with its status, the
    reservation just expired. *)
Inductive declares (t : rows) (v : table) : announcement → Prop :=
| declares_created e n :
    event_of t (event_id e) = Some e → total_seats e = Some n → 0 ≤ n →
    declares t v (event_created e)
| declares_updated e n :
    event_of t (event_id e) = Some e → total_seats e = Some n → 0 ≤ n →
    declares t v (event_updated e)
| declares_ordered x :
    order_of t (order_id x) = Some x → order_status x = OrderStatus.PENDING →
    declares t v (order_created x)
| declares_ticket x :
    order_of t (order_id x) = Some x → order_status x = OrderStatus.CONFIRMED →
    declares t v (ticket_issued x)
| declares_cancelled x :
    order_of t (order_id x) = Some x → order_status x = OrderStatus.CANCELLED →
    declares t v (order_cancelled x)
| declares_expired r :
    res_of v (res_id r) = Some r → status r = ReservationStatus.EXPIRED →
    declares t v (expiry_announcement r).

(** What lasts of it.  A message about an order carries the order as it was; [y]
    is the order as it is, the same but for its status. *)
Inductive tells (t : rows) (v : table) : announcement → Prop :=
| tells_created e : 0 ≤ default 0 (total_seats e) → tells t v (event_created e)
| tells_updated e : 0 ≤ default 0 (total_seats e) → tells t v (event_updated e)
| tells_ordered x y :
    order_of t (order_id x) = Some y → same_order x y → tells t v (order_created x)
| tells_paid oid success ref y :
    order_of t oid = Some y → tells t v (payment_done oid success ref)
| tells_ticket x y :
    order_of t (order_id x) = Some y → same_order x y →
    may_become OrderStatus.CONFIRMED (order_status y) → tells t v (ticket_issued x)
| tells_cancelled x y :
    order_of t (order_id x) = Some y → same_order x y →
    order_status y = OrderStatus.CANCELLED → tells t v (order_cancelled x)
| tells_expired r :
    res_of v (res_id r) = Some r → status r = ReservationStatus.EXPIRED →
    tells t v (expiry_announcement r).

Lemma declares_tells t v m : declares t v m → tells t v m.
Proof.
  intros [e n _ Hn Hp|e n _ Hn Hp|x Hx _|x Hx Hst|x Hx Hst|r Hr Hst].
  - apply tells_created. by rewrite Hn.
  - apply tells_updated. by rewrite Hn.
  - by eapply tells_ordered; [exact Hx|split_and!].
  - eapply tells_ticket; [exact Hx|by split_and!|]. by rewrite Hst.
  - by eapply tells_cancelled; [exact Hx|split_and!|].
  - by apply tells_expired.
Qed.

(** An e-mail to the user of an order that was confirmed, or cancelled. *)
Definition mail_true (t : rows) (m : mail) : Prop :=
  ∃ x u, order_of t (mail_order m) = Some x ∧ user_of t (order_user_id x) = Some u
    ∧ mail_to m = email u
    ∧ ((mail_subject m = "Your tickets are confirmed!"
        ∧ may_become OrderStatus.CONFIRMED (order_status x))
       ∨ (mail_subject m = "Your order was cancelled" ∧ order_status x = OrderStatus.CANCELLED)).

(** ** Truth lasts *)

(** An expired reservation stays as it is. *)
Definition expired_kept (v v' : table) : Prop :=
  ∀ id r, res_of v id = Some r → status r = ReservationStatus.EXPIRED → res_of v' id = Some r.

Definition users_kept (t t' : rows) : Prop :=
  ∀ id u, user_of t id = Some u → user_of t' id = Some u.

(** What moves the databases without making a true message false. *)
Record truth_kept (s s' : state) : Prop := {
  keeps_orders : orders_move s.1 s'.1;
  keeps_users : users_kept s.1 s'.1;
  keeps_expired : expired_kept s.2 s'.2;
}.

Lemma same_order_refl x : same_order x x.
Proof. by split_and!. Qed.

Lemma same_order_trans x y z : same_order x y → same_order y z → same_order x z.
Proof. unfold same_order. intros. destruct_and!. split_and!; congruence. Qed.

Lemma truth_kept_refl s : truth_kept s s.
Proof. split; [by apply orders_still | by intros ?? | by intros ???]. Qed.

Lemma truth_kept_trans s1 s2 s3 : truth_kept s1 s2 → truth_kept s2 s3 → truth_kept s1 s3.
Proof.
  intros [Ho1 Hu1 He1] [Ho2 Hu2 He2]. split.
  - by eapply orders_move_trans.
  - intros id u Hu. auto.
  - intros id r Hr Hst. auto.
Qed.

Lemma tells_kept t v t' v' m : truth_kept (t, v) (t', v') → tells t v m → tells t' v' m.
Proof.
  intros [Ho Hu He] Hm. cbn [fst snd] in *.
  destruct Hm as [e|e|x y Hy Hs|oid ok ref y Hy|x y Hy Hs Hst|x y Hy Hs Hst|r Hr Hst];
    try (destruct (Ho _ _ Hy) as (z & Hz & Hyz & Hmove)).
  - by constructor.
  - by constructor.
  - econstructor; [exact Hz | by eapply same_order_trans].
  - by econstructor.
  - econstructor; [exact Hz | by eapply same_order_trans | by eapply may_become_trans].
  - econstructor; [exact Hz | by eapply same_order_trans |].
    rewrite Hst in Hmove. by destruct (order_status z).
  - constructor; [by apply He | done].
Qed.

Lemma mail_true_kept t v t' v' m : truth_kept (t, v) (t', v') → mail_true t m → mail_true t' m.
Proof.
  intros [Ho Hu _] (x & u & Hx & Hus & Hto & Hsub). cbn [fst snd] in *.
  destruct (Ho _ _ Hx) as (y & Hy & Hxy & Hmove). exists y, u.
  split; [done|]. split; [apply Hu; destruct Hxy as (_ & -> & _); done|]. split; [done|].
  destruct Hsub as [[Hs Hc]|[Hs Hc]]; [left|right]; (split; [done|]).
  - by eapply may_become_trans.
  - rewrite Hc in Hmove. by destruct (order_status y).
Qed.

(** *** Reservations *)
Section reservations.
Implicit Types v : table.

Lemma expired_kept_refl v : expired_kept v v.
Proof. by intros id r. Qed.

Lemma expired_kept_trans v1 v2 v3 : expired_kept v1 v2 → expired_kept v2 v3 → expired_kept v1 v3.
Proof. intros H1 H2 id r Hr Hst. auto. Qed.

(** Writing a counter, or another reservation, leaves it alone. *)
Lemma expired_kept_write v r v' :
  (∀ x y, r = RRes x → res_of v (res_id x) = Some y → status y ≠ ReservationStatus.EXPIRED) →
  write_row r v = Ok v' → expired_kept v v'.
Proof.
  intros Hr Hw id y Hy Hst. apply write_row_Ok in Hw as [_ ->]. unfold res_of.
  destruct r as [i|x]; simpl; [by rewrite lookup_insert_ne|].
  rewrite lookup_insert_ne; [done|]. intros [= <-]. by eapply Hr.
Qed.

Lemma expired_kept_counter v i v' : write_row (RInv i) v = Ok v' → expired_kept v v'.
Proof. by apply expired_kept_write. Qed.

Lemma transition_expired_kept now st f r r' v v' :
  res_of v (res_id r) = Some r → status r ≠ ReservationStatus.EXPIRED →
  Spec.transition now st f r v = Ok (r', v') → expired_kept v v'.
Proof.
  intros Hr Hst (v1 & Hv1 & (v2 & Hv2 & Hv')%then_Ok)%then_Ok. injection Hv' as _ <-.
  assert (Hsame : ∀ id, res_of v1 id = res_of v id).
  { intros id. destruct (inv_of v _) as [i|]; [|by simplify_eq].
    apply write_row_Ok in Hv1 as [_ ->]. unfold res_of. simpl. by rewrite lookup_insert_ne. }
  apply (expired_kept_trans v v1); [by intros id y Hy _; rewrite Hsame|].
  eapply expired_kept_write; [|exact Hv2]. intros x y [= <-]. simpl. rewrite Hsame. congruence.
Qed.

Lemma confirm_expired_kept now id v : consistent v → expired_kept v (Spec.confirm now id v).2.
Proof.
  intros Hc. unfold Spec.confirm. destruct (res_of v id) as [r|] eqn:Hr; [|apply expired_kept_refl].
  case_decide as Hst; [apply expired_kept_refl|].
  destruct (reservation_row_ok v Hc id r Hr) as [_ <-].
  destruct (Spec.transition _ _ _ _ _) as [[r' v']|err] eqn:Ht; [|apply expired_kept_refl].
  refine (transition_expired_kept _ _ _ _ _ _ _ Hr _ Ht). congruence.
Qed.

Lemma release_expired_kept now id ex v : consistent v → expired_kept v (Spec.release now id ex v).2.
Proof.
  intros Hc. unfold Spec.release. destruct (res_of v id) as [r|] eqn:Hr; [|apply expired_kept_refl].
  case_decide as Hst; [apply expired_kept_refl|].
  destruct (reservation_row_ok v Hc id r Hr) as [_ <-].
  destruct (Spec.transition _ _ _ _ _) as [[r' v']|err] eqn:Ht; [|apply expired_kept_refl].
  refine (transition_expired_kept _ _ _ _ _ _ _ Hr _ Ht). intros Heq. apply Hst. by rewrite Heq.
Qed.

Lemma reserve_expired_kept now id e ord q ttl k v :
  expired_kept v (Spec.reserve now id e ord q ttl k v).2.
Proof.
  unfold Spec.reserve. destruct (q <=? 0); [apply expired_kept_refl|].
  case_decide; [apply expired_kept_refl|].
  destruct (inv_of v e) as [i|]; [|apply expired_kept_refl].
  destruct (available i <? q); [apply expired_kept_refl|].
  destruct (Spec.book _ _ _ _ _ _ _ _) as [[r v']|err] eqn:Hb; [|apply expired_kept_refl].
  apply then_Ok in Hb as (v1 & Hv1 & (v2 & Hv2 & Hv')%then_Ok). injection Hv' as _ <-.
  apply (expired_kept_trans v v1); [by eapply expired_kept_counter|].
  destruct (inv_check_row _); [done|]. destruct (v !! KRes id) eqn:Hid; [done|].
  injection Hv2 as <-. intros id' x Hx _. unfold res_of. cbn [committed snd]. rewrite lookup_insert_ne; [exact Hx|].
  intros [= <-]. apply write_row_Ok in Hv1 as [_ ->]. unfold res_of in Hx.
  rewrite lookup_insert_ne in Hx by done. by rewrite Hid in Hx.
Qed.

Lemma initialize_expired_kept e n v : expired_kept v (Spec.initialize e n v).2.
Proof.
  unfold Spec.initialize. destruct (inv_of v e); [apply expired_kept_refl|].
  destruct (write_row _ v) as [v'|err] eqn:Hw; [|apply expired_kept_refl].
  by eapply expired_kept_counter.
Qed.

Lemma adjust_expired_kept e n v : expired_kept v (Spec.adjust e n v).2.
Proof.
  unfold Spec.adjust. destruct (inv_of v e); [|apply expired_kept_refl].
  case_decide; [apply expired_kept_refl|].
  destruct (write_row _ v) as [v'|err] eqn:Hw; [|apply expired_kept_refl].
  by eapply expired_kept_counter.
Qed.

Lemma release_all_expired_kept now ids v xs v' :
  consistent v → Spec.release_all now ids v = Ok (xs, v') → expired_kept v v'.
Proof.
  revert v xs v'. induction ids as [|id ids IH]; intros v xs v' Hc H; simpl in H.
  { injection H as _ <-. apply expired_kept_refl. }
  pose proof (release_expired_kept now id true v Hc) as Hk.
  pose proof (release_keeps v Hc now id true) as [Hc1 _].
  destruct (Spec.release now id true v) as [r v1]. cbn [fst snd] in *.
  apply then_Ok in H as (x & _ & ([ys v2] & Hall & Hv')%then_Ok). injection Hv' as _ <-.
  eapply expired_kept_trans; [exact Hk | by eapply IH].
Qed.

Lemma sweep_expired_kept now ids v : consistent v → expired_kept v (Spec.sweep now ids v).2.
Proof.
  intros Hc. unfold Spec.sweep.
  destruct (Spec.release_all now ids v) as [[xs v']|err] eqn:Hall; [|apply expired_kept_refl].
  by eapply release_all_expired_kept.
Qed.

(** Releasing a PENDING reservation as expired: that row and no other one. *)
Lemma release_expires now id v r x v1 :
  consistent v → res_of v id = Some r → status r = ReservationStatus.PENDING →
  Spec.release now id true v = (Ok x, v1) →
  res_of v1 id = Some x ∧ res_id x = id ∧ status x = ReservationStatus.EXPIRED
  ∧ ∀ id', id' ≠ id → res_of v1 id' = res_of v id'.
Proof.
  intros Hc Hr Hst. unfold Spec.release. rewrite Hr, decide_False by (intros [? ?]; congruence).
  destruct (reservation_row_ok v Hc id r Hr) as [_ Hid].
  destruct (Spec.transition _ _ _ _ _) as [[x' v']|err] eqn:Ht; [|done]. intros [= -> ->].
  apply then_Ok in Ht as (v2 & Hv2 & (v3 & Hv3 & Hv')%then_Ok). injection Hv' as <- <-.
  apply write_row_Ok in Hv3 as [_ ->].
  assert (Hsame : ∀ id', res_of v2 id' = res_of v id').
  { intros id'. destruct (inv_of v _) as [i|]; [|by simplify_eq].
    apply write_row_Ok in Hv2 as [_ ->]. unfold res_of. simpl. by rewrite lookup_insert_ne. }
  split_and!; [|done|done|].
  - unfold res_of. simpl. by rewrite Hid, lookup_insert_eq.
  - intros id' Hne. unfold res_of in *. simpl. rewrite Hid, lookup_insert_ne by congruence. apply Hsame.
Qed.

(** What a sweep of PENDING reservations answers: expired ones. *)
Lemma release_all_expires now ids v xs v' :
  consistent v → NoDup ids → pending_all v ids → Spec.release_all now ids v = Ok (xs, v') →
  Forall (λ x, res_of v' (res_id x) = Some x ∧ status x = ReservationStatus.EXPIRED) xs.
Proof.
  revert v xs v'. induction ids as [|id ids IH]; intros v xs v' Hc Hnd Hp H; simpl in H.
  { injection H as <- _. constructor. }
  inversion_clear Hnd as [|? ? Hni Hnd']. inversion_clear Hp as [|? ? (r & Hr & Hst) Hp'].
  pose proof (release_keeps v Hc now id true) as [Hc1 _].
  destruct (Spec.release now id true v) as [y v1] eqn:Hrel. cbn [fst snd] in *.
  apply then_Ok in H as (z & -> & ([ys v2] & Hall & Hv')%then_Ok). injection Hv' as <- <-.
  destruct (release_expires now id v r z v1 Hc Hr Hst Hrel) as (Hx & Hid & Hex & Hsame).
  pose proof (release_all_expired_kept now ids v1 ys v2 Hc1 Hall) as Hk.
  constructor.
  - rewrite Hid. split; [by apply Hk | done].
  - apply (IH v1); try done. unfold pending_all in *. rewrite Forall_forall in Hp' |- *. intros id' Hin.
    rewrite Hsame by set_solver. by apply Hp'.
Qed.
End reservations.

(** *** Users *)
Lemma users_still t t' : (∀ id, user_of t' id = user_of t id) → users_kept t t'.
Proof. intros H id u Hu. by rewrite H. Qed.

Lemma user_of_order t id x id' : user_of (<[KOrder id := ROrder x]> t) id' = user_of t id'.
Proof. unfold user_of. by rewrite lookup_insert_ne. Qed.

Lemma user_of_event t id e id' : user_of (<[KEvent id := REvent e]> t) id' = user_of t id'.
Proof. unfold user_of. by rewrite lookup_insert_ne. Qed.

(** *** Steps *)
Section steps.
Context `{C : Crypto}.
Variable o : oracle.

Lemma registered_users t now id salt address pw full_name :
  users_kept t (registered t now id salt address pw full_name).2.
Proof using.
  unfold registered. destruct (user_with_email t address); [by apply users_still|].
  destruct (hashpw pw salt) as [h|e]; [|by apply users_still].
  destruct (insert_error t _) eqn:Hi; [by apply users_still|].
  apply insert_error_None in Hi as (_ & Hnew & _). intros id' u Hu.
  unfold user_of in *. cbn [snd]. change (key_of _) with (KUser id) in Hnew.
  rewrite lookup_insert_ne; [done|]. intros [= <-]. by rewrite Hnew in Hu.
Qed.

Lemma settle_users {A} kafka now st m x (f : Order → A) t remote :
  users_kept t (api_after (System.settle kafka now st m x f t remote)).
Proof using.
  destruct remote as [[r|err] v]; simpl; [|by apply users_still].
  match goal with |- context [announcing kafka ?a ?t' v ?m] =>
    destruct (announcing_after kafka a t' v m) as [-> _] end.
  apply users_still, user_of_order.
Qed.

Lemma book_users net kafka now self oid rid user e q key t v :
  users_kept t (api_after (System.book o net kafka now self oid rid user e q key t v)).
Proof using.
  unfold System.book. destruct (given key ≫= _); [by apply users_still|].
  unfold System.book_new. destruct (event_of t e); [|by apply users_still].
  destruct (System.remote _ _ _ _ _) as [[r|err] v']; [|by apply users_still].
  destruct (price_field _); [|by apply users_still].
  destruct (insert_error _ _); [by apply users_still|].
  match goal with |- context [announcing kafka ?a ?t' v' ?m] =>
    destruct (announcing_after kafka a t' v' m) as [-> _] end.
  apply users_still, user_of_order.
Qed.

Lemma step_users cuts s s' : step o cuts s s' → users_kept s.1 s'.1.
Proof using.
  intros Hs. destruct Hs; cbn [fst snd after]; try (by apply users_still).
  - apply registered_users.
  - apply users_still. unfold Events.create. destruct (insert_error _ _); [done|]. intros id'.
    match goal with |- context [announcing kafka ?a ?t' v ?m] =>
      destruct (announcing_after kafka a t' v m) as [-> _] end. apply user_of_event.
  - apply users_still. unfold Events.update. intros id'. repeat case_match; try done;
      try match goal with |- context [announcing kafka ?a ?t' v ?m] =>
        destruct (announcing_after kafka a t' v m) as [-> _] end; apply user_of_event.
  - apply users_still. unfold Events.delete. intros id'. repeat case_match; try done.
    cbn [api_after]. unfold user_of. by rewrite lookup_delete_ne.
  - apply book_users.
  - unfold System.cancel. destruct (order_for t id _) as [x|]; [|by apply users_still].
    case_goal; [by apply users_still | apply settle_users].
  - unfold System.paid. destruct (System.pending_order t id) as [x|]; [|by apply users_still].
    destruct success; apply settle_users.
  - unfold System.expired. destruct (System.pending_order t id); [|by apply users_still].
    apply users_still, user_of_order.
Qed.

Lemma remote_expired {A} net status v (spec : result exn A * table) :
  expired_kept v spec.2 → expired_kept v (System.remote o net status v spec).2.
Proof using. unfold System.remote. simpl. intros. by destruct (arrived net); [|apply expired_kept_refl]. Qed.

Lemma by_text_expired {A} (f : uuid → result exn A * table) text v :
  (∀ id, expired_kept v (f id).2) → expired_kept v (by_text f text v).2.
Proof using. unfold by_text. intros. by destruct (UUID text); [|apply expired_kept_refl]. Qed.

Lemma step_expired_kept cuts s s' : step o cuts s s' → joint s.1 s.2 → expired_kept s.2 s'.2.
Proof using.
  intros Hs. destruct Hs; cbn [fst snd after]; intros Hj; pose proof (joint_inv _ _ Hj) as Hc;
    try apply expired_kept_refl.
  - rewrite (proj1 (events_inventory kafka now t v)). apply expired_kept_refl.
  - rewrite (proj1 (proj2 (events_inventory kafka now t v))). apply expired_kept_refl.
  - rewrite (proj2 (proj2 (events_inventory false 0 t v))). apply expired_kept_refl.
  - unfold System.book. destruct (given key ≫= _); [apply expired_kept_refl|].
    unfold System.book_new. destruct (event_of t e); [|apply expired_kept_refl].
    pose proof (remote_expired net reserve_status v _ (reserve_expired_kept now rid e oid q
      (reservation_ttl_seconds self) (optimistic_retry_attempts self) v)) as Hk.
    destruct (System.remote _ _ _ _ _) as [[r|err] v']; [|exact Hk].
    destruct (price_field _); [|exact Hk]. destruct (insert_error _ _); [exact Hk|].
    match goal with |- context [announcing kafka ?a ?t' v' ?m] =>
      by destruct (announcing_after kafka a t' v' m) as [_ ->] end.
  - unfold System.cancel. destruct (order_for t id _) as [x|]; [|apply expired_kept_refl].
    case_goal; [apply expired_kept_refl|]. rewrite settle_inventory.
    apply remote_expired, by_text_expired. intros. by apply release_expired_kept.
  - unfold System.paid. destruct (System.pending_order t id) as [x|]; [|apply expired_kept_refl].
    destruct success; rewrite settle_inventory; apply remote_expired, by_text_expired; intros;
      [by apply confirm_expired_kept | by apply release_expired_kept].
  - unfold System.expired. destruct (System.pending_order t id); apply expired_kept_refl.
  - apply initialize_expired_kept.
  - apply adjust_expired_kept.
  - by apply sweep_expired_kept.
Qed.

Lemma step_truth cuts s s' : step o cuts s s' → joint s.1 s.2 → truth_kept s s'.
Proof using.
  intros Hs Hj. split; [by eapply step_orders | by eapply step_users | by eapply step_expired_kept].
Qed.

Lemma steps_truth cuts s s' : rtc (step o cuts) s s' → joint s.1 s.2 → truth_kept s s'.
Proof using.
  induction 1 as [s|s s1 s' Hstep _ IH]; intros Hj; [apply truth_kept_refl|].
  eapply truth_kept_trans; [by eapply step_truth | by eapply IH, step_joint].
Qed.
End steps.

(** ** Operations tell the truth *)
Definition truthful {A} (out : effect A) : Prop :=
  Forall (declares (api_after out) (inv_after out)) (sent out).

(** The bodies the declared schemas let through. *)
Definition schema_ok (rq : api_request) : Prop :=
  match rq with
  | CreateEvent d => event_create_valid d = true
  | UpdateEvent _ d => event_update_valid d = true
  | _ => True
  end.

Section effects.
Implicit Types (t : rows) (v : table).

Lemma announcing_truthful {A} kafka (a : A) t v m :
  declares t v m → truthful (announcing kafka a t v m).
Proof. intros Hm. unfold truthful, announcing. destruct kafka; [by constructor | constructor]. Qed.

Lemma silent_truthful {A} (r : result exn A) t v : truthful (Effect r t v []).
Proof. constructor. Qed.

Lemma with_answer_truthful {A B} (f : result exn A → result exn B) out :
  truthful out → truthful (with_answer f out).
Proof. done. Qed.

Lemma gate_truthful {A} who t v (out : User → effect A) :
  (∀ u, truthful (out u)) → truthful (gate who t v out).
Proof. intros Ho. destruct who; [apply Ho | apply silent_truthful]. Qed.

(** The order just written. *)
Lemma written_order t x : order_of (<[KOrder (order_id x) := ROrder x]> t) (order_id x) = Some x.
Proof. by rewrite order_of_insert, decide_True. Qed.

Lemma settle_truthful {A} kafka now st m x (f : Order → A) t remote :
  (∀ t v, let x' := with_status now st x in
     order_of t (order_id x') = Some x' → declares t v (m x')) →
  truthful (System.settle kafka now st m x f t remote).
Proof.
  intros Hm. destruct remote as [[r|err] v]; [|apply silent_truthful].
  apply announcing_truthful, Hm. exact (written_order t (with_status now st x)).
Qed.

Lemma book_truthful o net kafka now self oid rid user e q key t v :
  truthful (System.book o net kafka now self oid rid user e q key t v).
Proof.
  unfold System.book. destruct (given key ≫= _); [apply silent_truthful|].
  unfold System.book_new. destruct (event_of t e); [|apply silent_truthful].
  destruct (System.remote _ _ _ _ _) as [[r|err] v']; [|apply silent_truthful].
  destruct (price_field _); [|apply silent_truthful].
  destruct (insert_error _ _); [apply silent_truthful|].
  apply announcing_truthful, declares_ordered; [apply written_order | done].
Qed.

Lemma release_truthful {A} kafka now x (f : Order → A) t remote :
  truthful (System.settle kafka now OrderStatus.CANCELLED order_cancelled x f t remote).
Proof. apply settle_truthful. intros t' v x' Hx'. by apply declares_cancelled. Qed.

Lemma cancel_truthful o net kafka now id user t v :
  truthful (System.cancel o net kafka now id user t v).
Proof.
  unfold System.cancel. destruct (order_for t id _) as [x|]; [|apply silent_truthful].
  case_goal; [apply silent_truthful | apply release_truthful].
Qed.

Lemma paid_truthful o net kafka now id success t v :
  truthful (System.paid o net kafka now id success t v).
Proof.
  unfold System.paid. destruct (System.pending_order t id) as [x|]; [|apply silent_truthful].
  destruct success; [|apply release_truthful].
  apply settle_truthful. intros t' v' x' Hx'. by apply declares_ticket.
Qed.

Lemma expired_truthful now id t v : truthful (System.expired now id t v).
Proof. unfold System.expired. destruct (System.pending_order t id); apply silent_truthful. Qed.

(** The event just written. *)
Lemma written_event t e : event_of (<[KEvent (event_id e) := REvent e]> t) (event_id e) = Some e.
Proof. unfold event_of. by rewrite lookup_insert_eq. Qed.

Lemma create_truthful kafka now id d u t v :
  event_create_valid d = true → truthful (Events.create kafka now id d u t v).
Proof.
  intros Hd. unfold Events.create. destruct (insert_error _ _); [apply silent_truthful|].
  apply announcing_truthful. eapply declares_created; [apply (written_event t (Events.new_event now id d u))|done|].
  unfold event_create_valid in Hd. zify_bools. lia.
Qed.

Lemma modified_seats now e e' : total_seats (Events.modified now e e') = total_seats e'.
Proof. unfold Events.modified. case_decide; by subst. Qed.

Lemma patched_id now e d : event_id (Events.modified now e (apply_update d e)) = event_id e.
Proof. unfold Events.modified. by case_decide. Qed.

Lemma patched_seats d e :
  event_update_valid d = true → seats_changed d e = true →
  ∃ n, total_seats (apply_update d e) = Some n ∧ 0 ≤ n.
Proof.
  unfold event_update_valid, seats_changed, apply_update. simpl. intros Hd Hs.
  destruct (upd_total_seats d) as [[n|]|]; simpl in *; zify_bools; try done. exists n. split; [done|]. lia.
Qed.

Lemma update_truthful kafka now id d u t v :
  well_formed t → event_update_valid d = true → truthful (Events.update kafka now id d u t v).
Proof.
  intros Hw Hd. unfold Events.update. destruct (event_of t id) as [e|] eqn:He; [|apply silent_truthful].
  destruct (may_modify e u); [|apply silent_truthful].
  destruct (change_error _ _ _); [apply silent_truthful|].
  destruct (seats_changed d e) eqn:Hs; [|apply silent_truthful].
  destruct (patched_seats d e Hd Hs) as (n & Hn & Hpos).
  rewrite <- (event_of_id t Hw id e He), <- (patched_id now e d) at 1.
  apply announcing_truthful. eapply declares_updated; [apply written_event| |exact Hpos].
  by rewrite modified_seats.
Qed.

Lemma delete_truthful id u t v : truthful (Events.delete id u t v).
Proof. unfold Events.delete. repeat case_match; apply silent_truthful. Qed.

Section routes.
Context `{C : Crypto} {Col : Collation}.
Variables (settings : Settings) (self : InventoryService) (o : oracle).

Lemma routed_truthful w token rq t v :
  well_formed t → schema_ok rq → truthful (routed settings self o w token rq t v).
Proof using.
  intros Hw Hs. destruct rq; cbn [routed schema_ok] in *; try apply gate_truthful; intros;
    repeat apply with_answer_truthful; try apply gate_truthful; intros;
    repeat apply with_answer_truthful.
  - apply silent_truthful.
  - apply silent_truthful.
  - by apply create_truthful.
  - by apply update_truthful.
  - apply delete_truthful.
  - apply book_truthful.
  - apply silent_truthful.
  - apply cancel_truthful.
Qed.

Lemma served_truthful cors_headers w request n token rq t v :
  well_formed t → schema_ok rq → truthful (served o settings self cors_headers w request n token rq t v).
Proof using.
  intros Hw Hs. unfold served. destruct (negb (redis_up w)); [apply silent_truthful|].
  destruct (_ <? _); [apply silent_truthful|]. by apply with_answer_truthful, routed_truthful.
Qed.
End routes.
End effects.
