(* ===== verification/SystemBus.v ===== *)
(** * The system on its bus

    Requests, the workers on the messages of the broker's log, and the reaper:
    the system closed under what it says.  Whatever the order of deliveries and
    however often a message is delivered, every message on the bus said what was
    so when it was published and, with every e-mail, stays true as far as it can;
    every message is handled by the one worker subscribed to it, and the system
    can go on. *)
From S2P Require Import Prelude Effects Json Uuid Domain Orm OrmFacts Redis.
From S2P Require Import InventoryModels ApiModels Platform SessionRuns Kafka.
From S2P Require Import Pagination.
From S2P Require Import ApiRepositories ApiRuns InventoryRepository Locking.
From S2P Require Import InventoryService.
From S2P Require Import InventoryServicer InventorySpec InventoryInvariant.
From S2P Require Import InventoryRefinement InventoryCorrectness RpcCorrectness.
From S2P Require Import Security.
From S2P Require Import AuthService EventService BookingService SystemSpec SystemRuns.
From S2P Require Import BookingCorrectness Workers WorkerCorrectness BusCorrectness.
From S2P Require Import Checkout.
From S2P Require Import EventCorrectness AuthCorrectness SystemHistory Http.
From S2P Require Import RateLimitCorrectness HttpCorrectness AppCorrectness Visits.
From S2P Require Import SystemCalls Messages.

(** ** Routing *)
Definition subscribed (c : BaseKafkaConsumer) (topic : string) : Prop :=
  topic ∈ Topic.value <$> topics c.

#[global] Instance subscribed_dec c topic : Decision (subscribed c topic).
Proof. unfold subscribed. apply _. Defined.

Definition topic_of (e : EventType.t) : string := Topic.value (TOPIC_FOR_EVENT_TYPE e).

(** The worker of an event type. *)
Definition worker_for (self : InventoryService) (e : EventType.t) : BaseKafkaConsumer :=
  match TOPIC_FOR_EVENT_TYPE e with
  | Topic.EVENTS_LIFECYCLE => EventSync.consumer self
  | Topic.ORDERS_CREATED => PaymentWorker.consumer
  | Topic.ORDERS_STATUS_CHANGED => OrderStatusWorker.consumer
  | Topic.ORDERS_NOTIFICATIONS => NotificationWorker.consumer
  end.

Lemma subscribed_worker self e c :
  c ∈ workers self → subscribed c (topic_of e) ↔ c = worker_for self e.
Proof.
  unfold workers, api_workers, inventory_workers, subscribed. simpl. intros Hc. split.
  - intros Hs. set_unfold in Hc. destruct Hc as [->|[->|[->|[->|[]]]]]; simpl in Hs;
      apply list_elem_of_singleton in Hs; by destruct e.
  - intros ->. destruct e; simpl; by apply list_elem_of_singleton.
Qed.

Lemma worker_listed self e : worker_for self e ∈ workers self.
Proof. destruct e; unfold workers; simpl; set_solver. Qed.

Lemma worker_subscribed self e : subscribed (worker_for self e) (topic_of e).
Proof. by apply (subscribed_worker self e _ (worker_listed self e)). Qed.

#[global] Instance group_eq_dec : EqDecision Group.
Proof. solve_decision. Defined.

Lemma groups_distinct self : NoDup (group_id <$> workers self).
Proof.
  change (NoDup [GROUP_API_PAYMENT_WORKER; GROUP_API_ORDER_STATUS_WORKER;
    GROUP_API_NOTIFICATION_WORKER; GROUP_INVENTORY_EVENT_SYNC]).
  by apply (bool_decide_unpack _).
Qed.

(** ** Honest worlds *)

(** The message of a record. *)
Definition carries (r : kafka_record) (m : announcement) : Prop :=
  ∃ now id, r = record_of now id m.

Lemma carries_topic r m : carries r m → rec_topic r = topic_of m.1.1.
Proof. intros (now & id & ->). by destruct m as [[ev key] p]. Qed.

Definition record_true (s : state) (r : kafka_record) : Prop :=
  ∃ m, carries r m ∧ tells s.1 s.2 m.

(** Every message on the bus and every e-mail sent is true of the databases. *)
Record honest (w : world) (s : state) : Prop := {
  honest_log : ∀ r, r ∈ kafka_log w → record_true s r;
  honest_mails : ∀ m, m ∈ mails w → mail_true s.1 m;
}.

(** What a message published by a turn from [w] to the databases [s] says: a row
    of the databases, word by word; or the outcome of the charge the payment
    worker made, for an order announced on the bus. *)
Inductive said (o : oracle) (w : world) (s : state) : announcement → Prop :=
| said_row m : declares s.1 s.2 m → said o w s m
| said_payment r x y :
    r ∈ kafka_log w → carries r (order_created x) →
    order_of s.1 (order_id x) = Some y → same_order x y →
    said o w s (payment_done (order_id x) (charge_outcome o w).1 (charge_outcome o w).2).

Lemma said_tells o w s m : said o w s m → tells s.1 s.2 m.
Proof. intros [m' Hm|r x y _ _ Hy _]; [by apply declares_tells | by econstructor]. Qed.

(** What [w'] has more than [w] says what is so. *)
Record honest_since (o : oracle) (w w' : world) (s : state) : Prop := {
  new_records : ∀ r, r ∈ kafka_log w' → r ∈ kafka_log w ∨ ∃ m, carries r m ∧ said o w s m;
  new_mails : ∀ m, m ∈ mails w' → m ∈ mails w ∨ mail_true s.1 m;
}.

Lemma record_true_kept s s' r : truth_kept s s' → record_true s r → record_true s' r.
Proof. intros Hk (m & Hc & Hm). exists m. split; [done|]. destruct s, s'. by eapply tells_kept. Qed.

Lemma honest_kept o w w' s s' :
  truth_kept s s' → honest w s → honest_since o w w' s' → honest w' s'.
Proof.
  intros Hk [Hl Hm] [Hl' Hm']. split.
  - intros r [Hr|(m & Hc & Hs)]%Hl'; [eapply record_true_kept; eauto|].
    exists m. split; [done | by eapply said_tells].
  - intros m [Hin|Hin]%Hm'; [|done]. destruct s, s'. eapply mail_true_kept; eauto.
Qed.

Lemma announced_records o w now ids ms s r :
  Forall (declares s.1 s.2) ms → r ∈ zip_with (record_of now) ids ms →
  ∃ m, carries r m ∧ said o w s m.
Proof.
  intros Hms (n & Hn)%list_elem_of_lookup_1. apply lookup_zip_with_Some in Hn as (id & m & -> & _ & Hm).
  exists m. split; [by exists now, id|]. apply said_row. eapply Forall_lookup_1; eauto.
Qed.

Lemma progressed_honest o ms w w' s :
  Forall (declares s.1 s.2) ms → progressed ms w w' → honest_since o w w' s.
Proof.
  intros Hms [(ids & _ & Hl) _ Hm _]. split.
  - intros r. rewrite Hl. intros [Hr|Hr]%elem_of_app; [by left | right; by eapply announced_records].
  - intros m. rewrite Hm. by left.
Qed.

(** ** Activities *)
Section bus.
Context `{C : Crypto} {Col : Collation}.
Variables (settings : Settings) (self : InventoryService).
Variables (cors_headers : Request → gmap string string) (str_exn : exn → string).
Hypothesis Hlock : lock_usable (lock self).

(** A request (of those that may change the tables, or of the others), a
    message delivered to a consumer, a turn of the reaper. *)
Inductive activity : Type :=
| Handle (request : Request) (token : string) (rq : api_request)
| Look (request : Request) (token : string) (vt : visit)
| Deliver (c : BaseKafkaConsumer) (r : kafka_record)
| Reap.

Definition perform (a : activity) : M unit :=
  match a with
  | Handle request token rq => _ <- handle settings self cors_headers request token rq ;; Ret tt
  | Look request token vt => _ <- receive settings cors_headers str_exn request token vt ;; Ret tt
  | Deliver c r => on_message c (rec_value r)
  | Reap => Reaper.sweep_once
  end.

(** A request the schemas let through, the limiter's counter in good order; any
    record of the log, to the worker that subscribes to its topic, however
    often; the event's lock free. *)
Definition enabled (a : activity) (w : world) : Prop :=
  match a with
  | Handle request token rq =>
      schema_ok rq ∧ call_ok (Serve request token rq) w
  | Deliver c r =>
      c ∈ workers self ∧ r ∈ kafka_log w ∧ subscribed c (rec_topic r)
      ∧ ∀ e, rec_topic r = Topic.value Topic.EVENTS_LIFECYCLE → rec_key r = uuid_str e → lock_free e w
  | Look _ _ _ | Reap => True
  end.

Context {W : Type} (o : oracle) (impl : handler sys_op W) (obs : W → world).
Context `{P : !Platform (sys_exec o) impl obs} `{Ook : !OracleOk o}.

(** [p] terminates, has made steps, and what it has said is true. *)
Definition goes_on (p : M unit) (w : W) (s : state) : Prop :=
  ∃ r w' s', run impl p w = Some (r, w') ∧ resting (obs w') s'.1 s'.2
    ∧ rtc (step o true) s s' ∧ honest_since o (obs w) (obs w') s'.

Lemma performs_goes_on {A} (p : M A) w s out :
  performs impl obs p w out → rtc (step o true) s (after out) → truthful out →
  goes_on (_ <- p ;; Ret tt) w s.
Proof using.
  intros (w' & Hrun & Hrest & _ & Hp) Hs Ht. unfold goes_on. rewrite run_bind, Hrun.
  destruct (answer out) as [a|e]; [exists (Ok tt), w', (after out) | exists (Err e), w', (after out)];
    (split; [done|]; split; [done|]; split; [done|]; exact (progressed_honest o _ _ _ (after out) Ht Hp)).
Qed.

Lemma message_goes_on (p : M unit) w s out :
  performs impl obs p w out → rtc (step o true) s (after out) → truthful out → goes_on p w s.
Proof using.
  intros (w' & Hrun & Hrest & _ & Hp) Hs Ht. exists (answer out), w', (after out).
  split; [done|]; split; [done|]; split; [done|]; exact (progressed_honest o _ _ _ (after out) Ht Hp).
Qed.

Lemma request_goes_on w t v request token rq :
  resting (obs w) t v → joint t v → enabled (Handle request token rq) (obs w) →
  goes_on (perform (Handle request token rq)) w (t, v).
Proof using P Ook Hlock.
  intros Hr Hj (Hs & Hp & Hup).
  assert (Hn : ∃ n, redis_up (obs w) = true → request_ok rq (obs w) ∧ visits request n (obs w)).
  { destruct (redis_up (obs w)); [|by exists 0%nat].
    destruct (Hup eq_refl) as (Hok & n & Hv). by exists n. }
  destruct Hn as [n Hn]. eapply performs_goes_on;
    [by apply (served_performs o impl obs settings self Hlock cors_headers w request n)
    | apply served_steps | by apply served_truthful; [apply Hj|]].
Qed.

Lemma visit_goes_on w t v request token vt :
  resting (obs w) t v → goes_on (perform (Look request token vt)) w (t, v).
Proof using P.
  intros Hr. destruct (visits_answered settings cors_headers str_exn o impl obs w t v request token vt Hr)
    as (response & w' & Hrun & Hr' & Hl & Hm).
  exists (Ok tt), w', (t, v). cbn [perform]. rewrite run_bind, Hrun.
  split; [done|]. split; [done|]. split; [apply rtc_refl|].
  split; intros ?; [rewrite Hl | rewrite Hm]; by left.
Qed.

(** *** The workers *)
Lemma payment_goes_on w t v id now x y r :
  resting (obs w) t v → r ∈ kafka_log (obs w) → carries r (order_created x) →
  order_of t (order_id x) = Some y → same_order x y →
  goes_on (PaymentWorker._handle_message (wrap id EventType.ORDER_CREATED now (order_created x).2)) w (t, v).
Proof using P Ook.
  intros Hr Hin Hc Hy Hs. destruct Hr as (n & q & ni & qi & Ha & Hi).
  destruct (payment_worker_outcome o impl obs w id now (order_id x) (order_event_id x)
    (order_user_id x) (order_quantity x) (total_price_cents x) (reservation_id x))
    as (w' & k & Hrun & Hlog & _ & Ha' & Hi' & Hm & _).
  eexists _, w', (t, v). split; [exact Hrun|]. split; [exists n, q, ni, qi; by rewrite Ha', Hi'|].
  split; [apply rtc_refl|]. split.
  - intros r'. rewrite Hlog. intros [Hr|Hr]%elem_of_app; [by left|]. right.
    destruct (kafka_up (obs w)); [|by apply elem_of_nil in Hr]. apply list_elem_of_singleton in Hr as ->.
    eexists. split; [by eexists _, _|]. by eapply said_payment.
  - intros m. rewrite Hm. by left.
Qed.

Lemma settlement_goes_on w t v id now oid success ref :
  resting (obs w) t v → joint t v →
  goes_on (OrderStatusWorker._handle_message
    (wrap id EventType.PAYMENT_PROCESSED now (payment_done oid success ref).2)) w (t, v).
Proof using P Ook.
  intros Hr Hj. cbn [payment_done snd]. rewrite payment_message.
  eapply message_goes_on; [|apply rtc_once, step_paid | apply paid_truthful].
  apply (worker_performs o impl obs _ w t v); [done | by apply paid_joint |].
  apply settle_payment_effects; apply Hj.
Qed.

Lemma expiry_goes_on w t v id now r :
  resting (obs w) t v → joint t v →
  goes_on (OrderStatusWorker._handle_message
    (wrap id EventType.RESERVATION_EXPIRED now (expiry_announcement r).2)) w (t, v).
Proof using P Ook.
  intros Hr Hj. cbn [expiry_announcement snd]. rewrite expiry_message.
  eapply message_goes_on; [|apply rtc_once, step_expired | apply expired_truthful].
  apply (worker_performs o impl obs _ w t v); [done | by apply expired_joint |].
  apply settle_expiry_effects, Hj.
Qed.

Lemma created_goes_on w t v id now e :
  resting (obs w) t v → joint t v → 0 ≤ default 0 (total_seats e) →
  goes_on (EventSync._handle_message self (wrap id EventType.EVENT_CREATED now (event_created e).2))
    w (t, v).
Proof using P.
  intros Hr Hj Hn. cbn [event_created snd]. rewrite created_message.
  eapply message_goes_on; [by apply (created_performs o impl obs)|..|apply silent_truthful].
  by apply rtc_once, (step_initialize o true (event_id e) (default 0 (total_seats e)) t v).
Qed.

Lemma updated_goes_on w t v id now e :
  resting (obs w) t v → joint t v → lock_free (event_id e) (obs w) →
  goes_on (EventSync._handle_message self (wrap id EventType.EVENT_UPDATED now (event_updated e).2))
    w (t, v).
Proof using P Hlock.
  intros Hr Hj Hf. cbn [event_updated snd]. rewrite updated_message.
  eapply message_goes_on; [by apply (updated_performs o impl obs self)|..|apply silent_truthful].
  apply rtc_once, (step_adjust o true (event_id e) (default 0 (total_seats e)) t v). by left.
Qed.

Lemma notification_goes_on w t v oid e m :
  resting (obs w) t v → joint t v → notification_message oid e m →
  Forall (mail_true t) (notices t oid e) →
  goes_on (NotificationWorker._handle_message m) w (t, v).
Proof using P Ook.
  intros Hr Hj Hm Ht.
  destruct (notification_outcome o impl obs w t v oid e m Hr Hj Hm) as (w' & Hrun & Hrest & Hmails & Hlog).
  exists (Ok tt), w', (t, v). split; [done|]. split; [done|]. split; [apply rtc_refl|]. split.
  - intros r. rewrite Hlog. by left.
  - intros m'. rewrite Hmails. intros [Hin|Hin]%elem_of_app; [by left|]. right.
    rewrite Forall_forall in Ht. by apply Ht.
Qed.

Lemma notices_true t x y e :
  order_of t (order_id x) = Some y →
  (e = EventType.TICKET_ISSUED ∧ may_become OrderStatus.CONFIRMED (order_status y)
   ∨ e = EventType.ORDER_CANCELLED ∧ order_status y = OrderStatus.CANCELLED) →
  Forall (mail_true t) (notices t (order_id x) e).
Proof using.
  intros Hy He. unfold notices, addressee. rewrite Hy. cbn [mbind option_bind].
  destruct (user_of t (order_user_id y)) as [u|] eqn:Hu; [|constructor].
  destruct He as [[-> Hst]|[-> Hst]]; (constructor; [|constructor]); exists y, u; simpl; auto 10.
Qed.

(** *** The reaper *)
Lemma reaper_goes_on w t v :
  resting (obs w) t v → joint t v → goes_on Reaper.sweep_once w (t, v).
Proof using P Ook.
  intros Hr Hj. destruct Hr as (n & q & ni & qi & Ha & Hi).
  pose proof (joint_inv _ _ Hj) as Hc.
  destruct (sweep_serves o impl obs w v ni qi (obs w) Hc (quiet_self v ni qi _ Hi))
    as (ni' & qi' & d & w1 & Hrun & Hobs).
  set (now := clock (obs w)) in *. set (ids := found_ids o now Service.sweep_limit qi v) in *.
  assert (Hstep : rtc (step o true) (t, v) (t, (Spec.sweep now ids v).2)) by apply rtc_once, step_sweep.
  unfold goes_on, Reaper.sweep_once. rewrite run_bind, Hrun.
  unfold Spec.sweep in *. destruct (Spec.release_all now ids v) as [[xs v']|err] eqn:Hall; cbn [committed fst snd] in *.
  2: { exists (Err err), w1, (t, v). split; [done|].
       split; [rewrite Hobs; by exists n, q, ni', qi'|]. split; [apply rtc_refl|].
       apply (progressed_honest o []); [constructor|]. rewrite Hobs. by apply progressed_nil. }
  destruct (announce_run o xs (obs w1)) as (w2 & Hrun2 & Hp & Ha2 & Hi2).
  destruct (runs_to_doc (impl := impl) _ w1 _ _ Hrun2) as (w' & Hrun' & Hobs').
  rewrite Hrun'. eexists _, w', (t, v'). split; [done|].
  split; [exists n, q, ni', qi'; rewrite Hobs', Ha2, Hi2, Hobs; done|]. split; [done|].
  assert (Hp1 : progressed [] (obs w) (obs w1)) by (rewrite Hobs; by apply progressed_nil).
  rewrite Hobs'. eapply progressed_honest; [|eapply progressed_then; [exact Hp1 | exact Hp]].
  destruct (kafka_up (obs w1)); [|constructor]. apply Forall_fmap.
  eapply Forall_impl; [apply (release_all_expires now ids v); [done|..|exact Hall]|].
  - by apply found_ids_nodup.
  - eapply Forall_impl; [by apply found_ids_pending|]. intros id (x & ? & ? & _). by exists x.
  - intros x [Hx Hst]. by apply declares_expired.
Qed.

(** *** Any delivery *)
Lemma delivery_goes_on w t v c r :
  resting (obs w) t v → joint t v → honest (obs w) (t, v) → enabled (Deliver c r) (obs w) →
  goes_on (perform (Deliver c r)) w (t, v).
Proof using P Ook Hlock.
  intros Hr Hj Hh (Hc & Hin & Hsub & Hfree).
  destruct (honest_log _ _ Hh r Hin) as (m & Hm & Ht).
  rewrite (carries_topic r m Hm) in Hsub. apply (subscribed_worker self _ c Hc) in Hsub as ->.
  destruct Hm as (now & id & ->). cbn [fst snd] in Ht. cbn [perform].
  destruct Ht as [e Hn|e Hn|x y Hy Hs|oid ok ref y Hy|x y Hy Hs Hst|x y Hy Hs Hst|x Hx Hst].
  - by apply created_goes_on.
  - apply updated_goes_on; [done|done|]. by apply Hfree.
  - eapply payment_goes_on; [done|exact Hin|by eexists _, _|done..].
  - by apply settlement_goes_on.
  - eapply (notification_goes_on w t v (order_id x)); [done|done|apply ticket_message|].
    eapply notices_true; [done | by left].
  - eapply (notification_goes_on w t v (order_id x)); [done|done|apply cancelled_message|].
    eapply notices_true; [done | by right].
  - by apply expiry_goes_on.
Qed.

Lemma activity_goes_on a w t v :
  resting (obs w) t v → joint t v → honest (obs w) (t, v) → enabled a (obs w) →
  goes_on (perform a) w (t, v).
Proof using P Ook Hlock.
  intros Hr Hj Hh He. destruct a;
    [by apply request_goes_on | by apply visit_goes_on | by apply delivery_goes_on | by apply reaper_goes_on].
Qed.

(** ** Histories *)

(** An activity; or anything else between two of them, the broker dropping old
    records included. *)
Inductive bus_turn : W * state → W * state → Prop :=
| bus_idles w w' s :
    resting (obs w') s.1 s.2 → (∀ r, r ∈ kafka_log (obs w') → r ∈ kafka_log (obs w)) →
    mails (obs w') = mails (obs w) → bus_turn (w, s) (w', s)
| bus_acts a w s r w' s' :
    enabled a (obs w) → run impl (perform a) w = Some (r, w') → resting (obs w') s'.1 s'.2 →
    bus_turn (w, s) (w', s').

Definition in_order (ws : W * state) : Prop :=
  resting (obs ws.1) ws.2.1 ws.2.2 ∧ joint ws.2.1 ws.2.2 ∧ honest (obs ws.1) ws.2.

(** What the system comes to, from databases in order and a bus that tells the
    truth about them: an empty one, to begin with. *)
Definition bus_history (ws : W * state) : Prop := ∃ ws0, in_order ws0 ∧ rtc bus_turn ws0 ws.

Lemma bus_turn_in_order ws ws' : bus_turn ws ws' → in_order ws → in_order ws'.
Proof using P Ook Hlock.
  intros [w w' s Hr Hl Hm|a w [t v] r w' s' He Hrun Hr'] (Hr0 & Hj & Hh); cbn [fst snd] in *.
  - split; [done|]. split; [done|]. destruct Hh as [Hlog Hmails]. split; [auto|]. cbn [fst snd].
    by rewrite Hm.
  - destruct (activity_goes_on a w t v Hr0 Hj Hh He) as (r1 & w1 & s1 & Hrun1 & Hr1 & Hs & Hnew).
    rewrite Hrun in Hrun1. injection Hrun1 as <- <-.
    destruct (resting_unique _ _ _ _ _ Hr' Hr1) as [Ht Hv].
    destruct s' as [t' v'], s1 as [t1 v1]. cbn [fst snd] in *. subst t1 v1.
    split; [done|]. split; [by apply (steps_joint o true _ _ Hs)|].
    eapply honest_kept; [by eapply steps_truth | done | done].
Qed.

Lemma bus_history_in_order ws : bus_history ws → in_order ws.
Proof using P Ook Hlock.
  intros (ws0 & H0 & Hts). induction Hts as [|ws ws1 ws' Ht _ IH]; [done|].
  by apply IH, (bus_turn_in_order ws).
Qed.

(** One turn: what is new on the bus says what is so at its end. *)
Lemma turn_said ws ws' r :
  bus_turn ws ws' → in_order ws → r ∈ kafka_log (obs ws'.1) →
  r ∈ kafka_log (obs ws.1) ∨ ∃ m, carries r m ∧ said o (obs ws.1) ws'.2 m.
Proof using P Ook Hlock.
  intros [w w' s _ Hl _|a w [t v] x w' s' He Hrun Hr'] (Hr0 & Hj & Hh) Hr; cbn [fst snd] in *; [by left; auto|].
  destruct (activity_goes_on a w t v Hr0 Hj Hh He) as (x1 & w1 & s1 & Hrun1 & Hr1 & _ & Hnew).
  rewrite Hrun in Hrun1. injection Hrun1 as <- <-.
  destruct (resting_unique _ _ _ _ _ Hr' Hr1) as [Ht Hv].
  destruct s' as [t' v'], s1 as [t1 v1]. cbn [fst snd] in *. subst t1 v1. by apply (new_records _ _ _ _ Hnew).
Qed.

(** A turn of the history from [ws] to [ws'] that published [r], a message that
    says what was so at its end. *)
Definition published_in (ws ws' : W * state) (r : kafka_record) : Prop :=
  ∃ ws1 ws2 m, rtc bus_turn ws ws1 ∧ bus_turn ws1 ws2 ∧ rtc bus_turn ws2 ws'
    ∧ carries r m ∧ said o (obs ws1.1) ws2.2 m.

Lemma history_said ws ws' r :
  in_order ws → rtc bus_turn ws ws' → r ∈ kafka_log (obs ws'.1) →
  r ∈ kafka_log (obs ws.1) ∨ published_in ws ws' r.
Proof using P Ook Hlock.
  intros H0 Hts. induction Hts as [|ws ws1 ws' Ht Hts IH]; intros Hr; [by left|].
  destruct (IH (bus_turn_in_order _ _ Ht H0) Hr) as [Hr1|(wa & wb & m & Ha & Hab & Hb & Hm)].
  - destruct (turn_said _ _ r Ht H0 Hr1) as [|(m & Hc & Hm)]; [by left|]. right.
    exists ws, ws1, m. split; [apply rtc_refl|]. by repeat split.
  - destruct Hm as [Hc Hm]. right. exists wa, wb, m. split; [by eapply rtc_l|]. by repeat split.
Qed.


(** C11. The system goes on.  The workers read in groups of their own and every
    message has exactly one that subscribes to its topic; at any point of any
    history any request, any delivery of any message to its worker and any
    sweep terminates, and the history continues. *)
Theorem deliveries_go_on w s :
  bus_history (w, s) →
  NoDup (group_id <$> workers self)
  ∧ (∀ r, r ∈ kafka_log (obs w) → exists ! c, c ∈ workers self ∧ subscribed c (rec_topic r))
  ∧ ∀ a, enabled a (obs w) →
      ∃ r w' s', run impl (perform a) w = Some (r, w') ∧ bus_turn (w, s) (w', s').
Proof using P Ook Hlock.
  intros (Hr & Hj & Hh)%bus_history_in_order. cbn [fst snd] in *. split_and!.
  - apply groups_distinct.
  - intros r Hin. destruct (honest_log _ _ Hh r Hin) as (m & Hm & _).
    rewrite (carries_topic r m Hm). exists (worker_for self m.1.1). split.
    + split; [apply worker_listed | apply worker_subscribed].
    + intros c [Hc Hs]. by apply (subscribed_worker self _ c Hc) in Hs.
  - intros a He. destruct s as [t v].
    destruct (activity_goes_on a w t v Hr Hj Hh He) as (r & w' & s' & Hrun & Hr' & _).
    exists r, w', s'. split; [done|]. by eapply bus_acts.
Qed.

(** ** An announced order *)

(** [c] handles the message [m] with success. *)
Definition delivers (c : BaseKafkaConsumer) (m : kafka_record) (ws ws' : W * state) : Prop :=
  enabled (Deliver c m) (obs ws.1)
  ∧ run impl (on_message c (rec_value m)) ws.1 = Some (Ok tt, ws'.1)
  ∧ resting (obs ws'.1) ws'.2.1 ws'.2.2.

Lemma delivers_turn c m ws ws' : delivers c m ws ws' → bus_turn ws ws'.
Proof using.
  destruct ws as [w s], ws' as [w' s']. intros (He & Hrun & Hr).
  by apply (bus_acts (Deliver c m) w s (Ok tt) w' s').
Qed.

Lemma worker_delivers e r w s w' s' :
  r ∈ kafka_log (obs w) → rec_topic r = topic_of e → topic_of e ≠ Topic.value Topic.EVENTS_LIFECYCLE →
  run impl (on_message (worker_for self e) (rec_value r)) w = Some (Ok tt, w') →
  resting (obs w') s'.1 s'.2 → delivers (worker_for self e) r (w, s) (w', s').
Proof using.
  intros Hin Ht Hne Hrun Hr. split; [|by split].
  pose proof (worker_listed self e) as Hc. split; [done|]. split; [done|]. rewrite Ht.
  split; [apply worker_subscribed | by intros].
Qed.

(** C15. Checkout completes.  At any point of any history, take an order that is
    PENDING, whose reservation is PENDING, whose user exists and whose
    ORDER_CREATED message is still on the bus; let no event be oversold, the
    version of the event's record be below the largest integer, the network and
    the broker be up.  Then three deliveries, each of a message the one before
    has put on the bus, bring it to its end: the payment worker announces the
    charge, the order worker settles order and reservation by its outcome, the
    notification worker mails the user; all three succeed, and are turns of the
    history. *)
Theorem announced_order_settles w t v x rid r i user m :
  bus_history (w, (t, v)) → m ∈ kafka_log (obs w) → carries m (order_created x) →
  System.pending_order t (order_id x) = Some x →
  reservation_id x = uuid_str rid → res_of v rid = Some r →
  status r = ReservationStatus.PENDING → capacity_respected v →
  inv_of v (res_event_id r) = Some i → version i + 1 ≤ int32_max →
  user_of t (order_user_id x) = Some user →
  fault (obs w) = NoFault → kafka_up (obs w) = true →
  let success := (charge_outcome o (obs w)).1 in
  ∃ payment settlement w1 w2 w' t' v',
    delivers PaymentWorker.consumer m (w, (t, v)) (w1, (t, v))
    ∧ kafka_log (obs w1) = kafka_log (obs w) ++ [payment]
    ∧ delivers OrderStatusWorker.consumer payment (w1, (t, v)) (w2, (t', v'))
    ∧ kafka_log (obs w2) = kafka_log (obs w1) ++ [settlement]
    ∧ delivers NotificationWorker.consumer settlement (w2, (t', v')) (w', (t', v'))
    ∧ bus_history (w', (t', v'))
    ∧ order_status <$> order_of t' (order_id x) = Some (settled_status success)
    ∧ status <$> res_of v' rid = Some (settled_reservation success)
    ∧ mails (obs w') = mails (obs w)
        ++ [MailRecord (email user) (default "" (subject_of (settled_event success))) (order_id x)].
Proof using P Ook Hlock.
  intros Hh Hin Hm Hx Hrid Hres Hst Hcap Hi Hv Hu Hnet Hk success.
  pose proof (bus_history_in_order _ Hh) as (Hr & Hj & _).
  pose proof (carries_topic _ _ Hm) as Htop. destruct Hm as (now & id & ->).
  destruct (checkout_run o impl obs w t v x rid r i user id now Hr Hj Hcap Hx Hrid Hres Hst Hi Hv Hu Hnet Hk)
    as (payment & settlement & w1 & w2 & w3 & t' & v' & Hrun1 & Hlog1 & Htop1 & Hr1 & Hrun2 & Hlog2 & Htop2
        & Hr2 & Hrun3 & Hmails & Hr3 & Hord & Hresv).
  fold success in Htop2, Hmails, Hord, Hresv.
  assert (H1 : delivers PaymentWorker.consumer (record_of now id (order_created x)) (w, (t, v)) (w1, (t, v)))
    by by apply (worker_delivers EventType.ORDER_CREATED).
  assert (H2 : delivers OrderStatusWorker.consumer payment (w1, (t, v)) (w2, (t', v'))).
  { apply (worker_delivers EventType.PAYMENT_PROCESSED); try done.
    rewrite Hlog1. apply elem_of_app. right. by apply list_elem_of_singleton. }
  assert (Hw : worker_for self (settled_event success) = NotificationWorker.consumer) by by destruct success.
  assert (H3 : delivers NotificationWorker.consumer settlement (w2, (t', v')) (w3, (t', v'))).
  { rewrite <- Hw. apply worker_delivers; try done; [|by destruct success|by rewrite Hw].
    rewrite Hlog2. apply elem_of_app. right. by apply list_elem_of_singleton. }
  exists payment, settlement, w1, w2, w3, t', v'. split_and!; try done.
  destruct Hh as (ws0 & H0 & Hts). exists ws0. split; [done|].
  eapply rtc_r; [eapply rtc_r; [eapply rtc_r; [exact Hts|]|]|]; by eapply delivers_turn.
Qed.
End bus.

(** ** A sale in the sample shop *)
#[local] Existing Instance sample_crypto.
#[local] Existing Instance sample_collation.

Definition shop_bus : world * state → Prop :=
  bus_history default_settings default_service no_cors (λ _, "") (sys_exec sample_oracle) id.

Definition shop_turns : world * state → world * state → Prop :=
  rtc (bus_turn default_settings default_service no_cors (λ _, "") (sys_exec sample_oracle) id).

Lemma shop_opens : in_order id (shop_world, (shop_rows, shop_inventory)).
Proof.
  split; [apply shop_rests|]. split; [apply shop_joint|].
  split; intros ? Hin; by apply elem_of_nil in Hin.
Qed.

(** The booking of a visitor, announced. *)
Definition shop_order : Order :=
  mkOrder (uuid_of_N 1001) (uuid_of_N 7) sample_event (uuid_str (uuid_of_N 1003)) 3 2500 7500
    OrderStatus.PENDING (Some "k") (Some 0) (Some 0).

Lemma shop_sale_bus :
  ∃ w' m, kafka_log w' = [m] ∧ carries m (order_created shop_order)
    ∧ fault w' = NoFault ∧ kafka_up w' = true ∧ mails w' = []
    ∧ shop_turns (shop_world, (shop_rows, shop_inventory)) (w', after shop_sale).
Proof.
  destruct (served_performs sample_oracle (sys_exec sample_oracle) id default_settings default_service
    sample_lock_usable no_cors shop_world shop_visit 0 shop_token sample_order shop_rows shop_inventory)
    as (w' & Hrun & Hrest & _ & [(ids & Hlen & Hlog) _ Hmails (_ & Hup & Hnet)]).
  - apply shop_rests.
  - apply shop_joint.
  - apply shop_visit_counted.
  - intros _. split; [apply sample_order_ok | reflexivity].
  - change (served _ _ _ _ _ _ _ _ _ _ _) with shop_sale in *. unfold id in *.
    assert (Hsent : sent shop_sale = [order_created shop_order]) by by vm_compute.
    rewrite Hsent in Hlen, Hlog. destruct ids as [|mid [|]]; [discriminate Hlen| |discriminate Hlen].
    exists w', (record_of (clock shop_world) mid (order_created shop_order)).
    split; [exact Hlog|]. split; [by eexists _, _|]. split; [exact Hnet|]. split; [exact Hup|].
    split; [exact Hmails|]. apply rtc_once.
    apply (bus_acts _ _ _ _ _ _ (Handle shop_visit shop_token sample_order) _ _
      (match answer shop_sale with Ok _ => Ok tt | Err e => Err e end)).
    + split; [done|]. split; [apply shop_visit_counted|]. intros _.
      split; [apply sample_order_ok | by exists 0%nat].
    + unfold perform. rewrite run_bind, Hrun. by destruct (answer shop_sale).
    + exact Hrest.
Qed.

Lemma shop_sale_capacity : capacity_respected (inv_after shop_sale).
Proof.
  replace (inv_after shop_sale) with (apply_operations [ OpInitialize sample_event 10;
    OpReserve 0 (uuid_of_N 1003) sample_event (uuid_of_N 1001) 3 600 5 ] ∅) by by vm_compute.
  apply operations_capacity; [apply empty_consistent | simpl; lia |].
  intros e i. unfold inv_of. by rewrite lookup_empty.
Qed.


Lemma deliveries_go_on_witness :
  ∃ w', (∃ m, kafka_log w' = [m])
    ∧ ∀ r, r ∈ kafka_log w' → exists ! c, c ∈ workers default_service ∧ subscribed c (rec_topic r).
Proof.
  destruct shop_sale_bus as (w' & m & Hm & _ & _ & _ & _ & Hh). exists w'. split; [by exists m|].
  apply (deliveries_go_on default_settings default_service no_cors (λ _, "") sample_lock_usable sample_oracle
           (sys_exec sample_oracle) id w' (after shop_sale)).
  eexists. split; [apply shop_opens | exact Hh].
Defined.

Lemma announced_order_settles_witness :
  ∃ w payment settlement w1 w2 w' t' v',
    let step := delivers default_service (sys_exec sample_oracle) id in
    step PaymentWorker.consumer payment (w, after shop_sale) (w1, after shop_sale)
    ∧ step OrderStatusWorker.consumer settlement (w1, after shop_sale) (w2, (t', v'))
    ∧ order_status <$> order_of t' (uuid_of_N 1001)
      = Some (settled_status (charge_outcome sample_oracle w).1)
    ∧ status <$> res_of v' (uuid_of_N 1003)
      = Some (settled_reservation (charge_outcome sample_oracle w).1)
    ∧ length (mails w') = 1%nat.
Proof.
  destruct shop_sale_bus as (w & m & Hlog & Hm & Hnet & Hup & Hmails & Hh).
  assert (Hhist : shop_bus (w, after shop_sale)) by (eexists; split; [apply shop_opens | exact Hh]).
  destruct (announced_order_settles default_settings default_service no_cors (λ _, "") sample_lock_usable
    sample_oracle (sys_exec sample_oracle) id w (api_after shop_sale) (inv_after shop_sale) shop_order
    (uuid_of_N 1003)
    (mkReservation (uuid_of_N 1003) sample_event (uuid_of_N 1001) 3 ReservationStatus.PENDING 600000000
       (Some 0) (Some 0))
    (mkEventInventory sample_event 10 3 0 2) shop_user m)
    as (payment & settlement & w1 & w2 & w' & t' & v' & H1 & _ & H2 & _ & _ & _ & Hord & Hres & Hmail).
  - exact Hhist.
  - unfold id. rewrite Hlog. by apply list_elem_of_singleton.
  - exact Hm.
  - vm_compute. reflexivity.
  - reflexivity.
  - vm_compute. reflexivity.
  - reflexivity.
  - apply shop_sale_capacity.
  - vm_compute. reflexivity.
  - vm_compute. discriminate.
  - vm_compute. reflexivity.
  - exact Hnet.
  - exact Hup.
  - exists w, m, payment, w1, w2, w', t', v'. split; [exact H1|]. split; [exact H2|].
    split; [exact Hord|]. split; [exact Hres|].
    unfold id in Hmail. by rewrite Hmail, Hmails.
Defined.
