(* ===== verification/SystemInterleavings.v ===== *)
(** * The whole system, interleaved

    Requests to the application, messages at their workers and turns of the
    reaper, all running at once: scheduled operation by operation, over both
    databases, no schedule breaks the counters of an event or, while nobody
    sets a capacity, oversells it. *)
From S2P Require Import Prelude Effects Interleaving Json Uuid Domain Orm OrmFacts.
From S2P Require Import Redis.
From S2P Require Import InventoryModels ApiModels Platform SessionRuns Kafka.
From S2P Require Import Pagination ApiRepositories ApiRuns ApiConcurrency.
From S2P Require Import InventoryRepository Locking InventoryService InventoryServicer.
From S2P Require Import InventorySpec InventoryInvariant InventoryCorrectness.
From S2P Require Import InventoryConcurrency InventoryThreads InventoryInterleavings.
From S2P Require Import Security AuthService EventService BookingService SystemSpec.
From S2P Require Import SystemRuns BookingCorrectness Workers Http HttpCorrectness.
From S2P Require Import AppCorrectness Visits.
From S2P Require Import SystemHistory SystemCalls SystemBus.

(** ** Programs as threads *)
Section threads.
Variables (o : oracle) (kept : Prop) (t0 : rows).
Context `{Ook : !OracleOk o}.

(** The invariant of both databases. *)
Definition both_kept (w : world) : Prop := J kept w ∧ orders_kept t0 (api_db w).

(** A program that may move the reservations of [r] keeps the invariant,
    whatever runs beside it, and answers with a value that satisfies [Φ]. *)
Definition steady {A} (r : uuid → Prop) (p : M A) (Φ : A → Prop) : Prop :=
  yields (sys_exec o) both_kept own disj (Local r None) p Φ.

Definition safe {A} (r : uuid → Prop) (p : M A) : Prop := steady r p (λ _, True).

(** Operations that leave the inventory alone and the orders their reservations. *)
Definition quiet_op {B} (op : sys_op B) : Prop :=
  match op with InvDb _ => False | ApiDb op => keeps_orders t0 op | _ => True end.

Definition answer_of {B} (op : sys_op B) : B → Prop :=
  match op in sys_op B return B → Prop with
  | ApiDb op => answer_kept t0 op
  | _ => λ _, True
  end.

Lemma quiet_inventory {B} (op : sys_op B) w b w' :
  quiet_op op → sys_exec o B op w = Some (b, w') → inv_db w' = inv_db w.
Proof using.
  destruct op; simpl; try done; intros _; try (by intros [= <- <-]).
  - destruct (orm_exec _ _ _ _ _) as [[? ?]|]; by intros [= <- <-].
  - destruct (redis_exec _ _ _ _ _). by intros [= <- <-].
  - destruct (kafka_up w); by intros [= <- <-].
Qed.

Lemma quiet_orders {B} (op : sys_op B) w b w' :
  quiet_op op → orders_kept t0 (api_db w) → sys_exec o B op w = Some (b, w') →
  orders_kept t0 (api_db w') ∧ answer_of op b.
Proof using Ook.
  intros Hop Hk. destruct op; simpl in *; try done; try (by intros [= <- <-]).
  - destruct (orm_exec _ _ _ _ _) as [[b1 db]|] eqn:Hex; intros [= <- <-]. by eapply orm_kept.
  - destruct (redis_exec _ _ _ _ _). by intros [= <- <-].
  - destruct (kafka_up w); by intros [= <- <-].
Qed.

Lemma steady_op {B} r (op : sys_op B) : quiet_op op → steady r (trigger op) (answer_of op).
Proof using Ook.
  intros Hop. apply wp_trigger. intros w b w' [HJ Hk] Ho Hex.
  pose proof (quiet_inventory op w b w' Hop Hex) as Hdb.
  destruct (quiet_orders op w b w' Hop Hk Hex) as [Hk' Hb].
  assert (He : env w w') by (unfold env; by rewrite Hdb).
  exists (Local r None). split; [split; [by eapply env_J | done]|]. split; [done|]. split.
  - intros lo Hd Hlo. split; [done | by eapply env_own].
  - split; [done|]. by intros ? [= <-].
Qed.

Lemma steady_bind {A C} r (p : M A) (f : A → M C) Φ Ψ :
  steady r p Φ → (∀ a, Φ a → steady r (f a) Ψ) → steady r (bind p f) Ψ.
Proof using. apply yields_bind. Qed.

Lemma steady_mono {A} r (p : M A) (Φ Ψ : A → Prop) : (∀ a, Φ a → Ψ a) → steady r p Φ → steady r p Ψ.
Proof using. apply yields_mono. Qed.

Lemma steady_ret {A} r (a : A) (Φ : A → Prop) : Φ a → steady r (Ret a) Φ.
Proof using. intros Ha. split; [done|]. by intros ? [= <-]. Qed.

Lemma steady_raise {A} r (e : exn) (Φ : A → Prop) : steady r (Raise e) Φ.
Proof using. by split. Qed.

Lemma steady_result {A} r (x : result exn A) : steady r (of_result x) (λ a, x = Ok a).
Proof using. destruct x; [by apply steady_ret | apply steady_raise]. Qed.

Lemma steady_call {B} r (op : sys_op (result exn B)) :
  quiet_op op → steady r (Platform.call op) (λ b, answer_of op (Ok b)).
Proof using Ook.
  intros Hop. eapply steady_bind; [by apply steady_op|]. intros x Hx.
  eapply steady_mono; [|apply steady_result]. by intros b ->.
Qed.

Lemma steady_safe {A} r (p : M A) Φ : steady r p Φ → safe r p.
Proof using. by apply yields_mono. Qed.

Lemma safe_bind {A C} r (p : M A) (f : A → M C) : safe r p → (∀ a, safe r (f a)) → safe r (bind p f).
Proof using. intros Hp Hf. eapply steady_bind; [exact Hp|]. intros a _. apply Hf. Qed.

Lemma safe_then {A C} r (p : M A) (f : A → M C) Φ :
  steady r p Φ → (∀ a, Φ a → safe r (f a)) → safe r (bind p f).
Proof using. apply steady_bind. Qed.

Lemma safe_op {B} r (op : sys_op B) : quiet_op op → safe r (trigger op).
Proof using Ook. intros Hop. by apply (steady_safe _ _ (answer_of op)), steady_op. Qed.

Lemma safe_result {A} r (x : result exn A) : safe r (of_result x).
Proof using. eapply steady_safe, steady_result. Qed.

Lemma safe_attempt {A} r (p : M A) : safe r p → safe r (attempt p).
Proof using. intros Hp. eapply steady_safe, yields_attempt, Hp. Qed.

Lemma safe_try_except {A} r (p : M A) hd : safe r p → (∀ e, safe r (hd e)) → safe r (try_except p hd).
Proof using.
  intros Hp Hh. apply safe_bind; [by apply safe_attempt|]. intros [a|e]; [by apply steady_ret | apply Hh].
Qed.

Lemma safe_try_finally {A} r (p : M A) c : safe r p → safe r c → safe r (try_finally p c).
Proof using.
  intros Hp Hc. apply safe_bind; [by apply safe_attempt|]. intros x.
  apply safe_bind; [done|]. intros _. apply safe_result.
Qed.

Lemma safe_for_each {A C} r (f : A → M C) xs : (∀ x, safe r (f x)) → safe r (for_each f xs).
Proof using.
  intros Hf. induction xs as [|x xs IH]; [by apply steady_ret|].
  apply safe_bind; [apply Hf|]. intros y. apply safe_bind; [done|]. intros ys. by apply steady_ret.
Qed.

(** *** Calls on the inventory *)
Definition no_api {B} (op : sys_op B) : Prop := match op with ApiDb _ => False | _ => True end.

Lemma safe_inventory {A} r (p : M A) : thread o kept r p → ops (λ B op, no_api op) p → safe r p.
Proof using.
  intros Hp Hops. unfold safe, steady, yields, both_kept. apply wp_frame.
  - eapply ops_mono; [|exact Hops]. intros B op Hop w b w' Hk. destruct op; simpl in *; try done;
      try (by intros [= <- <-]).
    + destruct (orm_exec _ _ _ _ _) as [[? ?]|]; by intros [= <- <-].
    + destruct (redis_exec _ _ _ _ _). by intros [= <- <-].
    + destruct (kafka_up w); by intros [= <- <-].
  - eapply wp_mono; [|exact Hp]. by intros x l ->.
Qed.

Lemma try_acquire_ops l key token n : ops (λ B op, no_api op) (try_acquire l key token n).
Proof using. induction n as [|n IH]; cbn [try_acquire]; [constructor|]. solve_ops. Qed.

Lemma reserve_attempts_ops s e ord q ttl n k :
  ops (λ B op, no_api op) (reserve_attempts s e ord q ttl n k).
Proof using. induction k as [|k IH]; cbn [reserve_attempts]; [constructor|]. solve_ops. Qed.

#[local] Hint Resolve try_acquire_ops reserve_attempts_ops : ops.

Variable self : InventoryService.

Lemma safe_reserve r e ord q : safe r (Service.reserve_seats self e ord q).
Proof using. apply safe_inventory; [apply reserve_safe_thread | solve_ops]. Qed.

Lemma safe_initialize r e c : (kept → 0 ≤ c) → safe r (Service.initialize_inventory e c).
Proof using. intros Hc. apply safe_inventory; [by apply initialize_safe_thread | solve_ops]. Qed.

Lemma safe_adjust r e c : ¬ kept → safe r (Service.adjust_capacity self e c).
Proof using. intros Hc. apply safe_inventory; [by apply adjust_safe_thread | solve_ops]. Qed.

Lemma safe_confirm (r : uuid → Prop) id : r id → safe r (Service.confirm_reservation id).
Proof using. intros Hr. apply safe_inventory; [by apply confirm_safe_thread | solve_ops]. Qed.

Lemma safe_release (r : uuid → Prop) id ex : r id → safe r (Service.release_reservation id ex).
Proof using. intros Hr. apply safe_inventory; [by apply release_safe_thread | solve_ops]. Qed.

Lemma safe_sweep (r : uuid → Prop) : (∀ id, r id) → safe r Service.sweep_expired_reservations.
Proof using Ook. intros Hr. apply safe_inventory; [by apply sweep_safe_thread | solve_ops]. Qed.

(** *** Attribute writes *)
Lemma status_kept k st r : held t0 k r → held t0 k (on_order (set_order_status st) r).
Proof using. by destruct r. Qed.

Lemma event_update_kept k d r : held t0 k r → held t0 k (on_event (apply_update d) r).
Proof using. by destruct r. Qed.

(** A program that a hypothesis covers. *)
Ltac safe_known :=
  match goal with
  | H : ∀ _, _ |- safe _ _ => simple apply H
  | |- safe _ (Service.reserve_seats _ _ _ _) => apply safe_reserve
  end.

(** Descends into a program, unfolding what the source defines. *)
Ltac safe_step :=
  match goal with
  | |- safe _ (match ?x with _ => _ end) => destruct x
  | |- safe _ (bind _ _) => apply safe_bind; [|intros]
  | |- safe _ (attempt _) => apply safe_attempt
  | |- safe _ (try_except _ _) => apply safe_try_except; [|intros]
  | |- safe _ (try_finally _ _) => apply safe_try_finally
  | |- safe _ (for_each _ _) => apply safe_for_each; intros
  | |- safe _ (of_result _) => apply safe_result
  | |- safe _ (Ret _) => by apply steady_ret
  | |- safe _ (Raise _) => apply steady_raise
  | |- safe _ (trigger _) => apply safe_op; simpl; try done; intros;
      first [by apply status_kept | by apply event_update_kept]
  | |- safe _ ?p => let f := get_head p in progress unfold f
  end.
Ltac solve_safe :=
  repeat (first [match goal with H : ?P |- ?P => exact H end | safe_known | safe_step]).

(** ** Movers

    The reservation of an order of [t0]; an order booked since may have any. *)
Definition owned (id : uuid) (rid : uuid) : Prop :=
  match order_of t0 id with
  | Some x => UUID (reservation_id x) = Ok rid
  | None => True
  end.

(** The order a session has loaded: the one asked for, with its reservation. *)
Definition loaded_order (id : uuid) (x : option Order) : Prop :=
  ∀ y, x = Some y → order_id y = id ∧ true_order t0 y.

Lemma loaded_owned id x rid :
  loaded_order id (Some x) → UUID (reservation_id x) = Ok rid → owned id rid.
Proof using.
  intros Hx Hr. destruct (Hx x eq_refl) as [<- Ht]. unfold owned.
  destruct (order_of t0 (order_id x)) as [y|] eqn:Hy; [|done]. by rewrite <- (Ht y Hy).
Qed.

Lemma steady_get_order r s id : steady r (OrderRepository.get s id) (loaded_order id).
Proof using Ook.
  eapply steady_bind; [by apply (steady_call r (ApiDb (Get s (KOrder id))))|].
  intros b Hb. apply steady_ret. intros y Hy. destruct b as [row|]; [|done].
  destruct (Hb row eq_refl) as [Hk Ht]. destruct row as [| |y']; [done..|].
  simpl in Hy, Hk. by simplify_eq.
Qed.

Lemma steady_get_for_user r s id user : steady r (OrderRepository.get_for_user s id user) (loaded_order id).
Proof using Ook.
  eapply steady_bind; [by apply (steady_call r (ApiDb (Select s _)))|].
  intros rs Hrs. eapply steady_mono; [|apply steady_result]. intros x Hx y ->.
  assert (Hin : y ∈ omap as_order rs).
  { destruct (omap as_order rs) as [|z [|]]; simpl in Hx; simplify_eq. by apply list_elem_of_singleton. }
  apply list_elem_of_omap in Hin as (row & Hrow & Hy). specialize (Hrs rs eq_refl).
  rewrite Forall_forall in Hrs. destruct (Hrs row Hrow) as ([_ Ht] & r' & Hq & Hk).
  destruct row as [| |y']; [done..|]. simpl in Hy. simplify_eq. split; [|done].
  simpl in Hq, Hk. destruct r' as [| |z]; [done..|]. simpl in Hk.
  apply andb_true_iff in Hq as [Hq _]. apply bool_decide_eq_true in Hq. congruence.
Qed.

Lemma release_call_safe (r : uuid → Prop) rid :
  (∀ id, UUID rid = Ok id → r id) → safe r (Client.release_reservation rid).
Proof using Ook.
  intros Hr. assert (Hcall : safe r (ReleaseReservation rid)).
  { unfold ReleaseReservation. destruct (UUID rid) as [id|e] eqn:Hid; cbn [of_result bind].
    - pose proof (safe_release r id false (Hr id eq_refl)). solve_safe.
    - solve_safe. }
  solve_safe.
Qed.

Lemma confirm_call_safe (r : uuid → Prop) rid :
  (∀ id, UUID rid = Ok id → r id) → safe r (Client.confirm_reservation rid).
Proof using Ook.
  intros Hr. assert (Hcall : safe r (ConfirmReservation rid)).
  { unfold ConfirmReservation. destruct (UUID rid) as [id|e] eqn:Hid; cbn [of_result bind].
    - pose proof (safe_confirm r id (Hr id eq_refl)). solve_safe.
    - solve_safe. }
  solve_safe.
Qed.

(** ** Requests *)
Context `{C : Crypto} {Col : Collation}.
Variables (settings : Settings) (cors_headers : Request → gmap string string) (str_exn : exn → string).

Lemma cancel_safe s id user : safe (owned id) (BookingService.cancel_order s id user).
Proof using Ook.
  eapply safe_then; [apply steady_get_for_user|]. intros [order|] Ho; [|apply steady_raise].
  assert (Hcall : safe (owned id) (Client.release_reservation (reservation_id order))).
  { apply release_call_safe. intros rid. by apply loaded_owned. }
  clear Ho. solve_safe.
Qed.

Lemma route_safe token rq (r : uuid → Prop) :
  (∀ id, rq = CancelOrder id → r = owned id) → safe r (route settings self token rq).
Proof using Ook.
  intros Hrq. destruct rq; try solve [solve_safe]. rewrite (Hrq _ eq_refl).
  pose proof (λ s, cancel_safe s id). solve_safe.
Qed.

Lemma handle_safe request token rq (r : uuid → Prop) :
  (∀ id, rq = CancelOrder id → r = owned id) →
  safe r (handle settings self cors_headers request token rq).
Proof using Ook. intros Hrq. pose proof (route_safe token rq r Hrq). solve_safe. Qed.

Lemma receive_safe r request token vt :
  safe r (receive settings cors_headers str_exn request token vt).
Proof using Ook. destruct vt; solve_safe. Qed.

(** ** Workers *)

(** The order a PAYMENT_PROCESSED message is about. *)
Definition paid_order (m : json) : option uuid :=
  match event_type_of m, payload_of m with
  | Ok et, Ok p =>
      if is_event et EventType.PAYMENT_PROCESSED
      then match uuid_item p "order_id" with Ok id => Some id | Err _ => None end
      else None
  | _, _ => None
  end.

(** Whether a message may set a capacity below the seats in use. *)
Definition cuts (m : json) : Prop :=
  match event_type_of m, payload_of m with
  | Ok et, Ok p =>
      match dict_item p "total_seats" with
      | Ok seats =>
          match json_int seats with
          | Ok n => if is_event et EventType.EVENT_CREATED then n < 0 else True
          | Err _ => False
          end
      | Err _ => False
      end
  | _, _ => False
  end.

Lemma payment_safe r m : safe r (PaymentWorker._handle_message m).
Proof using Ook. solve_safe. Qed.

Lemma notification_safe r m : safe r (NotificationWorker._handle_message m).
Proof using Ook. solve_safe. Qed.

Lemma steady_get_pending r s id : steady r (OrderStatusWorker.get_pending s id) (loaded_order id).
Proof using Ook.
  eapply steady_bind; [apply steady_get_order|]. intros x Hx. apply steady_ret.
  intros y Hy. destruct x as [z|]; [|done]. case_decide; simplify_eq. by apply Hx.
Qed.

Lemma expired_safe r payload : safe r (OrderStatusWorker._handle_reservation_expired payload).
Proof using Ook. solve_safe. Qed.

Lemma payment_processed_safe payload id :
  uuid_item payload "order_id" = Ok id →
  safe (owned id) (OrderStatusWorker._handle_payment_processed payload).
Proof using Ook.
  intros Hid. unfold OrderStatusWorker._handle_payment_processed. rewrite Hid. cbn [of_result bind].
  unfold SessionFactory. apply safe_bind; [by apply safe_op|]. intros s.
  apply safe_try_finally; [|by apply safe_op].
  eapply safe_then; [apply steady_get_pending|]. intros [order|] Ho; [|by apply steady_ret].
  assert (Hmove : ∀ rid, UUID (reservation_id order) = Ok rid → owned id rid).
  { intros rid. by apply loaded_owned. }
  pose proof (release_call_safe _ _ Hmove). pose proof (confirm_call_safe _ _ Hmove).
  clear Hmove Ho. solve_safe.
Qed.

Lemma order_status_safe m (r : uuid → Prop) :
  (∀ id, paid_order m = Some id → r = owned id) → safe r (OrderStatusWorker._handle_message m).
Proof using Ook.
  unfold OrderStatusWorker._handle_message, paid_order. intros Hr.
  destruct (event_type_of m) as [et|]; cbn [of_result bind]; [|apply steady_raise].
  destruct (payload_of m) as [p|]; cbn [of_result bind]; [|apply steady_raise].
  destruct (is_event et EventType.PAYMENT_PROCESSED).
  - destruct (uuid_item p "order_id") as [id|e] eqn:Hid.
    + rewrite (Hr id eq_refl). by apply (payment_processed_safe p).
    + unfold OrderStatusWorker._handle_payment_processed. rewrite Hid. apply steady_raise.
  - pose proof (λ r, expired_safe r p). solve_safe.
Qed.

Lemma event_sync_safe m r : (kept → ¬ cuts m) → safe r (EventSync._handle_message self m).
Proof using Ook.
  intros Hcut. unfold EventSync._handle_message, cuts in *.
  destruct (event_type_of m) as [et|]; cbn [of_result bind]; [|apply steady_raise].
  destruct (payload_of m) as [p|]; cbn [of_result bind]; [|apply steady_raise].
  destruct (is_event et EventType.EVENT_CREATED); [|destruct (is_event et EventType.EVENT_UPDATED)];
    [| |by apply steady_ret]; (apply safe_bind; [apply safe_result|]; intros id);
    (destruct (dict_item p "total_seats") as [seats|]; cbn [of_result bind]; [|apply steady_raise]);
    (destruct (json_int seats) as [n|]; cbn [of_result bind]; [|apply steady_raise]);
    (apply safe_bind; [|intros; by apply steady_ret]).
  - apply safe_initialize. intros Hk. specialize (Hcut Hk). lia.
  - apply safe_adjust. tauto.
Qed.

Lemma reaper_safe (r : uuid → Prop) : (∀ id, r id) → safe r Reaper.sweep_once.
Proof using Ook. intros Hr. pose proof (safe_sweep r Hr). solve_safe. Qed.

(** ** Activities *)

(** What an activity may move: nothing, the reservation of the order it cancels
    or settles, or, sweeping, any. *)
Inductive scope := Nothing | OfOrder (id : uuid) | Anything.

Definition scope_of (a : activity) : scope :=
  match a with
  | Handle _ _ (CancelOrder id) => OfOrder id
  | Deliver c m =>
      if decide (group_id c = GROUP_API_ORDER_STATUS_WORKER)
      then match paid_order (rec_value m) with Some id => OfOrder id | None => Nothing end
      else Nothing
  | Reap => Anything
  | _ => Nothing
  end.

Definition scoped (sc : scope) : uuid → Prop :=
  match sc with Nothing => λ _, False | OfOrder id => owned id | Anything => λ _, True end.

Definition cuts_of (a : activity) : Prop :=
  match a with
  | Deliver c m => group_id c = GROUP_INVENTORY_EVENT_SYNC ∧ cuts (rec_value m)
  | _ => False
  end.

(** Messages go to the system's workers. *)
Definition of_system (a : activity) : Prop :=
  match a with Deliver c _ => c ∈ workers self | _ => True end.

Lemma activity_safe a :
  of_system a → (kept → ¬ cuts_of a) →
  safe (scoped (scope_of a)) (perform settings self cors_headers str_exn a).
Proof using Ook.
  intros Hw Hcut. destruct a as [request token rq|request token vt|c m|]; cbn [perform].
  - apply safe_bind; [|intros; by apply steady_ret]. apply handle_safe. by intros id ->.
  - apply safe_bind; [|intros; by apply steady_ret]. apply receive_safe.
  - unfold of_system, workers, api_workers, inventory_workers in Hw. simpl in Hw. set_unfold in Hw.
    destruct Hw as [->|[->|[->|[->|[]]]]]; cbn [on_message].
    + apply payment_safe.
    + apply order_status_safe. intros id Hid. simpl. by rewrite Hid.
    + apply notification_safe.
    + apply event_sync_safe. intros Hk Hc. by apply (Hcut Hk).
  - by apply reaper_safe.
Qed.
End threads.

(** ** Everything at once *)

(** Two activities collide when they may move the same reservation: they are
    about one order, or about one booked since, or one of them is a sweep. *)
Definition collide (t : rows) (a b : scope) : Prop :=
  match a, b with
  | Nothing, _ | _, Nothing => False
  | OfOrder i, OfOrder j => i = j ∨ order_of t i = None ∨ order_of t j = None
  | _, _ => True
  end.

(** Orders have reservations of their own. *)
Lemma scopes_apart t v a b rid :
  joint t v → ¬ collide t a b → scoped t a rid → ¬ scoped t b rid.
Proof.
  intros [Hwf _ Hl] Hab. destruct a as [|i|], b as [|j|]; simpl in *; try tauto. unfold owned.
  destruct (order_of t i) as [x|] eqn:Hi; [|tauto]. destruct (order_of t j) as [y|] eqn:Hj; [|tauto].
  intros Hx Hy. destruct (Hl i x Hi) as (rx & r & Hrx & Hr & Hox & _).
  destruct (Hl j y Hj) as (ry & r' & Hry & Hr' & Hoy & _).
  rewrite Hrx, UUID_str in Hx. rewrite Hry, UUID_str in Hy. simplify_eq.
  apply Hab. left. apply (order_of_id t Hwf) in Hi, Hj. congruence.
Qed.

(** Between two operations anything may happen that leaves the tables alone:
    time passes, Redis and the bus change, the servers drop sessions. *)
Definition world_env (w w' : world) : Prop :=
  env w w' ∧ tbl (api_db w') = tbl (api_db w) ∧ sessions (api_db w') ⊆ sessions (api_db w).

Lemma world_env_kept kept t0 w w' :
  world_env w w' → both_kept kept t0 w → both_kept kept t0 w'.
Proof.
  intros (He & Ht & Hs) [HJ [Hr Hss]]. split; [by eapply env_J|]. split; [by rewrite Ht|].
  intros s ss Hl. by eapply Hss, lookup_weaken.
Qed.

Section system.
Context `{C : Crypto} {Col : Collation}.
Variables (settings : Settings) (self : InventoryService).
Variables (cors_headers : Request → gmap string string) (str_exn : exn → string).
Context {W : Type} (o : oracle) (impl : handler sys_op W) (obs : W → world).
Context `{P : !Platform (sys_exec o) impl obs} `{Ook : !OracleOk o}.

Lemma activities_kept kept activities w t v ts w' :
  Forall (of_system self) activities → (kept → Forall (λ a, ¬ cuts_of a) activities) →
  separate (scoped t ∘ scope_of <$> activities) →
  resting w t v → well_formed t → safe_while kept v →
  pool_steps (sys_exec o) world_env (perform settings self cors_headers str_exn <$> activities, w) (ts, w') →
  safe_while kept (tbl (inv_db w')).
Proof using Ook.
  intros Hsys Hcut Hsep (n & q & ni & qi & Ha & Hi) Hwf Hv Hsteps.
  assert (Hok : pool_ok (sys_exec o) (both_kept kept t) own disj (λ _ _, True)
    (perform settings self cors_headers str_exn <$> activities, w)).
  { split.
    - split; [|simpl; rewrite Ha; by apply orders_kept_self, Hwf].
      simpl. unfold J. rewrite Hi. constructor; simpl; try done; intros *; by rewrite lookup_empty.
    - exists ((λ a, Local (scoped t (scope_of a)) None) <$> activities).
      split; [simpl; by rewrite !length_fmap|]. split.
      + intros i p l Hp Hl. cbn [fst] in Hp. rewrite list_lookup_fmap in Hp. rewrite list_lookup_fmap in Hl.
        destruct (activities !! i) as [a|] eqn:Hact; [|done]. injection Hp as <-. injection Hl as <-.
        split; [done|]. eapply wp_mono; [|apply (activity_safe o kept t self)]; [by intros|..].
        * by eapply Forall_lookup_1.
        * intros Hk. specialize (Hcut Hk). by eapply Forall_lookup_1 in Hcut.
      + intros i j li lj Hne. rewrite !list_lookup_fmap.
        destruct (activities !! i) as [ai|] eqn:Hai; [|done].
        destruct (activities !! j) as [aj|] eqn:Haj; [|done].
        intros [= <-] [= <-]. split; [|done]. intros id. simpl.
        eapply (separate_pair _ i j); [exact Hsep | done | |]; by rewrite list_lookup_fmap, ?Hai, ?Haj. }
  destruct (pool_ok_steps (sys_exec o) world_env (both_kept kept t) own disj (world_env_kept kept t)
    (λ w w' l He, env_own w w' l (proj1 He)) disj_sym _ _ _ Hsteps Hok) as [[HJ _] _].
  apply HJ.
Qed.

(** C1. The system is safe under concurrency.  Start any number of requests,
    messages at their workers and sweeps over databases in order, and let a
    scheduler interleave them operation by operation, on any platform,
    whatever Redis, the broker and the network do and whichever sessions the
    servers drop.  As long as no two of them cancel or pay for the same order,
    and a sweep does not run beside one that does, the counters of every event
    are in every reachable state the seats its reservations hold; and unless
    a message cuts a capacity, these never exceed it. *)
Theorem concurrent_system_never_oversells activities w t v ts w' e i :
  Forall (of_system self) activities →
  ForallOrdPairs (λ a b, ¬ collide t (scope_of a) (scope_of b)) activities →
  resting (obs w) t v → joint t v →
  pool_steps impl (λ w1 w2, world_env (obs w1) (obs w2))
    (perform settings self cors_headers str_exn <$> activities, w) (ts, w') →
  inv_of (tbl (inv_db (obs w'))) e = Some i →
  let held st := seats_held e st (tbl (inv_db (obs w'))) in
  reserved_count i = held ReservationStatus.PENDING
  ∧ confirmed_count i = held ReservationStatus.CONFIRMED
  ∧ (capacity_respected v → Forall (λ a, ¬ cuts_of a) activities →
     held ReservationStatus.PENDING + held ReservationStatus.CONFIRMED ≤ total_capacity i).
Proof using P Ook.
  intros Hsys Hsep Hr Hj Hsteps Hi. pose proof (joint_api _ _ Hj). pose proof (joint_inv _ _ Hj).
  apply (platform_steps (doc := sys_exec o)) in Hsteps.
  destruct (activities_kept (capacity_respected v ∧ Forall (λ a, ¬ cuts_of a) activities)
    activities (obs w) t v ts (obs w')) as [Hc' Hcap']; try done.
  - by intros [_ ?].
  - eapply separate_fmap; [|exact Hsep]. intros a b Hab rid. by apply (scopes_apart t v).
  - by split; [|intros [? _]].
  - split_and!; eauto using reserved_is_held, confirmed_is_held, sold_within_capacity.
Qed.
End system.

(** ** A busy moment in the sample shop *)
#[local] Existing Instance sample_crypto.
#[local] Existing Instance sample_collation.

(** Three of the ten seats are sold; two visitors book two and five more, while
    the first order is cancelled and the shop is looked at. *)
Definition busy_world : world :=
  advance 100 (set_api_db (Database (api_after shop_sale) ∅ 0 0)
    (set_inv_db (Database (inv_after shop_sale) ∅ 0 0) shop_world)).

Definition busy_activities : list activity :=
  [ Handle shop_visit shop_token (PostOrder sample_event 2 (Some "a"));
    Handle shop_visit shop_token (CancelOrder (uuid_of_N 1001));
    Handle shop_visit shop_token (PostOrder sample_event 5 (Some "b"));
    Look shop_visit shop_token (ListOrders 1 20) ].

Definition busy_pool : pool sys_op exn unit :=
  perform default_settings default_service no_cors (λ _, "") <$> busy_activities.

Definition busy_end : pool sys_op exn unit * world :=
  run_rounds (sys_exec sample_oracle) 100 (busy_pool, busy_world).

Lemma busy_joint : joint (api_after shop_sale) (inv_after shop_sale).
Proof.
  destruct shop_sale_bus as (w' & m & _ & _ & _ & _ & _ & Hh).
  apply (bus_history_in_order default_settings default_service no_cors (λ _, "") sample_lock_usable
           sample_oracle (sys_exec sample_oracle) id (w', after shop_sale)).
  eexists. split; [apply shop_opens | exact Hh].
Qed.

Lemma busy_summary : summary busy_end = (true, Some 10, 7).
Proof. vm_compute. reflexivity. Qed.

Lemma concurrent_system_never_oversells_witness :
  forallb finished busy_end.1 = true
  ∧ match inv_of (tbl (inv_db busy_end.2)) sample_event with
    | Some i =>
        let held st := seats_held sample_event st (tbl (inv_db busy_end.2)) in
        reserved_count i = held ReservationStatus.PENDING
        ∧ confirmed_count i = held ReservationStatus.CONFIRMED
        ∧ held ReservationStatus.PENDING + held ReservationStatus.CONFIRMED ≤ total_capacity i
    | None => False
    end.
Proof.
  pose proof busy_summary as H.
  assert (Hrun : pool_steps (sys_exec sample_oracle) world_env (busy_pool, busy_world) busy_end)
    by apply run_rounds_sound.
  destruct busy_end as [ts w']. unfold summary in H. cbn [fst snd] in *.
  destruct (inv_of (tbl (inv_db w')) sample_event) as [i|] eqn:Hi; [|discriminate H].
  injection H as Hfin _ _. split; [exact Hfin|].
  destruct (concurrent_system_never_oversells default_settings default_service no_cors (λ _, "")
    sample_oracle (sys_exec sample_oracle) id busy_activities busy_world (api_after shop_sale)
    (inv_after shop_sale) ts w' sample_event i) as (Hr & Hc & Hle).
  - repeat constructor.
  - repeat constructor; simpl; tauto.
  - exists 0%nat, 0%nat, 0%nat, 0%nat. by split.
  - apply busy_joint.
  - exact Hrun.
  - exact Hi.
  - split; [exact Hr|]. split; [exact Hc|]. apply Hle; [apply shop_sale_capacity|].
    repeat constructor; simpl; tauto.
Defined.

(** ** A cancellation and a payment of one order at once *)
Definition payment_of_order : kafka_record :=
  record_of 0 (uuid_of_N 1) (EventType.PAYMENT_PROCESSED, "",
    PaymentProcessedPayload (uuid_of_N 1001) true "mock_txn").

Definition race_activities : list activity :=
  [ Handle shop_visit shop_token (CancelOrder (uuid_of_N 1001));
    Deliver OrderStatusWorker.consumer payment_of_order;
    Handle shop_visit shop_token (PostOrder sample_event 10 (Some "all")) ].

(** The worker reads the order and its reservation, PENDING both; the order is
    cancelled; the worker goes on; somebody books the whole house. *)
Definition race_schedule : list nat :=
  replicate 5 1%nat ++ replicate 90 0%nat ++ replicate 90 1%nat ++ replicate 90 2%nat.

Definition race_end : pool sys_op exn unit * world :=
  foldl (move (sys_exec sample_oracle))
    (perform default_settings default_service no_cors (λ _, "") <$> race_activities, busy_world)
    race_schedule.

(** Finished threads; the status of the order; the counters and the capacity of
    the event; the seats its reservations hold, pending and confirmed; the
    topics announced on. *)
Definition race_summary (c : pool sys_op exn unit * world)
    : bool * option OrderStatus.t * option (Z * Z * Z) * (Z * Z) * list string :=
  (forallb finished c.1,
   order_status <$> order_of (tbl (api_db c.2)) (uuid_of_N 1001),
   (λ i, (reserved_count i, confirmed_count i, total_capacity i))
     <$> inv_of (tbl (inv_db c.2)) sample_event,
   (seats_held sample_event ReservationStatus.PENDING (tbl (inv_db c.2)),
    seats_held sample_event ReservationStatus.CONFIRMED (tbl (inv_db c.2))),
   rec_topic <$> kafka_log c.2).

Lemma race_computed :
  race_summary race_end
  = (true, Some OrderStatus.CONFIRMED, Some (7, 3, 10), (10, 3),
     [Topic.value Topic.ORDERS_NOTIFICATIONS; Topic.value Topic.ORDERS_NOTIFICATIONS;
      Topic.value Topic.ORDERS_CREATED]).
Proof. vm_compute. reflexivity. Qed.

(** What the theorem above excludes does happen: an order is cancelled
    while its payment is being handled.  The release and the confirmation both
    find the reservation PENDING and both move its three seats, so that the
    counters say seven seats are in use when ten are booked again: thirteen are
    held of ten.  The order, cancelled to its user, ends CONFIRMED, and both are
    announced. *)
Theorem cancel_races_payment :
  ∃ ts w',
    pool_steps (sys_exec sample_oracle) world_env
      (perform default_settings default_service no_cors (λ _, "") <$> race_activities, busy_world) (ts, w')
    ∧ race_summary (ts, w')
      = (true, Some OrderStatus.CONFIRMED, Some (7, 3, 10), (10, 3),
         [Topic.value Topic.ORDERS_NOTIFICATIONS; Topic.value Topic.ORDERS_NOTIFICATIONS;
          Topic.value Topic.ORDERS_CREATED]).
Proof.
  exists race_end.1, race_end.2. rewrite <- surjective_pairing. split; [apply moves_sound | exact race_computed].
Qed.
