(* ===== verification/SystemConstraints.v ===== *)
(** * The constraints of both databases under concurrency

    However requests, deliveries and sweeps interleave, every committed state of
    both databases satisfies the constraints of the mapped classes: no program
    writes an attribute of a key, a unique index or a foreign key. *)
From S2P Require Import Prelude Effects Interleaving Json Uuid Domain Orm OrmFacts.
From S2P Require Import Constraints Redis.
From S2P Require Import InventoryModels ApiModels Platform SessionRuns Kafka.
From S2P Require Import Pagination ApiRepositories ApiRuns.
From S2P Require Import InventoryRepository Locking InventoryService InventoryServicer.
From S2P Require Import InventorySpec InventoryInvariant InventoryCorrectness.
From S2P Require Import InventoryConcurrency InventoryInterleavings.
From S2P Require Import Security AuthService EventService BookingService SystemSpec.
From S2P Require Import SystemRuns BookingCorrectness Workers Http HttpCorrectness.
From S2P Require Import AppCorrectness Visits.
From S2P Require Import SystemHistory SystemCalls SystemBus SystemInterleavings.

(** ** The schemas of the mapped classes *)
Lemma user_conflict u x : api_conflicts (RUser u) x = true → ∃ u', x = RUser u' ∧ email u' = email u.
Proof. destruct x; try done. simpl. rewrite bool_decide_eq_true. eauto. Qed.

(** The unique columns of an order, if it has a key. *)
Definition booking_key (x : Order) : option (uuid * string) :=
  (λ k, (order_user_id x, k)) <$> idempotency_key x.

Lemma order_conflict x y :
  api_conflicts (ROrder x) (ROrder y) = true ↔ ∃ k, booking_key x = Some k ∧ booking_key y = Some k.
Proof.
  unfold booking_key. simpl. destruct (idempotency_key x) as [k1|], (idempotency_key y) as [k2|]; simpl;
    try (split; [done | by intros (k & ? & ?)]).
  rewrite andb_true_iff, !bool_decide_eq_true. split.
  - intros [-> ->]. by eexists.
  - intros (k & [= <-] & [= -> ->]). done.
Qed.

Lemma order_frozen x y : frozen (ROrder x) (ROrder y) → booking_key y = booking_key x.
Proof.
  intros [_ _ Hu]. change (∀ z, api_conflicts (ROrder y) z = api_conflicts (ROrder x) z) in Hu.
  pose proof (Hu (ROrder x)) as Hx. pose proof (Hu (ROrder y)) as Hy.
  destruct (booking_key x) as [k|] eqn:Hk.
  - rewrite (proj2 (order_conflict x x)) in Hx by (by exists k).
    apply order_conflict in Hx as (k' & ? & ?). congruence.
  - destruct (booking_key y) as [k|] eqn:Hky; [|done].
    rewrite (proj2 (order_conflict y y)) in Hy by (by exists k). symmetry in Hy.
    apply order_conflict in Hy as (k' & ? & ?). congruence.
Qed.

Lemma booking_key_conflicts x y z :
  booking_key y = booking_key x → api_conflicts (ROrder y) z = api_conflicts (ROrder x) z.
Proof.
  intros Hk. destruct z as [| |z]; [done..|]. apply eq_true_iff_eq. rewrite !order_conflict. by rewrite Hk.
Qed.

Lemma order_unchanged x y :
  order_id y = order_id x → order_user_id y = order_user_id x → order_event_id y = order_event_id x →
  idempotency_key y = idempotency_key x → frozen (ROrder x) (ROrder y).
Proof.
  intros Hi Hu He Hk. split; cbn; [by rewrite Hi | by rewrite Hu, He |]. intros z. apply booking_key_conflicts.
  unfold booking_key. by rewrite Hu, Hk.
Qed.

Lemma booking_key_idempotency x y : booking_key y = booking_key x → idempotency_key y = idempotency_key x.
Proof. unfold booking_key. destruct (idempotency_key x), (idempotency_key y); naive_solver. Qed.

Lemma col_same {A} `{EqDecision A} (l c s : A) : c = l → col l c s = s.
Proof. intros ->. unfold col. by rewrite decide_True. Qed.

Lemma merge_order_frozen l c s :
  frozen (ROrder l) (ROrder c) → frozen (ROrder s) (ROrder (merge_order l c s)).
Proof.
  intros H. pose proof (order_frozen _ _ H) as Hk%booking_key_idempotency.
  destruct H as [_ Hr _]. injection Hr as Hu He. apply order_unchanged; simpl; auto using col_same.
Qed.

#[global] Instance api_laws : SchemaLaws api_key api_row.
Proof.
  split.
  - intros r r'. apply conflicts_sym.
  - done.
  - intros now [u|e|x]; first [by apply order_unchanged | by split].
  - intros now [u|e|x]; first [by apply order_unchanged | by split].
  - intros [l|l|l] [c|c|c] [s|s|s] H; try done.
    + pose proof (fz_unique _ _ H (RUser l)) as Hu. simpl in Hu.
      rewrite (bool_decide_eq_true_2 (email l = email l)), bool_decide_eq_true in Hu by done.
      split; [done..|]. intros [u| |]; simpl; [|done..]. by rewrite col_same.
    + destruct H as [_ Ho _]. injection Ho as Ho. split; [done| |done]. simpl. by rewrite col_same.
    + by apply merge_order_frozen.
Qed.

#[global] Instance inventory_laws : SchemaLaws inv_key inv_row.
Proof.
  split; [done|..].
  - intros v [i|r]; by split.
  - intros now [i|r]; by split.
  - intros now [i|r]; by split.
  - intros [l|l] [c|c] [s|s] H; try done. destruct H as [_ Hr _]. injection Hr as Hr.
    split; [done| |done]. simpl. by rewrite col_same.
Qed.

Lemma api_constrained t : constraints_hold t ↔ well_formed t.
Proof. split; intros []; by split. Qed.

Lemma inventory_constrained v : consistent v → constraints_hold v.
Proof.
  intros [Hk Hr He _]. split; [done| |done|].
  - intros k r H. exact (proj1 (Hr _ _ H)).
  - intros k r k' H Hin. destruct r as [i|x]; [by apply elem_of_nil in Hin|].
    apply list_elem_of_singleton in Hin as ->. destruct (He _ _ H) as [i Hi].
    exists (RInv i). by apply inv_of_lookup.
Qed.

(** ** The programs *)

(** The attributes an operation writes belong to no key, unique index or
    foreign key. *)
Definition writes_freely {B} (op : sys_op B) : Prop :=
  match op with ApiDb op => keeps_columns op | InvDb op => keeps_columns op | _ => True end.

Abbreviation freely := (ops (λ B (op : sys_op B), writes_freely op)).

Lemma status_free st (r : api_row) : frozen r (on_order (set_order_status st) r).
Proof. destruct r; first [by apply order_unchanged | done]. Qed.

Lemma event_update_free d (r : api_row) : frozen r (on_event (apply_update d) r).
Proof. destruct r; by split. Qed.

Lemma inventory_free f (r : inv_row) :
  (∀ i, inv_event_id (f i) = inv_event_id i) → frozen r (on_inventory f r).
Proof. intros Hf. destruct r; split; try done. cbn. by rewrite Hf. Qed.

Lemma reservation_free f (r : inv_row) :
  (∀ x, res_id (f x) = res_id x ∧ res_event_id (f x) = res_event_id x) → frozen r (on_reservation f r).
Proof. intros Hf. destruct r as [|x]; [done|]. destruct (Hf x) as [Hi He]. split; cbn; by rewrite ?Hi, ?He. Qed.

Create HintDb freely.
#[local] Hint Resolve status_free event_update_free inventory_free reservation_free : freely.
#[local] Hint Extern 1 (freely _) => apply ops_trigger; simpl; by eauto with freely : ops.

(** *** Calls of the inventory *)
Lemma try_acquire_free l key token n : freely (try_acquire l key token n).
Proof. induction n as [|n IH]; cbn [try_acquire]; solve_ops. Qed.

Lemma reserve_attempts_free s e ord q ttl m n : freely (reserve_attempts s e ord q ttl m n).
Proof. induction n as [|n IH]; cbn [reserve_attempts]; solve_ops. Qed.
#[local] Hint Resolve try_acquire_free reserve_attempts_free : ops.

Section programs.
Variable self : InventoryService.

Lemma reserve_free e ord q : freely (Client.reserve_seats self e ord q).
Proof. solve_ops. Qed.
#[local] Hint Resolve reserve_free : ops.

Lemma sweep_free : freely Service.sweep_expired_reservations.
Proof. solve_ops. Qed.
#[local] Hint Resolve sweep_free : ops.

(** *** Requests and workers *)
Context `{C : Crypto} {Col : Collation}.
Variables (settings : Settings) (cors_headers : Request → gmap string string) (str_exn : exn → string).

Lemma route_free token rq : freely (route settings self token rq).
Proof. destruct rq; solve_ops. Qed.

Lemma visit_route_free token vt : freely (visit_route settings str_exn token vt).
Proof. destruct vt; solve_ops. Qed.
#[local] Hint Resolve route_free visit_route_free : ops.

Lemma workers_free : Forall (λ c, ∀ m, freely (on_message c m)) (workers self).
Proof.
  repeat (apply Forall_cons; split; [intros m|]); [| | | |by apply Forall_nil];
    cbv beta iota delta [on_message PaymentWorker.consumer OrderStatusWorker.consumer
      NotificationWorker.consumer EventSync.consumer]; solve_ops.
Qed.

Lemma activity_free a : of_system self a → freely (perform settings self cors_headers str_exn a).
Proof.
  destruct a as [request token rq|request token vt|c m|]; intros Ha; cbn [perform].
  - solve_ops.
  - solve_ops.
  - pose proof workers_free as Hall. rewrite Forall_forall in Hall. by apply Hall.
  - solve_ops.
Qed.
End programs.

(** ** The system *)
Definition both_ok (w : world) : Prop := database_ok (api_db w) ∧ database_ok (inv_db w).

Lemma sessions_dropped {key row} `{Countable key} `{EqDecision row} `{!Schema key row}
    (db db' : database key row) :
  tbl db' = tbl db → sessions db' ⊆ sessions db → database_ok db → database_ok db'.
Proof.
  intros Ht Hs [Hc Hss Hap]. rewrite <- Ht in *. split; [done|..].
  - intros s ss H1. by eapply Hss, lookup_weaken.
  - intros s s' ss ss' Hne H1 H2. eapply Hap; [exact Hne|..]; by eapply lookup_weaken.
Qed.

Lemma both_ok_env w w' : world_env w w' → both_ok w → both_ok w'.
Proof. intros ((Ht & _ & Hs) & Hta & Hsa) [Ha Hi]. split; by eapply sessions_dropped. Qed.

Lemma both_ok_op o B (op : sys_op B) w b w' :
  writes_freely op → both_ok w → sys_exec o B op w = Some (b, w') → both_ok w'.
Proof.
  intros Hop [Ha Hi]. destruct op; simpl in *; try (by intros [= <- <-]).
  - destruct (orm_exec _ _ _ _ _) as [[b' d]|] eqn:He; [|done]. intros [= <- <-].
    split; [done|]. by eapply orm_constrained.
  - destruct (orm_exec _ _ _ _ _) as [[b' d]|] eqn:He; [|done]. intros [= <- <-].
    split; [by eapply orm_constrained | done].
  - destruct (redis_exec _ _ _ _ _). by intros [= <- <-].
  - destruct (kafka_up w); by intros [= <- <-].
Qed.

Lemma quiet_ok {key row} `{Countable key} `{EqDecision row} `{!Schema key row} (t : gmap key row) n q :
  constraints_hold t → database_ok (Database t ∅ n q).
Proof. intros Ht. by split. Qed.

(** What the constraints of the mapped classes say of the tables. *)
Record in_order (t : rows) (v : table) : Prop := {
  io_emails id id' u u' :
    user_of t id = Some u → user_of t id' = Some u' → email u = email u' → id = id';
  io_bookings id id' x x' k :
    order_of t id = Some x → order_of t id' = Some x' →
    order_user_id x = order_user_id x' → idempotency_key x = Some k → idempotency_key x' = Some k →
    id = id';
  io_orders id x :
    order_of t id = Some x →
    is_Some (user_of t (order_user_id x)) ∧ is_Some (event_of t (order_event_id x)) ∧ 0 < order_quantity x;
  io_events id e : event_of t id = Some e → is_Some (user_of t (organizer_id e));
  io_reservations id x : res_of v id = Some x → is_Some (inv_of v (res_event_id x));
}.

Lemma user_row t id u : user_of t id = Some u ↔ t !! KUser id = Some (RUser u).
Proof. unfold user_of. destruct (t !! KUser id) as [[| |]|]; naive_solver. Qed.

Lemma event_row t id e : event_of t id = Some e ↔ t !! KEvent id = Some (REvent e).
Proof. unfold event_of. destruct (t !! KEvent id) as [[| |]|]; naive_solver. Qed.

Lemma order_row t id x : order_of t id = Some x ↔ t !! KOrder id = Some (ROrder x).
Proof. unfold order_of. destruct (t !! KOrder id) as [[| |]|]; naive_solver. Qed.

Lemma constraints_in_order (t : rows) (v : table) :
  constraints_hold t → constraints_hold v → in_order t v.
Proof.
  intros [Hk Hc Hu Hr] [Hkv Hcv Huv Hrv].
  assert (Huser : ∀ id, is_Some (t !! KUser id) → is_Some (user_of t id)).
  { intros id [r Hr']. destruct r as [u| |]; try (by pose proof (Hk _ _ Hr')). exists u. by apply user_row. }
  assert (Hevent : ∀ id, is_Some (t !! KEvent id) → is_Some (event_of t id)).
  { intros id [r Hr']. destruct r as [|e|]; try (by pose proof (Hk _ _ Hr')). exists e. by apply event_row. }
  split.
  - intros id id' u u' H1%user_row H2%user_row He. destruct (decide (id = id')) as [|Hne]; [done|].
    assert (Hcf : api_conflicts (RUser u) (RUser u') = false) by (apply (Hu _ _ _ _ H1 H2); congruence).
    simpl in Hcf. by rewrite bool_decide_eq_false in Hcf.
  - intros id id' x x' k H1%order_row H2%order_row Hus Hi Hi'.
    destruct (decide (id = id')) as [|Hne]; [done|].
    assert (Hcf : api_conflicts (ROrder x) (ROrder x') = false) by (apply (Hu _ _ _ _ H1 H2); congruence).
    simpl in Hcf. rewrite Hi, Hi', Hus, !bool_decide_eq_true_2 in Hcf by done. done.
  - intros id x H1%order_row. split_and!.
    + apply Huser, (Hr _ _ _ H1). cbn. set_solver.
    + apply Hevent, (Hr _ _ _ H1). cbn. set_solver.
    + pose proof (Hc _ _ H1) as Hck. cbn in Hck. destruct (_ && _)%bool; [|done].
      destruct (0 <? order_quantity x) eqn:Hq; [by zify_bools | done].
  - intros id e H1%event_row. apply Huser, (Hr _ _ _ H1). cbn. set_solver.
  - intros id x H1. unfold res_of in H1. destruct (v !! KRes id) as [[|x']|] eqn:Hx; simplify_eq/=.
    destruct (Hrv _ _ (KInv (res_event_id x)) Hx) as [r Hr']; [cbn; set_solver|].
    unfold inv_of. rewrite Hr'. destruct r as [i|]; [by eexists|]. by pose proof (Hkv _ _ Hr').
Qed.

Section system.
Context `{C : Crypto} {Col : Collation}.
Variables (settings : Settings) (self : InventoryService).
Variables (cors_headers : Request → gmap string string) (str_exn : exn → string).
Context {W : Type} (o : oracle) (impl : handler sys_op W) (obs : W → world).
Context `{P : !Platform (sys_exec o) impl obs}.

(** C2. The constraints of the schema hold under concurrency.  Start any number
    of requests, messages at their workers and sweeps over databases whose
    tables satisfy their constraints, and let a scheduler interleave them
    operation by operation, in any way: in every reachable state no two users
    share an e-mail address, no two orders of a user an idempotency key (two
    bookings sent twice at once included), every order has its user, its event
    and a positive quantity, every event its organizer and every reservation
    its event. *)
Theorem concurrent_constraints activities w t v ts w' :
  Forall (of_system self) activities →
  resting (obs w) t v → constraints_hold t → constraints_hold v →
  pool_steps impl (λ w1 w2, world_env (obs w1) (obs w2))
    (perform settings self cors_headers str_exn <$> activities, w) (ts, w') →
  in_order (tbl (api_db (obs w'))) (tbl (inv_db (obs w'))).
Proof using P.
  intros Hsys (n & q & ni & qi & Ha & Hi) Ht Hv Hsteps.
  apply (platform_steps (doc := sys_exec o)) in Hsteps.
  apply (pool_invariant _ _ (λ B op, writes_freely op) both_ok (both_ok_op o) both_ok_env) in Hsteps.
  - destruct Hsteps as [_ [[Hc _ _] [Hc' _ _]]]. by apply constraints_in_order.
  - apply Forall_fmap. eapply Forall_impl; [exact Hsys|]. intros a. apply activity_free.
  - split; [rewrite Ha | rewrite Hi]; by apply quiet_ok.
Qed.
End system.

(** ** A booking sent twice at once *)
#[local] Existing Instance sample_crypto.
#[local] Existing Instance sample_collation.

Definition booking_sent : activity := Handle shop_visit shop_token (PostOrder sample_event 2 (Some "a")).

Definition twice_pool : pool sys_op exn unit :=
  perform default_settings default_service no_cors (λ _, "") <$> [booking_sent; booking_sent].

Definition twice_end : pool sys_op exn unit * world :=
  run_rounds (sys_exec sample_oracle) 100 (twice_pool, busy_world).

Definition orders_of (t : rows) : list Order := omap as_order (map_to_list t).*2.

(** Finished threads, the orders' keys and sizes, the seats reserved. *)
Definition twice_summary (c : pool sys_op exn unit * world) : bool * list (option string * Z) * option Z :=
  (forallb finished c.1,
   (λ x, (idempotency_key x, order_quantity x)) <$> orders_of (tbl (api_db c.2)),
   reserved_count <$> inv_of (tbl (inv_db c.2)) sample_event).

Lemma twice_computed : twice_summary twice_end = (true, [(Some "a", 2); (Some "k", 3)], Some 7).
Proof. vm_compute. reflexivity. Qed.

Lemma twice_run :
  pool_steps (sys_exec sample_oracle) world_env (twice_pool, busy_world) (twice_end.1, twice_end.2).
Proof. rewrite <- surjective_pairing. apply run_rounds_sound. Qed.

(** The unique index gives the key to one of two bookings sent at once; the
    other has by then reserved its seats, which stay held without an order:
    seven seats for orders of five. *)
Theorem concurrent_replay_holds_seats :
  ∃ ts w', pool_steps (sys_exec sample_oracle) world_env (twice_pool, busy_world) (ts, w')
    ∧ twice_summary (ts, w') = (true, [(Some "a", 2); (Some "k", 3)], Some 7).
Proof.
  exists twice_end.1, twice_end.2. split; [exact twice_run|].
  rewrite <- surjective_pairing. exact twice_computed.
Qed.

Lemma concurrent_constraints_witness :
  forallb finished twice_end.1 = true ∧ in_order (tbl (api_db twice_end.2)) (tbl (inv_db twice_end.2)).
Proof.
  pose proof twice_computed as Hsum. pose proof twice_run as Hrun. pose proof busy_joint as Hj.
  destruct twice_end as [ts w']. injection Hsum as Hfin _ _. cbn [fst snd] in *. split; [exact Hfin|].
  apply (concurrent_constraints default_settings default_service no_cors (λ _, "")
    sample_oracle (sys_exec sample_oracle) id [booking_sent; booking_sent] busy_world
    (api_after shop_sale) (inv_after shop_sale) ts w').
  - repeat constructor.
  - exists 0%nat, 0%nat, 0%nat, 0%nat. by split.
  - apply api_constrained, Hj.
  - apply inventory_constrained, Hj.
  - exact Hrun.
Defined.
